(* ===== verification/_CoqProject ===== *)
-Q . S2P
Prelude.v
GoStrings.v
GoErrors.v
Config.v
ConfigFile.v
Http.v
Breaker.v
Probes.v
Registry.v
LoadBalancer.v
Fairness.v
Retry.v
Metrics.v
Transport.v
TransportTheory.v
TransportTargets.v
RateStore.v
Handlers.v
Router.v
Auth.v
Netip.v
RateLimiter.v
Observe.v
Proxy.v
Gateway.v
Runtime.v
Reachable.v
Watcher.v
RuntimeTheory.v
Generations.v
Lifecycle.v
Program.v
Redact.v
CircuitEvents.v
EventHub.v
Mux.v
EventStream.v
Scenarios.v
Json.v
Services.v
Crowd.v
Login.v
Telemetry.v
Host.v
Runner.v
Chaos.v
Fleet.v
Url.v
PromQL.v
MetricNames.v
Queries.v
Runs.v
Limiter.v
Api.v
Bootstrap.v
