(* ===== verification/Prelude.v ===== *)
(** * IronGate: verification development

    IronGate is an API gateway written in Go.  This library models the gateway, the
    observatory that shows and disturbs it, and the demo services behind it, as executable
    definitions translated from the sources, with the theorems that make them correct.
    A claim number C<n> stands in front of each of the forty properties.

    ** The program and its parts

    A request to the gateway passes a chain of handlers: tracing (which removes identity
    headers), routing, authentication, rate limiting, metrics, and the proxy.  The proxy
    sends it through the resilient transport: retries over load balancing over circuit
    breaking over the network.  The runtime manager owns the chain, and replaces it when
    the watcher sees a new configuration file; breakers, metrics and the rate limit store
    outlive the replacement.  The observatory runs load scenarios in containers, injects
    chaos into the demo services and undoes it, reads the gateway's log as a stream of
    events, and lets browsers ask Prometheus a confined set of queries.

    The files, from the bottom up, with the code each one translates:

    - Shared: [Prelude] (machine integers, time, folds), [GoStrings], [GoErrors], [Http],
      [Netip], [Json], [Mux], [Url]: what the programs use of Go's standard library.
    - Configuration: [Config] ([Validate]) and [ConfigFile] ([Load], [Clone]), of
      [internal/config/config.go].
    - Transport, [internal/transport]: [Breaker], [Probes] and [Registry] (circuitbreaker/),
      [LoadBalancer] and [Fairness] (loadbalancer/), [Retry] (retry.go, attempt.go,
      errors.go), [Transport], [TransportTheory], [TransportTargets] and [CircuitEvents]
      (resilient.go).
    - Middleware, [internal/middleware]: [Handlers] (chain.go, the status recorder, and
      internal/response), [Router], [Auth] (auth.go, tracing.go), [RateLimiter]
      (ratelimit.go) over [RateStore] (internal/ratelimit/store.go), [Observe] (metrics.go).
    - The gateway: [Proxy] (internal/proxy), [Metrics] and [MetricNames]
      (internal/metrics), [Redact] and [Telemetry] (internal/telemetry), [Gateway] (the state
      of all of it together), [Runtime], [RuntimeTheory], [Reachable], [Generations], [Watcher]
      and [Lifecycle] (internal/runtime), [Program] (cmd/gateway/main.go).
    - The observatory, [cmd/observatory]: [EventHub] and [EventStream] (events.go),
      [Scenarios] (scenarios.go), [Host] (deps.go, toxiproxy.go), [Runner] (runner.go),
      [Chaos] (chaos.go, reset.go), [PromQL] and [Queries] (metrics.go), [Runs], [Limiter],
      [Api] (app.go, api.go, metrics.go), [Bootstrap] (app.go, main.go).
    - The demo services: [Services] (services/common, order-service, payment-service),
      [Crowd] (their requests at the same time), [Login] (user-service).  [Fleet] runs the
      observatory against them.

    ** How the code is translated

    A struct is a record, an operation a function that takes the state and returns it with
    its result.  A method that holds a mutex from start to end is one step.  Where code that
    runs concurrently is not one critical section, it is a transition system over threads:
    the half-open circuit of [Probes], the round robin of [Fairness], the atomics of
    [Lifecycle], the event hub of [EventHub], the scenario runs of [Runs], the requests to
    a service of [Crowd], and in [Generations] the requests that load a snapshot of the
    gateway and are served after reloads; their theorems hold in every reachable state, so
    whatever the interleaving.  Integers are 64 bits wide where an overflow is possible ([wrap64],
    [wrapu64]).  An error is a value; a panic of [http.ErrAbortHandler] is [Aborted].

    What the code calls and does not define is a class: its operations are the parameters,
    its laws the documented behaviour.  These are the upstream transport and its bodies
    ([BaseEnv], [BaseLaws]), the clock and the random source, the gauge vectors of Prometheus
    ([GaugeVec], [Prometheus]), Redis ([RateStore]), the JWT library ([Auth], [Login]), the
    observatory's host: Docker, HTTP, Redis ([Host]), and the decoders of YAML and JSON.
    The witnesses instantiate each by a concrete one.  Between the components, the
    handlers reach what is below them through [Downstream], the proxy its transport through
    [RoundTripper], the retry loop its chain through [RetryEnv]; [Gateway] has the instances.

    ** What is proved

    - The gateway as a whole: a request ends and is bounded in attempts (C1); whatever
      happens, what breakers and balancers give out comes back, also from requests that
      outlive the snapshot they are served with (C2); the upstream sees no
      identity but a verified one (C3); reloads are atomic (C4), the gateway is ready until
      its shutdown (C5, C9), follows its file (C6, C8), shares nothing with a copy of its
      configuration (C7), and lives and ends as main says (C10); only the admin's token
      closes circuits (C11); the gauge of circuits is exact in every state (C12).
    - Its components: breakers refine an abstract machine, are well formed, recover, and
      give their half-open places to concurrent requests (C13 to C16); balancers are fair
      and linearizable (C17, C18); retries replay the whole request (C19); [Validate] is
      exact (C20); the router, the client's address and the rate limiter (C21 to C23); the sliding window, over its Lua script (C24, C25); the
      redaction of the attributes of events, on both sides (C26); the delivery of the response (C40).
    - The observatory: subscribers miss nothing (C27), one run at a time (C28), the API's
      guards and answers (C29, C38, the latter whatever others do meanwhile), the reset on the demo services (C30, C32, C34), its
      start (C33), its containers (C35), its query filter (C36), its scenarios (C37)
      and the reading of the log (C39).
    - The two programs together: a token of the user service is admitted by the gateway
      (C31), and C30, C32 for the chaos.

    Where the code falls short of what it means to do, a lemma shows it on a concrete input:
    [informational_status_loses_final], [connection_header_drops_identity],
    [balancer_keys_collide], [rate_buckets_collide], [round_robin_wrap_misses],
    [reload_strands_circuit], [late_results_make_room], [one_opening_counted_twice],
    [token_bucket_not_served],
    [aborted_run_overwrites_status], [refuses_the_dashboards_query],
    [injected_errors_defeat_reset], [huge_latency_is_none], [metric_in_a_string_suffices],
    [trimmed_query_is_another],
    [late_request_brings_target_back] and others.  Where it does not do what the
    repository's documents say, too: [filter_is_no_prefix_list] (C36 is about the code's
    filter, which is not the documented one), [failed_start_stays_in_error],
    [embedded_token_is_logged], [renewal_is_late].

    ** Fuel

    - The retry loop takes its fuel as an argument; [maxAttempts * (targets + 1)] rounds are
      enough (C1), and the gateway gives that ([roundtrip_fuel]).
    - [healthLoop] has 22 rounds: half a second between checks, and ten seconds to the
      deadline ([health_waits_end]).  [bootstrapLoop] has 12: the sleeps between
      thirteen attempts would exceed the ten seconds of the deadline ([bootstraps_end]).
    - [flushLoop] follows Redis's cursor, whose number of calls Redis decides: its fuel is an
      argument, and enough is what the scan takes ([flush_ends]).
    - [copyBuffer] has one more than the reads that the body's reader still allows.
    - The scanners of strings ([trim_fuel], [expand], [Write_lines], [tokens]) have the
      string's length, of which each round takes a byte at least; [parseIPv6Groups] has eight,
      the groups of an address; [isTransientError_fuel] the height of the error.

    ** Not modelled

    - Log statements and trace spans, but for the events of circuits, the sanitizing of events
      and the choice of the sampler: they do not feed back into what the programs do.
    - Sockets, TLS, HTTP/2 and the timeouts of [net/http]'s servers and transports
      ([NewBaseTransport] only sets fields); switching protocols after a 101 answer, but for
      the answer that the gateway's body wrappers lead to; trailers and the gateway's query string.
    - The scanners of JSON and YAML, the signatures of JWTs, the regular expression engine
      (the two expressions used are translated by hand and proved to be what they say),
      Docker, Redis, Prometheus and OpenTelemetry: parameters.
    - Preemption inside a handler of the observatory outside [Runs], [EventHub] and the start
      of a run in [Api], and inside a request that the gateway serves (two requests, or a request and a reload, in turns of
      single calls): where the code's own critical sections meet, the breakers, the balancers,
      the manager's atomics, the files named above take the calls one at a time.
    - [internal/testutil], a helper of the tests. *)

From stdpp Require Export base gmap sets list strings pretty.
From Stdlib Require Export ZArith Lia.
From Stdlib Require Strings.Ascii.
From stdpp Require Import options.

Export Stdlib.Strings.Ascii (ascii(..), ascii_of_nat, nat_of_ascii).

Open Scope Z_scope.

(** ** Machine integers *)

(** [int] and [int64] are two's complement on 64 bits; [uint64] is modulo 2^64. *)
Definition wrap64 (z : Z) : Z := (z + 2 ^ 63) mod 2 ^ 64 - 2 ^ 63.
Definition wrapu64 (z : Z) : Z := z mod 2 ^ 64.

Definition int64_min : Z := - 2 ^ 63.
Definition int64_max : Z := 2 ^ 63 - 1.
Definition in_int64 (z : Z) : Prop := int64_min <= z <= int64_max.

Lemma wrap64_id z : in_int64 z -> wrap64 z = z.
Proof.
  unfold in_int64, int64_min, int64_max, wrap64. intros H.
  rewrite Z.mod_small; lia.
Qed.

Lemma wrap64_range z : in_int64 (wrap64 z).
Proof.
  unfold in_int64, int64_min, int64_max, wrap64.
  pose proof (Z.mod_pos_bound (z + 2 ^ 63) (2 ^ 64)). lia.
Qed.

Lemma wrapu64_id z : 0 <= z < 2 ^ 64 -> wrapu64 z = z.
Proof. intros H. unfold wrapu64. rewrite Z.mod_small; lia. Qed.

(** ** Time

    A [time.Time] is a number of nanoseconds since January 1, year 1 UTC, the
    instant whose [IsZero] holds; a [time.Duration] is a signed 64-bit number of
    nanoseconds. *)
Abbreviation Time := Z.
Abbreviation Duration := Z.

Definition Nanosecond : Duration := 1.
Definition Millisecond : Duration := 1000000.
Definition Second : Duration := 1000 * Millisecond.
Definition Minute : Duration := 60 * Second.

Definition zero_time : Time := 0.
Definition IsZero (t : Time) : bool := t =? 0.
Definition Before (t u : Time) : bool := t <? u.
Definition After (t u : Time) : bool := u <? t.
Definition AddDuration (t : Time) (d : Duration) : Time := t + d.

(** [t.Sub(u)] saturates at the ends of [Duration]. *)
Definition SubTime (t u : Time) : Duration :=
  Z.max int64_min (Z.min int64_max (t - u)).

(** ** Folds over a map's bindings *)

(** A fold whose step for the key [k] acts on what is observed at [k] only: the result
    at each key is one application of the step's action, or none. *)
Lemma foldl_pointwise {S K V X} `{Countable K} (m : gmap K V) (Inv : S -> Prop)
    (f : S -> K * V -> S) (obs : S -> K -> X) (g : K -> V -> X -> X) :
  (forall s k v, m !! k = Some v -> Inv s ->
     Inv (f s (k, v)) /\ obs (f s (k, v)) k = g k v (obs s k) /\
     forall k', k' <> k -> obs (f s (k, v)) k' = obs s k') ->
  forall s, Inv s ->
  Inv (foldl f s (map_to_list m)) /\
  forall k, obs (foldl f s (map_to_list m)) k =
    match m !! k with Some v => g k v (obs s k) | None => obs s k end.
Proof.
  intros Hf.
  assert (forall l s, NoDup l.*1 -> Forall (fun '(k, v) => m !! k = Some v) l -> Inv s ->
    Inv (foldl f s l) /\
    forall k, obs (foldl f s l) k =
      match (list_to_map l : gmap K V) !! k with
      | Some v => g k v (obs s k) | None => obs s k end) as Hl.
  { induction l as [|[k v] l IH]; intros s Hnd Hin Hs; simpl; [done|].
    apply NoDup_cons in Hnd as [Hk Hnd]. apply Forall_cons in Hin as [Hkv Hin].
    destruct (Hf s k v Hkv Hs) as (Hi & Hown & Hother).
    destruct (IH _ Hnd Hin Hi) as [Hi' Hobs]. split; [done|]. intros k'. rewrite Hobs.
    destruct (decide (k' = k)) as [->|Hne].
    - rewrite lookup_insert_eq, (not_elem_of_list_to_map_1 _ _ Hk). done.
    - rewrite lookup_insert_ne, Hother by done. done. }
  intros s Hs. destruct (Hl (map_to_list m) s (NoDup_fst_map_to_list m)) as [Hi Ho]; [|done|].
  - apply Forall_forall. intros [k v]. apply elem_of_map_to_list.
  - split; [done|]. intros k. by rewrite Ho, list_to_map_to_list.
Qed.

Lemma foldl_preserves {A B} (P : A -> Prop) (f : A -> B -> A) l a :
  (forall a x, P a -> P (f a x)) -> P a -> P (foldl f a l).
Proof. intros Hf. revert a. induction l as [|x l IH]; intros a Ha; simpl; auto. Qed.
