(* ===== verification/GoStrings.v ===== *)
(** * The part of Go's [strings], [strconv] and [net] packages the gateway uses

    A Go string is a sequence of bytes, here [string] over [ascii].  [TrimSpace]
    removes the UTF-8 encodings of the runes of [unicode.IsSpace]; [EqualFold] is
    simple case folding, exact whenever one of its two arguments is ASCII, which is
    how every caller in the gateway uses it. *)

From S2P Require Import Prelude.
From stdpp Require Import options.

Definition byte (n : nat) : ascii := ascii_of_nat n.

Fixpoint bytes (ns : list nat) : string :=
  match ns with [] => "" | n :: ns => String (byte n) (bytes ns) end.

(** ** Prefixes, suffixes and slices *)

Fixpoint HasPrefix (s prefix : string) {struct prefix} : bool :=
  match prefix, s with
  | EmptyString, _ => true
  | String a prefix, String b s => bool_decide (a = b) && HasPrefix s prefix
  | String _ _, EmptyString => false
  end.

(** [s[n:]] *)
Fixpoint drop_bytes (n : nat) (s : string) : string :=
  match n, s with
  | O, _ => s
  | S n, String _ s => drop_bytes n s
  | S _, EmptyString => ""
  end.

Definition TrimPrefix (s prefix : string) : string :=
  if HasPrefix s prefix then drop_bytes (String.length prefix) s else s.

Definition HasSuffix (s suffix : string) : bool :=
  HasPrefix (String.rev s) (String.rev suffix).

Definition TrimSuffix (s suffix : string) : string :=
  if HasSuffix s suffix
  then String.rev (drop_bytes (String.length suffix) (String.rev s)) else s.

Fixpoint contains_byte (c : ascii) (s : string) : bool :=
  match s with
  | EmptyString => false
  | String a s => bool_decide (a = c) || contains_byte c s
  end.

(** [strings.Cut(s, sep)] for a one-byte separator. *)
Fixpoint Cut (s : string) (sep : ascii) : option (string * string) :=
  match s with
  | EmptyString => None
  | String a s =>
      if bool_decide (a = sep) then Some ("", s)
      else '(x, y) ← Cut s sep; Some (String a x, y)
  end.

(** [strings.Split(s, sep)] for a one-byte separator. *)
Fixpoint Split (s : string) (sep : ascii) : list string :=
  match s with
  | EmptyString => [""]
  | String a s =>
      if bool_decide (a = sep) then "" :: Split s sep
      else match Split s sep with
           | [] => [String a ""]
           | x :: xs => String a x :: xs
           end
  end.

Fixpoint Join (xs : list string) (sep : string) : string :=
  match xs with
  | [] => ""
  | [x] => x
  | x :: xs => x +:+ sep +:+ Join xs sep
  end.

(** A [strings.NewReplacer] whose pairs are single bytes. *)
Fixpoint map_bytes (f : ascii -> ascii) (s : string) : string :=
  match s with
  | EmptyString => ""
  | String a s => String (f a) (map_bytes f s)
  end.

(** ** TrimSpace *)

Definition space_encodings : list string :=
  (bytes <$> [[9]; [10]; [11]; [12]; [13]; [32]; [194; 133]; [194; 160];
              [225; 154; 128]; [226; 128; 168]; [226; 128; 169]; [226; 128; 175];
              [226; 129; 159]; [227; 128; 128]]%nat)
  ++ ((fun n => bytes [226; 128; n]%nat) <$> seq 128 11).

Fixpoint trim_fuel (encs : list string) (fuel : nat) (s : string) : string :=
  match fuel with
  | O => s
  | S fuel =>
      match List.find (HasPrefix s) encs with
      | Some e => trim_fuel encs fuel (drop_bytes (String.length e) s)
      | None => s
      end
  end.

Definition TrimLeftSpace (s : string) : string :=
  trim_fuel space_encodings (String.length s) s.

Definition TrimRightSpace (s : string) : string :=
  String.rev (trim_fuel (String.rev <$> space_encodings) (String.length s) (String.rev s)).

Definition TrimSpace (s : string) : string := TrimRightSpace (TrimLeftSpace s).

(** ** EqualFold *)

Definition lower_byte (a : ascii) : ascii :=
  let n := nat_of_ascii a in
  if (Nat.leb 65 n && Nat.leb n 90)%bool then ascii_of_nat (n + 32) else a.

(** The fold class of an ASCII letter holds its two cases, and for [k] and [s] also
    U+212A (bytes E2 84 AA) and U+017F (bytes C5 BF). *)
Fixpoint fold_bytes (s : string) : string :=
  match s with
  | String a ((String b rest) as s1) =>
      if bool_decide (a = byte 197 /\ b = byte 191) then String (byte 115) (fold_bytes rest)
      else match rest with
           | String c rest2 =>
               if bool_decide (a = byte 226 /\ b = byte 132 /\ c = byte 170)
               then String (byte 107) (fold_bytes rest2)
               else String (lower_byte a) (fold_bytes s1)
           | EmptyString => String (lower_byte a) (fold_bytes s1)
           end
  | String a EmptyString => String (lower_byte a) ""
  | EmptyString => ""
  end.

Definition EqualFold (s t : string) : bool := bool_decide (fold_bytes s = fold_bytes t).

Fixpoint ToLower (s : string) : string :=
  match s with EmptyString => "" | String a s => String (lower_byte a) (ToLower s) end.

(** ** strconv and net *)

Definition Itoa (z : Z) : string := pretty z.

Definition digit_value (a : ascii) : option Z :=
  let n := nat_of_ascii a in
  if (48 <=? n)%nat && (n <=? 57)%nat then Some (Z.of_nat n - 48) else None.

Fixpoint parse_digits (acc : Z) (s : string) : option Z :=
  match s with
  | EmptyString => Some acc
  | String a s => d ← digit_value a; parse_digits (acc * 10 + d) s
  end.

(** [strconv.ParseInt(s, 10, 64)] *)
Definition ParseInt (s : string) : option Z :=
  let '(negative, digits) :=
    match s with
    | String a s => if bool_decide (a = byte 45) then (true, s)
                    else if bool_decide (a = byte 43) then (false, s) else (false, String a s)
    | EmptyString => (false, EmptyString)
    end in
  if bool_decide (digits = "") then None
  else
    n ← parse_digits 0 digits;
    let n := if negative : bool then - n else n in
    if (int64_min <=? n) && (n <=? int64_max) then Some n else None.

Definition colon : ascii := byte 58.
Definition comma : ascii := byte 44.
Definition space : ascii := byte 32.
Definition slash : ascii := byte 47.

(** [net.JoinHostPort] brackets a host that holds a colon. *)
Definition JoinHostPort (host port : string) : string :=
  if contains_byte colon host
  then "[" +:+ host +:+ "]:" +:+ port
  else host +:+ ":" +:+ port.

(** ** Lemmas *)

Lemma append_cons a s t : String a s +:+ t = String a (s +:+ t).
Proof. done. Qed.

Lemma append_nil_l (t : string) : "" +:+ t = t.
Proof. done. Qed.

Lemma append_nil_r (s : string) : s +:+ "" = s.
Proof. induction s; [done|]. rewrite append_cons. by f_equal. Qed.

Lemma append_assoc (s t u : string) : (s +:+ t) +:+ u = s +:+ (t +:+ u).
Proof. induction s; [done|]. rewrite !append_cons. by f_equal. Qed.

Lemma length_append (s t : string) :
  (String.length (s +:+ t) = String.length s + String.length t)%nat.
Proof. induction s; [done|]. rewrite append_cons. simpl. by f_equal. Qed.

Lemma HasPrefix_spec s p : HasPrefix s p = true <-> exists t, s = p +:+ t.
Proof.
  revert s. induction p as [|a p IH]; intros s; simpl.
  - split; [intros _; by exists s|]. done.
  - destruct s as [|b s]; simpl.
    + split; [done|]. intros [t Ht]. discriminate Ht.
    + rewrite andb_true_iff, bool_decide_eq_true, IH. split.
      * intros [-> [t ->]]. by exists t.
      * intros [t Ht]. rewrite append_cons in Ht. injection Ht as -> ->. eauto.
Qed.

Lemma HasPrefix_app p t : HasPrefix (p +:+ t) p = true.
Proof. apply HasPrefix_spec. by exists t. Qed.

Lemma HasPrefix_trans s p q : HasPrefix s p = true -> HasPrefix p q = true -> HasPrefix s q = true.
Proof.
  rewrite !HasPrefix_spec. intros [t ->] [u ->]. exists (u +:+ t).
  apply append_assoc.
Qed.

Lemma HasPrefix_comparable s p q :
  HasPrefix s p = true -> HasPrefix s q = true ->
  (String.length q <= String.length p)%nat -> HasPrefix p q = true.
Proof.
  revert p q. induction s as [|a s IH]; intros p q Hp Hq Hlen.
  - destruct q; [by destruct p|]. discriminate Hq.
  - destruct q as [|b q]; [by destruct p|]. destruct p as [|c p]; simpl in *; [exfalso; lia|].
    apply andb_true_iff in Hp as [Hc Hp], Hq as [Hb Hq].
    apply bool_decide_eq_true in Hb, Hc. subst.
    rewrite bool_decide_true by done. simpl. apply IH; auto; lia.
Qed.

Lemma drop_bytes_app p t : drop_bytes (String.length p) (p +:+ t) = t.
Proof. induction p; simpl; [by destruct t|done]. Qed.

Lemma drop_bytes_length n s : (String.length (drop_bytes n s) = String.length s - n)%nat.
Proof. revert n. induction s as [|a s IH]; intros [|n]; simpl; auto. Qed.

Lemma TrimPrefix_app p t : TrimPrefix (p +:+ t) p = t.
Proof. unfold TrimPrefix. by rewrite HasPrefix_app, drop_bytes_app. Qed.

Lemma rev_app_spec s t : String.rev_app s t = String.rev s +:+ t.
Proof.
  unfold String.rev. revert t. induction s as [|a s IH]; intros t; simpl; [done|].
  rewrite IH, (IH (String a "")), append_assoc. done.
Qed.

Lemma rev_cons a s : String.rev (String a s) = String.rev s +:+ String a "".
Proof. unfold String.rev. simpl. by rewrite rev_app_spec. Qed.

Lemma rev_append s t : String.rev (s +:+ t) = String.rev t +:+ String.rev s.
Proof.
  induction s as [|a s IH]; simpl; [by rewrite append_nil_r|].
  by rewrite append_cons, !rev_cons, <- append_assoc, <- IH.
Qed.

Lemma rev_involutive s : String.rev (String.rev s) = s.
Proof. induction s as [|a s IH]; [done|]. by rewrite rev_cons, rev_append, IH. Qed.

Lemma length_rev_string s : String.length (String.rev s) = String.length s.
Proof.
  induction s as [|a s IH]; [done|]. rewrite rev_cons, length_append, IH. simpl. lia.
Qed.

Lemma HasSuffix_spec s p : HasSuffix s p = true <-> exists t, s = t +:+ p.
Proof.
  unfold HasSuffix. rewrite HasPrefix_spec. split; intros [t Ht].
  - exists (String.rev t). rewrite <- (rev_involutive s), Ht, rev_append. by rewrite rev_involutive.
  - exists (String.rev t). by rewrite Ht, rev_append.
Qed.

Lemma TrimSuffix_app t p : TrimSuffix (t +:+ p) p = t.
Proof.
  unfold TrimSuffix. rewrite (proj2 (HasSuffix_spec _ _)) by eauto.
  rewrite rev_append, <- length_rev_string, drop_bytes_app. apply rev_involutive.
Qed.

(** No encoding of [encs] is a prefix of [s]. *)
Definition no_prefix (encs : list string) (s : string) : Prop :=
  Forall (fun e => HasPrefix s e = false) encs.

Lemma find_none_no_prefix encs s : List.find (HasPrefix s) encs = None <-> no_prefix encs s.
Proof.
  unfold no_prefix. split.
  - intros H. apply Forall_forall. intros e He.
    apply (List.find_none _ _ H). by apply list_elem_of_In.
  - induction 1 as [|e encs He _ IH]; simpl; [done|]. by rewrite He.
Qed.

Lemma trim_fuel_no_prefix encs fuel s :
  Forall (fun e => e <> "") encs -> (String.length s <= fuel)%nat ->
  no_prefix encs (trim_fuel encs fuel s).
Proof.
  intros Hne. revert s. induction fuel as [|fuel IH]; intros s Hlen; simpl.
  - apply Forall_impl with (1 := Hne). intros [|a e] He; [done|].
    destruct s; simpl in *; [done|lia].
  - destruct (List.find (HasPrefix s) encs) as [e|] eqn:Hf.
    + apply IH. apply List.find_some in Hf as [Hin He].
      rewrite Forall_forall in Hne. specialize (Hne e).
      rewrite drop_bytes_length. destruct e as [|a e]; simpl in *; [|lia].
      exfalso. by apply Hne; [apply list_elem_of_In|].
    + by apply find_none_no_prefix.
Qed.

Lemma trim_fuel_id encs fuel s : no_prefix encs s -> trim_fuel encs fuel s = s.
Proof. intros H%find_none_no_prefix. destruct fuel; simpl; [done|]. by rewrite H. Qed.

(** What trimming removes is a prefix. *)
Lemma trim_fuel_suffix encs fuel s : exists t, s = t +:+ trim_fuel encs fuel s.
Proof.
  revert s. induction fuel as [|fuel IH]; intros s; simpl; [by exists ""|].
  destruct (List.find (HasPrefix s) encs) as [e|] eqn:Hf; [|by exists ""].
  apply List.find_some in Hf as [_ [t Ht]%HasPrefix_spec]. subst.
  rewrite drop_bytes_app. destruct (IH t) as [u Hu].
  exists (e +:+ u). by rewrite append_assoc, <- Hu.
Qed.

Lemma space_encodings_nonempty : Forall (fun e => e <> "") space_encodings.
Proof. repeat constructor; discriminate. Qed.

Lemma rev_space_encodings_nonempty :
  Forall (fun e => e <> "") (String.rev <$> space_encodings).
Proof. repeat constructor; discriminate. Qed.

Lemma TrimLeftSpace_no_prefix s : no_prefix space_encodings (TrimLeftSpace s).
Proof. apply trim_fuel_no_prefix; [apply space_encodings_nonempty|done]. Qed.

Lemma no_prefix_prefix encs s t : no_prefix encs (s +:+ t) -> no_prefix encs s.
Proof.
  intros H. eapply Forall_impl; [exact H|]. intros e He. simpl in *.
  destruct (HasPrefix s e) eqn:E; [|done].
  rewrite <- He. symmetry. eapply HasPrefix_trans; [apply HasPrefix_app|done].
Qed.

(** ** Cut *)

Lemma Cut_Some_app s c x y : Cut s c = Some (x, y) -> s = x +:+ String c y /\ contains_byte c x = false.
Proof.
  revert x. induction s as [|a s IH]; cbn; intros x; [done|]. case_bool_decide as Ha; [intros [= <- <-]; by subst|].
  destruct (Cut s c) as [[x' y']|]; cbn; [|done]. intros [= <- <-]. destruct (IH x' eq_refl) as [-> Hx]. cbn.
  rewrite bool_decide_eq_false_2 by done. done.
Qed.

Lemma Cut_None_contains s c : Cut s c = None -> contains_byte c s = false.
Proof. induction s as [|a s IH]; cbn; [done|]. case_bool_decide; [done|]. destruct (Cut s c) as [[]|]; cbn; [done|]. auto. Qed.

Lemma Cut_app s c t : contains_byte c s = false -> Cut (s +:+ String c t) c = Some (s, t).
Proof.
  induction s as [|a s IH]; intros Hs.
  - rewrite append_nil_l. cbn [Cut]. by rewrite bool_decide_eq_true_2.
  - rewrite append_cons. cbn [Cut contains_byte] in *. apply orb_false_iff in Hs as [Ha%bool_decide_eq_false Hs].
    rewrite bool_decide_eq_false_2 by congruence. by rewrite IH.
Qed.

(** [TrimSpace] leaves no space at either end. *)
Lemma TrimSpace_ends s :
  no_prefix space_encodings (TrimSpace s) /\
  no_prefix (String.rev <$> space_encodings) (String.rev (TrimSpace s)).
Proof.
  unfold TrimSpace, TrimRightSpace. rewrite rev_involutive. split.
  - destruct (trim_fuel_suffix (String.rev <$> space_encodings)
      (String.length (TrimLeftSpace s)) (String.rev (TrimLeftSpace s))) as [t Ht].
    pose proof (TrimLeftSpace_no_prefix s) as H.
    apply (f_equal String.rev) in Ht. rewrite rev_involutive, rev_append in Ht.
    rewrite Ht in H. by apply no_prefix_prefix in H.
  - apply trim_fuel_no_prefix; [apply rev_space_encodings_nonempty|].
    by rewrite length_rev_string.
Qed.

Lemma TrimSpace_id s :
  no_prefix space_encodings s -> no_prefix (String.rev <$> space_encodings) (String.rev s) ->
  TrimSpace s = s.
Proof.
  intros Hl Hr. unfold TrimSpace, TrimRightSpace, TrimLeftSpace.
  rewrite (trim_fuel_id _ _ s), (trim_fuel_id _ _ (String.rev s)) by done.
  apply rev_involutive.
Qed.

Lemma TrimSpace_idemp s : TrimSpace (TrimSpace s) = TrimSpace s.
Proof. destruct (TrimSpace_ends s). by apply TrimSpace_id. Qed.

Lemma map_bytes_append f s t : map_bytes f (s +:+ t) = map_bytes f s +:+ map_bytes f t.
Proof. induction s; [done|]. rewrite !append_cons. simpl. rewrite append_cons. by f_equal. Qed.

Lemma contains_byte_append c s t :
  contains_byte c (s +:+ t) = contains_byte c s || contains_byte c t.
Proof. induction s; [done|]. rewrite append_cons. simpl. by rewrite IHs, orb_assoc. Qed.

Example trim_ex1 :
  TrimSpace (bytes [32; 194; 160; 97; 32; 98; 226; 128; 131; 9]%nat) = "a b".
Proof. vm_compute. reflexivity. Qed.
Example fold_ex1 : EqualFold "bEARer" "Bearer" = true. Proof. reflexivity. Qed.
Example fold_ex2 : EqualFold (bytes [80; 79; 197; 191; 84]%nat) "post" = true.
Proof. reflexivity. Qed.
Example split_ex : Split "a,b,,c" comma = ["a"; "b"; ""; "c"]. Proof. reflexivity. Qed.

(** ** The bytes of a decimal number *)

Definition itoa_byte (c : ascii) : bool :=
  let n := nat_of_ascii c in ((48 <=? n)%nat && (n <=? 57)%nat) || (n =? 45)%nat.

Lemma pretty_N_char_byte x : itoa_byte (pretty_N_char x) = true.
Proof. unfold pretty_N_char. by repeat case_match. Qed.

Lemma pretty_N_go_no_byte c x s :
  itoa_byte c = false -> contains_byte c s = false -> contains_byte c (pretty_N_go x s) = false.
Proof.
  intros Hc. revert s. induction (N.lt_wf_0 x) as [x _ IH]; intros s Hs.
  assert (x = 0 \/ 0 < x)%N as [->|Hx] by lia; [by rewrite pretty_N_go_0|].
  rewrite pretty_N_go_step by done. apply IH; [by apply N.div_lt|]. simpl.
  rewrite Hs, orb_false_r. apply bool_decide_eq_false. intros <-. by rewrite pretty_N_char_byte in Hc.
Qed.

Lemma Itoa_no_byte c z : itoa_byte c = false -> contains_byte c (Itoa z) = false.
Proof.
  intros Hc. unfold Itoa.
  assert (forall n : N, contains_byte c (pretty n) = false) as HN.
  { intros n. unfold pretty, pretty_N. case_decide; [|by apply pretty_N_go_no_byte].
    simpl. rewrite orb_false_r. apply bool_decide_eq_false. by intros <-. }
  destruct z as [|p|p].
  - simpl. rewrite orb_false_r. apply bool_decide_eq_false. by intros <-.
  - exact (HN (Npos p)).
  - change (contains_byte c ("-" +:+ pretty (Npos p)) = false).
    rewrite contains_byte_append, HN, orb_false_r. simpl. rewrite orb_false_r.
    apply bool_decide_eq_false. by intros <-.
Qed.

#[export] Instance Itoa_inj : Inj (=) (=) Itoa.
Proof. intros x y. unfold Itoa. apply pretty_Z_inj. Qed.

(** ** Strings cut at a separator *)

Definition starts_with (c : ascii) (s : string) : Prop := s = "" \/ exists t, s = String c t.

(** The part before the first separator is determined. *)
Lemma append_sep_inj c s1 s2 r1 r2 :
  contains_byte c s1 = false -> contains_byte c s2 = false ->
  starts_with c r1 -> starts_with c r2 -> s1 +:+ r1 = s2 +:+ r2 -> s1 = s2 /\ r1 = r2.
Proof.
  revert s2. induction s1 as [|a s1 IH]; intros [|b s2] H1 H2 Hr1 Hr2.
  - by rewrite !append_nil_l.
  - rewrite append_nil_l, append_cons. intros ->. simpl in H2. apply orb_false_iff in H2 as [H2 _].
    destruct Hr1 as [?|[t [= -> _]]]; [done|]. by rewrite bool_decide_eq_true_2 in H2.
  - rewrite append_nil_l, append_cons. intros <-. simpl in H1. apply orb_false_iff in H1 as [H1 _].
    destruct Hr2 as [?|[t [= -> _]]]; [done|]. by rewrite bool_decide_eq_true_2 in H1.
  - rewrite !append_cons. intros [= <- Heq]. simpl in H1, H2.
    apply orb_false_iff in H1 as [_ H1], H2 as [_ H2].
    destruct (IH s2 H1 H2 Hr1 Hr2 Heq) as [-> ->]. done.
Qed.

Lemma contains_byte_rev c s : contains_byte c (String.rev s) = contains_byte c s.
Proof.
  induction s as [|a s IH]; [done|]. rewrite rev_cons, contains_byte_append, IH. simpl.
  rewrite orb_false_r. apply orb_comm.
Qed.

(** The part after the last separator is determined. *)
Lemma append_sep_inj_r c s1 s2 r1 r2 :
  contains_byte c r1 = false -> contains_byte c r2 = false ->
  s1 +:+ String c r1 = s2 +:+ String c r2 -> s1 = s2 /\ r1 = r2.
Proof.
  intros H1 H2 Heq. apply (f_equal String.rev) in Heq.
  rewrite !rev_append, !rev_cons, !append_assoc, !append_cons, !append_nil_l in Heq.
  apply (append_sep_inj c) in Heq as [Hr Hs]; [|by rewrite contains_byte_rev..|right; by eexists|right; by eexists].
  injection Hs as Hs. split; [rewrite <- (rev_involutive s1), <- (rev_involutive s2); congruence|].
  rewrite <- (rev_involutive r1), <- (rev_involutive r2). congruence.
Qed.

(** ** Splitting and joining *)

Lemma Split_nonempty s c : Split s c <> [].
Proof. destruct s; cbn; [done|]. case_bool_decide; [done|]. by destruct (Split s c). Qed.

Lemma Split_app p t c : Split (p +:+ String c t) c = (Split p c ++ Split t c)%list.
Proof.
  induction p as [|x p IH]; [rewrite append_nil_l; cbn; by rewrite bool_decide_eq_true_2|].
  rewrite append_cons. cbn [Split]. rewrite IH. case_bool_decide; [done|].
  pose proof (Split_nonempty p c). by destruct (Split p c).
Qed.

Lemma Split_no_sep s c : contains_byte c s = false -> Split s c = [s].
Proof.
  induction s as [|x s IH]; cbn [contains_byte Split]; [done|]. intros [Hx Hs]%orb_false_iff. by rewrite Hx, IH.
Qed.

Lemma Split_cons s t c : contains_byte c s = false -> Split (s +:+ String c t) c = s :: Split t c.
Proof. intros Hs. by rewrite Split_app, Split_no_sep. Qed.

(** The parts put together again, none of which holds the separator. *)
Lemma Split_spec s sep : s = Join (Split s sep) (String sep "") /\ Forall (fun p => contains_byte sep p = false) (Split s sep).
Proof.
  induction s as [|a s [IH1 IH2]]; cbn [Split]; [by repeat constructor|].
  case_bool_decide as Ha.
  - subst. destruct (Split s sep) as [|p ps] eqn:Hs; [by apply Split_nonempty in Hs|]. split; [|by constructor].
    cbn [Join]. cbn. by rewrite IH1.
  - destruct (Split s sep) as [|p ps] eqn:Hs; [by apply Split_nonempty in Hs|].
    apply Forall_cons in IH2 as [Hp Hps]. split.
    + rewrite IH1 at 1. by destruct ps.
    + constructor; [|done]. cbn. by rewrite bool_decide_eq_false_2.
Qed.

Lemma Split_Join xs c :
  xs <> [] -> Forall (fun el => contains_byte c el = false) xs -> Split (Join xs (String c "")) c = xs.
Proof.
  intros Hne Hxs. induction Hxs as [|x xs Hx Hxs IH]; [done|]. destruct xs as [|y xs]; [by apply Split_no_sep|].
  change (Join (x :: y :: xs) (String c "")) with (x +:+ String c "" +:+ Join (y :: xs) (String c "")).
  rewrite append_cons, append_nil_l, Split_cons by done. by rewrite IH.
Qed.

(** ** Text without spaces *)

(** ASCII, neither a space nor a control character. *)
Definition graphic (a : ascii) : bool := let n := nat_of_ascii a in ((33 <=? n) && (n <=? 126))%nat.

Fixpoint all_graphic (s : string) : bool :=
  match s with EmptyString => true | String a s => graphic a && all_graphic s end.

Definition not_headed (a : ascii) (encs : list string) : bool :=
  forallb (fun e => match e with String b _ => negb (bool_decide (b = a)) | EmptyString => false end) encs.

Lemma graphic_not_headed a :
  graphic a = true -> not_headed a space_encodings = true /\ not_headed a (String.rev <$> space_encodings) = true.
Proof. destruct a as [[] [] [] [] [] [] [] []]; vm_compute; intros Ha; (done || by split). Qed.

Lemma not_headed_no_prefix a encs s : not_headed a encs = true -> no_prefix encs (String a s).
Proof.
  unfold not_headed, no_prefix. rewrite forallb_forall, Forall_forall. intros He e Hin. specialize (He e).
  rewrite <- list_elem_of_In in He. specialize (He Hin). destruct e as [|b e]; [done|]. apply negb_true_iff in He. cbn. apply bool_decide_eq_false in He.
  by rewrite bool_decide_eq_false_2 by done.
Qed.

(** Between two graphic bytes there is nothing to trim. *)
Lemma TrimSpace_between a b s t : graphic a = true -> graphic b = true -> String a s = t +:+ String b "" -> TrimSpace (String a s) = String a s.
Proof.
  intros [Ha _]%graphic_not_headed [_ Hb]%graphic_not_headed Heq. apply TrimSpace_id; [by apply not_headed_no_prefix|].
  rewrite Heq, rev_append. by apply not_headed_no_prefix.
Qed.

Lemma all_graphic_last a s : all_graphic (String a s) = true -> exists t b, String a s = t +:+ String b "" /\ graphic b = true.
Proof.
  revert a. induction s as [|b s IH]; intros a; cbn [all_graphic]; intros [Ha Hs]%andb_true_iff; [by exists "", a|].
  destruct (IH b Hs) as (t & c & Heq & Hc). exists (String a t), c. by rewrite append_cons, <- Heq.
Qed.

Lemma TrimSpace_graphic s : all_graphic s = true -> TrimSpace s = s.
Proof.
  destruct s as [|a s]; [by vm_compute|]. intros Hs. destruct (all_graphic_last a s Hs) as (t & b & Heq & Hb).
  apply (TrimSpace_between a b s t); [by apply andb_true_iff in Hs as [Ha _]|done|done].
Qed.

(** The same after a prefix that starts with a graphic byte. *)
Lemma TrimSpace_prefixed a p s : graphic a = true -> all_graphic s = true -> s <> "" -> TrimSpace (String a p +:+ s) = String a p +:+ s.
Proof.
  intros Ha Hs Hne. destruct s as [|c s]; [done|]. destruct (all_graphic_last c s Hs) as (t & b & Heq & Hb).
  rewrite append_cons. apply (TrimSpace_between a b _ (String a (p +:+ t))); [done|done|]. by rewrite Heq, append_cons, append_assoc.
Qed.

(** ** UTF-8 *)

Definition utf8_in (lo hi : nat) (a : ascii) : bool := let n := nat_of_ascii a in ((lo <=? n) && (n <=? hi))%nat.
Definition utf8_cont : ascii -> bool := utf8_in 128 191.

(** [utf8.ValidString] *)
Fixpoint valid_utf8 (s : string) : bool :=
  match s with
  | EmptyString => true
  | String a s =>
      if utf8_in 0 127 a then valid_utf8 s
      else match s with
      | EmptyString => false
      | String b s =>
          if utf8_in 194 223 a then utf8_cont b && valid_utf8 s
          else match s with
          | EmptyString => false
          | String c s =>
              if utf8_in 224 224 a then utf8_in 160 191 b && utf8_cont c && valid_utf8 s
              else if utf8_in 237 237 a then utf8_in 128 159 b && utf8_cont c && valid_utf8 s
              else if utf8_in 225 239 a then utf8_cont b && utf8_cont c && valid_utf8 s
              else match s with
              | EmptyString => false
              | String d s =>
                  (utf8_in 240 240 a && utf8_in 144 191 b || utf8_in 241 243 a && utf8_cont b || utf8_in 244 244 a && utf8_in 128 143 b) &&
                  utf8_cont c && utf8_cont d && valid_utf8 s
              end
          end
      end
  end.
