(* ===== verification/GoErrors.v ===== *)
(** * Go errors: the standard library's error chains

    The errors the gateway's transports see, as trees: sentinels compared by identity,
    the wrappers of [net], [net/url], [os] and [fmt], the gateway's own [AttemptError],
    and any other type that implements [net.Error].  [errors.Is] and [errors.As] walk the
    [Unwrap] chain; [Timeout] and [Temporary] are the methods of the standard types. *)

From S2P Require Import Prelude.
From stdpp Require Import options.

(** Package variables made by [errors.New] (and [context.DeadlineExceeded], which also
    implements [net.Error]). *)
Inductive Sentinel :=
  | ErrCircuitOpen
  | ErrNoHealthyTargets
  | ErrNoTargets
  | Canceled
  | DeadlineExceeded
  | EOF.

#[export] Instance Sentinel_eq_dec : EqDecision Sentinel.
Proof. solve_decision. Defined.

(** [nil] is the [None] of [option error]. *)
Inductive error :=
  | ESentinel (s : Sentinel)
  | Errno (n : Z)
  | UrlError (err : option error)
  | DNSError (isTimeout isTemporary : bool) (unwrapErr : option error)
  | OpError (op : string) (err : option error)
  | SyscallError (err : option error)
  | AttemptError (err : option error) (retryCount : Z) (target : string)
  | Wrapped (message : string) (err : error)
  | Plain (message : string)
  | OtherNetError (timeout temporary isDeadlineExceeded : bool).

(** Linux numbers. *)
Definition EINTR : Z := 4.
Definition EAGAIN : Z := 11.
Definition ENFILE : Z := 23.
Definition EMFILE : Z := 24.
Definition EPIPE : Z := 32.
Definition ENETUNREACH : Z := 101.
Definition ECONNABORTED : Z := 103.
Definition ECONNRESET : Z := 104.
Definition ETIMEDOUT : Z := 110.
Definition ECONNREFUSED : Z := 111.
Definition EHOSTUNREACH : Z := 113.

(** ** The chain [errors.Is] and [errors.As] walk *)

Fixpoint chain (err : error) : list error :=
  let rest (inner : option error) := match inner with Some e => chain e | None => [] end in
  err ::
  match err with
  | UrlError inner | DNSError _ _ inner | OpError _ inner | SyscallError inner
  | AttemptError inner _ _ => rest inner
  | Wrapped _ inner => chain inner
  | ESentinel _ | Errno _ | Plain _ | OtherNetError _ _ _ => []
  end.

Definition chain_of (err : option error) : list error :=
  match err with Some e => chain e | None => [] end.

(** [err == target], or the [Is] method of [err] says so. *)
Definition matches (target : Sentinel) (err : error) : bool :=
  match err with
  | ESentinel s => bool_decide (s = target)
  | OtherNetError _ _ isDeadlineExceeded => isDeadlineExceeded && bool_decide (target = DeadlineExceeded)
  | _ => false
  end.

Definition matches_errno (n : Z) (err : error) : bool :=
  match err with Errno m => m =? n | _ => false end.

(** [errors.Is(err, target)], for a sentinel and for a [syscall.Errno]. *)
Definition Is (err : option error) (target : Sentinel) : bool :=
  existsb (matches target) (chain_of err).
Definition IsErrno (err : option error) (n : Z) : bool :=
  existsb (matches_errno n) (chain_of err).

(** [errors.As]: the first error of the chain with the given type. *)
Definition As {A} (type : error -> option A) (err : option error) : option A :=
  head (omap type (chain_of err)).

(** ** Timeout and Temporary

    [None] when the type has no such method. *)
Fixpoint timeout (err : error) : option bool :=
  let call (inner : option error) :=
    match inner with Some e => match timeout e with Some b => b | None => false end | None => false end in
  match err with
  | ESentinel s => if bool_decide (s = DeadlineExceeded) then Some true else None
  | Errno n => Some ((n =? EAGAIN) || (n =? ETIMEDOUT))
  | UrlError inner => Some (call inner)
  | DNSError isTimeout _ _ => Some isTimeout
  | OpError _ (Some (SyscallError inner)) => Some (call inner)
  | OpError _ inner => Some (call inner)
  | SyscallError inner => Some (call inner)
  | OtherNetError t _ _ => Some t
  | AttemptError _ _ _ | Wrapped _ _ | Plain _ => None
  end.

Definition isConnError (err : option error) : bool :=
  match err with Some (Errno n) => (n =? ECONNRESET) || (n =? ECONNABORTED) | _ => false end.

Fixpoint temporary (err : error) : option bool :=
  let call (inner : option error) :=
    match inner with Some e => match temporary e with Some b => b | None => false end | None => false end in
  match err with
  | ESentinel s => if bool_decide (s = DeadlineExceeded) then Some true else None
  | Errno n => Some ((n =? EINTR) || (n =? EMFILE) || (n =? ENFILE) || (n =? EAGAIN) || (n =? ETIMEDOUT))
  | UrlError inner => Some (call inner)
  | DNSError isTimeout isTemporary _ => Some (isTimeout || isTemporary)
  | OpError op inner =>
      if bool_decide (op = "accept"%string) && isConnError inner then Some true
      else match inner with
           | Some (SyscallError inner) => Some (call inner)
           | _ => Some (call inner)
           end
  | OtherNetError _ t _ => Some t
  | SyscallError _ | AttemptError _ _ _ | Wrapped _ _ | Plain _ => None
  end.

(** [net.Error]: its [Timeout] and [Temporary]. *)
Definition as_net_error (err : error) : option (bool * bool) :=
  match timeout err, temporary err with
  | Some t, Some tmp => Some (t, tmp)
  | _, _ => None
  end.

Definition as_url_error (err : error) : option (option error) :=
  match err with UrlError inner => Some inner | _ => None end.
Definition as_dns_error (err : error) : option (bool * bool) :=
  match err with DNSError t tmp _ => Some (t, t || tmp) | _ => None end.
Definition as_op_error (err : error) : option (option error) :=
  match err with OpError _ inner => Some inner | _ => None end.
Definition as_attempt_error (err : error) : option (Z * string) :=
  match err with AttemptError _ retryCount target => Some (retryCount, target) | _ => None end.

(** ** Lemmas *)

Lemma chain_cons err : exists rest, chain err = err :: rest.
Proof. destruct err; eexists; reflexivity. Qed.

Lemma Is_in err target : Is err target = true <-> exists e, e ∈ chain_of err /\ matches target e = true.
Proof.
  unfold Is. rewrite existsb_exists. by setoid_rewrite list_elem_of_In.
Qed.

Lemma IsErrno_in err n : IsErrno err n = true <-> Errno n ∈ chain_of err.
Proof.
  unfold IsErrno. rewrite existsb_exists. setoid_rewrite <- list_elem_of_In. split.
  - intros ([] & Hin & Hm); try done. apply Z.eqb_eq in Hm as ->. done.
  - intros H. exists (Errno n). split; [done|]. apply Z.eqb_refl.
Qed.

Lemma As_Some {A} (type : error -> option A) err x :
  As type err = Some x ->
  exists l1 e l2, chain_of err = l1 ++ e :: l2 /\ type e = Some x /\ Forall (fun e => type e = None) l1.
Proof.
  unfold As. induction (chain_of err) as [|e l IH]; simpl; [done|].
  destruct (type e) as [y|] eqn:He.
  - intros [= ->]. exists [], e, l. by split_and!.
  - intros H. destruct (IH H) as (l1 & e' & l2 & -> & ? & ?). exists (e :: l1), e', l2.
    split_and!; [done|done|by constructor].
Qed.

Lemma As_None {A} (type : error -> option A) err :
  As type err = None <-> forall e, e ∈ chain_of err -> type e = None.
Proof.
  unfold As. induction (chain_of err) as [|e l IH]; simpl; [set_solver|].
  destruct (type e) eqn:He; simpl.
  - split; [done|]. intros H. specialize (H e). rewrite He in H. set_solver.
  - rewrite IH. split; [|set_solver]. intros H e' [->|]%elem_of_cons; auto.
Qed.

(** An error of a chain has a chain no longer than it. *)
Lemma chain_le : forall err e, e ∈ chain err -> (length (chain e) <= length (chain err))%nat.
Proof.
  assert (forall (o : option error) e,
    (forall e', o = Some e' -> forall e, e ∈ chain e' -> (length (chain e) <= length (chain e'))%nat) ->
    e ∈ chain_of o -> (length (chain e) <= length (chain_of o))%nat) as Hopt.
  { intros [e'|] e IH He; [by apply IH|by apply elem_of_nil in He]. }
  fix IH 1. intros err e He. destruct err as [s|n|o|t tmp o|op o|o|o r t|m e'|m|t tmp d].
  all: apply elem_of_cons in He as [->|He]; [done|].
  all: try by apply elem_of_nil in He.
  all: simpl; try (specialize (IH e' _ He); lia).
  all: destruct o as [e'|]; [specialize (IH e' _ He); lia|by apply elem_of_nil in He].
Qed.

(** The error inside a [url.Error] of a chain has a shorter chain. *)
Lemma chain_url_shorter err inner :
  As as_url_error (Some err) = Some inner -> (length (chain_of inner) < length (chain err))%nat.
Proof.
  intros H. apply As_Some in H as (l1 & e & l2 & Hch & He & _). simpl in Hch.
  destruct e; try done. injection He as ->.
  assert (length (chain (UrlError inner)) <= length (chain err))%nat as Hle
    by (apply chain_le; rewrite Hch; set_solver).
  cbn [chain length] in Hle. destruct inner; cbn in *; lia.
Qed.
