(* ===== verification/Config.v ===== *)
(** * Configuration: [internal/config/config.go]

    The YAML-backed records, and [Validate], whose list of errors is a list of
    [ConfigErr] values in the order the code appends them.  An error that quotes the
    route ([routes[i] ("path")]) carries the index and the path.  [Load] and
    [Clone] are in [ConfigFile]. *)

From S2P Require Import Prelude GoStrings.
From stdpp Require Import options.

Definition gatewayInternalService : string := "gateway-internal".
Definition gatewayHealthPath : string := "/health".
Definition gatewayReadyPath : string := "/ready".

Definition validLoadBalancers : list string := ["round_robin"; "weighted"; "least_conn"].
Definition validRateLimitStrategies : list string := ["sliding_window"; "token_bucket"].
Definition validRetryJitters : list string := [""; "full"].

(** ** Data *)

Record ServerConfig := mkServerConfig {
  sc_Port : Z;
  sc_ReadTimeout : Duration;
  sc_WriteTimeout : Duration;
}.

Record Target := mkTarget {
  tg_Host : string;
  tg_Port : Z;
  tg_Weight : Z;
}.

Record RetryConfig := mkRetryConfig {
  rt_MaxAttempts : Z;
  rt_BaseDelay : Duration;
  rt_MaxDelay : Duration;
  rt_Jitter : string;
}.

Record RateLimitConfig := mkRateLimitConfig {
  rl_Requests : Z;
  rl_Window : Duration;
  rl_Strategy : string;
}.

Record RouteConfig := mkRouteConfig {
  rc_Path : string;
  rc_StripPrefix : string;
  rc_Service : string;
  rc_Methods : list string;
  rc_AuthRequired : bool;
  rc_Timeout : Duration;
  rc_RateLimit : option RateLimitConfig;
  rc_Retry : RetryConfig;
  rc_Targets : list Target;
  rc_LoadBalancer : string;
}.

Record CBConfig := mkCBConfig {
  cb_FailureThreshold : Z;
  cb_SuccessThreshold : Z;
  cb_Timeout : Duration;
  cb_WindowSize : Duration;
  cb_HalfOpenMaxRequests : Z;
}.

Record AuthConfig := mkAuthConfig {
  ac_JWTSecret : string;
  ac_JWTAlgorithm : string;
}.

Record RedisConfig := mkRedisConfig {
  rd_Address : string;
  rd_Password : string;
  rd_DB : Z;
}.

Record MetricsConfig := mkMetricsConfig {
  mc_Enabled : bool;
  mc_Path : string;
}.

Record LoggingConfig := mkLoggingConfig {
  lc_Level : string;
  lc_Format : string;
}.

Record Config := mkConfig {
  cfg_Server : ServerConfig;
  cfg_Routes : list RouteConfig;
  cfg_CircuitBreaker : CBConfig;
  cfg_Auth : AuthConfig;
  cfg_Redis : RedisConfig;
  cfg_Metrics : MetricsConfig;
  cfg_Logging : LoggingConfig;
}.

#[export] Instance ServerConfig_eq_dec : EqDecision ServerConfig.
Proof. solve_decision. Defined.
#[export] Instance Target_eq_dec : EqDecision Target.
Proof. solve_decision. Defined.
#[export] Instance CBConfig_eq_dec : EqDecision CBConfig.
Proof. solve_decision. Defined.
#[export] Instance RedisConfig_eq_dec : EqDecision RedisConfig.
Proof. solve_decision. Defined.

(** ** Validation errors *)

(** [route index path]: the [routes[%d] (%q)] a message starts with. *)
Inductive ConfigErr :=
  | ErrServerPort
  | ErrServerReadTimeout
  | ErrServerWriteTimeout
  | ErrCBFailureThreshold
  | ErrCBSuccessThreshold
  | ErrCBTimeout
  | ErrCBWindowSize
  | ErrCBHalfOpenMaxRequests
  | ErrRoutePathEmpty (route : nat) (path : string)
  | ErrRouteServiceEmpty (route : nat) (path : string)
  | ErrRouteTimeout (route : nat) (path : string)
  | ErrReservedService (route : nat) (path : string)
  | ErrReservedAuth (route : nat) (path : string)
  | ErrReservedRateLimit (route : nat) (path : string)
  | ErrRateLimitRequests (route : nat) (path : string)
  | ErrRateLimitWindow (route : nat) (path : string)
  | ErrRateLimitStrategy (route : nat) (path strategy : string)
  | ErrRetryMaxAttempts (route : nat) (path : string)
  | ErrRetryBaseDelay (route : nat) (path : string)
  | ErrRetryMaxDelay (route : nat) (path : string)
  | ErrRetryJitter (route : nat) (path jitter : string)
  | ErrNoTarget (route : nat) (path : string)
  | ErrLoadBalancer (route : nat) (path lb : string)
  | ErrTargetHost (route : nat) (path : string) (target : nat)
  | ErrTargetPort (route : nat) (path : string) (target : nat)
  | ErrTargetWeight (route : nat) (path : string) (target : nat)
  | ErrJWTSecretRequired
  | ErrJWTAlgorithmRequired
  | ErrJWTAlgorithmInvalid (algorithm : string)
  | ErrRedisAddressRequired
  | ErrRedisDB
  | ErrMetricsPathRequired
  | ErrMetricsPathSlash
  | ErrMetricsPathRoot
  | ErrMetricsPathOverlap (metricsPath routePath : string).

(** [if cond { errs = append(errs, e) }] *)
Definition errIf (cond : bool) (e : ConfigErr) : list ConfigErr :=
  if cond then [e] else [].

Definition isGatewayReservedPath (path : string) : bool :=
  bool_decide (path = gatewayHealthPath) || bool_decide (path = gatewayReadyPath).

Definition isBlank (s : string) : bool := bool_decide (TrimSpace s = "").

(** ** Validate *)

Definition validateTarget (index : nat) (path : string) (targetIndex : nat)
    (target : Target) : list ConfigErr :=
  errIf (isBlank (tg_Host target)) (ErrTargetHost index path targetIndex) ++
  errIf ((tg_Port target <=? 0) || (65535 <? tg_Port target))
    (ErrTargetPort index path targetIndex) ++
  errIf (tg_Weight target <? 0) (ErrTargetWeight index path targetIndex).

Definition validateRateLimit (index : nat) (path : string) (rl : RateLimitConfig)
    : list ConfigErr :=
  errIf (rl_Requests rl <=? 0) (ErrRateLimitRequests index path) ++
  errIf (rl_Window rl <=? 0) (ErrRateLimitWindow index path) ++
  (if bool_decide (rl_Strategy rl = "") then []
   else errIf (negb (bool_decide (rl_Strategy rl ∈ validRateLimitStrategies)))
          (ErrRateLimitStrategy index path (rl_Strategy rl))).

Definition validateReserved (index : nat) (route : RouteConfig) : list ConfigErr :=
  let path := rc_Path route in
  if isGatewayReservedPath (TrimSpace path) then
    errIf (negb (bool_decide (rc_Service route = gatewayInternalService)))
      (ErrReservedService index path) ++
    errIf (rc_AuthRequired route) (ErrReservedAuth index path) ++
    errIf (bool_decide (is_Some (rc_RateLimit route))) (ErrReservedRateLimit index path)
  else [].

Definition validateRetry (index : nat) (path : string) (r : RetryConfig) : list ConfigErr :=
  errIf (rt_MaxAttempts r <? 0) (ErrRetryMaxAttempts index path) ++
  errIf (rt_BaseDelay r <? 0) (ErrRetryBaseDelay index path) ++
  errIf (rt_MaxDelay r <? 0) (ErrRetryMaxDelay index path) ++
  errIf (negb (bool_decide (rt_Jitter r ∈ validRetryJitters)))
    (ErrRetryJitter index path (rt_Jitter r)).

(** The part of the loop body after [if route.Service == gatewayInternalService]. *)
Definition validateUpstream (index : nat) (route : RouteConfig) : list ConfigErr :=
  let path := rc_Path route in
  errIf (bool_decide (rc_Targets route = [])) (ErrNoTarget index path) ++
  errIf (negb (bool_decide (rc_LoadBalancer route ∈ validLoadBalancers)))
    (ErrLoadBalancer index path (rc_LoadBalancer route)) ++
  concat (imap (validateTarget index path) (rc_Targets route)).

(** One iteration of [for index := range c.Routes]. *)
Definition validateRoute (index : nat) (route : RouteConfig) : list ConfigErr :=
  let path := rc_Path route in
  errIf (isBlank path) (ErrRoutePathEmpty index path) ++
  errIf (isBlank (rc_Service route)) (ErrRouteServiceEmpty index path) ++
  errIf (rc_Timeout route <? 0) (ErrRouteTimeout index path) ++
  validateReserved index route ++
  match rc_RateLimit route with
  | Some rl => validateRateLimit index path rl
  | None => []
  end ++
  validateRetry index path (rc_Retry route) ++
  (if bool_decide (rc_Service route = gatewayInternalService) then []
   else validateUpstream index route).

Definition validateServer (c : Config) : list ConfigErr :=
  let s := cfg_Server c in
  errIf ((sc_Port s <=? 0) || (65535 <? sc_Port s)) ErrServerPort ++
  errIf (sc_ReadTimeout s <=? 0) ErrServerReadTimeout ++
  errIf (sc_WriteTimeout s <=? 0) ErrServerWriteTimeout.

Definition validateCircuitBreaker (cb : CBConfig) : list ConfigErr :=
  errIf (cb_FailureThreshold cb <? 0) ErrCBFailureThreshold ++
  errIf (cb_SuccessThreshold cb <? 0) ErrCBSuccessThreshold ++
  errIf (cb_Timeout cb <? 0) ErrCBTimeout ++
  errIf (cb_WindowSize cb <? 0) ErrCBWindowSize ++
  errIf (cb_HalfOpenMaxRequests cb <? 0) ErrCBHalfOpenMaxRequests.

(** The loop's [authRequired], [rateLimitConfigured] and [routePaths]. *)
Definition authRequired (c : Config) : bool := existsb rc_AuthRequired (cfg_Routes c).
Definition rateLimitConfigured (c : Config) : bool :=
  existsb (fun r => bool_decide (is_Some (rc_RateLimit r))) (cfg_Routes c).
Definition routePaths (c : Config) : gset string :=
  list_to_set (filter (fun p => p <> "") (TrimSpace ∘ rc_Path <$> cfg_Routes c)).

Definition validateAuth (c : Config) : list ConfigErr :=
  let a := cfg_Auth c in
  let algorithm := TrimSpace (ac_JWTAlgorithm a) in
  errIf (authRequired c && isBlank (ac_JWTSecret a)) ErrJWTSecretRequired ++
  errIf (authRequired c && isBlank (ac_JWTAlgorithm a)) ErrJWTAlgorithmRequired ++
  errIf (negb (bool_decide (algorithm = "")) && negb (bool_decide (algorithm = "HS256")))
    (ErrJWTAlgorithmInvalid (ac_JWTAlgorithm a)).

Definition pathsOverlap (metricsPath routePath : string) : bool :=
  HasPrefix metricsPath routePath || HasPrefix routePath metricsPath.

(** Go ranges over [routePaths] in an unspecified order and stops at the first
    overlap; [elements] is one such order. *)
Definition validateMetrics (c : Config) : list ConfigErr :=
  if mc_Enabled (cfg_Metrics c) then
    let metricsPath := TrimSpace (mc_Path (cfg_Metrics c)) in
    if bool_decide (metricsPath = "") then [ErrMetricsPathRequired]
    else if negb (HasPrefix metricsPath "/") then [ErrMetricsPathSlash]
    else if bool_decide (metricsPath = "/") then [ErrMetricsPathRoot]
    else match List.find (pathsOverlap metricsPath) (elements (routePaths c)) with
         | Some routePath => [ErrMetricsPathOverlap metricsPath routePath]
         | None => []
         end
  else [].

Definition Validate (c : Config) : list ConfigErr :=
  validateServer c ++
  validateCircuitBreaker (cfg_CircuitBreaker c) ++
  concat (imap validateRoute (cfg_Routes c)) ++
  validateAuth c ++
  errIf (rateLimitConfigured c && isBlank (rd_Address (cfg_Redis c))) ErrRedisAddressRequired ++
  errIf (rd_DB (cfg_Redis c) <? 0) ErrRedisDB ++
  validateMetrics c.

(** ** What a valid configuration is *)

Record ValidTarget (t : Target) : Prop := {
  vt_host : TrimSpace (tg_Host t) <> "";
  vt_port : 1 <= tg_Port t <= 65535;
  vt_weight : 0 <= tg_Weight t;
}.

Record ValidRateLimit (rl : RateLimitConfig) : Prop := {
  vrl_requests : 0 < rl_Requests rl;
  vrl_window : 0 < rl_Window rl;
  vrl_strategy : rl_Strategy rl = "" \/ rl_Strategy rl ∈ validRateLimitStrategies;
}.

Record ValidRetry (r : RetryConfig) : Prop := {
  vrt_attempts : 0 <= rt_MaxAttempts r;
  vrt_base : 0 <= rt_BaseDelay r;
  vrt_max : 0 <= rt_MaxDelay r;
  vrt_jitter : rt_Jitter r ∈ validRetryJitters;
}.

Record ValidRoute (r : RouteConfig) : Prop := {
  vr_path : TrimSpace (rc_Path r) <> "";
  vr_service : TrimSpace (rc_Service r) <> "";
  vr_timeout : 0 <= rc_Timeout r;
  vr_reserved : TrimSpace (rc_Path r) = gatewayHealthPath \/
                TrimSpace (rc_Path r) = gatewayReadyPath ->
    rc_Service r = gatewayInternalService /\ rc_AuthRequired r = false /\
    rc_RateLimit r = None;
  vr_rate_limit : forall rl, rc_RateLimit r = Some rl -> ValidRateLimit rl;
  vr_retry : ValidRetry (rc_Retry r);
  vr_upstream : rc_Service r <> gatewayInternalService ->
    rc_Targets r <> [] /\ rc_LoadBalancer r ∈ validLoadBalancers /\
    Forall ValidTarget (rc_Targets r);
}.

Record ValidConfig (c : Config) : Prop := {
  vc_port : 1 <= sc_Port (cfg_Server c) <= 65535;
  vc_read : 0 < sc_ReadTimeout (cfg_Server c);
  vc_write : 0 < sc_WriteTimeout (cfg_Server c);
  vc_cb : 0 <= cb_FailureThreshold (cfg_CircuitBreaker c) /\
          0 <= cb_SuccessThreshold (cfg_CircuitBreaker c) /\
          0 <= cb_Timeout (cfg_CircuitBreaker c) /\
          0 <= cb_WindowSize (cfg_CircuitBreaker c) /\
          0 <= cb_HalfOpenMaxRequests (cfg_CircuitBreaker c);
  vc_routes : Forall ValidRoute (cfg_Routes c);
  vc_secret : (exists r, r ∈ cfg_Routes c /\ rc_AuthRequired r = true) ->
    TrimSpace (ac_JWTSecret (cfg_Auth c)) <> "" /\
    TrimSpace (ac_JWTAlgorithm (cfg_Auth c)) = "HS256";
  vc_algorithm : TrimSpace (ac_JWTAlgorithm (cfg_Auth c)) = "" \/
                 TrimSpace (ac_JWTAlgorithm (cfg_Auth c)) = "HS256";
  vc_redis : (exists r, r ∈ cfg_Routes c /\ is_Some (rc_RateLimit r)) ->
    TrimSpace (rd_Address (cfg_Redis c)) <> "";
  vc_db : 0 <= rd_DB (cfg_Redis c);
  vc_metrics : mc_Enabled (cfg_Metrics c) = true ->
    let m := TrimSpace (mc_Path (cfg_Metrics c)) in
    HasPrefix m "/" = true /\ m <> "/" /\
    Forall (fun r => pathsOverlap m (TrimSpace (rc_Path r)) = false) (cfg_Routes c);
}.

(** ** The validator accepts exactly the valid configurations *)

Lemma errIf_nil cond e : errIf cond e = [] <-> cond = false.
Proof. unfold errIf. by destruct cond. Qed.

Lemma isBlank_false s : isBlank s = false <-> TrimSpace s <> "".
Proof. unfold isBlank. apply bool_decide_eq_false. Qed.

Lemma concat_imap_nil {A B} (f : nat -> A -> list B) (xs : list A) :
  concat (imap f xs) = [] <-> forall i x, xs !! i = Some x -> f i x = [].
Proof.
  revert f. induction xs as [|x xs IH]; intros f; simpl.
  - split; [intros _ i y; by rewrite lookup_nil|done].
  - rewrite app_nil, (IH (f ∘ S)). split.
    + intros [H0 HS] [|i] y; simpl; [by intros [= <-]|apply HS].
    + intros H. split; [by apply (H 0%nat)|]. intros i y Hi. by apply (H (S i)).
Qed.

Lemma Forall_from_index {A} (P : A -> Prop) (Q : nat -> A -> Prop) (xs : list A) :
  (forall i x, Q i x <-> P x) ->
  (forall i x, xs !! i = Some x -> Q i x) <-> Forall P xs.
Proof. intros HQ. rewrite Forall_lookup. by setoid_rewrite HQ. Qed.

(** Turns a validator equation [... = []] into the conditions it tests. *)
Ltac err_conditions :=
  repeat (rewrite app_nil || rewrite errIf_nil || rewrite isBlank_false ||
          rewrite negb_false_iff || rewrite bool_decide_eq_true ||
          rewrite bool_decide_eq_false || rewrite orb_false_iff ||
          rewrite andb_false_iff || rewrite Z.leb_gt || rewrite Z.ltb_ge).

Lemma validateTarget_nil i p j t : validateTarget i p j t = [] <-> ValidTarget t.
Proof.
  unfold validateTarget. err_conditions. split.
  - intros (? & [? ?] & ?). split; [done|lia|lia].
  - intros []. split_and!; [done|lia..].
Qed.

Lemma validateRateLimit_nil i p rl : validateRateLimit i p rl = [] <-> ValidRateLimit rl.
Proof.
  unfold validateRateLimit. case_bool_decide; err_conditions.
  - split; [intros (? & ? & _); split; auto|intros []; auto].
  - split; [intros (? & ? & ?); split; auto|intros [? ? []]; naive_solver].
Qed.

Lemma validateRetry_nil i p r : validateRetry i p r = [] <-> ValidRetry r.
Proof.
  unfold validateRetry. err_conditions.
  split; [intros (? & ? & ? & ?); by split|intros []; auto].
Qed.

Lemma isGatewayReservedPath_true p :
  isGatewayReservedPath p = true <-> p = gatewayHealthPath \/ p = gatewayReadyPath.
Proof. unfold isGatewayReservedPath. by rewrite orb_true_iff, !bool_decide_eq_true. Qed.

Lemma validateReserved_nil i r :
  validateReserved i r = [] <->
  (TrimSpace (rc_Path r) = gatewayHealthPath \/ TrimSpace (rc_Path r) = gatewayReadyPath ->
   rc_Service r = gatewayInternalService /\ rc_AuthRequired r = false /\ rc_RateLimit r = None).
Proof.
  unfold validateReserved. rewrite <- isGatewayReservedPath_true.
  destruct (isGatewayReservedPath _); [|naive_solver].
  err_conditions. rewrite <- eq_None_not_Some. naive_solver.
Qed.

Lemma validateUpstream_nil i r :
  validateUpstream i r = [] <->
  rc_Targets r <> [] /\ rc_LoadBalancer r ∈ validLoadBalancers /\
  Forall ValidTarget (rc_Targets r).
Proof.
  unfold validateUpstream. err_conditions. rewrite concat_imap_nil.
  rewrite (Forall_from_index ValidTarget) by (intros; apply validateTarget_nil). done.
Qed.

Lemma validateRoute_nil i r : validateRoute i r = [] <-> ValidRoute r.
Proof.
  unfold validateRoute. err_conditions. rewrite validateReserved_nil, validateRetry_nil.
  assert (match rc_RateLimit r with
          | Some rl => validateRateLimit i (rc_Path r) rl | None => [] end = [] <->
          forall rl, rc_RateLimit r = Some rl -> ValidRateLimit rl) as ->.
  { destruct (rc_RateLimit r); [|naive_solver]. rewrite validateRateLimit_nil. naive_solver. }
  assert ((if bool_decide (rc_Service r = gatewayInternalService) then []
           else validateUpstream i r) = [] <->
          (rc_Service r <> gatewayInternalService ->
           rc_Targets r <> [] /\ rc_LoadBalancer r ∈ validLoadBalancers /\
           Forall ValidTarget (rc_Targets r))) as ->.
  { case_bool_decide; [naive_solver|]. rewrite validateUpstream_nil. naive_solver. }
  split; [intros (? & ? & ? & ? & ? & ? & ?); by split|intros []; auto 10].
Qed.

Lemma authRequired_true c :
  authRequired c = true <-> exists r, r ∈ cfg_Routes c /\ rc_AuthRequired r = true.
Proof.
  unfold authRequired. rewrite existsb_exists. by setoid_rewrite <- list_elem_of_In.
Qed.

Lemma rateLimitConfigured_true c :
  rateLimitConfigured c = true <-> exists r, r ∈ cfg_Routes c /\ is_Some (rc_RateLimit r).
Proof.
  unfold rateLimitConfigured. rewrite existsb_exists.
  setoid_rewrite bool_decide_eq_true. by setoid_rewrite <- list_elem_of_In.
Qed.

Lemma elem_of_routePaths c p :
  p ∈ routePaths c <-> p <> "" /\ exists r, r ∈ cfg_Routes c /\ TrimSpace (rc_Path r) = p.
Proof.
  unfold routePaths. rewrite elem_of_list_to_set, list_elem_of_filter, list_elem_of_fmap.
  naive_solver.
Qed.

Lemma find_none_Forall {A} (f : A -> bool) l :
  List.find f l = None <-> Forall (fun x => f x = false) l.
Proof.
  split.
  - intros H. apply Forall_forall. intros x Hx. apply (List.find_none _ _ H). by apply list_elem_of_In.
  - induction 1 as [|x l Hx _ IH]; simpl; [done|]. by rewrite Hx.
Qed.

(** For trimmed, nonempty route paths, no configured path overlaps the metrics path
    exactly when the scan over [routePaths] finds nothing. *)
Lemma no_overlap_scan c m :
  Forall (fun r => TrimSpace (rc_Path r) <> "") (cfg_Routes c) ->
  List.find (pathsOverlap m) (elements (routePaths c)) = None <->
  Forall (fun r => pathsOverlap m (TrimSpace (rc_Path r)) = false) (cfg_Routes c).
Proof.
  intros Hne. rewrite find_none_Forall, !Forall_forall.
  setoid_rewrite elem_of_elements. setoid_rewrite elem_of_routePaths.
  rewrite Forall_forall in Hne. naive_solver.
Qed.

Lemma validateMetrics_nil c :
  Forall (fun r => TrimSpace (rc_Path r) <> "") (cfg_Routes c) ->
  validateMetrics c = [] <->
  (mc_Enabled (cfg_Metrics c) = true ->
   let m := TrimSpace (mc_Path (cfg_Metrics c)) in
   HasPrefix m "/" = true /\ m <> "/" /\
   Forall (fun r => pathsOverlap m (TrimSpace (rc_Path r)) = false) (cfg_Routes c)).
Proof.
  intros Hne. unfold validateMetrics.
  destruct (mc_Enabled _); [|naive_solver].
  set (m := TrimSpace _). case_bool_decide as Hm.
  { rewrite Hm. split; [done|]. intros H. by destruct (H eq_refl). }
  destruct (HasPrefix m "/"); simpl; [|naive_solver].
  case_bool_decide; [naive_solver|].
  rewrite <- (no_overlap_scan c m Hne).
  destruct (List.find _ _); naive_solver.
Qed.

Lemma validateAuth_nil c :
  validateAuth c = [] <->
  ((exists r, r ∈ cfg_Routes c /\ rc_AuthRequired r = true) ->
     TrimSpace (ac_JWTSecret (cfg_Auth c)) <> "" /\
     TrimSpace (ac_JWTAlgorithm (cfg_Auth c)) = "HS256") /\
  (TrimSpace (ac_JWTAlgorithm (cfg_Auth c)) = "" \/
   TrimSpace (ac_JWTAlgorithm (cfg_Auth c)) = "HS256").
Proof.
  unfold validateAuth. err_conditions. rewrite <- authRequired_true.
  destruct (authRequired c); intuition congruence.
Qed.

Lemma validateRoutes_nil c :
  concat (imap validateRoute (cfg_Routes c)) = [] <-> Forall ValidRoute (cfg_Routes c).
Proof.
  rewrite concat_imap_nil. apply Forall_from_index. apply validateRoute_nil.
Qed.

Lemma validateServer_nil c :
  validateServer c = [] <->
  1 <= sc_Port (cfg_Server c) <= 65535 /\ 0 < sc_ReadTimeout (cfg_Server c) /\
  0 < sc_WriteTimeout (cfg_Server c).
Proof. unfold validateServer. err_conditions. lia. Qed.

Lemma validateCircuitBreaker_nil cb :
  validateCircuitBreaker cb = [] <->
  0 <= cb_FailureThreshold cb /\ 0 <= cb_SuccessThreshold cb /\ 0 <= cb_Timeout cb /\
  0 <= cb_WindowSize cb /\ 0 <= cb_HalfOpenMaxRequests cb.
Proof. unfold validateCircuitBreaker. by err_conditions. Qed.

Lemma validateRedis_nil c :
  errIf (rateLimitConfigured c && isBlank (rd_Address (cfg_Redis c))) ErrRedisAddressRequired
    = [] <->
  ((exists r, r ∈ cfg_Routes c /\ is_Some (rc_RateLimit r)) ->
   TrimSpace (rd_Address (cfg_Redis c)) <> "").
Proof.
  err_conditions. rewrite <- rateLimitConfigured_true.
  destruct (rateLimitConfigured c); intuition congruence.
Qed.

Lemma Validate_nil_iff c : Validate c = [] <-> ValidConfig c.
Proof.
  unfold Validate. rewrite !app_nil, validateServer_nil, validateCircuitBreaker_nil,
    validateRoutes_nil, validateAuth_nil, validateRedis_nil, errIf_nil, Z.ltb_ge.
  split.
  - intros ((? & ? & ?) & ? & Hr & [? ?] & ? & ? & Hm). split; auto.
    apply validateMetrics_nil; [|done]. eapply Forall_impl; [exact Hr|]. by intros r [].
  - intros [? ? ? ? Hr ? ? ? ? Hm]. split_and!; try done; [tauto..|].
    apply validateMetrics_nil; [|done]. eapply Forall_impl; [exact Hr|]. by intros r [].
Qed.

(** Trimming the right end only removes a suffix, so a raw route path that is a prefix
    of a path starting with a slash overlaps after trimming too. *)
Lemma TrimRightSpace_prefix s : HasPrefix s (TrimRightSpace s) = true.
Proof.
  unfold TrimRightSpace.
  destruct (trim_fuel_suffix (String.rev <$> space_encodings) (String.length s) (String.rev s))
    as [t Ht].
  apply HasPrefix_spec. exists (String.rev t).
  rewrite <- rev_append, <- Ht. by rewrite rev_involutive.
Qed.

Lemma TrimLeftSpace_slash s : TrimLeftSpace (String slash s) = String slash s.
Proof.
  apply trim_fuel_id. repeat constructor.
Qed.

Lemma raw_prefix_overlaps m p :
  HasPrefix m "/" = true -> TrimSpace p <> "" -> HasPrefix m p = true ->
  pathsOverlap m (TrimSpace p) = true.
Proof.
  intros Hm Hp Hpre. unfold pathsOverlap. apply orb_true_iff. left.
  eapply HasPrefix_trans; [exact Hpre|].
  destruct p as [|a p]; [done|].
  apply HasPrefix_spec in Hm as [u ->], Hpre as [v Hv].
  rewrite !append_cons in Hv. injection Hv as <- _.
  unfold TrimSpace. rewrite TrimLeftSpace_slash. apply TrimRightSpace_prefix.
Qed.

(** C20: [Validate] returns no error exactly for the valid configurations: every port,
    timeout, threshold, retry, rate-limit and target setting in range, the reserved paths
    left to the gateway, a secret and HS256 when a route needs them, a Redis address when
    a route is limited, and a metrics path that overlaps no route path. *)
Theorem validate_accepts_exactly_valid c : Validate c = [] <-> ValidConfig c.
Proof. apply Validate_nil_iff. Qed.
