(* ===== verification/ConfigFile.v ===== *)
(** * Loading and copying a configuration: [Load] and [Clone] of [internal/config/config.go]

    [Load] expands the environment's variables in the file before it is decoded; the decoder
    is a parameter.  [Clone] is modelled on a store, in which slices and the rate limit of a
    route are references: the theorem is that the copy reads the same and shares nothing with
    the original, so that neither sees what is written to the other. *)

From stdpp Require Import gmap strings.
From S2P Require Import Prelude GoStrings Config.
From stdpp Require Import options.
#[local] Set Default Proof Using "Type*".
#[local] Open Scope string_scope.

(** ** [os.ExpandEnv] *)

Definition dollar : ascii := byte 36.
Definition left_brace : ascii := byte 123.
Definition right_brace : ascii := byte 125.

Definition isShellSpecialVar (a : ascii) : bool :=
  let n := nat_of_ascii a in bool_decide (n ∈ [42; 35; 36; 64; 33; 63; 45]%nat) || ((48 <=? n) && (n <=? 57))%nat.

Definition isAlphaNum (a : ascii) : bool :=
  let n := nat_of_ascii a in ((n =? 95) || (48 <=? n) && (n <=? 57) || (97 <=? n) && (n <=? 122) || (65 <=? n) && (n <=? 90))%nat.

(** The longest prefix of alphanumerics, and what follows it. *)
Fixpoint scan_name (s : string) : string * string :=
  match s with
  | EmptyString => ("", "")
  | String a s' => if isAlphaNum a then let '(name, rest) := scan_name s' in (String a name, rest) else ("", s)
  end.

(** What follows a dollar: a name, nothing (bad syntax, whose characters are dropped), or no
    name at all; and what is left to expand. *)
Inductive ShellName := Name (name : string) | BadSyntax | NoName.

Definition getShellName (s : string) : ShellName * string :=
  match s with
  | EmptyString => (NoName, s)
  | String a s' =>
      if bool_decide (a = left_brace) then
        match Cut s' right_brace with
        | Some ("", rest) => (BadSyntax, rest)
        | Some (name, rest) => (Name name, rest)
        | None => (BadSyntax, s')
        end
      else if isShellSpecialVar a then (Name (String a ""), s')
      else match scan_name s with
      | ("", _) => (NoName, s)
      | (name, rest) => (Name name, rest)
      end
  end.

Section Expand.
Variable getenv : string -> string.

(** A dollar at the end stays.  Each round reads a byte at least: the length is fuel enough. *)
Fixpoint expand (fuel : nat) (s : string) : string :=
  match fuel, s with
  | O, _ | _, EmptyString => ""
  | S fuel, String a s =>
      if bool_decide (a = dollar) && negb (bool_decide (s = "")) then
        match getShellName s with
        | (Name name, rest) => getenv name +:+ expand fuel rest
        | (BadSyntax, rest) => expand fuel rest
        | (NoName, rest) => String dollar (expand fuel rest)
        end
      else String a (expand fuel s)
  end.

Definition ExpandEnv (s : string) : string := expand (String.length s) s.

(** [Load], given what reading the file gives and the YAML decoder. *)
Inductive LoadError (E : Type) := ReadConfig (err : E) | DecodeConfig (err : E).
Arguments ReadConfig {E}.
Arguments DecodeConfig {E}.

Definition Load {E} (read : sum E string) (decode : string -> sum E Config) : sum (LoadError E) Config :=
  match read with
  | inl err => inl (ReadConfig err)
  | inr rawConfig => match decode (ExpandEnv rawConfig) with inl err => inl (DecodeConfig err) | inr cfg => inr cfg end
  end.

Lemma scan_name_length s : (String.length (snd (scan_name s)) <= String.length s)%nat /\
  (fst (scan_name s) <> "" -> (String.length (snd (scan_name s)) < String.length s)%nat).
Proof. induction s as [|a s [IH _]]; cbn; [done|]. destruct (isAlphaNum a); [|done]. destruct (scan_name s) as [name rest]; cbn in *. split; [lia|]. intros _. lia. Qed.

Lemma Cut_length s c x y : Cut s c = Some (x, y) -> (String.length y < String.length s)%nat.
Proof.
  revert x. induction s as [|a s IH]; cbn; intros x; [done|]. case_bool_decide; [intros [= _ <-]; lia|].
  destruct (Cut s c) as [[x' y']|]; cbn; [|done]. intros [= _ <-]. specialize (IH x' eq_refl). lia.
Qed.

Lemma getShellName_length s : (String.length (snd (getShellName s)) <= String.length s)%nat.
Proof.
  unfold getShellName. destruct s as [|a s]; [done|]. case_bool_decide.
  - destruct (Cut s right_brace) as [[x y]|] eqn:Hc; [|cbn; lia]. apply Cut_length in Hc. destruct x; cbn; lia.
  - destruct (isShellSpecialVar a); [cbn; lia|]. pose proof (proj1 (scan_name_length (String a s))) as Hscan.
    destruct (scan_name (String a s)) as [[|b name] rest]; cbn [snd] in *; [done|lia].
Qed.

(** More fuel than the length changes nothing. *)
Lemma expand_enough fuel s : (String.length s <= fuel)%nat -> expand fuel s = ExpandEnv s.
Proof.
  unfold ExpandEnv. remember (String.length s) as n eqn:Hn. revert fuel s Hn. induction n as [n IH] using lt_wf_ind. intros fuel s -> Hf.
  destruct s as [|a s]; [by destruct fuel|]. destruct fuel as [|fuel]; [cbn in Hf; lia|]. cbn [String.length] in *. cbn [expand].
  assert (forall t, (String.length t <= String.length s)%nat -> expand fuel t = expand (String.length s) t) as Hshort.
  { intros t Ht. rewrite (IH (String.length t)) by (done || lia). symmetry. apply (IH (String.length t)); [lia|done|lia]. }
  destruct (_ && _); [|by rewrite Hshort]. pose proof (getShellName_length s) as Hl.
  destruct (getShellName s) as [[name| |] rest]; cbn [snd] in Hl; by rewrite Hshort.
Qed.

(** What holds no dollar is not changed. *)
Lemma expand_plain s t : contains_byte dollar s = false -> ExpandEnv (s +:+ t) = s +:+ ExpandEnv t.
Proof.
  induction s as [|a s IH]; [done|]. cbn [contains_byte]. intros [Ha Hs]%orb_false_iff.
  rewrite !append_cons. unfold ExpandEnv at 1. cbn [String.length expand]. rewrite Ha. cbn [andb]. rewrite expand_enough by done. by rewrite IH.
Qed.

Lemma ExpandEnv_dollar s :
  s <> "" ->
  ExpandEnv (String dollar s) =
    match getShellName s with
    | (Name name, rest) => getenv name +:+ ExpandEnv rest
    | (BadSyntax, rest) => ExpandEnv rest
    | (NoName, rest) => String dollar (ExpandEnv rest)
    end.
Proof.
  intros Hs. unfold ExpandEnv at 1. set (n := String.length s). change (String.length (String dollar s)) with (S n). cbn [expand].
  rewrite (bool_decide_eq_true_2 (dollar = dollar)), bool_decide_eq_false_2 by done. cbn [andb negb].
  pose proof (getShellName_length s) as Hl. destruct (getShellName s) as [[name| |] rest]; cbn [snd] in Hl; by rewrite expand_enough.
Qed.

(** [${NAME}] becomes the variable's value, which is not expanded again. *)
Lemma expand_variable s name t :
  contains_byte dollar s = false -> contains_byte right_brace name = false -> name <> "" ->
  ExpandEnv (s +:+ String dollar (String left_brace (name +:+ String right_brace t))) = s +:+ getenv name +:+ ExpandEnv t.
Proof.
  intros Hs Hn Hne. rewrite expand_plain, ExpandEnv_dollar by done. cbn [getShellName].
  assert (Cut (name +:+ String right_brace t) right_brace = Some (name, t)) as Hcut.
  { clear Hne. induction name as [|a name IH]; [rewrite append_nil_l; cbn; by rewrite bool_decide_eq_true_2|].
    cbn [contains_byte] in Hn. apply orb_false_iff in Hn as [Ha Hn]. rewrite append_cons. cbn [Cut]. rewrite Ha. by rewrite IH. }
  rewrite bool_decide_eq_true_2, Hcut by done. by destruct name.
Qed.
End Expand.

Definition demo_getenv (name : string) : string := if bool_decide (name = "JWT_SECRET") then "s3$cret" else "".

Example ExpandEnv_examples :
  ExpandEnv demo_getenv "secret: ${JWT_SECRET}" = "secret: s3$cret" /\ ExpandEnv demo_getenv "secret: $JWT_SECRET." = "secret: s3$cret." /\
  ExpandEnv demo_getenv "cost: 5$" = "cost: 5$" /\ ExpandEnv demo_getenv "p$ss ${} ${open $" = "p  open $" /\ ExpandEnv demo_getenv "a$ b" = "a$ b".
Proof. by vm_compute. Qed.

(** ** [Clone], on a store

    A slice that is not empty is a reference to its array, and a rate limit is a pointer; an
    empty slice holds nothing that could be shared. *)

Notation Loc := positive.

(** A route as it lies in an array: its fields of basic types, and its references.  [ro_Fields]
    has no methods, targets and rate limit of its own. *)
Record RouteObj := mkRouteObj { ro_Fields : RouteConfig; ro_Methods : option Loc; ro_Targets : option Loc; ro_RateLimit : option Loc }.

Inductive Cell :=
  | CellMethods (methods : list string)
  | CellTargets (targets : list Target)
  | CellRateLimit (rl : RateLimitConfig)
  | CellRoutes (routes : list RouteObj).

Notation Store := (gmap positive Cell).

(** [co_Fields] has no routes of its own. *)
Record ConfigObj := mkConfigObj { co_Fields : Config; co_Routes : option Loc }.

Implicit Types (st : Store) (r : option Loc).

(** *** Reading *)

Definition deref {A} (f : Cell -> option A) (empty : A) st r : option A :=
  match r with None => Some empty | Some l => c ← st !! l; f c end.

Definition as_methods (c : Cell) : option (list string) := match c with CellMethods x => Some x | _ => None end.
Definition as_targets (c : Cell) : option (list Target) := match c with CellTargets x => Some x | _ => None end.
Definition as_rate_limit (c : Cell) : option (option RateLimitConfig) := match c with CellRateLimit x => Some (Some x) | _ => None end.
(** An array of routes that a slice refers to is not empty. *)
Definition as_routes (c : Cell) : option (list RouteObj) := match c with CellRoutes (o :: x) => Some (o :: x) | _ => None end.

Definition read_route st (o : RouteObj) : option RouteConfig :=
  methods ← deref as_methods [] st (ro_Methods o);
  targets ← deref as_targets [] st (ro_Targets o);
  rateLimit ← deref as_rate_limit None st (ro_RateLimit o);
  let f := ro_Fields o in
  Some (mkRouteConfig (rc_Path f) (rc_StripPrefix f) (rc_Service f) methods (rc_AuthRequired f) (rc_Timeout f) rateLimit (rc_Retry f) targets (rc_LoadBalancer f)).

Definition read_config st (c : ConfigObj) : option Config :=
  objs ← deref as_routes [] st (co_Routes c);
  routes ← mapM (read_route st) objs;
  let f := co_Fields c in
  Some (mkConfig (cfg_Server f) routes (cfg_CircuitBreaker f) (cfg_Auth f) (cfg_Redis f) (cfg_Metrics f) (cfg_Logging f)).

(** *** Copying *)

(** A new array, or a new rate limit, with what the old one holds. *)
Definition copy r st : option Loc * Store :=
  match r with
  | None => (None, st)
  | Some l => match st !! l with
      | None => (None, st)
      | Some c => let l' := fresh (dom st) in (Some l', <[l' := c]> st)
      end
  end.

Definition cloneRouteConfig (o : RouteObj) st : RouteObj * Store :=
  let '(methods, st) := copy (ro_Methods o) st in
  let '(targets, st) := copy (ro_Targets o) st in
  let '(rateLimit, st) := copy (ro_RateLimit o) st in
  (mkRouteObj (ro_Fields o) methods targets rateLimit, st).

Fixpoint cloneRoutes (objs : list RouteObj) st : list RouteObj * Store :=
  match objs with
  | [] => ([], st)
  | o :: objs => let '(o, st) := cloneRouteConfig o st in let '(objs, st) := cloneRoutes objs st in (o :: objs, st)
  end.

Definition Clone (c : ConfigObj) st : ConfigObj * Store :=
  match deref as_routes [] st (co_Routes c) with
  | Some (o :: objs) =>
      let '(objs, st) := cloneRoutes (o :: objs) st in
      let l := fresh (dom st) in (mkConfigObj (co_Fields c) (Some l), <[l := CellRoutes objs]> st)
  | _ => (c, st)
  end.

(** *** What a configuration reaches *)

Definition loc_set r : gset Loc := match r with Some l => {[ l ]} | None => ∅ end.
Definition reach_route (o : RouteObj) : gset Loc := loc_set (ro_Methods o) ∪ loc_set (ro_Targets o) ∪ loc_set (ro_RateLimit o).
Definition reach st (c : ConfigObj) : gset Loc :=
  loc_set (co_Routes c) ∪ match deref as_routes [] st (co_Routes c) with Some objs => ⋃ (reach_route <$> objs) | None => ∅ end.

(** Reading depends on what is reached only. *)
Definition agree (X : gset Loc) st st' : Prop := forall l, l ∈ X -> st !! l = st' !! l.

Lemma deref_agree {A} (f : Cell -> option A) empty st st' r : agree (loc_set r) st st' -> deref f empty st r = deref f empty st' r.
Proof. destruct r as [l|]; [|done]. intros H. cbn. by rewrite (H l) by (cbn; set_solver). Qed.

Lemma agree_mono X Y st st' : agree X st st' -> Y ⊆ X -> agree Y st st'.
Proof. intros H HY l Hl. apply H. set_solver. Qed.

Lemma read_route_agree st st' o : agree (reach_route o) st st' -> read_route st o = read_route st' o.
Proof.
  intros H. unfold read_route. rewrite (deref_agree as_methods [] st st'), (deref_agree as_targets [] st st'), (deref_agree as_rate_limit None st st'); [done|..];
    (eapply agree_mono; [exact H|unfold reach_route; set_solver]).
Qed.

Lemma read_routes_agree st st' objs : agree (⋃ (reach_route <$> objs)) st st' -> mapM (read_route st) objs = mapM (read_route st') objs.
Proof.
  induction objs as [|o objs IH]; intros H; [done|]. cbn in *. rewrite (read_route_agree st st'), IH; [done|..]; (eapply agree_mono; [exact H|set_solver]).
Qed.

Lemma read_config_agree st st' c : agree (reach st c) st st' -> read_config st c = read_config st' c /\ reach st c = reach st' c.
Proof.
  intros H. unfold read_config, reach in *.
  rewrite (deref_agree as_routes [] st st') in * by (eapply agree_mono; [exact H|set_solver]).
  destruct (deref as_routes [] st' _) as [objs|]; cbn; [|done]. rewrite (read_routes_agree st st'); [done|]. eapply agree_mono; [exact H|set_solver].
Qed.

(** *** The copy *)

(** The store is extended, by locations that were free. *)
Definition extends st st' (new : gset Loc) : Prop := st ⊆ st' /\ new ## dom st /\ new ⊆ dom st'.

Lemma extends_trans st st1 st2 X Y : extends st st1 X -> extends st1 st2 Y -> extends st st2 (X ∪ Y) /\ X ## Y.
Proof.
  intros (H1 & H2 & H3) (H4 & H5 & H6). apply subseteq_dom in H1 as Hd1, H4 as Hd4. unfold extends. split_and!; [by etrans|set_solver..].
Qed.

Lemma extends_fresh st c : extends st (<[fresh (dom st) := c]> st) {[ fresh (dom st) ]}.
Proof.
  pose proof (is_fresh (dom st)) as Hf. unfold extends. split_and!; [|set_solver|rewrite dom_insert; set_solver].
  apply insert_subseteq, not_elem_of_dom, Hf.
Qed.

Lemma copy_spec {A} (f : Cell -> option A) empty r st x :
  deref f empty st r = Some x ->
  let '(r', st') := copy r st in extends st st' (loc_set r') /\ deref f empty st' r' = Some x.
Proof.
  unfold copy. destruct r as [l|]; cbn; [|intros [= ->]; unfold extends; split_and!; (done || set_solver)].
  destruct (st !! l) as [c|] eqn:Hl; cbn; [|done]. intros Hx. split; [apply extends_fresh|]. cbn. by rewrite lookup_insert_eq.
Qed.

Lemma deref_mono {A} (f : Cell -> option A) empty st st' r x : st ⊆ st' -> deref f empty st r = Some x -> deref f empty st' r = Some x.
Proof. destruct r as [l|]; [|done]. cbn. intros Hs. destruct (st !! l) as [c|] eqn:Hl; [|done]. by rewrite (lookup_weaken _ _ _ _ Hl Hs). Qed.

Lemma read_route_inv st o route :
  read_route st o = Some route ->
  deref as_methods [] st (ro_Methods o) = Some (rc_Methods route) /\ deref as_targets [] st (ro_Targets o) = Some (rc_Targets route) /\
  deref as_rate_limit None st (ro_RateLimit o) = Some (rc_RateLimit route).
Proof.
  unfold read_route. destruct (deref as_methods _ _ _) as [m|]; [|done]. destruct (deref as_targets _ _ _) as [t|]; [|done].
  destruct (deref as_rate_limit _ _ _) as [rl|]; [|done]. by intros [= <-].
Qed.

Lemma read_route_mono st st' o route : st ⊆ st' -> read_route st o = Some route -> read_route st' o = Some route.
Proof.
  intros Hs Hr. destruct (read_route_inv _ _ _ Hr) as (H1 & H2 & H3). unfold read_route in *. rewrite H1, H2, H3 in Hr.
  by rewrite (deref_mono _ _ _ _ _ _ Hs H1), (deref_mono _ _ _ _ _ _ Hs H2), (deref_mono _ _ _ _ _ _ Hs H3).
Qed.

Lemma cloneRouteConfig_spec o st route :
  read_route st o = Some route ->
  let '(o', st') := cloneRouteConfig o st in extends st st' (reach_route o') /\ read_route st' o' = Some route.
Proof.
  intros Hr. destruct (read_route_inv _ _ _ Hr) as (H1 & H2 & H3). unfold cloneRouteConfig.
  pose proof (copy_spec _ _ _ _ _ H1) as C1. destruct (copy (ro_Methods o) st) as [m st1]. destruct C1 as [E1 D1].
  apply (deref_mono _ _ _ st1) in H2; [|apply E1]. apply (deref_mono _ _ _ st1) in H3; [|apply E1].
  pose proof (copy_spec _ _ _ _ _ H2) as C2. destruct (copy (ro_Targets o) st1) as [t st2]. destruct C2 as [E2 D2].
  apply (deref_mono _ _ _ st2) in H3; [|apply E2]. apply (deref_mono _ _ _ st2) in D1; [|apply E2].
  pose proof (copy_spec _ _ _ _ _ H3) as C3. destruct (copy (ro_RateLimit o) st2) as [rl st3]. destruct C3 as [E3 D3].
  apply (deref_mono _ _ _ st3) in D1; [|apply E3]. apply (deref_mono _ _ _ st3) in D2; [|apply E3].
  destruct (extends_trans _ _ _ _ _ E1 E2) as [E12 _]. destruct (extends_trans _ _ _ _ _ E12 E3) as [E _]. split; [exact E|].
  unfold read_route in *. cbn [ro_Methods ro_Targets ro_RateLimit ro_Fields]. rewrite D1, D2, D3.
  destruct (deref as_methods _ st _) as [ms|]; [|done]. destruct (deref as_targets _ st _) as [ts|]; [|done].
  destruct (deref as_rate_limit _ st _) as [rs|]; [|done]. by injection Hr as <-.
Qed.

Lemma read_routes_mono st st' objs routes : st ⊆ st' -> mapM (read_route st) objs = Some routes -> mapM (read_route st') objs = Some routes.
Proof. rewrite !mapM_Some. intros Hs Hall. eapply Forall2_impl; [exact Hall|]. intros o route. by apply read_route_mono. Qed.

Lemma cloneRoutes_spec objs st routes :
  mapM (read_route st) objs = Some routes ->
  let '(objs', st') := cloneRoutes objs st in extends st st' (⋃ (reach_route <$> objs')) /\ mapM (read_route st') objs' = Some routes.
Proof.
  rewrite mapM_Some. intros Hall. revert st Hall. induction routes as [|route routes IH] in objs |- *; intros st Hall.
  - inversion Hall; subst. cbn. unfold extends. split_and!; (done || set_solver).
  - inversion Hall as [|o ? objs0 ? Ho Hobjs]; subst. cbn [cloneRoutes].
    pose proof (cloneRouteConfig_spec _ _ _ Ho) as C1. destruct (cloneRouteConfig o st) as [o' st1]. destruct C1 as [E1 D1].
    assert (Forall2 (fun o route => read_route st1 o = Some route) objs0 routes) as Hobjs1.
    { eapply Forall2_impl; [exact Hobjs|]. intros o1 route1. apply read_route_mono, E1. }
    specialize (IH objs0 st1 Hobjs1). destruct (cloneRoutes objs0 st1) as [objs' st2]. destruct IH as [E2 D2].
    destruct (extends_trans _ _ _ _ _ E1 E2) as [E _]. split; [exact E|]. cbn. rewrite (read_route_mono _ _ _ _ (proj1 E2) D1), D2. done.
Qed.

Lemma loc_set_dom {A} (f : Cell -> option A) empty st r x : deref f empty st r = Some x -> loc_set r ⊆ dom st.
Proof. destruct r as [l|]; cbn; [|set_solver]. destruct (st !! l) eqn:Hl; [|done]. intros _ l' ->%elem_of_singleton. by eapply elem_of_dom_2. Qed.

Lemma read_route_dom st o route : read_route st o = Some route -> reach_route o ⊆ dom st.
Proof. intros (H1 & H2 & H3)%read_route_inv. apply loc_set_dom in H1, H2, H3. unfold reach_route. set_solver. Qed.

Lemma read_config_dom st c cfg : read_config st c = Some cfg -> reach st c ⊆ dom st.
Proof.
  unfold read_config, reach. destruct (deref as_routes _ _ _) as [objs|] eqn:Hd; [|done]. cbn. apply loc_set_dom in Hd.
  destruct (mapM _ _) as [routes|] eqn:Hm; [|done]. intros _. apply mapM_Some in Hm.
  assert (⋃ (reach_route <$> objs) ⊆ dom st); [|set_solver]. clear Hd. induction Hm as [|o route objs routes Ho _ IH]; cbn; [set_solver|].
  apply read_route_dom in Ho. set_solver.
Qed.

(** A write elsewhere is not seen. *)
Lemma read_config_write st c cfg l cell : read_config st c = Some cfg -> l ∉ reach st c -> read_config (<[l := cell]> st) c = Some cfg.
Proof.
  intros Hr Hl. destruct (read_config_agree st (<[l := cell]> st) c) as [<- _]; [|done]. intros l' Hl'. rewrite lookup_insert_ne; [done|]. intros ->. done.
Qed.

(** C7: a clone is independent: it reads as the original, which reads as before; the two share no
    array and no rate limit; and whatever is written to what one of them reaches, the other
    reads the same. *)
Theorem clone_is_independent c st cfg :
  read_config st c = Some cfg ->
  let '(c', st') := Clone c st in
  read_config st' c' = Some cfg /\ read_config st' c = Some cfg /\ reach st' c' ## reach st' c /\
  forall l cell, (l ∈ reach st' c -> read_config (<[l := cell]> st') c' = Some cfg) /\ (l ∈ reach st' c' -> read_config (<[l := cell]> st') c = Some cfg).
Proof.
  intros Hr. destruct (Clone c st) as [c' st'] eqn:Hc.
  enough (read_config st' c' = Some cfg /\ read_config st' c = Some cfg /\ reach st' c' ## reach st' c) as (H1 & H2 & H3).
  { split_and!; [done..|]. intros l cell. split; intros Hl; (apply read_config_write; [done|set_solver]). }
  pose proof (read_config_dom st c cfg Hr) as Hdom. unfold Clone in Hc. pose proof Hr as Hr0. unfold read_config in Hr.
  destruct (deref as_routes [] st (co_Routes c)) as [objs|] eqn:Hd; [|done]. cbn in Hr.
  destruct objs as [|o objs].
  - injection Hc as <- <-. split_and!; [done..|]. unfold reach. rewrite Hd. cbn.
    destruct (co_Routes c) as [l|]; [|set_solver]. cbn in Hd. destruct (st !! l) as [[| | |[]]|]; done.
  - destruct (mapM (read_route st) (o :: objs)) as [routes|] eqn:Hm; [|done]. cbn in Hr. injection Hr as <-.
    pose proof (cloneRoutes_spec _ _ _ Hm) as Hs. destruct (cloneRoutes (o :: objs) st) as [objs' st1] eqn:Hcl. destruct Hs as [E1 D1].
    injection Hc as <- <-. pose proof (extends_fresh st1 (CellRoutes objs')) as E2. destruct (extends_trans _ _ _ _ _ E1 E2) as [E _].
    assert (exists o' rest, objs' = o' :: rest) as (o' & rest & ->).
    { cbn in Hcl. destruct (cloneRouteConfig o st) as [o1 st2]. destruct (cloneRoutes objs st2) as [rest st3]. injection Hcl as <- _. eauto. }
    set (l := fresh (dom st1)) in *. set (st2 := <[l := _]> st1) in *.
    assert (reach st2 (mkConfigObj (co_Fields c) (Some l)) = {[ l ]} ∪ ⋃ (reach_route <$> o' :: rest)) as Hreach.
    { unfold reach. cbn [co_Routes deref]. unfold st2. by rewrite lookup_insert_eq. }
    destruct (read_config_agree st st2 c) as [Hsame Hsamer].
    { intros l0 Hl0. apply Hdom, elem_of_dom in Hl0 as [x Hx]. rewrite Hx. symmetry. eapply lookup_weaken; [exact Hx|apply E]. }
    split_and!.
    + unfold read_config. cbn [co_Routes deref]. replace (st2 !! l) with (Some (CellRoutes (o' :: rest))) by (unfold st2; by rewrite lookup_insert_eq). cbn [mbind option_bind as_routes].
      by rewrite (read_routes_mono _ _ _ _ (proj1 E2) D1).
    + by rewrite <- Hsame.
    + rewrite Hreach, <- Hsamer. destruct E as (_ & E & _). intros x Hx Hx'. apply (E x); [|by apply Hdom].
      apply elem_of_union. apply elem_of_union in Hx as [Hx|Hx]; auto.
Qed.

(** A configuration with a route that has methods, a target and a rate limit. *)
Definition demo_store : Store :=
  {[ 1%positive := CellMethods ["GET"]; 2%positive := CellTargets [mkTarget "o" 80 1]; 3%positive := CellRateLimit (mkRateLimitConfig 10 Minute "sliding_window");
     4%positive := CellRoutes [mkRouteObj (mkRouteConfig "/api" "" "orders" [] false 0 None (mkRetryConfig 0 0 0 "") [] "") (Some 1%positive) (Some 2%positive) (Some 3%positive)] ]}.
Definition demo_config_obj : ConfigObj :=
  mkConfigObj (mkConfig (mkServerConfig 8080 0 0) [] (mkCBConfig 1 1 1 1 1) (mkAuthConfig "" "") (mkRedisConfig "" "" 0) (mkMetricsConfig false "") (mkLoggingConfig "" "")) (Some 4%positive).

Lemma clone_is_independent_witness :
  let '(c', st') := Clone demo_config_obj demo_store in
  is_Some (read_config st' c') /\ read_config (<[3%positive := CellRateLimit (mkRateLimitConfig 0 0 "")]> st') c' = read_config st' c'.
Proof.
  destruct (read_config demo_store demo_config_obj) as [cfg|] eqn:Hr; [|vm_compute in Hr; discriminate Hr].
  pose proof (clone_is_independent demo_config_obj demo_store cfg Hr) as H.
  assert (3%positive ∈ reach (snd (Clone demo_config_obj demo_store)) demo_config_obj) as Hin by (vm_compute; reflexivity).
  destruct (Clone demo_config_obj demo_store) as [c' st']. destruct H as (H1 & _ & _ & H2).
  split; [by exists cfg|]. rewrite H1. by apply (H2 3%positive).
Defined.
