(* ===== verification/Http.v ===== *)
(** * HTTP messages

    Headers with canonical keys, and the parts of [http.Request] and [http.Response] the
    gateway reads and writes.  A request's context is the values the gateway stores in it:
    the matched route and the attempt metadata.  A response body is nil, [http.NoBody] or
    a reader, named by a number into the state of whoever owns it. *)

From S2P Require Import Prelude GoStrings GoErrors Config.
From stdpp Require Import options.

(** ** Headers *)

Abbreviation Header := (gmap string (list string)).

Definition is_upper (a : ascii) : bool :=
  let n := nat_of_ascii a in (65 <=? n)%nat && (n <=? 90)%nat.
Definition is_lower (a : ascii) : bool :=
  let n := nat_of_ascii a in (97 <=? n)%nat && (n <=? 122)%nat.
Definition is_digit (a : ascii) : bool :=
  let n := nat_of_ascii a in (48 <=? n)%nat && (n <=? 57)%nat.

(** The punctuation of a header field token. *)
Definition token_punctuation : list nat := [33; 35; 36; 37; 38; 39; 42; 43; 45; 46; 94; 95; 96; 124; 126]%nat.

Definition validHeaderFieldByte (a : ascii) : bool :=
  is_upper a || is_lower a || is_digit a || bool_decide (nat_of_ascii a ∈ token_punctuation).

Fixpoint canonical_bytes (upper : bool) (s : string) : string :=
  match s with
  | EmptyString => EmptyString
  | String a s =>
      let a :=
        if upper && is_lower a then ascii_of_nat (nat_of_ascii a - 32)
        else if negb upper && is_upper a then ascii_of_nat (nat_of_ascii a + 32)
        else a in
      String a (canonical_bytes (bool_decide (a = byte 45)) s)
  end.

Fixpoint all_bytes (p : ascii -> bool) (s : string) : bool :=
  match s with EmptyString => true | String a s => p a && all_bytes p s end.

(** [textproto.CanonicalMIMEHeaderKey] *)
Definition CanonicalHeaderKey (key : string) : string :=
  if all_bytes validHeaderFieldByte key then canonical_bytes true key else key.

Definition Header_Get (h : Header) (key : string) : string :=
  match h !! CanonicalHeaderKey key with Some (v :: _) => v | _ => "" end.
Definition Header_Set (key value : string) (h : Header) : Header :=
  <[CanonicalHeaderKey key := [value]]> h.
Definition Header_Del (key : string) (h : Header) : Header :=
  delete (CanonicalHeaderKey key) h.

Lemma Header_Get_Set h key value : Header_Get (Header_Set key value h) key = value.
Proof. unfold Header_Get, Header_Set. by rewrite lookup_insert_eq. Qed.

Lemma Header_Get_Set_ne h key key' value :
  CanonicalHeaderKey key <> CanonicalHeaderKey key' ->
  Header_Get (Header_Set key value h) key' = Header_Get h key'.
Proof. intros H. unfold Header_Get, Header_Set. by rewrite lookup_insert_ne. Qed.

Lemma Header_Get_Del h key : Header_Get (Header_Del key h) key = "".
Proof. unfold Header_Get, Header_Del. by rewrite lookup_delete_eq. Qed.

Lemma Header_Get_Del_ne h key key' :
  CanonicalHeaderKey key <> CanonicalHeaderKey key' ->
  Header_Get (Header_Del key h) key' = Header_Get h key'.
Proof. intros H. unfold Header_Get, Header_Del. by rewrite lookup_delete_ne. Qed.

(** ** Requests *)

(** A body reader: what it yields before it ends, the error it ends with if it is not
    [io.EOF], and the error of its [Close]. *)
Inductive RequestBody :=
  | BodyNil
  | BodyNoBody
  | BodyReader (content : string) (readErr closeErr : option error).

(** The value the transports keep in the request context. *)
Record attemptMetadata := mkMetadata {
  md_retryCount : Z;
  md_target : string;
  md_triedTargets : list string;
}.

Record Request := mkRequest {
  rq_Method : string;
  rq_Scheme : string;
  rq_URLHost : string;
  rq_Path : string;
  rq_RawPath : string;
  rq_Host : string;
  rq_Header : Header;
  rq_Body : RequestBody;
  rq_GetBody : option (sum error RequestBody);
  rq_ContentLength : Z;
  rq_RemoteAddr : string;
  rq_route : option RouteConfig;
  rq_attempt : option attemptMetadata;
}.

Definition with_body (body : RequestBody) (getBody : option (sum error RequestBody)) (len : Z)
    (r : Request) : Request :=
  mkRequest (rq_Method r) (rq_Scheme r) (rq_URLHost r) (rq_Path r) (rq_RawPath r) (rq_Host r)
    (rq_Header r) body getBody len (rq_RemoteAddr r) (rq_route r) (rq_attempt r).

Definition with_attempt (m : attemptMetadata) (r : Request) : Request :=
  mkRequest (rq_Method r) (rq_Scheme r) (rq_URLHost r) (rq_Path r) (rq_RawPath r) (rq_Host r)
    (rq_Header r) (rq_Body r) (rq_GetBody r) (rq_ContentLength r) (rq_RemoteAddr r) (rq_route r) (Some m).

Definition with_route (route : RouteConfig) (r : Request) : Request :=
  mkRequest (rq_Method r) (rq_Scheme r) (rq_URLHost r) (rq_Path r) (rq_RawPath r) (rq_Host r)
    (rq_Header r) (rq_Body r) (rq_GetBody r) (rq_ContentLength r) (rq_RemoteAddr r) (Some route) (rq_attempt r).

Definition with_upstream (scheme urlHost host : string) (r : Request) : Request :=
  mkRequest (rq_Method r) scheme urlHost (rq_Path r) (rq_RawPath r) host
    (rq_Header r) (rq_Body r) (rq_GetBody r) (rq_ContentLength r) (rq_RemoteAddr r) (rq_route r) (rq_attempt r).

Definition with_header (h : Header) (r : Request) : Request :=
  mkRequest (rq_Method r) (rq_Scheme r) (rq_URLHost r) (rq_Path r) (rq_RawPath r) (rq_Host r)
    h (rq_Body r) (rq_GetBody r) (rq_ContentLength r) (rq_RemoteAddr r) (rq_route r) (rq_attempt r).

Definition with_path (scheme path rawPath : string) (r : Request) : Request :=
  mkRequest (rq_Method r) scheme (rq_URLHost r) path rawPath (rq_Host r)
    (rq_Header r) (rq_Body r) (rq_GetBody r) (rq_ContentLength r) (rq_RemoteAddr r) (rq_route r) (rq_attempt r).

(** [middleware.GetRouteConfig] *)
Definition GetRouteConfig (r : Request) : option RouteConfig := rq_route r.

(** ** Responses *)

Inductive ResponseBody := RNil | RNoBody | RReader (id : nat).

Record Response := mkResponse {
  rs_StatusCode : Z;
  rs_Header : option Header;
  rs_Body : ResponseBody;
  rs_Request : option Request;
}.

Definition StatusOK : Z := 200.
Definition StatusBadRequest : Z := 400.
Definition StatusUnauthorized : Z := 401.
Definition StatusNotFound : Z := 404.
Definition StatusMethodNotAllowed : Z := 405.
Definition StatusTooManyRequests : Z := 429.
Definition StatusInternalServerError : Z := 500.
Definition StatusNotImplemented : Z := 501.
Definition StatusBadGateway : Z := 502.
Definition StatusServiceUnavailable : Z := 503.
Definition StatusGatewayTimeout : Z := 504.

(** What [http.RoundTripper.RoundTrip] returns. *)
Abbreviation RoundTripResult := (option Response * option error)%type.
