(* ===== verification/Breaker.v ===== *)
(** * One circuit breaker: [internal/transport/circuitbreaker/breaker.go]

    Every method holds the breaker's mutex from start to end, so a concurrent
    execution is a sequence of the operations below.  A method reads the clock once;
    its reading is the argument [now].  [stateChangeCallback] is a value of an
    abstract type [C]; the calls a method makes to it are returned as a list, in the
    order the method makes them. *)

From S2P Require Import Prelude GoStrings Config.
From stdpp Require Import options.

Inductive State := StateClosed | StateOpen | StateHalfOpen.

#[export] Instance State_eq_dec : EqDecision State.
Proof. solve_decision. Defined.

Definition normalizeConfig (cfg : CBConfig) : CBConfig := {|
  cb_FailureThreshold := if cb_FailureThreshold cfg <=? 0 then 5 else cb_FailureThreshold cfg;
  cb_SuccessThreshold := if cb_SuccessThreshold cfg <=? 0 then 3 else cb_SuccessThreshold cfg;
  cb_Timeout := if cb_Timeout cfg <=? 0 then 30 * Second else cb_Timeout cfg;
  cb_WindowSize := if cb_WindowSize cfg <=? 0 then 60 * Second else cb_WindowSize cfg;
  cb_HalfOpenMaxRequests :=
    if cb_HalfOpenMaxRequests cfg <=? 0 then 3 else cb_HalfOpenMaxRequests cfg;
|}.

Arguments normalizeConfig : simpl never.

Record Breaker (C : Type) := mkBreaker {
  b_config : CBConfig;
  b_stateChangeCallback : option C;
  b_state : State;
  b_openUntil : Time;
  b_failures : list Time;
  b_halfOpenSuccesses : Z;
  b_halfOpenInFlight : Z;
}.
Arguments mkBreaker {C}.
Arguments b_config {C}.
Arguments b_stateChangeCallback {C}.
Arguments b_state {C}.
Arguments b_openUntil {C}.
Arguments b_failures {C}.
Arguments b_halfOpenSuccesses {C}.
Arguments b_halfOpenInFlight {C}.

Section Breaker.
Context {C : Type}.
Implicit Types b : Breaker C.

(** A breaker after a method, and the callback calls the method made. *)
Abbreviation Effect := (Breaker C * list (C * State))%type.

Definition New (config : CBConfig) : Breaker C := {|
  b_config := normalizeConfig config;
  b_stateChangeCallback := None;
  b_state := StateClosed;
  b_openUntil := zero_time;
  b_failures := [];
  b_halfOpenSuccesses := 0;
  b_halfOpenInFlight := 0;
|}.

(** [if b.stateChangeCallback != nil { b.stateChangeCallback(s) }] *)
Definition notify b (s : State) : list (C * State) :=
  match b_stateChangeCallback b with Some c => [(c, s)] | None => [] end.

Definition with_failures (fs : list Time) b : Breaker C :=
  mkBreaker (b_config b) (b_stateChangeCallback b) (b_state b) (b_openUntil b)
    fs (b_halfOpenSuccesses b) (b_halfOpenInFlight b).

Definition with_openUntil (t : Time) b : Breaker C :=
  mkBreaker (b_config b) (b_stateChangeCallback b) (b_state b) t
    (b_failures b) (b_halfOpenSuccesses b) (b_halfOpenInFlight b).

Definition with_halfOpen (successes inFlight : Z) b : Breaker C :=
  mkBreaker (b_config b) (b_stateChangeCallback b) (b_state b) (b_openUntil b)
    (b_failures b) successes inFlight.

Definition openLocked (now : Time) b : Effect :=
  (mkBreaker (b_config b) (b_stateChangeCallback b) StateOpen
     (AddDuration now (cb_Timeout (b_config b))) [] 0 0,
   notify b StateOpen).

Definition closeLocked b : Effect :=
  (mkBreaker (b_config b) (b_stateChangeCallback b) StateClosed zero_time [] 0 0,
   notify b StateClosed).

Definition ForceClose b : Effect :=
  (mkBreaker (b_config b) (b_stateChangeCallback b) StateClosed zero_time [] 0 0,
   notify b StateClosed).

Definition pruneFailuresLocked (now : Time) b : Breaker C :=
  if (cb_WindowSize (b_config b) <=? 0) || bool_decide (b_failures b = []) then b
  else
    let cutoff := AddDuration now (- cb_WindowSize (b_config b)) in
    with_failures (List.filter (fun failureAt => negb (Before failureAt cutoff)) (b_failures b)) b.

(** [if len(b.failures) >= b.config.FailureThreshold { b.openLocked(now) }] *)
Definition tripIfThreshold (now : Time) b : Effect :=
  if cb_FailureThreshold (b_config b) <=? Z.of_nat (length (b_failures b))
  then openLocked now b else (b, []).

(** [b.state == StateOpen && !now.Before(b.openUntil)] *)
Definition timeoutElapsed (now : Time) b : bool :=
  bool_decide (b_state b = StateOpen) && negb (Before now (b_openUntil b)).

Definition Allow (now : Time) b : bool * Effect :=
  let '(b, calls) :=
    if timeoutElapsed now b
    then (mkBreaker (b_config b) (b_stateChangeCallback b) StateHalfOpen (b_openUntil b)
            (b_failures b) 0 0, notify b StateHalfOpen)
    else (b, []) in
  match b_state b with
  | StateClosed => (true, (b, calls))
  | StateOpen => (false, (b, calls))
  | StateHalfOpen =>
      if cb_HalfOpenMaxRequests (b_config b) <=? b_halfOpenInFlight b
      then (false, (b, calls))
      else (true, (with_halfOpen (b_halfOpenSuccesses b) (b_halfOpenInFlight b + 1) b, calls))
  end.

(** [if b.halfOpenInFlight > 0 { b.halfOpenInFlight-- }] *)
Definition decInFlight (n : Z) : Z := if 0 <? n then n - 1 else n.

(** [if b.halfOpenSuccesses >= b.config.SuccessThreshold && b.halfOpenInFlight == 0 {
       b.closeLocked() }] *)
Definition closeIfRecovered b : Effect :=
  if (cb_SuccessThreshold (b_config b) <=? b_halfOpenSuccesses b) &&
     (b_halfOpenInFlight b =? 0)
  then closeLocked b else (b, []).

Definition RecordSuccess (now : Time) b : Effect :=
  match b_state b with
  | StateClosed => (pruneFailuresLocked now b, [])
  | StateHalfOpen =>
      closeIfRecovered
        (with_halfOpen (b_halfOpenSuccesses b + 1) (decInFlight (b_halfOpenInFlight b)) b)
  | StateOpen => (b, [])
  end.

Definition RecordFailure (now : Time) b : Effect :=
  match b_state b with
  | StateClosed =>
      tripIfThreshold now
        (pruneFailuresLocked now (with_failures (b_failures b ++ [now]) b))
  | StateHalfOpen =>
      openLocked now
        (with_halfOpen (b_halfOpenSuccesses b) (decInFlight (b_halfOpenInFlight b)) b)
  | StateOpen => (b, [])
  end.

Definition RecordIgnored b : Effect :=
  if bool_decide (b_state b = StateHalfOpen) && (0 <? b_halfOpenInFlight b)
  then closeIfRecovered
         (with_halfOpen (b_halfOpenSuccesses b) (b_halfOpenInFlight b - 1) b)
  else (b, []).

(** [State()], which does not change the breaker. *)
Definition State_ (now : Time) b : State :=
  if timeoutElapsed now b then StateHalfOpen else b_state b.

Definition reconcileLocked (now : Time) (previousConfig : CBConfig) b : Effect :=
  let b := pruneFailuresLocked now b in
  match b_state b with
  | StateClosed => tripIfThreshold now b
  | StateOpen =>
      let previous := normalizeConfig previousConfig in
      if negb (IsZero (b_openUntil b)) then
        let openedAt := AddDuration (b_openUntil b) (- cb_Timeout previous) in
        (with_openUntil (AddDuration openedAt (cb_Timeout (b_config b))) b, [])
      else (b, [])
  | StateHalfOpen =>
      let b :=
        if cb_HalfOpenMaxRequests (b_config b) <? b_halfOpenInFlight b
        then with_halfOpen (b_halfOpenSuccesses b) (cb_HalfOpenMaxRequests (b_config b)) b
        else b in
      closeIfRecovered b
  end.

(** The clone, and the calls its reconciliation makes to the copied callback. *)
Definition cloneWithConfig (now : Time) (cfg : CBConfig) b : Effect :=
  reconcileLocked now (b_config b)
    (mkBreaker (normalizeConfig cfg) (b_stateChangeCallback b) (b_state b) (b_openUntil b)
       (b_failures b) (b_halfOpenSuccesses b) (b_halfOpenInFlight b)).

Definition setStateChangeCallback (callback : option C) b : State * Breaker C :=
  (b_state b,
   mkBreaker (b_config b) callback (b_state b) (b_openUntil b) (b_failures b)
     (b_halfOpenSuccesses b) (b_halfOpenInFlight b)).

(** ** Operations as a transition system *)

Inductive Op := OpAllow | OpSuccess | OpFailure | OpIgnored | OpForceClose
  | OpReconfigure (cfg : CBConfig).

(** The operation's boolean answer ([true] for the methods that return nothing), the
    breaker after it and its callback calls. *)
Definition step (op : Op) (now : Time) b : bool * Effect :=
  match op with
  | OpAllow => Allow now b
  | OpSuccess => (true, RecordSuccess now b)
  | OpFailure => (true, RecordFailure now b)
  | OpIgnored => (true, RecordIgnored b)
  | OpForceClose => (true, ForceClose b)
  | OpReconfigure cfg => (true, cloneWithConfig now cfg b)
  end.

Definition after (op : Op) (now : Time) b : Breaker C := fst (snd (step op now b)).
Definition answer (op : Op) (now : Time) b : bool := fst (step op now b).

Fixpoint run (ops : list (Op * Time)) b : Breaker C :=
  match ops with
  | [] => b
  | (op, now) :: ops => run ops (after op now b)
  end.

(** What [OpAllow] answered along a run. *)
Fixpoint answers (ops : list (Op * Time)) b : list bool :=
  match ops with
  | [] => []
  | (op, now) :: ops => answer op now b :: answers ops (after op now b)
  end.

End Breaker.

Arguments tripIfThreshold : simpl never.
Arguments closeIfRecovered : simpl never.

(** ** The breaker's contract, as an abstract machine

    Closed with the log of every failure since it closed, never pruned; open until an
    instant; half-open with its successes and its probes in flight. *)

Inductive Abs :=
  | AClosed (log : list Time)
  | AOpen (until : Time)
  | AHalfOpen (successes inFlight : Z).

Definition recent (window : Duration) (now : Time) (log : list Time) : list Time :=
  List.filter (fun t => now - window <=? t) log.

Arguments recent : simpl never.

Definition abs_recover (cfg : CBConfig) (successes inFlight : Z) : Abs :=
  if (cb_SuccessThreshold cfg <=? successes) && (inFlight =? 0)
  then AClosed [] else AHalfOpen successes inFlight.

Definition abs_step (cfg : CBConfig) (op : Op) (now : Time) (a : Abs) : bool * Abs :=
  match a, op with
  | _, OpForceClose => (true, AClosed [])
  | AClosed log, OpFailure =>
      let log := log ++ [now] in
      (true,
       if cb_FailureThreshold cfg <=? Z.of_nat (length (recent (cb_WindowSize cfg) now log))
       then AOpen (now + cb_Timeout cfg) else AClosed log)
  | AOpen until, OpAllow => if now <? until then (false, a) else (true, AHalfOpen 0 1)
  | AHalfOpen s i, OpAllow =>
      if cb_HalfOpenMaxRequests cfg <=? i then (false, a) else (true, AHalfOpen s (i + 1))
  | AHalfOpen s i, OpSuccess => (true, abs_recover cfg (s + 1) (decInFlight i))
  | AHalfOpen s i, OpFailure => (true, AOpen (now + cb_Timeout cfg))
  | AHalfOpen s i, OpIgnored => (true, if 0 <? i then abs_recover cfg s (i - 1) else a)
  | _, _ => (true, a)
  end.

Definition abs_observe (now : Time) (a : Abs) : State :=
  match a with
  | AClosed _ => StateClosed
  | AOpen until => if now <? until then StateOpen else StateHalfOpen
  | AHalfOpen _ _ => StateHalfOpen
  end.

Fixpoint abs_run (cfg : CBConfig) (ops : list (Op * Time)) (a : Abs) : Abs :=
  match ops with
  | [] => a
  | (op, now) :: ops => abs_run cfg ops (snd (abs_step cfg op now a))
  end.

Fixpoint abs_answers (cfg : CBConfig) (ops : list (Op * Time)) (a : Abs) : list bool :=
  match ops with
  | [] => []
  | (op, now) :: ops =>
      fst (abs_step cfg op now a) :: abs_answers cfg ops (snd (abs_step cfg op now a))
  end.

(** A history with a clock that does not go back, from [t0] on. *)
Fixpoint monotone (t0 : Time) (ops : list (Op * Time)) : Prop :=
  match ops with
  | [] => True
  | (_, t) :: ops => t0 <= t /\ monotone t ops
  end.

Fixpoint last_time (t0 : Time) (ops : list (Op * Time)) : Time :=
  match ops with
  | [] => t0
  | (_, t) :: ops => last_time t ops
  end.

Definition is_reconfigure (op : Op) : bool :=
  match op with OpReconfigure _ => true | _ => false end.

Definition fixed_config (ops : list (Op * Time)) : Prop :=
  Forall (fun '(op, _) => is_reconfigure op = false) ops.

(** ** Lemmas *)

Record positive_config (cfg : CBConfig) : Prop := {
  pc_failure : 0 < cb_FailureThreshold cfg;
  pc_success : 0 < cb_SuccessThreshold cfg;
  pc_timeout : 0 < cb_Timeout cfg;
  pc_window : 0 < cb_WindowSize cfg;
  pc_half_open : 0 < cb_HalfOpenMaxRequests cfg;
}.

Lemma normalizeConfig_positive cfg : positive_config (normalizeConfig cfg).
Proof.
  unfold normalizeConfig. split; simpl;
    match goal with |- 0 < (if ?x <=? 0 then _ else _) => destruct (Z.leb_spec x 0) end;
    unfold Second, Millisecond; lia.
Qed.

Lemma normalizeConfig_id cfg : positive_config cfg -> normalizeConfig cfg = cfg.
Proof.
  intros []. unfold normalizeConfig. destruct cfg; simpl in *. f_equal;
    match goal with |- (if ?x <=? 0 then _ else _) = _ => destruct (Z.leb_spec x 0); [lia|done] end.
Qed.

Section BreakerLemmas.
Context {C : Type}.
Implicit Types b : Breaker C.

Lemma length_filter_le {A} (f : A -> bool) l : (length (List.filter f l) <= length l)%nat.
Proof. induction l as [|x l IH]; simpl; [done|]. destruct (f x); simpl; lia. Qed.

Lemma filter_filter_same {A} (f g : A -> bool) l :
  (forall x, f x = true -> g x = true) -> List.filter f (List.filter g l) = List.filter f l.
Proof.
  intros H. induction l as [|x l IH]; simpl; [done|].
  destruct (g x) eqn:Hg; simpl; [by rewrite IH|].
  destruct (f x) eqn:Hf; [|done]. by rewrite (H _ Hf) in Hg.
Qed.

(** Pruning changes the failure list only, and keeps the failures of the window. *)
Lemma prune_failures now b :
  0 < cb_WindowSize (b_config b) ->
  pruneFailuresLocked now b =
  with_failures (recent (cb_WindowSize (b_config b)) now (b_failures b)) b.
Proof.
  intros HW. unfold pruneFailuresLocked. destruct (Z.leb_spec (cb_WindowSize (b_config b)) 0); [lia|].
  simpl. case_bool_decide as Hf; unfold with_failures.
  - rewrite Hf. destruct b; simpl in *. by subst.
  - f_equal. apply List.filter_ext. intros t. unfold Before, AddDuration.
    destruct (Z.ltb_spec t (now + - cb_WindowSize (b_config b))), (Z.leb_spec (now - cb_WindowSize (b_config b)) t);
      done || lia.
Qed.

Lemma timeoutElapsed_spec now b :
  timeoutElapsed now b = true <-> b_state b = StateOpen /\ b_openUntil b <= now.
Proof.
  unfold timeoutElapsed, Before. rewrite andb_true_iff, bool_decide_eq_true, negb_true_iff.
  rewrite Z.ltb_ge. done.
Qed.

(** *** Well-formedness *)

Record wf b : Prop := {
  wf_config : positive_config (b_config b);
  wf_inFlight : 0 <= b_halfOpenInFlight b <= cb_HalfOpenMaxRequests (b_config b);
  wf_successes : 0 <= b_halfOpenSuccesses b;
  wf_idle : b_state b <> StateHalfOpen ->
    b_halfOpenInFlight b = 0 /\ b_halfOpenSuccesses b = 0;
  wf_closed : b_state b = StateClosed ->
    Z.of_nat (length (b_failures b)) < cb_FailureThreshold (b_config b);
  wf_tripped : b_state b <> StateClosed -> b_failures b = [];
}.

Lemma wf_New cfg : wf (New cfg).
Proof.
  unfold New. generalize (normalizeConfig_positive cfg). generalize (normalizeConfig cfg).
  intros n Hp. by split; simpl; auto; intros; destruct Hp; simpl; lia.
Qed.

Lemma wf_openLocked now b : positive_config (b_config b) -> wf (fst (openLocked now b)).
Proof. intros Hp. by split; simpl; auto; intros; destruct Hp; simpl; lia. Qed.

Lemma wf_closeLocked b : positive_config (b_config b) -> wf (fst (closeLocked b)).
Proof. intros Hp. by split; simpl; auto; intros; destruct Hp; simpl; lia. Qed.

Lemma wf_half_open b s i :
  positive_config (b_config b) -> b_state b = StateHalfOpen -> b_failures b = [] ->
  0 <= s -> 0 <= i <= cb_HalfOpenMaxRequests (b_config b) -> wf (with_halfOpen s i b).
Proof. intros ? Hs ? ? ?. split; simpl; auto; rewrite Hs; done. Qed.

Lemma decInFlight_bounds n m : 0 <= n <= m -> 0 <= decInFlight n <= m.
Proof. unfold decInFlight. destruct (Z.ltb_spec 0 n); lia. Qed.

Lemma wf_closeIfRecovered b : wf b -> b_state b = StateHalfOpen -> wf (fst (closeIfRecovered b)).
Proof.
  intros H Hs. unfold closeIfRecovered. destruct (_ && _); [apply wf_closeLocked, H|done].
Qed.

(** Trip when the failure list reaches the threshold, as [RecordFailure] and
    [reconcileLocked] do. *)
Lemma wf_trip now b :
  positive_config (b_config b) -> b_state b = StateClosed ->
  b_halfOpenInFlight b = 0 -> b_halfOpenSuccesses b = 0 ->
  wf (fst (tripIfThreshold now b)).
Proof.
  intros Hc Hs Hi Hx. unfold tripIfThreshold. destruct (Z.leb_spec (cb_FailureThreshold (b_config b)) (Z.of_nat (length (b_failures b))));
    [by apply wf_openLocked|].
  destruct Hc. split; simpl; auto; rewrite ?Hs; try done; try lia.
Qed.

Lemma wf_Allow now b : wf b -> wf (fst (snd (Allow now b))).
Proof.
  intros [Hc Hi Hs Hidle Hcl Htr]. unfold Allow.
  destruct (timeoutElapsed now b) eqn:Ht; simpl.
  - apply timeoutElapsed_spec in Ht as [Ho _]. pose proof (pc_half_open _ Hc).
    destruct (Z.leb_spec (cb_HalfOpenMaxRequests (b_config b)) 0); [lia|]. simpl.
    split; simpl; auto; try done; try lia. intros _. apply Htr. by rewrite Ho.
  - destruct (b_state b) eqn:Hst; simpl; [by split; rewrite ?Hst..|].
    destruct (Z.leb_spec (cb_HalfOpenMaxRequests (b_config b)) (b_halfOpenInFlight b)); simpl.
    + by split; rewrite ?Hst.
    + apply wf_half_open; auto; lia.
Qed.

Lemma wf_RecordSuccess now b : wf b -> wf (fst (RecordSuccess now b)).
Proof.
  intros [Hc Hi Hs Hidle Hcl Htr]. unfold RecordSuccess.
  destruct (b_state b) eqn:Hst; simpl; [|by split; rewrite ?Hst|].
  - rewrite prune_failures by apply Hc. split; simpl; rewrite ?Hst; auto; try done.
    intros _. eapply Z.le_lt_trans; [|by apply Hcl].
    apply inj_le, length_filter_le.
  - apply wf_closeIfRecovered; [|done]. apply wf_half_open; auto using decInFlight_bounds; lia.
Qed.

Lemma wf_RecordFailure now b : wf b -> wf (fst (RecordFailure now b)).
Proof.
  intros [Hc Hi Hs Hidle Hcl Htr]. unfold RecordFailure.
  destruct (b_state b) eqn:Hst; simpl; [|by split; rewrite ?Hst|].
  - rewrite prune_failures by apply Hc. destruct Hidle; [done|].
    by apply wf_trip.
  - by apply wf_openLocked.
Qed.

Lemma wf_RecordIgnored b : wf b -> wf (fst (RecordIgnored b)).
Proof.
  intros [Hc Hi Hs Hidle Hcl Htr]. unfold RecordIgnored.
  case_bool_decide as Hst; simpl; [|by split].
  destruct (Z.ltb_spec 0 (b_halfOpenInFlight b)); [|by split].
  apply wf_closeIfRecovered; [|done]. apply wf_half_open; auto; [|lia].
  apply Htr. by rewrite Hst.
Qed.

Lemma wf_cloneWithConfig now cfg b : wf b -> wf (fst (cloneWithConfig now cfg b)).
Proof.
  intros [Hc Hi Hs Hidle Hcl Htr]. unfold cloneWithConfig, reconcileLocked.
  generalize (normalizeConfig_positive cfg). generalize (normalizeConfig cfg). intros n Hp.
  rewrite prune_failures by apply Hp. destruct (b_state b) eqn:Hst; simpl.
  - destruct Hidle; [done|]. by apply wf_trip.
  - destruct Hidle as [E1 E2]; [done|]. rewrite E1, E2, Htr by done.
    destruct (negb _); simpl; (split; simpl; auto; try done; intros; destruct Hp; simpl; try lia; by rewrite ?Htr).
  - rewrite Htr by done. apply wf_closeIfRecovered; [|by destruct (_ <? _)].
    destruct (Z.ltb_spec (cb_HalfOpenMaxRequests n) (b_halfOpenInFlight b));
      (split; simpl; auto; try done; intros; destruct Hp; simpl; try lia; by rewrite ?Htr).
Qed.

Lemma wf_step op now b : wf b -> wf (after op now b).
Proof.
  intros H. unfold after, step. destruct op; simpl.
  - by apply wf_Allow.
  - by apply wf_RecordSuccess.
  - by apply wf_RecordFailure.
  - by apply wf_RecordIgnored.
  - apply wf_closeLocked, H.
  - by apply wf_cloneWithConfig.
Qed.

Lemma wf_run ops b : wf b -> wf (run ops b).
Proof.
  revert b. induction ops as [|[op t] ops IH]; intros b H; simpl; [done|].
  by apply IH, wf_step.
Qed.

End BreakerLemmas.

Create HintDb breaker.
#[export] Hint Resolve wf_New wf_step wf_run normalizeConfig_positive : breaker.

(** ** The implementation refines the contract *)

Section Refinement.
Context {C : Type}.
Implicit Types b : Breaker C.

(** [now] is the last instant the breaker has seen. *)
Definition refines (now : Time) b (a : Abs) : Prop :=
  match a with
  | AClosed log =>
      b_state b = StateClosed /\
      forall t, now <= t ->
        recent (cb_WindowSize (b_config b)) t (b_failures b) =
        recent (cb_WindowSize (b_config b)) t log
  | AOpen until => b_state b = StateOpen /\ b_openUntil b = until
  | AHalfOpen s i =>
      b_state b = StateHalfOpen /\ b_halfOpenSuccesses b = s /\ b_halfOpenInFlight b = i
  end.

Lemma recent_app W now l1 l2 : recent W now (l1 ++ l2) = recent W now l1 ++ recent W now l2.
Proof. apply List.filter_app. Qed.

Lemma recent_recent W t now l : now <= t -> recent W t (recent W now l) = recent W t l.
Proof.
  intros Ht. apply filter_filter_same. intros x. rewrite !Z.leb_le. lia.
Qed.

(** Pruning at [now] is invisible to every later window. *)
Lemma refines_pruned W now l l' :
  (forall t, now <= t -> recent W t l = recent W t l') ->
  forall t, now <= t -> recent W t (recent W now l) = recent W t l'.
Proof. intros H t Ht. rewrite recent_recent by done. auto. Qed.

Lemma refines_later t0 now b a : t0 <= now -> refines t0 b a -> refines now b a.
Proof.
  destruct a; simpl; try done. intros Ht [Hs Hl]. split; [done|]. intros t ?. apply Hl. lia.
Qed.

Lemma closeIfRecovered_config b : b_config (fst (closeIfRecovered b)) = b_config b.
Proof. unfold closeIfRecovered. by destruct (_ && _). Qed.

Lemma tripIfThreshold_config now b : b_config (fst (tripIfThreshold now b)) = b_config b.
Proof. unfold tripIfThreshold. by destruct (_ <=? _). Qed.

Lemma prune_config now b : b_config (pruneFailuresLocked now b) = b_config b.
Proof. unfold pruneFailuresLocked. by destruct (_ || _). Qed.

Lemma after_config op now b :
  is_reconfigure op = false -> b_config (after op now b) = b_config b.
Proof.
  intros Hop. unfold after, step. destruct op; simpl; try done.
  - unfold Allow. destruct (timeoutElapsed now b); simpl.
    + by destruct (_ <=? _).
    + destruct (b_state b); simpl; [done..|]. by destruct (_ <=? _).
  - unfold RecordSuccess. destruct (b_state b); simpl; [apply prune_config|done|].
    by rewrite closeIfRecovered_config.
  - unfold RecordFailure. destruct (b_state b); simpl; [|done..].
    by rewrite tripIfThreshold_config, prune_config.
  - unfold RecordIgnored. destruct (_ && _); simpl; [|done].
    by rewrite closeIfRecovered_config.
Qed.

Lemma refines_recover now b s i :
  b_state b = StateHalfOpen -> b_halfOpenSuccesses b = s -> b_halfOpenInFlight b = i ->
  refines now (fst (closeIfRecovered b)) (abs_recover (b_config b) s i).
Proof.
  intros Hst <- <-. unfold closeIfRecovered, abs_recover.
  by destruct (_ && _).
Qed.

Lemma refines_Allow t0 now b a :
  wf b -> refines t0 b a -> t0 <= now ->
  fst (Allow now b) = fst (abs_step (b_config b) OpAllow now a) /\
  refines now (fst (snd (Allow now b))) (snd (abs_step (b_config b) OpAllow now a)).
Proof.
  intros Hwf Hr Ht0. pose proof (pc_half_open _ (wf_config _ Hwf)) as Hmax.
  apply (refines_later _ _ _ _ Ht0) in Hr. unfold Allow, timeoutElapsed, Before.
  destruct a as [log|until|s i]; simpl in *.
  - destruct Hr as [Hst Hl]. rewrite Hst. simpl. by rewrite Hst.
  - destruct Hr as [Hst <-]. rewrite Hst. simpl.
    destruct (now <? b_openUntil b); simpl; [by rewrite Hst|].
    destruct (Z.leb_spec (cb_HalfOpenMaxRequests (b_config b)) 0); [lia|]. done.
  - destruct Hr as (Hst & <- & <-). rewrite Hst. simpl. rewrite Hst.
    by destruct (_ <=? _); simpl.
Qed.

Lemma refines_RecordFailure t0 now b a :
  wf b -> refines t0 b a -> t0 <= now ->
  refines now (fst (RecordFailure now b)) (snd (abs_step (b_config b) OpFailure now a)).
Proof.
  intros Hwf Hr Ht0. apply (refines_later _ _ _ _ Ht0) in Hr. unfold RecordFailure.
  destruct a as [log|until|s i]; simpl in *; destruct Hr as [Hst Hr]; rewrite Hst; [|done|done].
  rewrite prune_failures by apply Hwf. unfold tripIfThreshold. simpl.
  rewrite !recent_app, (Hr now) by lia.
  destruct (_ <=? _); simpl; [done|].
  split; [done|]. intros t Ht. rewrite !recent_app.
  by rewrite !recent_recent.
Qed.

Lemma refines_step t0 op now b a :
  wf b -> refines t0 b a -> t0 <= now -> is_reconfigure op = false ->
  answer op now b = fst (abs_step (b_config b) op now a) /\
  refines now (after op now b) (snd (abs_step (b_config b) op now a)).
Proof.
  intros Hwf Hr Ht0 Hop. unfold answer, after, step. destruct op; simpl in *; try done.
  - by eapply refines_Allow.
  - apply (refines_later _ _ _ _ Ht0) in Hr. unfold RecordSuccess.
    destruct a; simpl in *.
    + destruct Hr as [Hst Hr]. rewrite Hst. simpl. rewrite prune_failures by apply Hwf.
      split; [done|]. split; [done|]. simpl. by apply refines_pruned.
    + destruct Hr as [Hst Hr]. by rewrite Hst.
    + destruct Hr as (Hst & <- & <-). rewrite Hst. split; [done|]. by apply (refines_recover _ (with_halfOpen _ _ b)).
  - split; [by destruct a|]. by eapply refines_RecordFailure.
  - apply (refines_later _ _ _ _ Ht0) in Hr. unfold RecordIgnored.
    destruct a; simpl in *; destruct Hr as [Hst Hr]; rewrite Hst; simpl; [done..|].
    destruct Hr as [<- <-]. destruct (0 <? _); simpl; [|done].
    split; [done|]. by apply (refines_recover _ (with_halfOpen _ _ b)).
  - by destruct a.
Qed.

Lemma refines_observe t now b a : refines t b a -> State_ now b = abs_observe now a.
Proof.
  unfold State_, timeoutElapsed, Before. destruct a; simpl.
  - by intros [-> _].
  - intros [-> <-]. simpl. by destruct (now <? _).
  - by intros (-> & _).
Qed.

Lemma refines_run t0 ops b a :
  wf b -> refines t0 b a -> monotone t0 ops -> fixed_config ops ->
  answers ops b = abs_answers (b_config b) ops a /\
  refines (last_time t0 ops) (run ops b) (abs_run (b_config b) ops a).
Proof.
  revert t0 b a. induction ops as [|[op t] ops IH]; intros t0 b a Hwf Hr Hm Hf; simpl; [done|].
  destruct Hm as [Ht Hm]. apply Forall_cons in Hf as [Hop Hf].
  destruct (refines_step t0 op t b a) as [Ha Hr']; [done..|].
  destruct (IH t (after op t b) (snd (abs_step (b_config b) op t a))) as [IH1 IH2];
    [by apply wf_step|done..|].
  rewrite (after_config op t b Hop) in IH1, IH2.
  split; [by rewrite Ha, IH1|done].
Qed.

End Refinement.

(** ** What a method reports to its callback

    At most one call, for a change of state, with the state the method leaves; the
    callback itself is kept. *)
Definition reports {C} (b : Breaker C) (e : Breaker C * list (C * State)) : Prop :=
  b_stateChangeCallback (fst e) = b_stateChangeCallback b /\
  (snd e = [] /\ b_state (fst e) = b_state b \/ snd e = notify b (b_state (fst e))).

Section Reports.
Context {C : Type}.
Implicit Types b : Breaker C.

Lemma prune_reports now b : reports b (pruneFailuresLocked now b, []).
Proof. unfold pruneFailuresLocked. destruct (_ || _); split; simpl; auto. Qed.

Lemma closeIfRecovered_reports s i b :
  reports b (closeIfRecovered (with_halfOpen s i b)).
Proof. unfold closeIfRecovered. destruct (_ && _); split; simpl; auto. Qed.

Lemma tripIfThreshold_reports now b b0 :
  b_stateChangeCallback b = b_stateChangeCallback b0 -> b_state b = b_state b0 ->
  reports b0 (tripIfThreshold now b).
Proof.
  intros Hc Hs. unfold tripIfThreshold. destruct (_ <=? _); split; simpl; auto.
  right. unfold notify. by rewrite Hc.
Qed.

Lemma prune_callback now b :
  b_stateChangeCallback (pruneFailuresLocked now b) = b_stateChangeCallback b.
Proof. unfold pruneFailuresLocked. by destruct (_ || _). Qed.

Lemma prune_state now b : b_state (pruneFailuresLocked now b) = b_state b.
Proof. unfold pruneFailuresLocked. by destruct (_ || _). Qed.

Lemma Allow_reports now b : reports b (snd (Allow now b)).
Proof.
  unfold Allow. destruct (timeoutElapsed now b) eqn:Ht; simpl.
  - destruct (_ <=? 0); split; simpl; auto.
  - destruct (b_state b) eqn:Hst; simpl; [split; simpl; auto..|].
    destruct (_ <=? _); split; simpl; auto.
Qed.

Lemma RecordSuccess_reports now b : reports b (RecordSuccess now b).
Proof.
  unfold RecordSuccess. destruct (b_state b).
  - apply prune_reports.
  - split; auto.
  - apply closeIfRecovered_reports.
Qed.

Lemma RecordFailure_reports now b : reports b (RecordFailure now b).
Proof.
  unfold RecordFailure. destruct (b_state b) eqn:Hst.
  - apply tripIfThreshold_reports; by rewrite ?prune_callback, ?prune_state.
  - split; auto.
  - split; simpl; auto.
Qed.

Lemma RecordIgnored_reports b : reports b (RecordIgnored b).
Proof.
  unfold RecordIgnored. destruct (_ && _); [apply closeIfRecovered_reports|split; auto].
Qed.

Lemma ForceClose_reports b : reports b (ForceClose b).
Proof. split; simpl; auto. Qed.

End Reports.

#[export] Hint Resolve Allow_reports RecordSuccess_reports RecordFailure_reports
  RecordIgnored_reports ForceClose_reports : breaker.

(** ** Properties *)

(** The runs of ordinary traffic: results and admissions, no administrative reset and
    no reload. *)
Definition is_traffic (op : Op) : bool :=
  match op with OpForceClose | OpReconfigure _ => false | _ => true end.

Definition traffic (ops : list (Op * Time)) : Prop :=
  Forall (fun '(op, _) => is_traffic op = true) ops.

Definition count_op (p : Op -> bool) (ops : list (Op * Time)) : Z :=
  Z.of_nat (length (List.filter (fun '(op, _) => p op) ops)).

Definition is_allow (op : Op) : bool := match op with OpAllow => true | _ => false end.
Definition is_success (op : Op) : bool := match op with OpSuccess => true | _ => false end.

(** The admissions of a run: its [OpAllow] operations answered [true]. *)
Fixpoint admissions {C} (ops : list (Op * Time)) (b : Breaker C) : nat :=
  match ops with
  | [] => 0
  | (op, now) :: ops =>
      (if is_allow op && answer op now b then 1 else 0) + admissions ops (after op now b)
  end%nat.

(** [n] probes one after the other: admit, then succeed. *)
Fixpoint probes (ts : list (Time * Time)) : list (Op * Time) :=
  match ts with
  | [] => []
  | (t1, t2) :: ts => (OpAllow, t1) :: (OpSuccess, t2) :: probes ts
  end.

Section Properties.
Context {C : Type}.
Implicit Types b : Breaker C.

Lemma open_step op now b :
  b_state b = StateOpen -> is_traffic op = true -> now < b_openUntil b ->
  after op now b = b /\ (is_allow op && answer op now b = false).
Proof.
  intros Hst Hop Ht. unfold after, answer, step.
  destruct op; simpl in *; try done; unfold RecordSuccess, RecordFailure, RecordIgnored;
    rewrite ?Hst; simpl; try done.
  unfold Allow, timeoutElapsed, Before. rewrite (proj2 (Z.ltb_lt _ _) Ht), andb_false_r.
  by rewrite Hst.
Qed.

Lemma open_run ops b :
  b_state b = StateOpen -> traffic ops -> Forall (fun '(_, t) => t < b_openUntil b) ops ->
  run ops b = b /\ admissions ops b = 0%nat.
Proof.
  induction ops as [|[op t] ops IH]; intros Hst Htr Ht; simpl; [done|].
  apply Forall_cons in Htr as [Hop Htr], Ht as [Ht0 Ht].
  destruct (open_step op t b) as [-> ->]; [done..|]. simpl. auto.
Qed.

(** How far a breaker that left the closed state is from closing. *)
Definition remaining_successes (n : Z) b : Prop :=
  match b_state b with
  | StateClosed => cb_SuccessThreshold (b_config b) <= n
  | StateOpen => 0 <= n
  | StateHalfOpen => b_halfOpenSuccesses b <= n
  end.

Lemma remaining_step n op now b :
  wf b -> is_traffic op = true -> 0 <= n -> b_state b <> StateClosed ->
  remaining_successes n b ->
  remaining_successes (n + (if is_success op then 1 else 0)) (after op now b).
Proof.
  intros Hwf Hop Hn Hncl Hr.
  pose proof (pc_half_open _ (wf_config _ Hwf)).
  unfold remaining_successes, after, step in *.
  destruct op; simpl in *; try done; rewrite ?Z.add_0_r.
  - unfold Allow. destruct (timeoutElapsed now b); simpl.
    + by destruct (_ <=? 0).
    + destruct (b_state b) eqn:Hst; simpl; rewrite ?Hst; [done|lia|].
      by destruct (_ <=? _); simpl; rewrite Hst.
  - unfold RecordSuccess. destruct (b_state b) eqn:Hst; simpl; rewrite ?Hst; [done|lia|].
    unfold closeIfRecovered. simpl.
    destruct (Z.leb_spec (cb_SuccessThreshold (b_config b)) (b_halfOpenSuccesses b + 1));
      simpl; [|rewrite Hst; lia].
    destruct (_ =? 0); simpl; rewrite ?Hst; lia.
  - unfold RecordFailure. destruct (b_state b) eqn:Hst; simpl; rewrite ?Hst; done || lia.
  - unfold RecordIgnored. destruct (b_state b) eqn:Hst; simpl; rewrite ?Hst; [done|lia|].
    destruct (0 <? _); simpl; [|by rewrite Hst].
    unfold closeIfRecovered. simpl.
    destruct (Z.leb_spec (cb_SuccessThreshold (b_config b)) (b_halfOpenSuccesses b));
      simpl; [|by rewrite Hst].
    destruct (_ =? 0); simpl; rewrite ?Hst; lia.
Qed.

Lemma is_traffic_fixed op : is_traffic op = true -> is_reconfigure op = false.
Proof. by destruct op. Qed.

Lemma count_op_cons p op t ops :
  count_op p ((op, t) :: ops) = (if p op then 1 else 0) + count_op p ops.
Proof. unfold count_op. simpl. destruct (p op); simpl; lia. Qed.

Lemma count_op_nonneg p ops : 0 <= count_op p ops.
Proof. unfold count_op. lia. Qed.

Lemma remaining_run n ops b :
  wf b -> traffic ops -> 0 <= n -> remaining_successes n b ->
  b_state (run ops b) = StateClosed ->
  cb_SuccessThreshold (b_config b) <= n + count_op is_success ops.
Proof.
  revert n b. induction ops as [|[op t] ops IH]; intros n b Hwf Htr Hn Hr; simpl.
  - unfold remaining_successes, count_op in *. intros Hcl. rewrite Hcl in Hr. simpl. lia.
  - apply Forall_cons in Htr as [Hop Htr]. intros Hcl. rewrite count_op_cons.
    pose proof (count_op_nonneg is_success ops).
    destruct (decide (b_state b = StateClosed)) as [Hst|Hst].
    + unfold remaining_successes in Hr. rewrite Hst in Hr. destruct (is_success op); lia.
    + apply (remaining_step n op t) in Hr; [|done..].
      rewrite <- (after_config op t b) by by apply is_traffic_fixed.
      apply IH in Hr; [|by apply wf_step|done|destruct (is_success op); lia|done].
      lia.
Qed.

(** One round of [probes] on a half-open breaker with a free slot. *)
Lemma probe_round t1 t2 b :
  wf b -> b_state b = StateHalfOpen -> b_halfOpenInFlight b = 0 ->
  answer OpAllow t1 b = true /\
  let b' := after OpSuccess t2 (after OpAllow t1 b) in
  b' = if cb_SuccessThreshold (b_config b) <=? b_halfOpenSuccesses b + 1
       then fst (closeLocked b) else with_halfOpen (b_halfOpenSuccesses b + 1) 0 b.
Proof.
  intros Hwf Hst Hi. pose proof (pc_half_open _ (wf_config _ Hwf)).
  unfold answer, after, step, Allow, timeoutElapsed, RecordSuccess, closeIfRecovered.
  rewrite Hst. simpl. rewrite Hst, Hi.
  destruct (Z.leb_spec (cb_HalfOpenMaxRequests (b_config b)) 0); [lia|]. simpl. rewrite Hst.
  split; [done|]. simpl. rewrite andb_true_r. by destruct (_ <=? _).
Qed.

Lemma probes_close n ts b :
  wf b -> b_state b = StateHalfOpen -> b_halfOpenInFlight b = 0 ->
  cb_SuccessThreshold (b_config b) = b_halfOpenSuccesses b + Z.of_nat (S n) ->
  length ts = S n ->
  b_state (run (probes ts) b) = StateClosed /\ admissions (probes ts) b = S n.
Proof.
  revert ts b. induction n as [|n IH]; intros ts b Hwf Hst Hi Hthr Hlen;
    destruct ts as [|[t1 t2] ts]; simpl in Hlen; try lia.
  - destruct ts; [|simpl in Hlen; lia]. simpl.
    destruct (probe_round t1 t2 b) as [-> ->]; [done..|].
    by destruct (Z.leb_spec (cb_SuccessThreshold (b_config b)) (b_halfOpenSuccesses b + 1)); [|lia].
  - simpl. assert (wf (after OpSuccess t2 (after OpAllow t1 b))) as Hwf'
      by by apply wf_step, wf_step.
    destruct (probe_round t1 t2 b) as [-> E]; [done..|]. cbv zeta in E. rewrite E in *.
    destruct (Z.leb_spec (cb_SuccessThreshold (b_config b)) (b_halfOpenSuccesses b + 1)); [lia|].
    destruct (IH ts (with_halfOpen (b_halfOpenSuccesses b + 1) 0 b)) as [H1 H2];
      [done|done|done|simpl; lia|lia|]. by rewrite H2.
Qed.

End Properties.

(** C13: a new breaker driven by any sequence of its operations other than a
    reconfiguration, under a clock that does not go back, admits exactly the requests
    the abstract machine admits, and reports the same state at every instant.  The
    abstract machine keeps every failure since it closed and counts those of the
    window; the code prunes its list as it goes. *)
Theorem breaker_refines_contract {C} cfg t0 ops :
  monotone t0 ops -> fixed_config ops ->
  answers ops (New (C := C) cfg) = abs_answers (normalizeConfig cfg) ops (AClosed []) /\
  forall now, State_ now (run ops (New (C := C) cfg)) =
              abs_observe now (abs_run (normalizeConfig cfg) ops (AClosed [])).
Proof.
  intros Hm Hf.
  destruct (refines_run t0 ops (New (C := C) cfg) (AClosed [])) as [Ha Hr]; [apply wf_New|done..|].
  split; [done|]. intros now. by eapply refines_observe.
Qed.

Definition sample_cb : CBConfig := mkCBConfig 2 2 10 60 1.

Lemma breaker_refines_contract_witness :
  let ops := [(OpFailure, 1); (OpFailure, 5); (OpAllow, 6); (OpAllow, 15)] in
  answers ops (New (C := unit) sample_cb) =
    abs_answers (normalizeConfig sample_cb) ops (AClosed []) /\
  (forall now, State_ now (run ops (New (C := unit) sample_cb)) =
     abs_observe now (abs_run (normalizeConfig sample_cb) ops (AClosed []))) /\
  answers ops (New (C := unit) sample_cb) = [true; true; false; true].
Proof.
  intros ops.
  assert (H := breaker_refines_contract (C := unit) sample_cb 0 ops).
  destruct H as [H1 H2]; [simpl; lia|repeat constructor|].
  split; [exact H1|split; [exact H2|reflexivity]].
Defined.

(** C14: after any sequence of operations, reconfigurations included and whatever the
    clock reads, the breaker is well formed: its configuration is positive, the probes
    in flight are between zero and the configured maximum, the half-open counters are
    zero outside half-open, a closed breaker holds fewer failures than the threshold
    and a tripped one holds none. *)
Theorem breaker_invariant {C} cfg ops : wf (run ops (New (C := C) cfg)).
Proof. apply wf_run, wf_New. Qed.

(** A failure that trips the breaker at [t0] keeps the circuit open until
    [t0 + Timeout]: whatever results arrive before that, every request is rejected and
    the breaker does not change. *)
Lemma open_circuit_rejects {C} (b : Breaker C) t0 ops :
  b_state b <> StateOpen -> b_state (after OpFailure t0 b) = StateOpen -> traffic ops ->
  Forall (fun '(_, t) => t < t0 + cb_Timeout (b_config b)) ops ->
  admissions ops (after OpFailure t0 b) = 0%nat /\
  run ops (after OpFailure t0 b) = after OpFailure t0 b.
Proof.
  intros Hst Hopen Htr Ht.
  assert (b_openUntil (after OpFailure t0 b) = t0 + cb_Timeout (b_config b)) as Hu.
  { revert Hopen. unfold after, step, RecordFailure. destruct (b_state b) eqn:E; simpl; try done.
    unfold tripIfThreshold. destruct (_ <=? _); simpl; rewrite ?prune_config; [done|].
    unfold pruneFailuresLocked. destruct (_ || _); simpl; by rewrite E. }
  rewrite <- Hu in Ht. by destruct (open_run ops (after OpFailure t0 b)).
Qed.

Lemma open_circuit_rejects_witness :
  let b := after OpFailure 1 (New (C := unit) sample_cb) in
  let ops := [(OpAllow, 6); (OpSuccess, 7); (OpAllow, 14)] in
  admissions ops (after OpFailure 5 b) = 0%nat /\
  run ops (after OpFailure 5 b) = after OpFailure 5 b.
Proof.
  intros b ops. apply (open_circuit_rejects b 5 ops).
  - vm_compute. discriminate.
  - reflexivity.
  - repeat constructor.
  - repeat constructor.
Defined.

(** A breaker that is open closes again only after at least [SuccessThreshold]
    successes have been recorded since: no sequence of admissions, failures and ignored
    results closes it earlier. *)
Lemma no_early_close {C} (b : Breaker C) ops :
  wf b -> b_state b = StateOpen -> traffic ops -> b_state (run ops b) = StateClosed ->
  cb_SuccessThreshold (b_config b) <= count_op is_success ops.
Proof.
  intros Hwf Hst Htr Hcl. apply (remaining_run 0 ops b); [done..|lia| |done].
  unfold remaining_successes. by rewrite Hst.
Qed.

Lemma no_early_close_witness :
  let b := run [(OpFailure, 1); (OpFailure, 5)] (New (C := unit) sample_cb) in
  let ops := [(OpAllow, 15); (OpSuccess, 16); (OpAllow, 17); (OpSuccess, 18)] in
  2 <= count_op is_success ops.
Proof.
  intros b ops. apply (no_early_close b ops).
  - apply wf_run, wf_New.
  - reflexivity.
  - repeat constructor.
  - reflexivity.
Defined.

(** C15: an open breaker recovers: once its timeout has elapsed, [SuccessThreshold]
    probes one after the other are all admitted, and their successes close it. *)
Theorem open_breaker_recovers {C} (b : Breaker C) ts :
  wf b -> b_state b = StateOpen -> Z.of_nat (length ts) = cb_SuccessThreshold (b_config b) ->
  Forall (fun '(t, _) => b_openUntil b <= t) ts ->
  b_state (run (probes ts) b) = StateClosed /\ admissions (probes ts) b = length ts.
Proof.
  intros Hwf Hst Hlen Ht. pose proof (pc_success _ (wf_config _ Hwf)).
  destruct ts as [|[t1 t2] ts]; [simpl in Hlen; lia|].
  apply Forall_cons in Ht as [Ht _].
  set (h := mkBreaker (b_config b) (b_stateChangeCallback b) StateHalfOpen (b_openUntil b)
              (b_failures b) 0 0).
  assert (Allow t1 b = (true, (with_halfOpen 0 1 h, notify b StateHalfOpen))) as Hal.
  { unfold Allow. rewrite (proj2 (timeoutElapsed_spec t1 b)) by done. simpl.
    pose proof (pc_half_open _ (wf_config _ Hwf)).
    by destruct (Z.leb_spec (cb_HalfOpenMaxRequests (b_config b)) 0); [lia|]. }
  assert (wf h) as Hh.
  { destruct Hwf as [Hc Hi Hs Hidle Hcl Htp].
    pose proof (pc_half_open _ Hc). split; simpl; try done; try lia. intros _. apply Htp. by rewrite Hst. }
  destruct (probes_close (length ts) ((t1, t2) :: ts) h) as [H1 H2]; [done..|simpl in *; lia|done|].
  simpl in H1, H2 |- *. unfold answer, after, step in *. rewrite Hal.
  destruct (Allow t1 h) as [x [h' c]] eqn:E. unfold Allow in E. simpl in E.
  destruct (Z.leb_spec (cb_HalfOpenMaxRequests (b_config b)) 0) as [Hle|_].
  { pose proof (pc_half_open _ (wf_config _ Hwf)). lia. }
  injection E as <- <- <-. auto.
Qed.

Lemma open_breaker_recovers_witness :
  let b := run [(OpFailure, 1); (OpFailure, 5)] (New (C := unit) sample_cb) in
  b_state (run (probes [(15, 16); (17, 18)]) b) = StateClosed /\
  admissions (probes [(15, 16); (17, 18)]) b = 2%nat.
Proof.
  intros b. apply (open_breaker_recovers b [(15, 16); (17, 18)]).
  - apply wf_run, wf_New.
  - reflexivity.
  - reflexivity.
  - repeat constructor; vm_compute; discriminate.
Defined.

(** A reload with a new breaker configuration keeps the state and re-applies the
    thresholds to it: a closed breaker trips at once when its recent failures reach the
    new threshold, an open one keeps the instant it opened and waits the new timeout
    from there, and a half-open one closes when its successes already reach the new
    threshold and no probe is in flight. *)
Lemma reconfigure_reconciles {C} (b : Breaker C) cfg t0 now :
  wf b -> (b_state b = StateOpen -> b_openUntil b = t0 + cb_Timeout (b_config b)) ->
  b_openUntil b <> zero_time \/ b_state b <> StateOpen ->
  let n := normalizeConfig cfg in
  let b' := after (OpReconfigure cfg) now b in
  b_config b' = n /\
  match b_state b with
  | StateClosed =>
      b_state b' = StateOpen <->
      cb_FailureThreshold n <= Z.of_nat (length (recent (cb_WindowSize n) now (b_failures b)))
  | StateOpen => b_state b' = StateOpen /\ b_openUntil b' = t0 + cb_Timeout n
  | StateHalfOpen =>
      b_state b' = StateClosed <->
      cb_SuccessThreshold n <= b_halfOpenSuccesses b /\ b_halfOpenInFlight b = 0
  end.
Proof.
  intros Hwf Hu Hz. cbv zeta. unfold after, step, cloneWithConfig, reconcileLocked.
  rewrite (normalizeConfig_id (b_config b)) by apply Hwf.
  generalize (normalizeConfig_positive cfg). generalize (normalizeConfig cfg). intros n Hp.
  simpl. rewrite prune_failures by apply Hp. simpl.
  destruct (b_state b) eqn:Hst; simpl.
  - rewrite tripIfThreshold_config. split; [done|]. unfold tripIfThreshold. simpl.
    destruct (Z.leb_spec (cb_FailureThreshold n)
      (Z.of_nat (length (recent (cb_WindowSize n) now (b_failures b))))); simpl; [naive_solver|].
    split; [done|lia].
  - rewrite Hu in * by done. unfold IsZero.
    destruct (Z.eqb_spec (t0 + cb_Timeout (b_config b)) 0) as [E|_]; [by destruct Hz|]. simpl.
    unfold AddDuration. repeat split; lia.
  - rewrite closeIfRecovered_config. split; [by destruct (_ <? _)|].
    pose proof (wf_inFlight _ Hwf). pose proof (pc_half_open _ Hp).
    unfold closeIfRecovered.
    destruct (Z.ltb_spec (cb_HalfOpenMaxRequests n) (b_halfOpenInFlight b)); simpl;
      destruct (Z.leb_spec (cb_SuccessThreshold n) (b_halfOpenSuccesses b)); simpl;
      rewrite ?Hst; try (split; [done|lia]).
    + destruct (Z.eqb_spec (cb_HalfOpenMaxRequests n) 0); simpl; split; done || lia.
    + destruct (Z.eqb_spec (b_halfOpenInFlight b) 0); simpl; split; done || lia.
Qed.

Lemma reconfigure_reconciles_witness :
  let b := run [(OpFailure, 1); (OpFailure, 5)] (New (C := unit) sample_cb) in
  let b' := after (OpReconfigure (mkCBConfig 2 2 40 60 1)) 7 b in
  b_state b' = StateOpen /\ b_openUntil b' = 5 + 40.
Proof.
  intros b b'.
  assert (H := reconfigure_reconciles b (mkCBConfig 2 2 40 60 1) 5 7).
  destruct H as [_ H].
  - apply wf_run, wf_New.
  - reflexivity.
  - left. vm_compute. discriminate.
  - exact H.
Defined.
