(* ===== verification/Probes.v ===== *)
(** * Concurrent requests over one breaker: [internal/transport/resilient.go],
      [internal/transport/circuitbreaker/breaker.go]

    A request asks the breaker, goes upstream if it is admitted, and reports what came of it,
    once; other requests ask and report in between.  The requests that are under way are a
    list, with the half-open period in which each was admitted; the period and the number of
    requests under way at its start are ghosts, which the code does not have.  The theorem: in
    the half-open state as many probes are under way as the breaker counts, but for those
    whose place was given away by results of older requests; and a place that is free is given
    to the next request.  What a reload makes of the probes under way, and what the two reads
    of the state around [RecordFailure] make of two failures at a time, is at the end. *)

From stdpp Require Import list.
From S2P Require Import Prelude Config Breaker.
From stdpp Require Import options.
#[local] Set Default Proof Using "Type*".
#[local] Open Scope Z_scope.

Section Probes.
Context {C : Type}.

(** What a request under way is to the breaker: admitted while it was closed, or a probe of a
    half-open period. *)
Inductive Ticket := Regular | Probe (period : nat).

#[global] Instance Ticket_eq_dec : EqDecision Ticket.
Proof. solve_decision. Defined.

Record Traffic := mkTraffic {
  tr_breaker : Breaker C;
  tr_underway : list Ticket;
  tr_period : nat; (* how often the circuit has become half-open *)
  tr_carried : nat; (* the requests under way when it did last *)
}.

Implicit Types (s : Traffic) (b : Breaker C).

Definition half_open b : bool := bool_decide (b_state b = StateHalfOpen).

(** [breaker.Allow()], by a new request. *)
Definition ask (now : Time) s : bool * Traffic :=
  let '(allowed, (b, _)) := Allow now (tr_breaker s) in
  let entered := half_open b && negb (half_open (tr_breaker s)) in
  let period := if entered then S (tr_period s) else tr_period s in
  let carried := if entered then length (tr_underway s) else tr_carried s in
  let ticket := if half_open b then Probe period else Regular in
  (allowed, mkTraffic b (if allowed : bool then tr_underway s ++ [ticket] else tr_underway s) period carried).

Inductive Result := Succeeded | FailedUpstream | Ignored.

Definition record (result : Result) (now : Time) b : Breaker C :=
  fst match result with
      | Succeeded => RecordSuccess now b
      | FailedUpstream => RecordFailure now b
      | Ignored => RecordIgnored b
      end.

(** The [i]th request reports. *)
Definition report (i : nat) (result : Result) (now : Time) s : Traffic :=
  mkTraffic (record result now (tr_breaker s)) (delete i (tr_underway s)) (tr_period s) (tr_carried s).

(** The admin's reset. *)
Definition force_close s : Traffic :=
  mkTraffic (fst (ForceClose (tr_breaker s))) (tr_underway s) (tr_period s) (tr_carried s).

Inductive traffic_step : Traffic -> Traffic -> Prop :=
  | traffic_ask now s : traffic_step s (snd (ask now s))
  | traffic_report i result now s : (i < length (tr_underway s))%nat -> traffic_step s (report i result now s)
  | traffic_reset s : traffic_step s (force_close s).

Definition new_traffic (cfg : CBConfig) : Traffic := mkTraffic (New cfg) [] 0 0.

(** ** Counting *)

Definition is_probe (period : nat) (t : Ticket) : bool := bool_decide (t = Probe period).
Definition count (p : Ticket -> bool) (l : list Ticket) : nat := length (List.filter p l).

(** The probes of the current period, and the requests that are older than it. *)
Definition probes s : nat := count (is_probe (tr_period s)) (tr_underway s).
Definition older s : nat := count (fun t => negb (is_probe (tr_period s) t)) (tr_underway s).

Lemma count_snoc p l t : count p (l ++ [t]) = (count p l + if p t then 1 else 0)%nat.
Proof using Type. unfold count. rewrite List.filter_app, length_app. cbn. by destruct (p t). Qed.

Lemma count_delete p l i t :
  l !! i = Some t -> (count p (delete i l) + (if p t then 1 else 0) = count p l)%nat.
Proof using Type.
  unfold count. revert i. induction l as [|x l IH]; intros [|i]; [done|done| |].
  - intros [= ->]. cbn. destruct (p t); cbn; lia.
  - intros Hi. specialize (IH i Hi). change (delete (S i) (x :: l)) with (x :: delete i l). cbn [List.filter].
    destruct (p x); cbn [length]; lia.
Qed.

Lemma count_split p l : (count p l + count (fun t => negb (p t)) l = length l)%nat.
Proof using Type. unfold count. induction l as [|x l IH]; [done|]. cbn [List.filter]. destruct (p x); cbn [negb length]; lia. Qed.

Lemma count_none p l : (forall t, t ∈ l -> p t = false) -> count p l = 0%nat.
Proof using Type.
  unfold count. induction l as [|x l IH]; intros H; [done|]. cbn. rewrite (H x) by left. apply IH. intros t Ht. apply H. by right.
Qed.

(** ** The invariant *)

(** No ticket is of a period to come; and in the half-open state the breaker counts no more
    probes than there are, and misses as many as older requests have reported. *)
Record traffic_inv s : Prop := {
  ti_wf : wf (tr_breaker s);
  ti_past period : Probe period ∈ tr_underway s -> (period <= tr_period s)%nat;
  ti_counted : b_state (tr_breaker s) = StateHalfOpen ->
    b_halfOpenInFlight (tr_breaker s) <= Z.of_nat (probes s) /\
    Z.of_nat (probes s) + Z.of_nat (older s) <= b_halfOpenInFlight (tr_breaker s) + Z.of_nat (tr_carried s);
}.

Lemma is_probe_same period : is_probe period (Probe period) = true.
Proof using Type. by apply bool_decide_eq_true. Qed.

Lemma new_traffic_inv cfg : traffic_inv (new_traffic cfg).
Proof using Type. split; [apply wf_New|by intros ? ?%elem_of_nil|done]. Qed.

Lemma Allow_half_open now b :
  wf b ->
  let '(allowed, (b', _)) := Allow now b in
  b_state b' = StateHalfOpen ->
  if half_open b
  then if allowed then b_halfOpenInFlight b' = b_halfOpenInFlight b + 1
       else b' = b /\ cb_HalfOpenMaxRequests (b_config b) <= b_halfOpenInFlight b
  else allowed = true /\ b_halfOpenInFlight b' = 1.
Proof using Type.
  intros Hwf. pose proof (pc_half_open _ (wf_config _ Hwf)). unfold Allow, half_open.
  destruct (timeoutElapsed now b) eqn:Ht.
  - apply timeoutElapsed_spec in Ht as [Ho _]. cbn. destruct (Z.leb_spec (cb_HalfOpenMaxRequests (b_config b)) 0); [lia|]. by rewrite Ho.
  - destruct (b_state b) eqn:Hs; cbn; rewrite ?Hs; [done|done|]. destruct (Z.leb_spec (cb_HalfOpenMaxRequests (b_config b)) (b_halfOpenInFlight b)); [done|].
    intros _. by rewrite bool_decide_eq_true_2.
Qed.

Lemma ask_inv now s : traffic_inv s -> traffic_inv (snd (ask now s)).
Proof using Type.
  intros [Hwf Hpast Hc]. unfold ask. pose proof (Allow_half_open now _ Hwf) as Ha. pose proof (wf_Allow now _ Hwf) as Hwf'.
  destruct (Allow now (tr_breaker s)) as [allowed [b calls]]. cbn [fst snd] in *.
  set (entered := half_open b && negb (half_open (tr_breaker s))).
  assert (forall period, Probe period ∈ (if allowed then tr_underway s ++ [if half_open b then Probe (if entered then S (tr_period s) else tr_period s) else Regular]
    else tr_underway s) -> (period <= if entered then S (tr_period s) else tr_period s)%nat) as Hp.
  { intros period Hin. destruct allowed; [apply elem_of_app in Hin as [Hin|Hin%list_elem_of_singleton]|].
    - apply Hpast in Hin. destruct entered; lia.
    - destruct (half_open b); [injection Hin as ->; lia|done].
    - apply Hpast in Hin. destruct entered; lia. }
  split; cbn [tr_breaker tr_underway tr_period tr_carried]; [done|done|]. intros Hs. specialize (Ha Hs).
  assert (half_open b = true) as Hh by (by apply bool_decide_eq_true). unfold probes, older. cbn [tr_underway tr_period].
  unfold entered. rewrite Hh. cbn [andb]. destruct (half_open (tr_breaker s)) eqn:Hb; cbn [negb].
  - apply bool_decide_eq_true in Hb. specialize (Hc Hb). destruct allowed; [|by destruct Ha as [-> _]].
    rewrite !count_snoc, Ha, is_probe_same. cbn [negb]. unfold probes, older in Hc. lia.
  - destruct Ha as [-> ->]. rewrite !count_snoc, is_probe_same. cbn [negb].
    pose proof (count_split (is_probe (S (tr_period s))) (tr_underway s)) as Hsplit.
    assert (count (is_probe (S (tr_period s))) (tr_underway s) = 0%nat); [|lia].
    apply count_none. intros t Ht. apply bool_decide_eq_false. intros ->. apply Hpast in Ht. lia.
Qed.

Lemma record_wf result now b : wf b -> wf (record result now b).
Proof using Type. destruct result; [apply wf_RecordSuccess|apply wf_RecordFailure|apply wf_RecordIgnored]. Qed.

Lemma closeIfRecovered_open b : b_state (fst (closeIfRecovered b)) = StateHalfOpen -> fst (closeIfRecovered b) = b.
Proof using Type. unfold closeIfRecovered. by destruct (_ && _). Qed.

(** A result that leaves the breaker half-open found it so, and gave a place back, if one was
    taken. *)
Lemma record_half_open result now b :
  b_state (record result now b) = StateHalfOpen ->
  b_state b = StateHalfOpen /\ b_halfOpenInFlight (record result now b) = decInFlight (b_halfOpenInFlight b).
Proof using Type.
  unfold record, RecordSuccess, RecordFailure, RecordIgnored. destruct result.
  - destruct (b_state b) eqn:Hs; cbn [fst]; [rewrite prune_state; congruence|congruence|].
    intros H. by rewrite (closeIfRecovered_open _ H).
  - destruct (b_state b) eqn:Hs; cbn [fst]; [|congruence|done].
    unfold tripIfThreshold. case_match; [done|]. cbn. rewrite prune_state. cbn. congruence.
  - unfold decInFlight. case_bool_decide as Hs; cbn [andb fst]; [|done].
    destruct (Z.ltb_spec 0 (b_halfOpenInFlight b)); cbn [fst]; [|done].
    intros H0. by rewrite (closeIfRecovered_open _ H0).
Qed.

Lemma report_inv i result now s : (i < length (tr_underway s))%nat -> traffic_inv s -> traffic_inv (report i result now s).
Proof using Type.
  intros Hi [Hwf Hpast Hc]. unfold report. split; cbn [tr_breaker tr_underway tr_period tr_carried].
  - by apply record_wf.
  - intros period Hin. apply Hpast. revert Hin. rewrite list_elem_of_lookup. intros [j Hj].
    apply list_elem_of_lookup. destruct (decide (j < i)%nat); [rewrite list_lookup_delete_lt in Hj by done|rewrite list_lookup_delete_ge in Hj by lia]; eauto.
  - intros Hs. apply record_half_open in Hs as [Hs Hn]. specialize (Hc Hs). rewrite Hn.
    destruct (lookup_lt_is_Some_2 _ _ Hi) as [t Ht]. pose proof (wf_inFlight _ Hwf).
    pose proof (count_delete (is_probe (tr_period s)) _ _ _ Ht) as H1.
    pose proof (count_delete (fun t => negb (is_probe (tr_period s) t)) _ _ _ Ht) as H2. cbn beta in H2.
    unfold probes, older in *. cbn [tr_underway tr_period]. unfold decInFlight.
    destruct (Z.ltb_spec 0 (b_halfOpenInFlight (tr_breaker s))), (is_probe (tr_period s) t); cbn [negb] in H2; lia.
Qed.

Lemma traffic_step_inv s s' : traffic_step s s' -> traffic_inv s -> traffic_inv s'.
Proof using Type.
  intros [now s0|i result now s0 Hi|s0] Hinv; [by apply ask_inv|by apply report_inv|].
  destruct Hinv as [Hwf Hpast Hc]. split; cbn; [|done|done]. by apply (wf_closeLocked (tr_breaker s0)), Hwf.
Qed.

Lemma traffic_reachable cfg s : rtc traffic_step (new_traffic cfg) s -> traffic_inv s.
Proof using Type.
  intros H. eapply (rtc_ind_r (fun s => traffic_inv s)); [apply new_traffic_inv| |exact H]. intros y z _ Hstep Hy. by eapply traffic_step_inv.
Qed.
End Probes.
Arguments Traffic : clear implicits.

(** C16: half-open places are accounted for: whatever requests ask and report in between, while
    the circuit is half-open at most [HalfOpenMaxRequests] probes are under way, and beyond
    these no more than the requests that were under way when it became half-open and have
    reported since; and no place is lost: while fewer probes than that are under way, the next
    request is admitted. *)
Theorem half_open_places {C} cfg (s : Traffic C) now :
  rtc traffic_step (new_traffic cfg) s -> b_state (tr_breaker s) = StateHalfOpen ->
  let max := cb_HalfOpenMaxRequests (b_config (tr_breaker s)) in
  Z.of_nat (probes s) <= max + (Z.of_nat (tr_carried s) - Z.of_nat (older s)) /\
  (Z.of_nat (probes s) < max -> fst (ask now s) = true).
Proof.
  intros Hr Hs max. destruct (traffic_reachable _ _ Hr) as [Hwf _ Hc]. specialize (Hc Hs). pose proof (wf_inFlight _ Hwf).
  split; [lia|]. intros Hlt. unfold ask. unfold Allow, timeoutElapsed. rewrite bool_decide_eq_false_2 by congruence. cbn [andb].
  rewrite Hs. subst max. destruct (Z.leb_spec (cb_HalfOpenMaxRequests (b_config (tr_breaker s))) (b_halfOpenInFlight (tr_breaker s))); [lia|done].
Qed.

(** Two requests under way when the first of them opens the circuit; the second reports
    once the circuit is half-open, and its place is given to one probe too many. *)
Definition demo_probing : Traffic unit :=
  let cfg := mkCBConfig 1 2 10 60 1 in
  let s := snd (ask 0 (snd (ask 0 (new_traffic cfg)))) in
  let s := snd (ask 10 (report 0 FailedUpstream 0 s)) in
  snd (ask 12 (report 0 Succeeded 11 s)).

Lemma demo_probing_reached : rtc traffic_step (new_traffic (C := unit) (mkCBConfig 1 2 10 60 1)) demo_probing.
Proof.
  do 2 (eapply rtc_l; [apply (traffic_ask 0)|]). eapply rtc_l; [apply (traffic_report 0 FailedUpstream 0); vm_compute; lia|].
  eapply rtc_l; [apply (traffic_ask 10)|]. eapply rtc_l; [apply (traffic_report 0 Succeeded 11); vm_compute; lia|].
  eapply rtc_l; [apply (traffic_ask 12)|]. apply rtc_refl.
Qed.

(** A late result makes room: two probes under way where one is allowed. *)
Lemma late_results_make_room :
  b_state (tr_breaker demo_probing) = StateHalfOpen /\ cb_HalfOpenMaxRequests (b_config (tr_breaker demo_probing)) = 1 /\
  probes demo_probing = 2%nat /\ tr_carried demo_probing = 1%nat /\ older demo_probing = 0%nat.
Proof. by vm_compute. Qed.

Lemma half_open_places_witness :
  b_state (tr_breaker demo_probing) = StateHalfOpen /\ Z.of_nat (probes demo_probing) <= 1 + (1 - 0) /\
  fst (ask 13 (report 0 Ignored 12 (report 0 Ignored 12 demo_probing))) = true.
Proof.
  split; [reflexivity|]. split; [exact (proj1 (half_open_places _ demo_probing 13 demo_probing_reached eq_refl))|].
  refine (proj2 (half_open_places (mkCBConfig 1 2 10 60 1) (report 0 Ignored 12 (report 0 Ignored 12 demo_probing)) 13 _ _) _);
    [|reflexivity|vm_compute; reflexivity].
  eapply rtc_r; [eapply rtc_r; [exact demo_probing_reached|]|]; apply traffic_report; vm_compute; lia.
Defined.

(** ** Probes that a reload leaves behind *)

(** A reload that changes the circuit breaker's settings goes on with a clone; the requests
    under way report to the breaker that it was made from. *)
Definition reload {C} (now : Time) (cfg : CBConfig) (s : Traffic C) : Traffic C :=
  mkTraffic (fst (cloneWithConfig now cfg (tr_breaker s))) [] (tr_period s) 0.

(** With every place taken, no request is admitted and none can give a place back. *)
Lemma full_circuit_rejects {C} (b : Breaker C) times :
  b_state b = StateHalfOpen -> cb_HalfOpenMaxRequests (b_config b) <= b_halfOpenInFlight b ->
  Forall (fun allowed => allowed = false) (answers (map (pair OpAllow) times) b).
Proof.
  intros Hs Hf. assert (forall now, step OpAllow now b = (false, (b, []))) as Hstep.
  { intros now. cbn. unfold Allow, timeoutElapsed. rewrite bool_decide_eq_false_2 by congruence. cbn [andb]. rewrite Hs.
    by destruct (Z.leb_spec (cb_HalfOpenMaxRequests (b_config b)) (b_halfOpenInFlight b)); [|lia]. }
  induction times as [|now times IH]; constructor; [unfold answer; by rewrite Hstep|]. unfold after. by rewrite Hstep.
Qed.

(** A probe is under way while the settings are reloaded: the circuit rejects every request
    from then on, though none is under way. *)
Lemma reload_strands_circuit :
  let s := snd (ask 10 (report 0 FailedUpstream 0 (snd (ask 0 (new_traffic (C := unit) (mkCBConfig 1 1 10 60 1)))))) in
  let s' := reload 11 (mkCBConfig 2 1 10 60 1) s in
  probes s = 1%nat /\ tr_underway s' = [] /\
  forall times, Forall (fun allowed => allowed = false) (answers (map (pair OpAllow) times) (tr_breaker s')).
Proof. cbv zeta. split_and!; [reflexivity|reflexivity|]. intros times. apply full_circuit_rejects; by vm_compute. Qed.

(** ** Two failures at a time: [recordBreakerFailure] *)

(** [before := breaker.State(); breaker.RecordFailure(); after := breaker.State()], three
    critical sections; a circuit that opened between them is counted. *)
Inductive Failing := ReadBefore | RecordNext (before : State) | ReadAfter (before : State) | FailureRecorded.

Record Failures C := mkFailures { fa_breaker : Breaker C; fa_counted : nat; fa_opened : nat; fa_threads : list Failing }.
Arguments mkFailures {C}.
Arguments fa_breaker {C}.
Arguments fa_counted {C}.
Arguments fa_opened {C}.
Arguments fa_threads {C}.

Section Failures.
Context {C : Type}.

(** One section of a thread; [fa_opened] counts what the breaker does, [fa_counted] is the
    metric. *)
Definition fail_section (now : Time) (t : Failing) (s : Failures C) : Failing * Failures C :=
  let b := fa_breaker s in
  match t with
  | ReadBefore => (RecordNext (State_ now b), s)
  | RecordNext before =>
      let b' := fst (RecordFailure now b) in
      let opens := bool_decide (b_state b <> StateOpen) && bool_decide (b_state b' = StateOpen) in
      (ReadAfter before, mkFailures b' (fa_counted s) (fa_opened s + if opens then 1 else 0) (fa_threads s))
  | ReadAfter before =>
      let counts := bool_decide (before <> StateOpen) && bool_decide (State_ now b = StateOpen) in
      (FailureRecorded, mkFailures b (fa_counted s + if counts then 1 else 0) (fa_opened s) (fa_threads s))
  | FailureRecorded => (FailureRecorded, s)
  end.

Definition schedule_one (now : Time) (s : Failures C) (i : nat) : Failures C :=
  match fa_threads s !! i with
  | None => s
  | Some t => let '(t, s) := fail_section now t s in mkFailures (fa_breaker s) (fa_counted s) (fa_opened s) (<[i := t]> (fa_threads s))
  end.

Definition schedule (now : Time) (order : list nat) (s : Failures C) : Failures C := foldl (schedule_one now) s order.

(** A failure that nothing comes between counts what it opens. *)
Lemma lone_failure_counts_exactly (b : Breaker C) now :
  wf b -> State_ now b = b_state b ->
  let s := schedule now [0; 0; 0]%nat (mkFailures b 0 0 [ReadBefore]) in fa_counted s = fa_opened s.
Proof using Type.
  intros Hwf Hs. pose proof (pc_timeout _ (wf_config _ Hwf)). cbn. rewrite Hs. case_bool_decide as Ho; [|done]. cbn [andb].
  assert (State_ now (fst (RecordFailure now b)) = b_state (fst (RecordFailure now b))) as ->; [|done].
  unfold State_, timeoutElapsed. case_bool_decide as Hopen; [|done]. cbn [andb].
  assert (b_openUntil (fst (RecordFailure now b)) = now + cb_Timeout (b_config b)) as ->.
  { unfold RecordFailure in *. destruct (b_state b) eqn:Hb; [|done|done]. unfold tripIfThreshold in *.
    destruct (_ <=? _); cbn in *; [by rewrite prune_config|]. rewrite prune_state in Hopen. cbn in Hopen. congruence. }
  unfold Before. destruct (Z.ltb_spec now (now + cb_Timeout (b_config b))); [done|lia].
Qed.
End Failures.

(** Two failures that overlap count one opening twice. *)
Lemma one_opening_counted_twice :
  let s := schedule 0 [0; 1; 0; 1; 0; 1]%nat (mkFailures (New (C := unit) (mkCBConfig 1 1 10 60 1)) 0 0 [ReadBefore; ReadBefore]) in
  fa_opened s = 1%nat /\ fa_counted s = 2%nat.
Proof. by vm_compute. Qed.
