(* ===== verification/Registry.v ===== *)
(** * The breaker registry: [internal/transport/circuitbreaker/registry.go]

    One breaker per target address, and the [gateway_circuit_state] gauge that shows
    the worst state of each service's targets.  The gauge is a Prometheus [GaugeVec],
    code the registry only calls: it is a parameter ([GaugeVec]) with the documented
    meaning of its three operations.  The closure [attachBreaker] installs on a breaker
    is the pair of the variables it captures, [Callback]; running it is [setGauge].

    Go ranges over its maps in an unspecified order; the folds below use
    [map_to_list], one such order. *)

From S2P Require Import Prelude GoStrings Config Breaker.
From stdpp Require Import options.
#[local] Set Default Proof Using "Type*".

(** ** The gauge vector the registry is given *)

Class GaugeVec (G : Type) := {
  gauge_new : G;
  gauge_set : string -> Z -> G -> G;
  gauge_delete : string -> G -> G;
  gauge_view : G -> gmap string Z;
}.

Class GaugeVecLaws (G : Type) `{GaugeVec G} := {
  gauge_view_new : gauge_view gauge_new = ∅;
  gauge_view_set s v g : gauge_view (gauge_set s v g) = <[s := v]> (gauge_view g);
  gauge_view_delete s g : gauge_view (gauge_delete s g) = delete s (gauge_view g);
}.

#[export] Instance map_gauge : GaugeVec (gmap string Z) := {
  gauge_new := ∅;
  gauge_set s v g := <[s := v]> g;
  gauge_delete s g := delete s g;
  gauge_view g := g;
}.

#[export] Instance map_gauge_laws : GaugeVecLaws (gmap string Z).
Proof. by split. Qed.

(** ** Data *)

Record Callback := mkCallback { call_target : string; call_service : string }.

Record targetState := mkTargetState { ts_service : string; ts_state : State }.

Record Registry (G : Type) := mkRegistry {
  r_config : CBConfig;
  r_breakers : gmap string (Breaker Callback);
  r_circuitStateGauge : option G;
  r_targetStates : gmap string targetState;
}.
Arguments mkRegistry {G}.
Arguments r_config {G}.
Arguments r_breakers {G}.
Arguments r_circuitStateGauge {G}.
Arguments r_targetStates {G}.

Definition normalizeService (service : string) : string :=
  if bool_decide (service = "") then "unknown" else service.

Definition circuitStateValue (state : State) : Z :=
  match state with StateOpen => 1 | StateHalfOpen => 2 | StateClosed => 0 end.

(** The loop of [aggregateServiceStateLocked]. *)
Fixpoint aggregateLoop (service : string) (sawHalfOpen : bool)
    (states : list (string * targetState)) : State :=
  match states with
  | [] => if sawHalfOpen then StateHalfOpen else StateClosed
  | (_, state) :: states =>
      if negb (bool_decide (ts_service state = service)) then aggregateLoop service sawHalfOpen states
      else match ts_state state with
           | StateOpen => StateOpen
           | StateHalfOpen => aggregateLoop service true states
           | StateClosed => aggregateLoop service sawHalfOpen states
           end
  end.

Definition aggregateServiceStateLocked (ts : gmap string targetState) (service : string)
    : State :=
  aggregateLoop service false (map_to_list ts).

Definition serviceHasTargetsLocked (ts : gmap string targetState) (service : string) : bool :=
  existsb (fun '(_, state) => bool_decide (ts_service state = service)) (map_to_list ts).

Section Registry.
Context {G : Type} `{GaugeVec G}.
Implicit Types r : Registry G.

Definition with_breakers (m : gmap string (Breaker Callback)) r : Registry G :=
  mkRegistry (r_config r) m (r_circuitStateGauge r) (r_targetStates r).

Definition with_states (g : option G) (ts : gmap string targetState) r : Registry G :=
  mkRegistry (r_config r) (r_breakers r) g ts.

(** [registerFails]: [registerCollector] is not nil and returned an error. *)
Definition NewRegistry (config : CBConfig) (registerFails : bool) : Registry G :=
  mkRegistry config ∅ (if registerFails then None else Some gauge_new) ∅.

(** [r.circuitStateGauge.WithLabelValues(service).Set(circuitStateValue(...))] *)
Definition setAggregate (ts : gmap string targetState) (service : string) (g : G) : G :=
  gauge_set service (circuitStateValue (aggregateServiceStateLocked ts service)) g.

Definition setGauge (target service : string) (state : State) r : Registry G :=
  match r_circuitStateGauge r with
  | None => r
  | Some g =>
      let service := normalizeService service in
      let previous := r_targetStates r !! target in
      let ts := <[target := mkTargetState service state]> (r_targetStates r) in
      let g :=
        match previous with
        | Some p =>
            if bool_decide (ts_service p = service) then g
            else if bool_decide (ts_service p = "") then g
            else if serviceHasTargetsLocked ts (ts_service p)
                 then setAggregate ts (ts_service p) g
                 else gauge_delete (ts_service p) g
        | None => g
        end in
      with_states (Some (setAggregate ts service g)) ts r
  end.

(** The callback calls of a breaker method, in order. *)
Definition applyCalls (calls : list (Callback * State)) r : Registry G :=
  foldl (fun r '(c, state) => setGauge (call_target c) (call_service c) state r) r calls.

Definition serviceForTarget (target : string) r : string :=
  match r_targetStates r !! target with
  | Some state => ts_service state
  | None => normalizeService ""
  end.

(** [attachBreaker], for a breaker the registry may not hold yet: the breaker with its
    callback, and the registry after the gauge is set. *)
Definition attachBreaker (target service : string) (breaker : Breaker Callback) r
    : Breaker Callback * Registry G :=
  let '(state, breaker) := setStateChangeCallback (Some (mkCallback target service)) breaker in
  (breaker, setGauge target service state r).

Definition storeBreaker (target : string) (breaker : Breaker Callback) r : Registry G :=
  with_breakers (<[target := breaker]> (r_breakers r)) r.

Definition ensureBreakerService (target service : string) (breaker : Breaker Callback) r
    : Registry G :=
  let desired := normalizeService service in
  if bool_decide (ts_service <$> r_targetStates r !! target = Some desired) then r
  else
    let '(breaker, r) := attachBreaker target desired breaker r in
    storeBreaker target breaker r.

(** The breaker it returns is the one stored under [target]. *)
Definition BreakerForService (target service : string) r : Registry G :=
  match r_breakers r !! target with
  | Some breaker => ensureBreakerService target service breaker r
  | None =>
      let '(breaker, r) := attachBreaker target service (New (r_config r)) r in
      storeBreaker target breaker r
  end.

Definition BreakerOf (target : string) r : Registry G :=
  BreakerForService target (serviceForTarget target r) r.

(** A method of the breaker stored under [target], with the calls it makes. *)
Definition onBreaker (target : string)
    (method : Breaker Callback -> Breaker Callback * list (Callback * State)) r : Registry G :=
  match r_breakers r !! target with
  | Some breaker =>
      let '(breaker, calls) := method breaker in
      applyCalls calls (storeBreaker target breaker r)
  | None => r
  end.

Definition removeTarget (target : string) r : Registry G :=
  match r_targetStates r !! target with
  | None => r
  | Some state =>
      let ts := delete target (r_targetStates r) in
      match r_circuitStateGauge r with
      | None => with_states None ts r
      | Some g =>
          with_states
            (Some (if serviceHasTargetsLocked ts (ts_service state)
                   then setAggregate ts (ts_service state) g
                   else gauge_delete (ts_service state) g)) ts r
      end
  end.

(** One iteration of the [Range] of [ReconcileTargetServices]. *)
Definition reconcileTarget (targetServices : gmap string string) r
    (entry : string * Breaker Callback) : Registry G :=
  let '(target, breaker) := entry in
  match targetServices !! target with
  | None => removeTarget target (with_breakers (delete target (r_breakers r)) r)
  | Some service => ensureBreakerService target service breaker r
  end.

Definition ReconcileTargetServices (targetServices : gmap string string) r : Registry G :=
  foldl (reconcileTarget targetServices) r (map_to_list (r_breakers r)).

Definition Reset r : nat * Registry G :=
  foldl (fun '(reset, r) '(target, _) => (S reset, onBreaker target ForceClose r))
    (0%nat, r) (map_to_list (r_breakers r)).

(** One iteration of the [Range] of [CloneWithConfig]: the clone and the registry that
    is being cloned, whose callback the cloned breaker calls while it reconciles. *)
Definition cloneEntry (now : Time) (cfg : CBConfig) (acc : Registry G * Registry G)
    (entry : string * Breaker Callback) : Registry G * Registry G :=
  let '(clone, r) := acc in
  let '(target, breaker) := entry in
  let service := serviceForTarget target r in
  let '(breaker, calls) := cloneWithConfig now cfg breaker in
  let r := applyCalls calls r in
  let '(breaker, clone) := attachBreaker target service breaker clone in
  (storeBreaker target breaker clone, r).

Definition CloneWithConfig (now : Time) (cfg : CBConfig) (registerFails : bool) r
    : Registry G * Registry G :=
  foldl (cloneEntry now cfg) (NewRegistry cfg registerFails, r) (map_to_list (r_breakers r)).

(** [State(target)]: the breaker's state, if the registry holds one. *)
Definition TargetState (now : Time) (target : string) r : State * bool :=
  match r_breakers r !! target with
  | None => (StateClosed, false)
  | Some breaker => (State_ now breaker, true)
  end.

End Registry.

(** ** The aggregate is the worst state of the service's targets *)

Definition has_state (ts : gmap string targetState) (service : string) (st : State) : Prop :=
  exists target, ts !! target = Some (mkTargetState service st).

Definition list_has (l : list (string * targetState)) (service : string) (st : State) : Prop :=
  exists target, (target, mkTargetState service st) ∈ l.

Lemma list_has_cons t x l service st :
  list_has ((t, x) :: l) service st <->
  x = mkTargetState service st \/ list_has l service st.
Proof. unfold list_has. setoid_rewrite elem_of_cons. naive_solver. Qed.

Lemma list_has_map ts service st : list_has (map_to_list ts) service st <-> has_state ts service st.
Proof. unfold list_has, has_state. by setoid_rewrite elem_of_map_to_list. Qed.

Lemma list_has_nil service st : ~ list_has [] service st.
Proof. intros [t Ht]. by apply elem_of_nil in Ht. Qed.

Lemma aggregateLoop_open service saw l :
  aggregateLoop service saw l = StateOpen <-> list_has l service StateOpen.
Proof.
  revert saw. induction l as [|[t [s st]] l IH]; intros saw; simpl.
  - split; [by destruct saw|by intros []%list_has_nil].
  - rewrite list_has_cons. case_bool_decide as Hs; simpl in *; subst; [|rewrite IH; naive_solver].
    destruct st; rewrite ?IH; naive_solver.
Qed.

Lemma aggregateLoop_half service saw l :
  aggregateLoop service saw l = StateHalfOpen <->
  ~ list_has l service StateOpen /\ (saw = true \/ list_has l service StateHalfOpen).
Proof.
  revert saw. induction l as [|[t [s st]] l IH]; intros saw; simpl.
  - pose proof (list_has_nil service StateHalfOpen). pose proof (list_has_nil service StateOpen).
    destruct saw; naive_solver.
  - rewrite !list_has_cons. case_bool_decide as Hs; simpl in *; subst; [|rewrite IH; naive_solver].
    destruct st; rewrite ?IH; naive_solver.
Qed.

Lemma aggregate_open ts service :
  aggregateServiceStateLocked ts service = StateOpen <-> has_state ts service StateOpen.
Proof. unfold aggregateServiceStateLocked. by rewrite aggregateLoop_open, list_has_map. Qed.

Lemma aggregate_half ts service :
  aggregateServiceStateLocked ts service = StateHalfOpen <->
  ~ has_state ts service StateOpen /\ has_state ts service StateHalfOpen.
Proof.
  unfold aggregateServiceStateLocked. rewrite aggregateLoop_half, !list_has_map. naive_solver.
Qed.

(** The aggregate depends only on the states the service's targets are in. *)
Lemma aggregate_ext ts ts' service :
  (forall st, has_state ts service st <-> has_state ts' service st) ->
  aggregateServiceStateLocked ts service = aggregateServiceStateLocked ts' service.
Proof.
  intros Heq. pose proof (aggregate_open ts service) as O1. pose proof (aggregate_open ts' service) as O2.
  pose proof (aggregate_half ts service) as H1. pose proof (aggregate_half ts' service) as H2.
  rewrite Heq in O1. rewrite !Heq in H1.
  destruct (aggregateServiceStateLocked ts service), (aggregateServiceStateLocked ts' service); naive_solver.
Qed.

Lemma serviceHasTargets_true ts service :
  serviceHasTargetsLocked ts service = true <-> exists st, has_state ts service st.
Proof.
  unfold serviceHasTargetsLocked. rewrite existsb_exists. split.
  - intros ([t [s st]] & Hin & Hs). apply bool_decide_eq_true in Hs. simpl in Hs. subst.
    apply list_elem_of_In, elem_of_map_to_list in Hin. by exists st, t.
  - intros (st & t & Ht). exists (t, mkTargetState service st).
    split; [by apply list_elem_of_In, elem_of_map_to_list|by apply bool_decide_eq_true].
Qed.

Lemma serviceHasTargets_ext ts ts' service :
  (forall st, has_state ts service st <-> has_state ts' service st) ->
  serviceHasTargetsLocked ts service = serviceHasTargetsLocked ts' service.
Proof.
  intros Heq. apply eq_true_iff_eq. rewrite !serviceHasTargets_true. by setoid_rewrite Heq.
Qed.

(** Changing the entry of one target leaves every service it neither joins nor leaves. *)
Lemma has_state_insert_other ts target service st0 service' st :
  service <> service' ->
  (forall p, ts !! target = Some p -> ts_service p <> service') ->
  has_state (<[target := mkTargetState service st0]> ts) service' st <-> has_state ts service' st.
Proof.
  intros Hne Hold. unfold has_state. split; intros [t Ht]; exists t; revert Ht;
    rewrite lookup_insert; case_decide; try done; subst; [intros [= ? ?]; by subst|].
  intros Ht. by destruct (Hold _ Ht).
Qed.

Lemma has_state_delete_other ts target service' st :
  (forall p, ts !! target = Some p -> ts_service p <> service') ->
  has_state (delete target ts) service' st <-> has_state ts service' st.
Proof.
  intros Hold. unfold has_state. split; intros [t Ht]; exists t; revert Ht;
    rewrite lookup_delete; case_decide; try done; subst.
  intros Ht. by destruct (Hold _ Ht).
Qed.

Lemma normalizeService_nonempty s : normalizeService s <> "".
Proof. unfold normalizeService. by case_bool_decide. Qed.

Lemma normalizeService_idemp s : normalizeService (normalizeService s) = normalizeService s.
Proof. unfold normalizeService. by repeat case_bool_decide. Qed.

(** ** The registry's invariant *)

Section Consistency.
Context {G : Type} `{GaugeVecLaws G}.
Implicit Types r : Registry G.

(** What the gauge shows: one series per service with a target, valued by the worst
    state of its targets. *)
Definition gauge_shows (ts : gmap string targetState) (g : G) : Prop :=
  forall service, gauge_view g !! service =
    if serviceHasTargetsLocked ts service
    then Some (circuitStateValue (aggregateServiceStateLocked ts service)) else None.

Definition services_named (ts : gmap string targetState) : Prop :=
  forall target p, ts !! target = Some p -> ts_service p <> "".

Record gauge_consistent r : Prop := {
  gc_gauge : exists g, r_circuitStateGauge r = Some g /\ gauge_shows (r_targetStates r) g;
  gc_named : services_named (r_targetStates r);
}.

(** The breaker of [target] reports to the registry, which knows its state. *)
Definition tracked r (target : string) : Prop :=
  match r_breakers r !! target with
  | Some b => exists service,
      b_stateChangeCallback b = Some (mkCallback target service) /\
      r_targetStates r !! target = Some (mkTargetState (normalizeService service) (b_state b))
  | None => r_targetStates r !! target = None
  end.

Record consistent r : Prop := {
  cs_gauge : gauge_consistent r;
  cs_tracked : forall target, tracked r target;
}.

Lemma gauge_shows_set ts service g service' :
  gauge_view (setAggregate ts service g) !! service' =
  if bool_decide (service = service')
  then Some (circuitStateValue (aggregateServiceStateLocked ts service))
  else gauge_view g !! service'.
Proof.
  unfold setAggregate. rewrite gauge_view_set. case_bool_decide; subst; by simplify_map_eq.
Qed.

(** The value a service's series must have, as [gauge_shows] states it. *)
Definition series ts service : option Z :=
  if serviceHasTargetsLocked ts service
  then Some (circuitStateValue (aggregateServiceStateLocked ts service)) else None.

Lemma series_ext ts ts' service :
  (forall st, has_state ts service st <-> has_state ts' service st) ->
  series ts service = series ts' service.
Proof.
  intros Heq. unfold series.
  by rewrite (serviceHasTargets_ext _ _ _ Heq), (aggregate_ext _ _ _ Heq).
Qed.

(** Refreshing the series of a service the target left: set it or drop it. *)
Definition refresh ts service (g : G) : G :=
  if serviceHasTargetsLocked ts service then setAggregate ts service g
  else gauge_delete service g.

Lemma refresh_view ts service g service' :
  gauge_view (refresh ts service g) !! service' =
  if bool_decide (service = service') then series ts service' else gauge_view g !! service'.
Proof.
  unfold refresh, series. destruct (serviceHasTargetsLocked ts service) eqn:E.
  - rewrite gauge_shows_set. case_bool_decide; subst; by rewrite ?E.
  - rewrite gauge_view_delete. case_bool_decide; subst; simplify_map_eq; by rewrite ?E.
Qed.

Lemma has_state_inserted ts target service st :
  serviceHasTargetsLocked (<[target := mkTargetState service st]> ts) service = true.
Proof. apply serviceHasTargets_true. exists st, target. by simplify_map_eq. Qed.

Lemma setGauge_spec target service st r :
  gauge_consistent r ->
  gauge_consistent (setGauge target service st r) /\
  r_targetStates (setGauge target service st r) =
    <[target := mkTargetState (normalizeService service) st]> (r_targetStates r) /\
  r_breakers (setGauge target service st r) = r_breakers r /\
  r_config (setGauge target service st r) = r_config r.
Proof.
  intros [(g & Hg & Hshow) Hnamed]. unfold setGauge. rewrite Hg. cbv zeta.
  set (svc := normalizeService service).
  set (ts := <[target := mkTargetState svc st]> (r_targetStates r)).
  split; [|done]. split.
  - eexists. split; [done|]. intros service'. simpl. rewrite gauge_shows_set.
    fold (series ts service'). case_bool_decide as Hs.
    { subst service'. unfold series, ts. by rewrite has_state_inserted. }
    destruct (r_targetStates r !! target) as [p|] eqn:Hp; simpl.
    + assert (ts_service p <> svc -> ts_service p <> service' -> gauge_view g !! service' = series ts service') as Hother.
      { intros _ Hne. rewrite Hshow. symmetry. apply series_ext. intros st'.
        apply has_state_insert_other; naive_solver. }
      assert (ts_service p = svc -> gauge_view g !! service' = series ts service') as Hsame.
      { intros E. rewrite Hshow. symmetry. apply series_ext. intros st'.
        apply has_state_insert_other; naive_solver. }
      repeat case_bool_decide; [by apply Hsame|by destruct (Hnamed _ _ Hp)|].
      fold (refresh ts (ts_service p) g). rewrite refresh_view.
      case_bool_decide; [done|by apply Hother].
    + rewrite Hshow. symmetry. apply series_ext. intros st'.
      apply has_state_insert_other; naive_solver.
  - simpl. intros t p. unfold ts. rewrite lookup_insert. case_decide; [|apply Hnamed].
    intros [= <-]. apply normalizeService_nonempty.
Qed.

Lemma removeTarget_spec target r :
  gauge_consistent r ->
  gauge_consistent (removeTarget target r) /\
  r_targetStates (removeTarget target r) = delete target (r_targetStates r) /\
  r_breakers (removeTarget target r) = r_breakers r /\
  r_config (removeTarget target r) = r_config r.
Proof.
  intros [(g & Hg & Hshow) Hnamed]. unfold removeTarget.
  destruct (r_targetStates r !! target) as [p|] eqn:Hp.
  2:{ rewrite delete_id by done. split; [by split; [eauto|]|done]. }
  rewrite Hg. cbv zeta. split; [|done]. split; simpl.
  - eexists. split; [done|]. intros service'.
    set (ts := delete target (r_targetStates r)).
    fold (refresh ts (ts_service p) g). rewrite refresh_view.
    fold (series ts service'). case_bool_decide; [done|].
    rewrite Hshow. symmetry. apply series_ext. intros st'.
    apply has_state_delete_other. naive_solver.
  - intros t q Hq. apply lookup_delete_Some in Hq as [_ Hq]. by eapply Hnamed.
Qed.

End Consistency.

(** ** Every operation keeps the invariant *)

Section Preservation.
Context {G : Type} `{GaugeVecLaws G}.
Implicit Types r : Registry G.

Lemma NewRegistry_consistent cfg : consistent (NewRegistry (G := G) cfg false).
Proof.
  split; [split|].
  - eexists. split; [done|]. intros service. simpl. rewrite gauge_view_new, lookup_empty.
    by unfold serviceHasTargetsLocked; rewrite map_to_list_empty.
  - intros t p. simpl. by rewrite lookup_empty.
  - intros t. unfold tracked. simpl. by rewrite !lookup_empty.
Qed.

(** [r'] is [r] with the breaker [b] under [target], known to the registry. *)
Lemma consistent_put r r' target service b :
  consistent r -> gauge_consistent r' ->
  r_breakers r' = <[target := b]> (r_breakers r) ->
  b_stateChangeCallback b = Some (mkCallback target service) ->
  r_targetStates r' !! target = Some (mkTargetState (normalizeService service) (b_state b)) ->
  (forall t, t <> target -> r_targetStates r' !! t = r_targetStates r !! t) ->
  consistent r'.
Proof.
  intros [_ Htr] Hg Hb Hcb Hts Hother. split; [done|]. intros t. unfold tracked.
  destruct (decide (t = target)) as [->|Hne].
  - rewrite Hb, lookup_insert_eq. eauto.
  - rewrite Hb, lookup_insert_ne, Hother by done. apply Htr.
Qed.

Lemma gauge_consistent_ext r r' :
  r_circuitStateGauge r' = r_circuitStateGauge r -> r_targetStates r' = r_targetStates r ->
  gauge_consistent r -> gauge_consistent r'.
Proof. intros E1 E2 []. split; by rewrite ?E1, ?E2. Qed.

(** [attachBreaker] then [breakers.Store]. *)
Definition attachStore (target service : string) (breaker : Breaker Callback) r : Registry G :=
  let '(breaker, r) := attachBreaker target service breaker r in storeBreaker target breaker r.

Lemma attachStore_spec target service b r :
  gauge_consistent r ->
  let r' := attachStore target service b r in
  gauge_consistent r' /\
  r_targetStates r' =
    <[target := mkTargetState (normalizeService service) (b_state b)]> (r_targetStates r) /\
  r_breakers r' =
    <[target := snd (setStateChangeCallback (Some (mkCallback target service)) b)]>
      (r_breakers r) /\
  r_config r' = r_config r.
Proof.
  intros Hg. unfold attachStore, attachBreaker. simpl.
  destruct (setGauge_spec target service (b_state b) r Hg) as (Hg' & Hts & Hb & Hc).
  split_and!; simpl; [by eapply gauge_consistent_ext; [..|exact Hg']|done|by rewrite Hb|done].
Qed.

Lemma attachStore_consistent target service b r :
  consistent r -> consistent (attachStore target service b r).
Proof.
  intros Hr. destruct (attachStore_spec target service b r (cs_gauge _ Hr)) as (Hg & Hts & Hb & _).
  eapply consistent_put; [exact Hr|exact Hg|exact Hb|done|by rewrite Hts, lookup_insert_eq|].
  intros t Ht. by rewrite Hts, lookup_insert_ne.
Qed.

Lemma ensureBreakerService_eq target service b r :
  ensureBreakerService target service b r =
  if bool_decide (ts_service <$> r_targetStates r !! target = Some (normalizeService service))
  then r else attachStore target (normalizeService service) b r.
Proof. done. Qed.

Lemma ensureBreakerService_consistent target service b r :
  consistent r -> consistent (ensureBreakerService target service b r).
Proof.
  intros Hr. rewrite ensureBreakerService_eq. case_bool_decide; [done|].
  by apply attachStore_consistent.
Qed.

Lemma BreakerForService_consistent target service r :
  consistent r -> consistent (BreakerForService target service r).
Proof.
  intros Hr. unfold BreakerForService. destruct (r_breakers r !! target).
  - by apply ensureBreakerService_consistent.
  - by apply (attachStore_consistent target service).
Qed.

Lemma onBreaker_consistent target method r :
  (forall b, reports b (method b)) -> consistent r -> consistent (onBreaker target method r).
Proof.
  intros Hm Hr. unfold onBreaker. pose proof (cs_tracked _ Hr target) as Ht. unfold tracked in Ht.
  destruct (r_breakers r !! target) as [b|] eqn:Hb; [|done].
  destruct Ht as (service & Hcb & Hts). specialize (Hm b).
  destruct (method b) as [b' calls]. destruct Hm as [Hcb' Hcalls]. simpl in *.
  rewrite Hcb in Hcb'.
  assert (gauge_consistent (storeBreaker target b' r)) as Hg
    by (eapply gauge_consistent_ext; [..|apply Hr]; done).
  destruct Hcalls as [[-> Hst]| ->].
  - eapply consistent_put; [exact Hr|exact Hg|done|exact Hcb'|by rewrite Hst|done].
  - unfold notify. rewrite Hcb. simpl.
    destruct (setGauge_spec target service (b_state b') _ Hg) as (Hg' & Hts' & Hb' & _).
    eapply consistent_put; [exact Hr|exact Hg'|exact Hb'|exact Hcb'| |].
    + rewrite Hts'. by simplify_map_eq.
    + intros t Hne. rewrite Hts'. simpl. by rewrite lookup_insert_ne.
Qed.

Lemma reconcileTarget_consistent ts r entry :
  consistent r -> consistent (reconcileTarget ts r entry).
Proof.
  intros Hr. destruct entry as [target b]. unfold reconcileTarget.
  destruct (ts !! target); [by apply ensureBreakerService_consistent|].
  set (r1 := with_breakers (delete target (r_breakers r)) r).
  assert (gauge_consistent r1) as Hg by (eapply gauge_consistent_ext; [..|apply Hr]; done).
  destruct (removeTarget_spec target r1 Hg) as (Hg' & Hts & Hb & _).
  split; [done|]. intros t. unfold tracked. rewrite Hb, Hts. simpl.
  destruct (decide (t = target)) as [->|Hne].
  - by rewrite !lookup_delete_eq.
  - rewrite !lookup_delete_ne by done. apply (cs_tracked _ Hr).
Qed.

Lemma ReconcileTargetServices_consistent ts r :
  consistent r -> consistent (ReconcileTargetServices ts r).
Proof.
  intros Hr. unfold ReconcileTargetServices. apply foldl_preserves; [|done].
  intros; by apply reconcileTarget_consistent.
Qed.

Lemma Reset_consistent r : consistent r -> consistent (snd (Reset r)).
Proof.
  intros Hr. unfold Reset.
  apply (foldl_preserves (fun a => consistent (snd a))); [|done].
  intros [n r1] [t b] H1. apply onBreaker_consistent; auto with breaker.
Qed.

Lemma CloneWithConfig_consistent now cfg r :
  consistent (fst (CloneWithConfig now cfg false r)).
Proof.
  unfold CloneWithConfig. apply (foldl_preserves (fun a => consistent (fst a))).
  - intros [clone r1] [t b] H1. unfold cloneEntry.
    destruct (cloneWithConfig now cfg b) as [b' calls].
    by apply (attachStore_consistent t (serviceForTarget t r1) b').
  - apply NewRegistry_consistent.
Qed.

End Preservation.

(** ** What the bulk operations do to each target *)

Section Bulk.
Context {G : Type} `{GaugeVecLaws G}.
Implicit Types r : Registry G.

(** What the registry holds about one target. *)
Definition entry_of r (target : string) : option (Breaker Callback) * option targetState :=
  (r_breakers r !! target, r_targetStates r !! target).

Definition with_callback (c : Callback) (b : Breaker Callback) : Breaker Callback :=
  snd (setStateChangeCallback (Some c) b).

Lemma attachStore_entry target service b r :
  gauge_consistent r ->
  entry_of (attachStore target service b r) target =
    (Some (with_callback (mkCallback target service) b),
     Some (mkTargetState (normalizeService service) (b_state b))) /\
  forall t, t <> target -> entry_of (attachStore target service b r) t = entry_of r t.
Proof.
  intros Hg. destruct (attachStore_spec target service b r Hg) as (_ & Hts & Hb & _).
  unfold entry_of. rewrite Hts, Hb. split; [by rewrite !lookup_insert_eq|].
  intros t Ht. by rewrite !lookup_insert_ne.
Qed.

Definition reconciled (targetServices : gmap string string) (target : string)
    (b : Breaker Callback) (e : option (Breaker Callback) * option targetState) :=
  match targetServices !! target with
  | None => (None, None)
  | Some service =>
      if bool_decide (ts_service <$> snd e = Some (normalizeService service)) then e
      else (Some (with_callback (mkCallback target (normalizeService service)) b),
            Some (mkTargetState (normalizeService service) (b_state b)))
  end.

Lemma reconcileTarget_entry ts r target b :
  gauge_consistent r ->
  gauge_consistent (reconcileTarget ts r (target, b)) /\
  entry_of (reconcileTarget ts r (target, b)) target = reconciled ts target b (entry_of r target) /\
  forall t, t <> target -> entry_of (reconcileTarget ts r (target, b)) t = entry_of r t.
Proof.
  intros Hg. unfold reconcileTarget, reconciled. destruct (ts !! target) as [service|].
  - rewrite ensureBreakerService_eq. simpl. case_bool_decide; [done|].
    destruct (attachStore_entry target (normalizeService service) b r Hg) as [-> Ho].
    rewrite normalizeService_idemp.
    split; [apply attachStore_spec, Hg|done].
  - set (r1 := with_breakers (delete target (r_breakers r)) r).
    assert (gauge_consistent r1) as Hg1 by (eapply gauge_consistent_ext; [..|exact Hg]; done).
    destruct (removeTarget_spec target r1 Hg1) as (Hg' & Hts & Hb & _).
    unfold entry_of. rewrite Hts, Hb. split; [done|]. simpl.
    split; [by rewrite !lookup_delete_eq|]. intros t Ht. by rewrite !lookup_delete_ne.
Qed.

Lemma ReconcileTargetServices_entry ts r target :
  gauge_consistent r ->
  entry_of (ReconcileTargetServices ts r) target =
  match r_breakers r !! target with
  | Some b => reconciled ts target b (entry_of r target)
  | None => entry_of r target
  end.
Proof.
  intros Hg. unfold ReconcileTargetServices.
  destruct (foldl_pointwise (r_breakers r) gauge_consistent (reconcileTarget ts) entry_of
    (reconciled ts)) with (s := r) as [_ Ho]; [|done|apply Ho].
  intros r1 t b _. apply reconcileTarget_entry.
Qed.

Lemma applyCalls_breakers calls r : r_breakers (applyCalls calls r) = r_breakers r.
Proof.
  revert r. unfold applyCalls. induction calls as [|[c st] calls IH]; intros r; simpl; [done|].
  rewrite IH. unfold setGauge. by destruct (r_circuitStateGauge r).
Qed.

Lemma onBreaker_breakers target method r t :
  r_breakers (onBreaker target method r) !! t =
  (if bool_decide (t = target) then (fst ∘ method) <$> r_breakers r !! target
   else r_breakers r !! t).
Proof.
  unfold onBreaker. destruct (r_breakers r !! target) as [b|] eqn:Hb.
  2:{ case_bool_decide; by subst. }
  destruct (method b) as [b' calls] eqn:Hm.
  rewrite applyCalls_breakers. simpl. case_bool_decide; subst.
  - rewrite lookup_insert_eq. simpl. by rewrite Hm.
  - by rewrite lookup_insert_ne.
Qed.

Lemma Reset_spec r :
  fst (Reset r) = size (r_breakers r) /\
  forall target, r_breakers (snd (Reset r)) !! target =
    (fst ∘ ForceClose) <$> r_breakers r !! target.
Proof.
  unfold Reset. split.
  - assert (forall l n r1, fst (foldl (fun '(reset, r) '(target, _) =>
      (S reset, onBreaker target (ForceClose (C := Callback)) r)) (n, r1) l) = (n + length (A := string * Breaker Callback) l)%nat) as Hn.
    { induction l as [|[t b] l IH]; intros n r1; simpl; [lia|]. rewrite IH. simpl. lia. }
    rewrite Hn. simpl. apply length_map_to_list.
  - intros target.
    destruct (foldl_pointwise (r_breakers r) (fun _ => True)
      (fun '(reset, r) '(target, _) => (S reset, onBreaker target (ForceClose (C := Callback)) r))
      (fun s t => r_breakers (snd s) !! t)
      (fun _ (_ : Breaker Callback) x => (fst ∘ ForceClose) <$> x)) with (s := (0%nat, r))
      as [_ Ho]; [|done|].
    + intros [n r1] t b _ _. simpl. split; [done|]. split.
      * rewrite onBreaker_breakers. by rewrite bool_decide_eq_true_2.
      * intros t' Ht. rewrite onBreaker_breakers. by rewrite bool_decide_eq_false_2.
    + rewrite Ho. simpl. by destruct (r_breakers r !! target).
Qed.

(** What the clone holds for a target whose breaker is [b]. *)
Definition cloned (now : Time) (cfg : CBConfig) (target service : string)
    (b : Breaker Callback) : Breaker Callback :=
  with_callback (mkCallback target service) (fst (cloneWithConfig now cfg b)).

(** The registry being cloned keeps its breakers and the services of its targets. *)
Definition serves r (m : gmap string (Breaker Callback)) : Prop :=
  gauge_consistent r /\ r_breakers r = m /\
  forall t b, m !! t = Some b -> exists service,
    b_stateChangeCallback b = Some (mkCallback t service) /\
    ts_service <$> r_targetStates r !! t = Some (normalizeService service).

Lemma consistent_serves r : consistent r -> serves r (r_breakers r).
Proof.
  intros [Hg Ht]. split_and!; [done..|]. intros t b Hb. specialize (Ht t). unfold tracked in Ht.
  rewrite Hb in Ht. destruct Ht as (s & ? & Hts). exists s. by rewrite Hts.
Qed.

Lemma cloneWithConfig_calls now cfg (b : Breaker Callback) :
  snd (cloneWithConfig now cfg b) = [] \/
  exists st, snd (cloneWithConfig now cfg b) = notify b st.
Proof.
  unfold cloneWithConfig, reconcileLocked.
  set (b1 := pruneFailuresLocked now _).
  assert (b_stateChangeCallback b1 = b_stateChangeCallback b) as Hc by exact (prune_callback _ _).
  unfold tripIfThreshold, closeIfRecovered.
  destruct (b_state b1).
  - destruct (_ <=? _); [right; exists StateOpen|by left]. simpl. unfold notify. by rewrite Hc.
  - destruct (negb _); by left.
  - destruct (cb_HalfOpenMaxRequests (b_config b1) <? b_halfOpenInFlight b1); simpl;
      (destruct (_ && _); [right; exists StateClosed|by left]); simpl; unfold notify; simpl; by rewrite Hc.
Qed.

Lemma serves_applyCalls now cfg r m t b :
  serves r m -> m !! t = Some b -> serves (applyCalls (snd (cloneWithConfig now cfg b)) r) m.
Proof.
  intros (Hg & Hb & Hm) Ht. destruct (cloneWithConfig_calls now cfg b) as [->|[st ->]]; [done|].
  destruct (Hm t b Ht) as (service & Hcb & Hts). unfold notify. rewrite Hcb. simpl.
  destruct (setGauge_spec t service st r Hg) as (Hg' & Hts' & Hb' & _).
  split_and!; [done|by rewrite Hb'|]. intros t' b' Hb1. destruct (Hm t' b' Hb1) as (s' & ? & ?).
  exists s'. split; [done|]. rewrite Hts'. destruct (decide (t = t')) as [->|].
  - rewrite lookup_insert_eq. rewrite Ht in Hb1. by simplify_eq/=.
  - by rewrite lookup_insert_ne.
Qed.

Lemma cloneEntry_step now cfg m clone r t b :
  m !! t = Some b -> gauge_consistent clone /\ serves r m ->
  let '(clone', r') := cloneEntry now cfg (clone, r) (t, b) in
  (gauge_consistent clone' /\ serves r' m) /\
  r_breakers clone' !! t =
    (fun c => cloned now cfg t (normalizeService (call_service c)) b) <$> b_stateChangeCallback b /\
  forall t', t' <> t -> r_breakers clone' !! t' = r_breakers clone !! t'.
Proof.
  intros Ht [Hc Hs]. pose proof (serves_applyCalls now cfg r m t b Hs Ht) as Hs'.
  destruct Hs as (_ & _ & Hm). destruct (Hm t b Ht) as (service & Hcb & Hts).
  unfold cloneEntry.
  assert (serviceForTarget t r = normalizeService service) as ->.
  { unfold serviceForTarget. by destruct (r_targetStates r !! t); simplify_eq/=. }
  unfold cloned. destruct (cloneWithConfig now cfg b) as [b' calls].
  destruct (attachStore_spec t (normalizeService service) b' clone Hc) as (Hc' & _ & Hb' & _).
  split_and!; [exact Hc'|exact Hs'| |].
  - rewrite Hcb. etransitivity; [exact (f_equal (fun m => m !! t) Hb')|]. by rewrite lookup_insert_eq.
  - intros t' Ht'. etransitivity; [exact (f_equal (fun m => m !! t') Hb')|]. by rewrite lookup_insert_ne.
Qed.

Lemma CloneWithConfig_spec now cfg r target :
  consistent r ->
  r_breakers (fst (CloneWithConfig now cfg false r)) !! target =
  b ← r_breakers r !! target;
  (fun c => cloned now cfg target (normalizeService (call_service c)) b) <$>
    b_stateChangeCallback b.
Proof.
  intros Hr. unfold CloneWithConfig.
  destruct (foldl_pointwise (r_breakers r)
    (fun acc => gauge_consistent (fst acc) /\ serves (snd acc) (r_breakers r))
    (cloneEntry now cfg) (fun acc t => r_breakers (fst acc) !! t)
    (fun t b _ => (fun c => cloned now cfg t (normalizeService (call_service c)) b) <$>
                    b_stateChangeCallback b)) with (s := (NewRegistry (G := G) cfg false, r)) as [_ Ho].
  - intros [clone r1] t b Hb Hinv. pose proof (cloneEntry_step now cfg _ clone r1 t b Hb Hinv).
    by destruct (cloneEntry now cfg (clone, r1) (t, b)).
  - split; [apply NewRegistry_consistent|by apply consistent_serves].
  - rewrite Ho. simpl. rewrite lookup_empty. by destruct (r_breakers r !! target).
Qed.

End Bulk.

(** ** The registry as a transition system *)

Section Reachable.
Context {G : Type} `{GaugeVecLaws G}.
Implicit Types r : Registry G.

(** What the transports, the runtime manager and the admin handler do to the current
    registry. *)
Inductive reg_step : Registry G -> Registry G -> Prop :=
  | reg_get target service r : reg_step r (BreakerForService target service r)
  | reg_allow target now r : reg_step r (onBreaker target (fun b => snd (Allow now b)) r)
  | reg_success target now r : reg_step r (onBreaker target (RecordSuccess now) r)
  | reg_failure target now r : reg_step r (onBreaker target (RecordFailure now) r)
  | reg_ignored target r : reg_step r (onBreaker target RecordIgnored r)
  | reg_reconcile ts r : reg_step r (ReconcileTargetServices ts r)
  | reg_reset r : reg_step r (snd (Reset r))
  | reg_clone now cfg r : reg_step r (fst (CloneWithConfig now cfg false r)).

Definition reg_reachable r : Prop := exists cfg, rtc reg_step (NewRegistry cfg false) r.

Lemma reg_step_consistent r r' : consistent r -> reg_step r r' -> consistent r'.
Proof.
  intros Hr. destruct 1.
  - by apply BreakerForService_consistent.
  - apply onBreaker_consistent; auto with breaker.
  - apply onBreaker_consistent; auto with breaker.
  - apply onBreaker_consistent; auto with breaker.
  - apply onBreaker_consistent; auto with breaker.
  - by apply ReconcileTargetServices_consistent.
  - by apply Reset_consistent.
  - apply CloneWithConfig_consistent.
Qed.

Lemma reg_reachable_consistent r : reg_reachable r -> consistent r.
Proof.
  intros [cfg Hr]. remember (NewRegistry cfg false) as r0 eqn:E.
  assert (consistent r0) as H0' by (subst; apply NewRegistry_consistent). clear E.
  induction Hr; [done|]. eauto using reg_step_consistent.
Qed.

(** Service [service] has a breaker in state [st]. *)
Definition service_breaker r (service : string) (st : State) : Prop :=
  exists target s b, r_breakers r !! target = Some b /\
    b_stateChangeCallback b = Some (mkCallback target s) /\
    normalizeService s = service /\ b_state b = st.

Lemma consistent_has_state r service st :
  consistent r -> has_state (r_targetStates r) service st <-> service_breaker r service st.
Proof.
  intros Hr. unfold has_state, service_breaker. split.
  - intros [t Ht]. pose proof (cs_tracked _ Hr t) as Htr. unfold tracked in Htr.
    destruct (r_breakers r !! t) as [b|] eqn:Hb; [|congruence].
    destruct Htr as (s & Hcb & Hts). rewrite Ht in Hts. injection Hts as -> ->.
    by exists t, s, b.
  - intros (t & s & b & Hb & Hcb & <- & <-). pose proof (cs_tracked _ Hr t) as Htr.
    unfold tracked in Htr. rewrite Hb in Htr. destruct Htr as (s' & Hcb' & Hts).
    exists t. rewrite Hcb in Hcb'. by injection Hcb' as <-.
Qed.

(** In every reachable registry the [gateway_circuit_state] gauge is exact: a
    service's series is 1 when one of its breakers is open, 2 when none is open and one
    is half-open, 0 when it has breakers and all are closed, and there is no series for
    a service with no breaker. *)
Lemma gauge_shows_worst_state r :
  reg_reachable r ->
  exists g, r_circuitStateGauge r = Some g /\ forall service,
    let shown := gauge_view g !! service in
    (shown = Some 1 <-> service_breaker r service StateOpen) /\
    (shown = Some 2 <-> ~ service_breaker r service StateOpen /\
                        service_breaker r service StateHalfOpen) /\
    (shown = None <-> forall st, ~ service_breaker r service st) /\
    (shown = Some 1 \/ shown = Some 2 \/ shown = Some 0 \/ shown = None).
Proof.
  intros Hr%reg_reachable_consistent. destruct (gc_gauge _ (cs_gauge _ Hr)) as (g & Hg & Hshow).
  exists g. split; [done|]. intros service. cbv zeta. rewrite Hshow.
  setoid_rewrite <- consistent_has_state; [|exact Hr..].
  set (ts := r_targetStates r). pose proof (aggregate_open ts service) as HO.
  pose proof (aggregate_half ts service) as HH. pose proof (serviceHasTargets_true ts service) as HT.
  destruct (serviceHasTargetsLocked ts service).
  - destruct (aggregateServiceStateLocked ts service); simpl; naive_solver.
  - naive_solver.
Qed.

End Reachable.

Definition demo_registry : Registry (gmap string Z) :=
  onBreaker "a:80" (RecordFailure 5)
    (BreakerForService "b:80" "users"
      (BreakerForService "a:80" "users" (NewRegistry (mkCBConfig 1 1 10 60 1) false))).

Lemma demo_registry_reachable : reg_reachable demo_registry.
Proof.
  exists (mkCBConfig 1 1 10 60 1). unfold demo_registry.
  eapply rtc_l; [apply (reg_get "a:80" "users")|].
  eapply rtc_l; [apply (reg_get "b:80" "users")|].
  eapply rtc_l; [apply (reg_failure "a:80" 5)|]. apply rtc_refl.
Qed.

Lemma gauge_shows_worst_state_witness :
  exists g, r_circuitStateGauge demo_registry = Some g /\
    (gauge_view g !! "users" = Some 1 <-> service_breaker demo_registry "users" StateOpen) /\
    r_circuitStateGauge demo_registry = Some {["users" := 1]}.
Proof.
  destruct (gauge_shows_worst_state demo_registry demo_registry_reachable) as (g & Hg & H).
  exists g. split; [exact Hg|]. split; [apply H|]. vm_compute. reflexivity.
Defined.

Lemma reconcile_kept {G} `{GaugeVecLaws G} (r : Registry G) ts target :
  reg_reachable r ->
  let r' := ReconcileTargetServices ts r in
  reg_reachable r' /\
  match ts !! target, r_breakers r !! target with
  | Some service, Some b =>
      exists b', r_breakers r' !! target = Some b' /\
        b_config b' = b_config b /\ b_state b' = b_state b /\
        b_openUntil b' = b_openUntil b /\ b_failures b' = b_failures b /\
        b_halfOpenSuccesses b' = b_halfOpenSuccesses b /\
        b_halfOpenInFlight b' = b_halfOpenInFlight b /\
        service_breaker r' (normalizeService service) (b_state b)
  | _, _ => r_breakers r' !! target = None /\ r_targetStates r' !! target = None
  end.
Proof.
  intros Hreach. cbv zeta.
  assert (reg_reachable (ReconcileTargetServices ts r)) as Hreach'.
  { destruct Hreach as [cfg Hr]. exists cfg. eapply rtc_r; [exact Hr|constructor]. }
  split; [done|]. pose proof (reg_reachable_consistent _ Hreach) as Hr.
  pose proof (ReconcileTargetServices_entry ts r target (cs_gauge _ Hr)) as He.
  pose proof (cs_tracked _ Hr target) as Htr. unfold tracked, reconciled, entry_of in *.
  destruct (r_breakers r !! target) as [b|] eqn:Hb; simpl in He.
  - destruct Htr as (s & Hcb & Hts). destruct (ts !! target) as [service|].
    + rewrite Hts in He. simpl in He. case_bool_decide as Hs; injection He as He1 He2.
      * injection Hs as Hs. exists b. split_and!; try done. exists target, s, b. done.
      * eexists. split; [exact He1|]. split_and!; try done.
        exists target, (normalizeService service). eexists. split; [exact He1|].
        by rewrite normalizeService_idemp.
    + by injection He as -> ->.
  - injection He as He1 He2. rewrite He1, He2. by destruct (ts !! target).
Qed.

(** A reload that keeps the breaker configuration reconciles the registry with the
    new routes: a target no route names loses its breaker and its series, and every
    other target keeps its breaker's configuration, state, deadline, failures and
    half-open counters, now counted under the service the routes give it. *)
Lemma reconcile_keeps_breakers {G} `{GaugeVecLaws G} (r : Registry G) ts target :
  reg_reachable r ->
  let r' := ReconcileTargetServices ts r in
  reg_reachable r' /\
  match ts !! target, r_breakers r !! target with
  | Some service, Some b =>
      exists b', r_breakers r' !! target = Some b' /\
        b_config b' = b_config b /\ b_state b' = b_state b /\
        b_openUntil b' = b_openUntil b /\ b_failures b' = b_failures b /\
        b_halfOpenSuccesses b' = b_halfOpenSuccesses b /\
        b_halfOpenInFlight b' = b_halfOpenInFlight b /\
        service_breaker r' (normalizeService service) (b_state b)
  | _, _ => r_breakers r' !! target = None /\ r_targetStates r' !! target = None
  end.
Proof. apply reconcile_kept. Qed.

Lemma reconcile_keeps_breakers_witness :
  let r' := ReconcileTargetServices {["a:80" := "accounts"]} demo_registry in
  reg_reachable r' /\ service_breaker r' "accounts" StateOpen /\
  r_breakers r' !! "b:80" = None.
Proof.
  intros r'.
  destruct (reconcile_keeps_breakers demo_registry {["a:80" := "accounts"]} "a:80"
    demo_registry_reachable) as [H1 (b' & _ & _ & _ & _ & _ & _ & _ & H2)].
  destruct (reconcile_keeps_breakers demo_registry {["a:80" := "accounts"]} "b:80"
    demo_registry_reachable) as [_ [H3 _]].
  split; [exact H1|]. split; [exact H2|exact H3].
Defined.

(** The administrative reset closes every breaker and answers how many there are;
    the gauge then shows 0 for every service that has one. *)
Lemma reset_closes_everything {G} `{GaugeVecLaws G} (r : Registry G) :
  reg_reachable r ->
  fst (Reset r) = size (r_breakers r) /\
  (forall target, r_breakers (snd (Reset r)) !! target =
     (fst ∘ ForceClose) <$> r_breakers r !! target) /\
  exists g, r_circuitStateGauge (snd (Reset r)) = Some g /\
    forall service v, gauge_view g !! service = Some v -> v = 0.
Proof.
  intros Hreach. destruct (Reset_spec r) as [Hn Hb]. split; [done|]. split; [done|].
  pose proof (Reset_consistent r (reg_reachable_consistent _ Hreach)) as Hr.
  destruct (gc_gauge _ (cs_gauge _ Hr)) as (g & Hg & Hshow). exists g. split; [done|].
  intros service v. rewrite Hshow.
  assert (forall st, has_state (r_targetStates (snd (Reset r))) service st -> st = StateClosed) as Hcl.
  { intros st (t & s & b & Hbt & _ & _ & <-)%consistent_has_state; [|done].
    rewrite Hb in Hbt. apply fmap_Some in Hbt as (b0 & _ & ->). done. }
  pose proof (aggregate_open (r_targetStates (snd (Reset r))) service) as HO.
  pose proof (aggregate_half (r_targetStates (snd (Reset r))) service) as HH.
  destruct (serviceHasTargetsLocked _ _); [|done].
  destruct (aggregateServiceStateLocked _ _); simpl; [by intros [= <-]|..].
  - discriminate (Hcl StateOpen (proj1 HO eq_refl)).
  - destruct (proj1 HH eq_refl) as [_ Hh]. discriminate (Hcl StateHalfOpen Hh).
Qed.

Lemma reset_closes_everything_witness :
  fst (Reset demo_registry) = 2%nat /\
  r_circuitStateGauge (snd (Reset demo_registry)) = Some {["users" := 0]}.
Proof.
  destruct (reset_closes_everything demo_registry demo_registry_reachable) as (H1 & _ & _).
  split; [exact H1|]. vm_compute. reflexivity.
Defined.

(** A reload that changes the breaker configuration carries every breaker over: the
    clone holds, for exactly the same targets and under the same services, each breaker
    reconciled with the new configuration. *)
Lemma clone_carries_breakers {G} `{GaugeVecLaws G} (r : Registry G) now cfg target :
  reg_reachable r ->
  let clone := fst (CloneWithConfig now cfg false r) in
  match r_breakers r !! target with
  | None => r_breakers clone !! target = None
  | Some b => exists b' service,
      r_breakers clone !! target = Some b' /\
      b_stateChangeCallback b' = Some (mkCallback target service) /\
      (ts_service <$> r_targetStates r !! target = Some service) /\
      let e := fst (cloneWithConfig now cfg b) in
      b_config b' = b_config e /\ b_state b' = b_state e /\ b_openUntil b' = b_openUntil e /\
      b_failures b' = b_failures e /\ b_halfOpenSuccesses b' = b_halfOpenSuccesses e /\
      b_halfOpenInFlight b' = b_halfOpenInFlight e
  end.
Proof.
  intros Hreach. pose proof (reg_reachable_consistent _ Hreach) as Hr. cbv zeta.
  rewrite CloneWithConfig_spec by done.
  pose proof (cs_tracked _ Hr target) as Htr. unfold tracked in Htr.
  destruct (r_breakers r !! target) as [b|]; [|done]. destruct Htr as (s & Hcb & Hts).
  simpl. rewrite Hcb. simpl. exists (cloned now cfg target (normalizeService s) b), (normalizeService s).
  by rewrite Hts.
Qed.

Lemma clone_carries_breakers_witness :
  let clone := fst (CloneWithConfig 7 (mkCBConfig 1 1 40 60 1) false demo_registry) in
  exists b', r_breakers clone !! "a:80" = Some b' /\ b_openUntil b' = 45.
Proof.
  intros clone.
  assert (H := clone_carries_breakers demo_registry 7 (mkCBConfig 1 1 40 60 1) "a:80"
    demo_registry_reachable).
  destruct H as (b' & s & H1 & _ & _ & _ & _ & H2 & _).
  exists b'. split; [exact H1|]. rewrite H2. vm_compute. reflexivity.
Defined.
