(* ===== verification/LoadBalancer.v ===== *)
(** * Load balancers: [internal/transport/loadbalancer/]

    Three balancers behind one interface.  [Weighted.Select] holds a mutex;
    [RoundRobin.Select] is a compare-and-swap loop over one atomic counter, given here
    as one atomic operation (the file [Fairness] has the steps of its concurrent
    callers); [LeastConn] keeps one atomic counter per target. *)

From S2P Require Import Prelude GoStrings Config.
From stdpp Require Import options.
#[local] Set Default Proof Using "Type*".

Definition targetAddress (target : Target) : string :=
  JoinHostPort (tg_Host target) (Itoa (tg_Port target)).

(** A nil [ExcludeTargets] is the empty set. *)
Record SelectionOptions := mkOptions { ExcludeTargets : gset string }.

Definition isExcluded (options : SelectionOptions) (target : Target) : bool :=
  bool_decide (targetAddress target ∈ ExcludeTargets options).

(** [Selection.Done]: nothing, or the release of the target at an index of a
    [LeastConn]. *)
Inductive Done := noopDone | releaseDone (index : nat).

Record Selection := mkSelection { sel_Target : Target; sel_Done : Done }.

(** ** Round robin *)

Record RoundRobin := mkRoundRobin { rr_targets : list Target; rr_next : Z }.

Definition NewRoundRobin (targets : list Target) : RoundRobin := mkRoundRobin targets 0.

(** [int((start + uint64(offset)) % uint64(len(rr.targets)))] *)
Definition rr_index (targets : list Target) (start : Z) (offset : nat) : nat :=
  Z.to_nat (wrapu64 (start + Z.of_nat offset) mod Z.of_nat (length targets)).

(** The loop over [offset]: the first index that is not excluded, with its offset. *)
Fixpoint rr_scan (options : SelectionOptions) (targets : list Target) (start : Z)
    (offsets : list nat) : option (nat * nat * Target) :=
  match offsets with
  | [] => None
  | offset :: offsets =>
      let index := rr_index targets start offset in
      match targets !! index with
      | Some target =>
          if isExcluded options target then rr_scan options targets start offsets
          else Some (index, offset, target)
      | None => None
      end
  end.

Definition rr_choose (options : SelectionOptions) (targets : list Target) (start : Z)
    : option (nat * nat * Target) :=
  rr_scan options targets start (seq 0 (length targets)).

(** [start + uint64(chosenOffset) + 1] *)
Definition rr_advance (start : Z) (offset : nat) : Z := wrapu64 (start + Z.of_nat offset + 1).

(** [None] is [ErrNoTargets]. *)
Definition RoundRobin_Select (options : SelectionOptions) (rr : RoundRobin)
    : option (Selection * RoundRobin) :=
  if bool_decide (rr_targets rr = []) then None
  else
    '(_, offset, target) ← rr_choose options (rr_targets rr) (rr_next rr);
    Some (mkSelection target noopDone,
          mkRoundRobin (rr_targets rr) (rr_advance (rr_next rr) offset)).

(** ** Smooth weighted round robin *)

Record weightedTarget := mkWeightedTarget {
  wt_target : Target;
  wt_weight : Z;
  wt_currentWeight : Z;
}.

Abbreviation Weighted := (list weightedTarget).

Definition effectiveWeight (target : Target) : Z :=
  if tg_Weight target <=? 0 then 1 else tg_Weight target.

Definition NewWeighted (targets : list Target) : Weighted :=
  (fun target => mkWeightedTarget target (effectiveWeight target) 0) <$> targets.

Definition add_current (d : Z) (t : weightedTarget) : weightedTarget :=
  mkWeightedTarget (wt_target t) (wt_weight t) (wrap64 (wt_currentWeight t + d)).

(** The loop over [w.targets]: the targets with their weights added, the best index
    with its current weight, and the total weight. *)
Fixpoint weighted_loop (options : SelectionOptions) (index : nat) (targets : Weighted)
    (best : option (nat * Z)) (totalWeight : Z) : Weighted * option (nat * Z) * Z :=
  match targets with
  | [] => ([], best, totalWeight)
  | t :: targets =>
      if isExcluded options (wt_target t) then
        let '(targets, best, total) := weighted_loop options (S index) targets best totalWeight in
        (t :: targets, best, total)
      else
        let t := add_current (wt_weight t) t in
        let totalWeight := wrap64 (totalWeight + wt_weight t) in
        let best :=
          match best with
          | None => Some (index, wt_currentWeight t)
          | Some (_, bestWeight) =>
              if bestWeight <? wt_currentWeight t then Some (index, wt_currentWeight t) else best
          end in
        let '(targets, best, total) := weighted_loop options (S index) targets best totalWeight in
        (t :: targets, best, total)
  end.

(** The chosen index, and the targets after the choice. *)
Definition weighted_choose (options : SelectionOptions) (w : Weighted)
    : option (nat * Weighted) :=
  let '(targets, best, totalWeight) := weighted_loop options 0 w None 0 in
  '(bestIndex, _) ← best;
  Some (bestIndex, alter (add_current (- totalWeight)) bestIndex targets).

Definition Weighted_Select (options : SelectionOptions) (w : Weighted)
    : option (Selection * Weighted) :=
  if bool_decide (w = []) then None
  else
    '(bestIndex, targets) ← weighted_choose options w;
    t ← targets !! bestIndex;
    Some (mkSelection (wt_target t) noopDone, targets).

(** ** Least connections *)

Record leastConnTarget := mkLeastConnTarget { lt_target : Target; lt_active : Z }.

Abbreviation LeastConn := (list leastConnTarget).

Definition NewLeastConn (targets : list Target) : LeastConn :=
  (fun target => mkLeastConnTarget target 0) <$> targets.

Definition add_active (d : Z) (t : leastConnTarget) : leastConnTarget :=
  mkLeastConnTarget (lt_target t) (lt_active t + d).

(** The loop over [lc.targets]: the best index with its target and active count. *)
Fixpoint least_loop (options : SelectionOptions) (index : nat) (targets : LeastConn)
    (best : option (nat * Target * Z)) : option (nat * Target * Z) :=
  match targets with
  | [] => best
  | candidate :: targets =>
      let best :=
        if isExcluded options (lt_target candidate) then best
        else match best with
             | None => Some (index, lt_target candidate, lt_active candidate)
             | Some (_, _, bestActive) =>
                 if lt_active candidate <? bestActive
                 then Some (index, lt_target candidate, lt_active candidate) else best
             end in
      least_loop options (S index) targets best
  end.

Definition LeastConn_Select (options : SelectionOptions) (lc : LeastConn)
    : option (Selection * LeastConn) :=
  if bool_decide (lc = []) then None
  else
    '(index, target, _) ← least_loop options 0 lc None;
    Some (mkSelection target (releaseDone index), alter (add_active 1) index lc).

(** The body of the [once.Do] of [Selection.Done]. *)
Definition LeastConn_Done (done : Done) (lc : LeastConn) : LeastConn :=
  match done with
  | noopDone => lc
  | releaseDone index => alter (add_active (-1)) index lc
  end.

(** ** The Balancer interface *)

Inductive Balancer :=
  | BRoundRobin (rr : RoundRobin)
  | BWeighted (w : Weighted)
  | BLeastConn (lc : LeastConn).

(** [None] is the unknown-strategy error. *)
Definition NewBalancer (strategy : string) (targets : list Target) : option Balancer :=
  if bool_decide (strategy = "round_robin") then Some (BRoundRobin (NewRoundRobin targets))
  else if bool_decide (strategy = "weighted") then Some (BWeighted (NewWeighted targets))
  else if bool_decide (strategy = "least_conn") then Some (BLeastConn (NewLeastConn targets))
  else None.

Definition Balancer_Select (options : SelectionOptions) (b : Balancer)
    : option (Selection * Balancer) :=
  match b with
  | BRoundRobin rr => '(s, rr) ← RoundRobin_Select options rr; Some (s, BRoundRobin rr)
  | BWeighted w => '(s, w) ← Weighted_Select options w; Some (s, BWeighted w)
  | BLeastConn lc => '(s, lc) ← LeastConn_Select options lc; Some (s, BLeastConn lc)
  end.

Definition Balancer_Done (done : Done) (b : Balancer) : Balancer :=
  match b with
  | BLeastConn lc => BLeastConn (LeastConn_Done done lc)
  | _ => b
  end.

Definition Balancer_targets (b : Balancer) : list Target :=
  match b with
  | BRoundRobin rr => rr_targets rr
  | BWeighted w => wt_target <$> w
  | BLeastConn lc => lt_target <$> lc
  end.

(** What a client may rely on: a selection is one of the targets and is not excluded, a
    selection fails only when every target is excluded, and neither selecting nor
    releasing changes the targets. *)
Class BalancerLaws {B : Type} (ready : B -> Prop) (targets : B -> list Target)
    (select : SelectionOptions -> B -> option (Selection * B)) (release : Done -> B -> B)
    : Prop := {
  select_sound options b s b' : select options b = Some (s, b') ->
    sel_Target s ∈ targets b /\ isExcluded options (sel_Target s) = false /\
    targets b' = targets b;
  select_total options b : ready b -> select options b = None ->
    Forall (fun t => isExcluded options t = true) (targets b);
  release_targets d b : targets (release d b) = targets b;
}.

(** ** Round robin *)

Lemma rr_index_lt targets start offset :
  targets <> [] -> (rr_index targets start offset < length targets)%nat.
Proof.
  intros Hne. unfold rr_index. assert (0 < Z.of_nat (length targets)) by (destruct targets; simpl; [done|lia]).
  pose proof (Z.mod_pos_bound (wrapu64 (start + Z.of_nat offset)) (Z.of_nat (length targets))). lia.
Qed.

Lemma rr_scan_sound options targets start offsets index offset target :
  rr_scan options targets start offsets = Some (index, offset, target) ->
  index = rr_index targets start offset /\ targets !! index = Some target /\
  isExcluded options target = false /\ offset ∈ offsets.
Proof.
  induction offsets as [|o offsets IH]; simpl; [done|].
  destruct (targets !! rr_index targets start o) as [t|] eqn:Ht; [|done].
  destruct (isExcluded options t) eqn:He.
  - intros H. destruct (IH H) as (? & ? & ? & ?). split_and!; try done. by right.
  - intros [= <- <- <-]. split_and!; try done. by left.
Qed.

(** The scan passes over excluded targets only. *)
Lemma rr_scan_first options targets start n k index offset target :
  rr_scan options targets start (seq k n) = Some (index, offset, target) ->
  forall o, (k <= o < offset)%nat -> exists t,
    targets !! rr_index targets start o = Some t /\ isExcluded options t = true.
Proof.
  revert k. induction n as [|n IH]; intros k; simpl; [done|].
  destruct (targets !! rr_index targets start k) as [t|] eqn:Ht; [|done].
  destruct (isExcluded options t) eqn:He.
  - intros H o Ho. destruct (decide (o = k)) as [->|]; [by exists t|]. apply (IH _ H). lia.
  - intros [= <- <- <-] o Ho. lia.
Qed.

Lemma rr_scan_none options targets start offsets :
  targets <> [] -> rr_scan options targets start offsets = None ->
  forall o, o ∈ offsets -> exists t,
    targets !! rr_index targets start o = Some t /\ isExcluded options t = true.
Proof.
  intros Hne. induction offsets as [|o offsets IH]; simpl; [by intros _ o ?%elem_of_nil|].
  destruct (lookup_lt_is_Some_2 targets (rr_index targets start o)) as [t Ht];
    [by apply rr_index_lt|].
  rewrite Ht. destruct (isExcluded options t) eqn:He; [|done].
  intros H o' [->|Ho']%elem_of_cons; [by exists t|]. by apply IH.
Qed.

(** While the counter does not wrap, the offsets reach every index. *)
Lemma rr_index_surjective targets start i :
  0 <= start -> start + Z.of_nat (length targets) <= 2 ^ 64 -> (i < length targets)%nat ->
  exists o, (o < length targets)%nat /\ rr_index targets start o = i.
Proof.
  intros Hs Hw Hi. set (n := Z.of_nat (length targets)).
  exists (Z.to_nat ((Z.of_nat i - start) mod n)).
  pose proof (Z.mod_pos_bound (Z.of_nat i - start) n). split; [lia|].
  unfold rr_index. rewrite Z2Nat.id by lia. rewrite wrapu64_id by lia. fold n.
  rewrite Z.add_mod_idemp_r by lia.
  replace (start + (Z.of_nat i - start)) with (Z.of_nat i) by lia.
  rewrite Z.mod_small by lia. lia.
Qed.

Definition rr_ready (rr : RoundRobin) : Prop :=
  0 <= rr_next rr /\ rr_next rr + Z.of_nat (length (rr_targets rr)) <= 2 ^ 64.

Lemma RoundRobin_sound options rr s rr' :
  RoundRobin_Select options rr = Some (s, rr') ->
  sel_Target s ∈ rr_targets rr /\ isExcluded options (sel_Target s) = false /\
  rr_targets rr' = rr_targets rr.
Proof.
  unfold RoundRobin_Select. case_bool_decide; [done|].
  destruct (rr_choose _ _ _) as [[[i o] t]|] eqn:Hc; simpl; [|done]. intros [= <- <-]. simpl.
  apply rr_scan_sound in Hc as (_ & Ht & He & _).
  split_and!; try done. by eapply list_elem_of_lookup_2.
Qed.

Lemma RoundRobin_total options rr :
  rr_ready rr -> RoundRobin_Select options rr = None ->
  Forall (fun t => isExcluded options t = true) (rr_targets rr).
Proof.
  intros [Hs Hw]. unfold RoundRobin_Select. case_bool_decide as Hne; [rewrite Hne; auto|].
  destruct (rr_choose _ _ _) as [[[i o] t]|] eqn:Hc; simpl; [done|]. intros _.
  apply Forall_lookup. intros i t Ht.
  destruct (rr_index_surjective (rr_targets rr) (rr_next rr) i) as (o & Ho & Hi); [done..| |].
  { by eapply lookup_lt_Some. }
  destruct (rr_scan_none _ _ _ _ Hne Hc o) as (t' & Ht' & He); [apply elem_of_seq; lia|].
  rewrite Hi in Ht'. by simplify_eq.
Qed.

(** ** Weighted: the choice is sound and total *)

Lemma weighted_loop_targets options i w best total w' best' total' :
  weighted_loop options i w best total = (w', best', total') ->
  wt_target <$> w' = wt_target <$> w.
Proof.
  revert i best total w' best' total'.
  induction w as [|t w IH]; intros i best total w' best' total'; simpl; [by intros [= <- <- <-]|].
  destruct (isExcluded options (wt_target t));
    destruct (weighted_loop _ _ w _ _) as [[w1 best1] total1] eqn:E; intros [= <- <- <-];
    csimpl; by rewrite (IH _ _ _ _ _ _ E).
Qed.

(** The best index names a target that is not excluded, or was given. *)
Lemma weighted_loop_best options i w best total w' best' total' :
  weighted_loop options i w best total = (w', best', total') ->
  match best' with
  | Some (j, _) =>
      (exists c, best = Some (j, c)) \/
      (i <= j)%nat /\ exists t, w !! (j - i)%nat = Some t /\ isExcluded options (wt_target t) = false
  | None => best = None /\ Forall (fun t => isExcluded options (wt_target t) = true) w
  end.
Proof.
  revert i best total w' best' total'.
  induction w as [|t w IH]; intros i best total w' best' total'; simpl.
  { intros [= <- <- <-]. destruct best as [[j c]|]; eauto. }
  destruct (isExcluded options (wt_target t)) eqn:He.
  - destruct (weighted_loop _ _ w _ _) as [[w1 best1] total1] eqn:E. intros [= <- <- <-].
    apply IH in E. destruct best1 as [[j c]|]; [|naive_solver].
    destruct E as [?|(Hj & t' & Ht' & He')]; [by left|right]. split; [lia|].
    exists t'. by replace (j - i)%nat with (S (j - S i)) by lia.
  - set (b1 := match best with None => _ | Some _ => _ end).
    destruct (weighted_loop _ _ w _ _) as [[w1 best1] total1] eqn:E. intros [= <- <- <-].
    apply IH in E.
    assert (exists j c, b1 = Some (j, c) /\ ((exists c', best = Some (j, c')) \/ j = i)) as (j1 & c1 & Hb1 & Hcase).
    { unfold b1. destruct best as [[j0 c0]|]; [destruct (_ <? _)|]; eauto 10. }
    destruct best1 as [[j c]|]; [|naive_solver].
    destruct E as [[c' E]|(Hj & t' & Ht' & He')].
    + rewrite Hb1 in E. injection E as -> ->. destruct Hcase as [?| ->]; [by left|].
      right. split; [done|]. exists t. by rewrite Nat.sub_diag.
    + right. split; [lia|]. exists t'. by replace (j - i)%nat with (S (j - S i)) by lia.
Qed.

Lemma alter_targets (d : Z) (i : nat) (w : Weighted) :
  wt_target <$> alter (add_current d) i w = wt_target <$> w.
Proof. revert i. induction w as [|t w IH]; intros [|i]; csimpl; [done..|]. by rewrite IH. Qed.

Lemma weighted_choose_spec options w j w' :
  weighted_choose options w = Some (j, w') ->
  wt_target <$> w' = wt_target <$> w /\
  exists t, w !! j = Some t /\ isExcluded options (wt_target t) = false.
Proof.
  unfold weighted_choose.
  destruct (weighted_loop options 0 w None 0) as [[w1 best1] total1] eqn:E.
  destruct best1 as [[j1 c1]|]; simpl; [|done]. intros [= <- <-].
  rewrite alter_targets. split; [by eapply weighted_loop_targets|].
  apply weighted_loop_best in E as [[c [=]]|(_ & t & Ht & He)].
  exists t. by rewrite Nat.sub_0_r in Ht.
Qed.

Lemma Weighted_sound options w s w' :
  Weighted_Select options w = Some (s, w') ->
  sel_Target s ∈ (wt_target <$> w) /\ isExcluded options (sel_Target s) = false /\
  wt_target <$> w' = wt_target <$> w.
Proof.
  unfold Weighted_Select. case_bool_decide; [done|].
  destruct (weighted_choose options w) as [[j w1]|] eqn:Hc; simpl; [|done].
  destruct (weighted_choose_spec _ _ _ _ Hc) as (Hts & t & Ht & He).
  assert ((wt_target <$> w1) !! j = Some (wt_target t)) as Hj
    by by rewrite Hts, list_lookup_fmap, Ht.
  rewrite list_lookup_fmap in Hj. destruct (w1 !! j) as [t1|]; simplify_eq/=.
  intros [= <- <-]. simpl. rewrite Hj. split_and!; [|done|done].
  apply list_elem_of_fmap. exists t. split; [done|]. by eapply list_elem_of_lookup_2.
Qed.

Lemma Weighted_total options w :
  Weighted_Select options w = None ->
  Forall (fun t => isExcluded options t = true) (wt_target <$> w).
Proof.
  unfold Weighted_Select. case_bool_decide as Hne; [rewrite Hne; by constructor|].
  destruct (weighted_choose options w) as [[j w1]|] eqn:Hc; simpl.
  - destruct (weighted_choose_spec _ _ _ _ Hc) as (Hts & t & Ht & He).
    assert ((wt_target <$> w1) !! j = Some (wt_target t)) as Hj
      by by rewrite Hts, list_lookup_fmap, Ht.
    rewrite list_lookup_fmap in Hj. by destruct (w1 !! j).
  - intros _. unfold weighted_choose in Hc.
    destruct (weighted_loop options 0 w None 0) as [[w1 [[j c]|]] total1] eqn:E; [done|].
    apply weighted_loop_best in E as [_ Hall]. by apply Forall_fmap.
Qed.

(** ** Least connections: the choice is sound, total and minimal *)

Lemma least_loop_best options i lc best :
  match least_loop options i lc best with
  | Some (j, target, a) =>
      (best = Some (j, target, a) \/
       (i <= j)%nat /\ lc !! (j - i)%nat = Some (mkLeastConnTarget target a) /\
       isExcluded options target = false) /\
      (forall k t, lc !! k = Some t -> isExcluded options (lt_target t) = false -> a <= lt_active t) /\
      (forall j' t' a', best = Some (j', t', a') -> a <= a')
  | None => best = None /\ Forall (fun t => isExcluded options (lt_target t) = true) lc
  end.
Proof.
  revert i best. induction lc as [|c lc IH]; intros i best; simpl.
  { destruct best as [[[j t] a]|]; [|done]. split_and!; [by left|done|].
    intros ??? [= <- <- <-]. lia. }
  set (b1 := if isExcluded options (lt_target c) then best else _).
  specialize (IH (S i) b1).
  assert (forall j t a, b1 = Some (j, t, a) ->
    best = Some (j, t, a) \/
    j = i /\ c = mkLeastConnTarget t a /\ isExcluded options t = false) as Hb1.
  { unfold b1. intros j t a. destruct (isExcluded options (lt_target c)) eqn:He; [by left|].
    destruct best as [[[j0 t0] a0]|]; [destruct (_ <? _); [|by left]|];
      intros [= <- <- <-]; right; by destruct c. }
  assert (forall a, (forall j' t' a', b1 = Some (j', t', a') -> a <= a') ->
    (isExcluded options (lt_target c) = false -> a <= lt_active c) /\
    (forall j' t' a', best = Some (j', t', a') -> a <= a')) as Hmin.
  { unfold b1. intros a Ha. destruct (isExcluded options (lt_target c)); [by split|].
    destruct best as [[[j0 t0] a0]|]; [destruct (Z.ltb_spec (lt_active c) a0)|];
      (split; [intros _|intros ??? [= <- <- <-] || done]);
      pose proof (Ha _ _ _ eq_refl); lia. }
  destruct (least_loop options (S i) lc b1) as [[[j t] a]|].
  - destruct IH as (Hwhere & Hall & Hle). destruct (Hmin _ Hle) as [Hc Hbest].
    split_and!; [|intros [|k] t' Ht' He|done].
    + destruct Hwhere as [Hb|(Hj & Hlk & He)].
      * destruct (Hb1 _ _ _ Hb) as [?|(-> & -> & ?)]; [by left|right].
        rewrite Nat.sub_diag. done.
      * right. split; [lia|]. by replace (j - i)%nat with (S (j - S i)) by lia.
    + simpl in Ht'. simplify_eq. auto.
    + simpl in Ht'. eauto.
  - destruct IH as [Hn Hall]. unfold b1 in Hn.
    destruct (isExcluded options (lt_target c)) eqn:He; [by auto|].
    destruct best as [[[j0 t0] a0]|]; [by destruct (_ <? _)|done].
Qed.

Lemma alter_lc_targets (d : Z) (i : nat) (lc : LeastConn) :
  lt_target <$> alter (add_active d) i lc = lt_target <$> lc.
Proof. revert i. induction lc as [|t lc IH]; intros [|i]; csimpl; [done..|]. by rewrite IH. Qed.

Lemma LeastConn_Select_spec options lc s lc' :
  LeastConn_Select options lc = Some (s, lc') ->
  exists i t, sel_Target s = lt_target t /\ sel_Done s = releaseDone i /\ lc !! i = Some t /\
    isExcluded options (lt_target t) = false /\ lc' = alter (add_active 1) i lc /\
    forall k t', lc !! k = Some t' -> isExcluded options (lt_target t') = false ->
      lt_active t <= lt_active t'.
Proof.
  unfold LeastConn_Select. case_bool_decide; [done|].
  pose proof (least_loop_best options 0 lc None) as Hb.
  destruct (least_loop options 0 lc None) as [[[j target] a]|]; simpl; [|done].
  intros [= <- <-]. destruct Hb as ([?|(_ & Hlk & He)] & Hmin & _); [done|].
  rewrite Nat.sub_0_r in Hlk. exists j, (mkLeastConnTarget target a). by split_and!.
Qed.

Lemma LeastConn_total options lc :
  LeastConn_Select options lc = None ->
  Forall (fun t => isExcluded options t = true) (lt_target <$> lc).
Proof.
  unfold LeastConn_Select. case_bool_decide as Hne; [rewrite Hne; by constructor|].
  pose proof (least_loop_best options 0 lc None) as Hb.
  destruct (least_loop options 0 lc None) as [[[j target] a]|]; simpl; [done|].
  intros _. destruct Hb as [_ Hall]. by apply Forall_fmap.
Qed.


(** ** The interface, discharged *)

#[export] Instance RoundRobin_laws :
  BalancerLaws rr_ready rr_targets RoundRobin_Select (fun _ rr => rr).
Proof.
  split; [apply RoundRobin_sound|apply RoundRobin_total|done].
Qed.

#[export] Instance Weighted_laws :
  BalancerLaws (fun _ => True) (fmap wt_target) Weighted_Select (fun _ w => w).
Proof.
  split; [apply Weighted_sound|intros ? ? _; apply Weighted_total|done].
Qed.

#[export] Instance LeastConn_laws :
  BalancerLaws (fun _ => True) (fmap lt_target) LeastConn_Select LeastConn_Done.
Proof.
  split; [|intros ? ? _; apply LeastConn_total|].
  - intros options lc s lc' H.
    apply LeastConn_Select_spec in H as (i & t & -> & _ & Hlk & He & -> & _).
    split_and!; [|done|by rewrite alter_lc_targets].
    apply list_elem_of_fmap. exists t. split; [done|]. by eapply list_elem_of_lookup_2.
  - intros [|i] lc; [done|]. apply alter_lc_targets.
Qed.

(** Only the round-robin counter has a state it is not ready in. *)
Definition Balancer_ready (b : Balancer) : Prop :=
  match b with BRoundRobin rr => rr_ready rr | _ => True end.

#[export] Instance Balancer_laws :
  BalancerLaws Balancer_ready Balancer_targets Balancer_Select Balancer_Done.
Proof.
  split.
  - intros options [b|b|b] s b'; simpl; rewrite bind_Some; intros ([s1 b1] & H & [= -> <-]);
      apply select_sound in H; exact H.
  - intros options [b|b|b]; simpl; intros Hr H.
    all: (destruct (_ options b) as [[s1 b1]|] eqn:E in H; [done|]).
    all: eapply select_total; eauto.
  - intros d [b|b|b]; simpl; [done..|]. apply release_targets.
Qed.
