(* ===== verification/Fairness.v ===== *)
(** * Load balancers: fairness, concurrency, accounting

    The theorems about the balancers of [LoadBalancer]: the cyclic order of round robin
    and its concurrent callers, the shares of smooth weighted round robin, and the counters
    of least connections. *)

From S2P Require Import Prelude GoStrings Config LoadBalancer.
From stdpp Require Import options.
#[local] Set Default Proof Using "Type*".

(** A selection that excludes no target. *)
Definition no_exclusion : SelectionOptions := mkOptions ∅.

Lemma isExcluded_none t : isExcluded no_exclusion t = false.
Proof. unfold isExcluded. by rewrite bool_decide_eq_false_2 by set_solver. Qed.

(** ** Round robin: the steps of concurrent callers

    [RoundRobin.Select] has no lock: a caller loads the counter, scans, and publishes its
    choice with a compare-and-swap, starting again when another caller was faster. *)
Inductive rr_caller :=
  | RRStart (options : SelectionOptions)
  | RRLoaded (options : SelectionOptions) (start : Z)
  | RRReturned (options : SelectionOptions) (result : option Target).

(** The shared counter and the callers of one balancer. *)
Record rr_system := mkRRSystem { rrs_next : Z; rrs_callers : list rr_caller }.

(** The operations that took effect, in order: the caller, its options, its result. *)
Abbreviation rr_history := (list (nat * SelectionOptions * option Target)).

Definition rr_move (i : nat) (c : rr_caller) (next : Z) (s : rr_system) : rr_system :=
  mkRRSystem next (<[i:=c]> (rrs_callers s)).

(** A choice that fails depends on the loaded counter only: it takes effect when the
    counter is loaded.  A choice that succeeds takes effect at the swap. *)
Inductive rr_step (targets : list Target) : rr_system * rr_history -> rr_system * rr_history -> Prop :=
  | rr_step_empty i options s h :
      rrs_callers s !! i = Some (RRStart options) -> targets = [] ->
      rr_step targets (s, h)
        (rr_move i (RRReturned options None) (rrs_next s) s, h ++ [(i, options, None)])
  | rr_step_load i options s h :
      rrs_callers s !! i = Some (RRStart options) -> targets <> [] ->
      rr_step targets (s, h)
        (rr_move i (RRLoaded options (rrs_next s)) (rrs_next s) s,
         match rr_choose options targets (rrs_next s) with
         | Some _ => h
         | None => h ++ [(i, options, None)]
         end)
  | rr_step_fail i options start s h :
      rrs_callers s !! i = Some (RRLoaded options start) ->
      rr_choose options targets start = None ->
      rr_step targets (s, h) (rr_move i (RRReturned options None) (rrs_next s) s, h)
  | rr_step_swap i options start index offset target s h :
      rrs_callers s !! i = Some (RRLoaded options start) ->
      rr_choose options targets start = Some (index, offset, target) ->
      rrs_next s = start ->
      rr_step targets (s, h)
        (rr_move i (RRReturned options (Some target)) (rr_advance start offset) s,
         h ++ [(i, options, Some target)])
  | rr_step_retry i options start index offset target s h :
      rrs_callers s !! i = Some (RRLoaded options start) ->
      rr_choose options targets start = Some (index, offset, target) ->
      rrs_next s <> start ->
      rr_step targets (s, h) (rr_move i (RRStart options) (rrs_next s) s, h).

(** The callers have not started, and the balancer is new. *)
Definition rr_initial (callers : list SelectionOptions) : rr_system * rr_history :=
  (mkRRSystem 0 (RRStart <$> callers), []).

(** One operation after the other on the balancer of [LoadBalancer]. *)
Inductive rr_sequential : RoundRobin -> rr_history -> RoundRobin -> Prop :=
  | rr_sequential_nil rr : rr_sequential rr [] rr
  | rr_sequential_ok rr h rr1 i options sel rr2 :
      rr_sequential rr h rr1 -> RoundRobin_Select options rr1 = Some (sel, rr2) ->
      rr_sequential rr (h ++ [(i, options, Some (sel_Target sel))]) rr2
  | rr_sequential_err rr h rr1 i options :
      rr_sequential rr h rr1 -> RoundRobin_Select options rr1 = None ->
      rr_sequential rr (h ++ [(i, options, None)]) rr1.

(** What the history says of a caller. *)
Definition rr_caller_ok (targets : list Target) (h : rr_history) (i : nat) (c : rr_caller) : Prop :=
  match c with
  | RRStart _ => i ∉ h.*1.*1
  | RRLoaded options start =>
      targets <> [] /\
      match rr_choose options targets start with
      | Some _ => i ∉ h.*1.*1
      | None => (i, options, None) ∈ h
      end
  | RRReturned options result => (i, options, result) ∈ h
  end.

Definition rr_linear (targets : list Target) (sh : rr_system * rr_history) : Prop :=
  let (s, h) := sh in
  rr_sequential (NewRoundRobin targets) h (mkRoundRobin targets (rrs_next s)) /\
  NoDup h.*1.*1 /\
  (forall i c, rrs_callers s !! i = Some c -> rr_caller_ok targets h i c) /\
  (forall i, i ∈ h.*1.*1 -> is_Some (rrs_callers s !! i)).

Lemma rr_caller_ok_app targets h i c j options r :
  i <> j -> rr_caller_ok targets h i c -> rr_caller_ok targets (h ++ [(j, options, r)]) i c.
Proof.
  intros Hij. destruct c as [o|o st|o res]; simpl; rewrite ?fmap_app; [set_solver| |set_solver].
  intros [? H]. split; [done|]. destruct (rr_choose o targets st); set_solver.
Qed.

(** A step of one caller that appends at most its own operation. *)
Lemma rr_linear_move targets s h i c0 c next new :
  rr_linear targets (s, h) -> rrs_callers s !! i = Some c0 ->
  (new = [] \/ i ∉ h.*1.*1 /\ exists options r, new = [(i, options, r)]) ->
  rr_sequential (NewRoundRobin targets) (h ++ new) (mkRoundRobin targets next) ->
  rr_caller_ok targets (h ++ new) i c ->
  rr_linear targets (rr_move i c next s, h ++ new).
Proof.
  intros (Hseq & Hnd & Hok & Hin) Hi Hnew Hseq' Hc. split; [done|]. split_and!.
  - destruct Hnew as [->|(Hni & o & r & ->)]; [by rewrite app_nil_r|].
    rewrite !fmap_app. apply NoDup_app. split_and!; [done| |apply NoDup_singleton].
    intros x Hx ->%list_elem_of_singleton. done.
  - intros j cj. simpl. destruct (decide (j = i)) as [->|Hne].
    + rewrite list_lookup_insert_eq by by eapply lookup_lt_Some. by intros [= <-].
    + rewrite list_lookup_insert_ne by done. intros Hj.
      destruct Hnew as [->|(Hni & o & r & ->)]; [rewrite app_nil_r; by apply Hok|].
      by apply rr_caller_ok_app, Hok.
  - intros j Hj. simpl. apply lookup_lt_is_Some. rewrite length_insert.
    apply lookup_lt_is_Some. destruct Hnew as [->|(Hni & o & r & ->)].
    + rewrite app_nil_r in Hj. by apply Hin.
    + rewrite !fmap_app in Hj. apply elem_of_app in Hj as [Hj|Hj]; [by apply Hin|].
      apply list_elem_of_singleton in Hj as ->. done.
Qed.

Lemma rr_step_linear targets sh sh' :
  rr_step targets sh sh' -> rr_linear targets sh -> rr_linear targets sh'.
Proof.
  intros Hstep Hlin. destruct Hstep as
    [i o s h Hi Hempty|i o s h Hi Hne|i o st s h Hi Hch|i o st idx off t s h Hi Hch Hnext
    |i o st idx off t s h Hi Hch Hnext];
    destruct Hlin as (Hseq & Hrest); pose proof (conj Hseq Hrest) as Hlin;
    destruct Hrest as (Hnd & Hok & Hin); pose proof (Hok _ _ Hi) as Hci; simpl in Hci.
  - eapply rr_linear_move; [done..|by right; eauto| |set_solver].
    eapply rr_sequential_err; [done|]. unfold RoundRobin_Select. by rewrite bool_decide_eq_true_2.
  - destruct (rr_choose o targets (rrs_next s)) as [x|] eqn:Hch.
    + rewrite <- (app_nil_r h). eapply rr_linear_move; [done..|by left| |]; rewrite app_nil_r; [done|].
      simpl. by rewrite Hch.
    + eapply rr_linear_move; [done..|by right; eauto| |].
      * eapply rr_sequential_err; [done|]. unfold RoundRobin_Select.
        rewrite bool_decide_eq_false_2 by done. simpl. by rewrite Hch.
      * simpl. rewrite Hch. set_solver.
  - destruct Hci as [? Hci]. rewrite Hch in Hci.
    rewrite <- (app_nil_r h). eapply rr_linear_move; [done..|by left| |]; by rewrite app_nil_r.
  - destruct Hci as [Hne Hci]. rewrite Hch in Hci. subst st.
    eapply rr_linear_move; [done..|by right; eauto| |set_solver].
    apply (rr_sequential_ok _ _ _ _ _ (mkSelection t noopDone) _ Hseq).
    unfold RoundRobin_Select. rewrite bool_decide_eq_false_2 by done. simpl. by rewrite Hch.
  - destruct Hci as [Hne Hci]. rewrite Hch in Hci.
    rewrite <- (app_nil_r h). by eapply rr_linear_move; [done..|by left| |]; rewrite app_nil_r.
Qed.

Lemma rr_initial_linear targets callers : rr_linear targets (rr_initial callers).
Proof.
  split; [constructor|]. split_and!; [constructor| |by intros i ?%elem_of_nil].
  intros i c. simpl. rewrite list_lookup_fmap. destruct (callers !! i); intros [= <-].
  simpl. by intros ?%elem_of_nil.
Qed.

Definition rr_options (c : rr_caller) : SelectionOptions :=
  match c with RRStart o | RRLoaded o _ | RRReturned o _ => o end.

(** No step changes what a caller asked for. *)
Lemma rr_step_options targets sh sh' :
  rr_step targets sh sh' -> rr_options <$> rrs_callers sh'.1 = rr_options <$> rrs_callers sh.1.
Proof.
  intros Hstep. destruct Hstep as [i o s h Hi|i o s h Hi|i o st s h Hi|i o st ??? s h Hi|i o st ??? s h Hi].
  all: simpl; rewrite list_fmap_insert; simpl; apply list_insert_id;
    by rewrite list_lookup_fmap, Hi.
Qed.

(** C18: concurrent callers of [RoundRobin.Select] behave as if each called it alone, in
    some order: in every interleaving of their loads and compare-and-swaps the operations
    that took effect form a sequential history of the balancer that ends at the shared
    counter, every caller that returned is in it exactly once with what it returned, and
    no caller enters it before it starts. *)
Theorem round_robin_linearizable targets callers s h :
  rtc (rr_step targets) (rr_initial callers) (s, h) ->
  rr_sequential (NewRoundRobin targets) h (mkRoundRobin targets (rrs_next s)) /\
  NoDup h.*1.*1 /\
  (forall i options r, rrs_callers s !! i = Some (RRReturned options r) ->
     callers !! i = Some options /\ (i, options, r) ∈ h) /\
  (forall i options, rrs_callers s !! i = Some (RRStart options) -> i ∉ h.*1.*1).
Proof.
  intros Hsteps.
  assert (rr_linear targets (s, h) /\ rr_options <$> rrs_callers s = callers)
    as [(Hseq & Hnd & Hok & _) Hopts].
  { apply (rtc_ind_r (R := rr_step targets) (fun sh => rr_linear targets sh /\ rr_options <$> rrs_callers sh.1 = callers)
      (rr_initial callers)); [| |done].
    - split; [apply rr_initial_linear|]. simpl.
      rewrite <- list_fmap_compose. apply list_fmap_id.
    - intros sh1 sh2 _ Hstep [Hlin <-]. split; [by eapply rr_step_linear|].
      by apply rr_step_options in Hstep. }
  split_and!; [done|done| |by intros i o Hi; apply Hok in Hi].
  intros i o r Hi. split; [|by apply Hok in Hi].
  by rewrite <- Hopts, list_lookup_fmap, Hi.
Qed.

(** Two callers load the same counter; the second swap fails, and that caller takes the
    next target. *)
Definition rr_race_targets : list Target := [mkTarget "a" 1 1; mkTarget "b" 2 1].

Lemma round_robin_linearizable_witness :
  let s := mkRRSystem 2 [RRReturned no_exclusion (Some (mkTarget "a" 1 1));
                         RRReturned no_exclusion (Some (mkTarget "b" 2 1))] in
  let h := [(0%nat, no_exclusion, Some (mkTarget "a" 1 1));
            (1%nat, no_exclusion, Some (mkTarget "b" 2 1))] in
  rtc (rr_step rr_race_targets) (rr_initial [no_exclusion; no_exclusion]) (s, h) /\
  NoDup h.*1.*1.
Proof.
  intros s h.
  assert (rtc (rr_step rr_race_targets) (rr_initial [no_exclusion; no_exclusion]) (s, h)) as Hrun.
  { unfold rr_initial.
    eapply rtc_l; [apply (rr_step_load _ 0 no_exclusion); [done|discriminate]|].
    eapply rtc_l; [apply (rr_step_load _ 1 no_exclusion); [done|discriminate]|].
    eapply rtc_l; [eapply (rr_step_swap _ 0 no_exclusion 0); vm_compute; reflexivity|].
    eapply rtc_l; [eapply (rr_step_retry _ 1 no_exclusion 0); [vm_compute; reflexivity..|]; discriminate|].
    eapply rtc_l; [apply (rr_step_load _ 1 no_exclusion); [done|discriminate]|].
    eapply rtc_l; [eapply (rr_step_swap _ 1 no_exclusion 1); vm_compute; reflexivity|].
    apply rtc_refl. }
  split; [exact Hrun|].
  exact (proj1 (proj2 (round_robin_linearizable _ _ _ _ Hrun))).
Defined.

(** ** Round robin: the cyclic order *)

(** [k] selections one after the other, none of which fails. *)
Fixpoint selects {B} (select : B -> option (Selection * B)) (k : nat) (b : B)
    : option (list Target * B) :=
  match k with
  | O => Some ([], b)
  | S k =>
      '(s, b) ← select b;
      '(ts, b) ← selects select k b;
      Some (sel_Target s :: ts, b)
  end.

(** The target [d] places after the counter. *)
Definition rr_at (rr : RoundRobin) (d : nat) : option Target :=
  rr_targets rr !! Z.to_nat ((rr_next rr + Z.of_nat d) mod Z.of_nat (length (rr_targets rr))).

Lemma rr_at_index rr d :
  rr_ready rr -> (d < length (rr_targets rr))%nat ->
  rr_targets rr !! rr_index (rr_targets rr) (rr_next rr) d = rr_at rr d.
Proof. intros [??] ?. unfold rr_at, rr_index. by rewrite wrapu64_id by lia. Qed.

(** Round robin picks the first target at or after its counter, in cyclic order, that
    is not excluded, and moves the counter just past it; the targets it passed over are
    all excluded, so they do not consume a turn. *)
Lemma round_robin_picks_next options rr s rr' :
  rr_ready rr -> RoundRobin_Select options rr = Some (s, rr') ->
  exists d : nat, (d < length (rr_targets rr))%nat /\
    rr_at rr d = Some (sel_Target s) /\ isExcluded options (sel_Target s) = false /\
    (forall o, (o < d)%nat -> exists t, rr_at rr o = Some t /\ isExcluded options t = true) /\
    rr_next rr' = wrapu64 (rr_next rr + Z.of_nat d + 1).
Proof.
  intros Hr. unfold RoundRobin_Select. case_bool_decide; [done|].
  destruct (rr_choose _ _ _) as [[[i d] t]|] eqn:Hc; simpl; [|done]. intros [= <- <-]. simpl.
  destruct (rr_scan_sound _ _ _ _ _ _ _ Hc) as (-> & Ht & He & Hd).
  apply elem_of_seq in Hd. exists d. split; [lia|].
  rewrite <- rr_at_index by (done || lia). split_and!; [done..| |done].
  intros o Ho. destruct (rr_scan_first _ _ _ _ _ _ _ _ Hc o) as (t' & Ht' & He'); [lia|].
  exists t'. by rewrite <- rr_at_index by (done || lia).
Qed.

Lemma round_robin_picks_next_witness :
  let b := mkTarget "b" 2 1 in
  let rr := mkRoundRobin [mkTarget "a" 1 1; b; mkTarget "c" 3 1] 4 in
  exists d : nat, (d < 3)%nat /\ rr_at rr d = Some (mkTarget "c" 3 1).
Proof.
  intros b rr.
  destruct (round_robin_picks_next (mkOptions {[ targetAddress b ]}) rr
    (mkSelection (mkTarget "c" 3 1) noopDone) (mkRoundRobin (rr_targets rr) 6))
    as (d & Hd & Hat & _); [split; vm_compute; congruence|vm_compute; reflexivity|].
  exists d. split; [exact Hd|exact Hat].
Defined.

Lemma rr_select_head rr :
  rr_targets rr <> [] -> 0 <= rr_next rr < 2 ^ 64 - 1 ->
  exists t, rr_at rr 0 = Some t /\
    RoundRobin_Select no_exclusion rr =
      Some (mkSelection t noopDone, mkRoundRobin (rr_targets rr) (rr_next rr + 1)).
Proof.
  intros Hne Hb.
  assert (rr_targets rr !! rr_index (rr_targets rr) (rr_next rr) 0 = rr_at rr 0) as Hat.
  { unfold rr_at, rr_index. by rewrite wrapu64_id by lia. }
  destruct (lookup_lt_is_Some_2 (rr_targets rr) (rr_index (rr_targets rr) (rr_next rr) 0)) as [t Ht];
    [by apply rr_index_lt|].
  exists t. split; [congruence|].
  unfold RoundRobin_Select, rr_choose. rewrite bool_decide_eq_false_2 by done.
  destruct (length (rr_targets rr)) as [|n] eqn:Hn; [by apply nil_length_inv in Hn|].
  simpl. rewrite Ht, isExcluded_none. simpl. unfold rr_advance. rewrite wrapu64_id by lia.
  do 3 f_equal. lia.
Qed.

(** Without exclusions, [k] selections in a row succeed and follow the cyclic order of
    the targets from the counter on: the [i]-th is the target at position
    [(counter + i) mod n]. *)
Lemma round_robin_cycles rr k :
  rr_targets rr <> [] -> 0 <= rr_next rr -> rr_next rr + Z.of_nat k < 2 ^ 64 ->
  exists ts rr', selects (RoundRobin_Select no_exclusion) k rr = Some (ts, rr') /\
    length ts = k /\ rr_next rr' = rr_next rr + Z.of_nat k /\
    forall i, (i < k)%nat -> ts !! i = rr_at rr i.
Proof.
  revert rr. induction k as [|k IH]; intros rr Hne H0 Hk.
  { exists [], rr. split_and!; [done|done|lia|intros; lia]. }
  destruct (rr_select_head rr Hne) as (t & Hat & Hsel); [lia|]. cbn [selects]. rewrite Hsel. cbn.
  destruct (IH (mkRoundRobin (rr_targets rr) (rr_next rr + 1))) as (ts & rr' & -> & Hlen & Hn & Hts);
    [done|cbn; lia..|]. cbn in *.
  exists (t :: ts), rr'. split_and!; [done|by rewrite <- Hlen|lia|].
  intros [|i] Hi; [done|]. cbn. rewrite Hts by lia. unfold rr_at. cbn [rr_targets rr_next].
  do 2 f_equal. f_equal. lia.
Qed.

Lemma round_robin_cycles_witness :
  exists ts rr', selects (RoundRobin_Select no_exclusion) 5 (mkRoundRobin rr_race_targets 0) = Some (ts, rr') /\
    length ts = 5%nat.
Proof.
  destruct (round_robin_cycles (mkRoundRobin rr_race_targets 0) 5) as (ts & rr' & H & Hl & _);
    [discriminate|cbn; lia..|].
  exists ts, rr'. split; [exact H|exact Hl].
Defined.

(** When the 64-bit counter wraps, the offsets skip a target: three targets of which only
    the third may be used, and the scan does not find it. *)
Lemma round_robin_wrap_misses :
  let targets := [mkTarget "a" 1 1; mkTarget "b" 2 1; mkTarget "c" 3 1] in
  let options := mkOptions {[ "a:1"%string; "b:2"%string ]} in
  RoundRobin_Select options (mkRoundRobin targets (2 ^ 64 - 1)) = None /\
  isExcluded options (mkTarget "c" 3 1) = false.
Proof. by vm_compute. Qed.

(** ** Smooth weighted round robin: the shares *)

Fixpoint sum_Z {A} (f : A -> Z) (l : list A) : Z :=
  match l with [] => 0 | x :: l => f x + sum_Z f l end.

Lemma sum_Z_nonneg {A} (f : A -> Z) l : (forall x, x ∈ l -> 0 <= f x) -> 0 <= sum_Z f l.
Proof.
  induction l as [|x l IH]; cbn; [lia|]. intros H.
  pose proof (H x ltac:(set_solver)). specialize (IH ltac:(set_solver)). lia.
Qed.

Lemma sum_Z_app {A} (f : A -> Z) l1 l2 : sum_Z f (l1 ++ l2) = sum_Z f l1 + sum_Z f l2.
Proof. induction l1 as [|x l1 IH]; cbn; [done|]. rewrite IH. lia. Qed.

Lemma sum_Z_alter {A} (f : A -> Z) (g : A -> A) l i x :
  l !! i = Some x -> sum_Z f (alter g i l) = sum_Z f l - f x + f (g x).
Proof.
  revert i. induction l as [|y l IH]; intros [|i]; cbn; [done..|intros [= ->]; lia|].
  intros H. rewrite IH by done. lia.
Qed.

(** A list whose values sum to less than [length l * b] has a value below [b]. *)
Lemma sum_Z_le_max {A} (f : A -> Z) l b :
  (forall x, x ∈ l -> f x <= b) -> sum_Z f l <= Z.of_nat (length l) * b.
Proof.
  induction l as [|x l IH]; cbn [sum_Z length]; [lia|]. intros H.
  pose proof (H x ltac:(set_solver)). specialize (IH ltac:(set_solver)).
  rewrite Nat2Z.inj_succ. nia.
Qed.

Lemma sum_Z_elem_le {A} (f : A -> Z) l x :
  (forall y, y ∈ l -> 0 <= f y) -> x ∈ l -> f x <= sum_Z f l.
Proof.
  induction l as [|y l IH]; [by intros _ ?%elem_of_nil|]. intros H Hx.
  cbn [sum_Z]. assert (0 <= sum_Z f l) by (apply sum_Z_nonneg; set_solver).
  pose proof (H y ltac:(set_solver)).
  apply elem_of_cons in Hx as [->|Hx]; [lia|]. specialize (IH ltac:(set_solver) Hx). lia.
Qed.

Definition totalWeight (w : Weighted) : Z := sum_Z wt_weight w.

Lemma add_current_id d t :
  in_int64 (wt_currentWeight t + d) ->
  add_current d t = mkWeightedTarget (wt_target t) (wt_weight t) (wt_currentWeight t + d).
Proof. intros H. unfold add_current. by rewrite wrap64_id. Qed.

(** The loop when nothing is excluded and no sum overflows: every weight is added, the
    total is the sum, and the best is a largest. *)
Lemma weighted_loop_all i w best total :
  (forall t, t ∈ w -> in_int64 (wt_currentWeight t + wt_weight t)) ->
  (forall t, t ∈ w -> 0 <= wt_weight t) -> 0 <= total -> total + totalWeight w <= int64_max ->
  exists best',
    weighted_loop no_exclusion i w best total =
      ((fun t => mkWeightedTarget (wt_target t) (wt_weight t) (wt_currentWeight t + wt_weight t)) <$> w,
       best', total + totalWeight w) /\
    match best' with
    | Some (j, c) =>
        (best = Some (j, c) \/
         (i <= j)%nat /\ exists t, w !! (j - i)%nat = Some t /\ c = wt_currentWeight t + wt_weight t) /\
        (forall t, t ∈ w -> wt_currentWeight t + wt_weight t <= c) /\
        (forall j' c', best = Some (j', c') -> c' <= c)
    | None => best = None /\ w = []
    end.
Proof.
  revert i best total. induction w as [|t w IH]; intros i best total Hcw Hw Ht Htot.
  { cbn. exists best. rewrite Z.add_0_r. split; [done|]. destruct best as [[j c]|]; [|done].
    split_and!; [by left|by intros ? ?%elem_of_nil|by intros ?? [= <- <-]]. }
  cbn [weighted_loop]. rewrite isExcluded_none. unfold totalWeight in *. cbn [sum_Z] in Htot.
  assert (0 <= wt_weight t) by (apply Hw; set_solver).
  assert (0 <= sum_Z wt_weight w) by (apply sum_Z_nonneg; set_solver).
  rewrite (add_current_id (wt_weight t) t) by (apply Hcw; set_solver).
  cbn [wt_weight wt_currentWeight]. rewrite (wrap64_id (total + _)) by (unfold in_int64, int64_min, int64_max in *; lia).
  match goal with |- context [weighted_loop _ _ w ?b _] => set (b1 := b) end.
  destruct (IH (S i) b1 (total + wt_weight t)) as (best' & -> & Hb); [set_solver|set_solver|lia..|].
  exists best'. split.
  { cbn. f_equal; lia. }
  assert (exists j c, b1 = Some (j, c) /\ wt_currentWeight t + wt_weight t <= c /\
    (forall j' c', best = Some (j', c') -> c' <= c) /\
    (best = Some (j, c) \/ j = i /\ c = wt_currentWeight t + wt_weight t)) as (j1 & c1 & Hb1 & Hc1 & Hmax & Hor).
  { unfold b1. destruct best as [[j0 c0]|]; [destruct (Z.ltb_spec c0 (wt_currentWeight t + wt_weight t))|].
    all: eexists _, _; split_and!; [done|lia| |by eauto].
    all: intros ?? [= <- <-]; lia. }
  destruct best' as [[j c]|]; [|by destruct Hb as [Hb _]; rewrite Hb1 in Hb].
  destruct Hb as (Hwhere & Hall & Hle). pose proof (Hle _ _ Hb1). split_and!.
  - destruct Hwhere as [Hb|(Hj & t' & Ht' & ->)].
    + rewrite Hb1 in Hb. injection Hb as -> ->. destruct Hor as [?|[-> ->]]; [by left|].
      right. split; [done|]. exists t. by rewrite Nat.sub_diag.
    + right. split; [lia|]. exists t'. by replace (j - i)%nat with (S (j - S i)) by lia.
  - intros t' [->|Ht']%elem_of_cons; [lia|by apply Hall].
  - intros j' c' Hb. specialize (Hmax _ _ Hb). lia.
Qed.

(** The indexes of [k] choices in a row, and the balancer after them. *)
Fixpoint weighted_picks (k : nat) (w : Weighted) : option (list nat * Weighted) :=
  match k with
  | O => Some ([], w)
  | S k =>
      '(i, w) ← weighted_choose no_exclusion w;
      '(picks, w) ← weighted_picks k w;
      Some (i :: picks, w)
  end.

Definition picked (i : nat) (picks : list nat) : Z := Z.of_nat (length (filter (eq i) picks)).

Lemma picked_cons i j picks :
  picked i (j :: picks) = (if decide (i = j) then 1 else 0) + picked i picks.
Proof. unfold picked. rewrite filter_cons. destruct (decide (i = j)); cbn [length]; lia. Qed.

(** Between selections the current weights sum to zero and stay above [- W]. *)
Definition smooth (W : Z) (w : Weighted) : Prop :=
  totalWeight w = W /\ sum_Z wt_currentWeight w = 0 /\
  (forall t, t ∈ w -> 1 <= wt_weight t /\ - W < wt_currentWeight t).

Definition small_weights (W : Z) (w : Weighted) : Prop :=
  (Z.of_nat (length w) + 1) * W <= int64_max.

Lemma sum_Z_shift {A} (f : A -> Z) c (l : list A) :
  sum_Z (fun x => f x + c) l = sum_Z f l + Z.of_nat (length l) * c.
Proof. induction l as [|x l IH]; cbn [sum_Z length]; [lia|]. rewrite IH. lia. Qed.

Lemma sum_Z_plus {A} (f g : A -> Z) (l : list A) :
  sum_Z (fun x => f x + g x) l = sum_Z f l + sum_Z g l.
Proof. induction l as [|x l IH]; cbn [sum_Z]; [lia|]. rewrite IH. lia. Qed.

Lemma sum_Z_fmap {A B} (f : B -> Z) (g : A -> B) (l : list A) :
  sum_Z f (g <$> l) = sum_Z (fun x => f (g x)) l.
Proof. induction l as [|x l IH]; csimpl; [done|]. by rewrite IH. Qed.

Lemma smooth_bounds W w t :
  smooth W w -> t ∈ w -> 1 <= W /\ wt_currentWeight t <= (Z.of_nat (length w) - 1) * W /\ wt_weight t <= W.
Proof.
  intros (HW & H0 & Hall) Ht.
  assert (wt_weight t <= W).
  { rewrite <- HW. apply sum_Z_elem_le; [|done]. intros u Hu. apply Hall in Hu. lia. }
  pose proof (Hall _ Ht).
  assert (wt_currentWeight t + W <= sum_Z (fun u => wt_currentWeight u + W) w).
  { apply (sum_Z_elem_le (fun u => wt_currentWeight u + W)); [|done].
    intros u Hu. apply Hall in Hu. lia. }
  rewrite sum_Z_shift, H0 in *. lia.
Qed.

(** One choice gives each target its weight and takes the total from the chosen one. *)
Lemma weighted_choose_smooth W w :
  smooth W w -> small_weights W w -> w <> [] ->
  exists j w', weighted_choose no_exclusion w = Some (j, w') /\ smooth W w' /\ length w' = length w /\
    forall i, w' !! i =
      (fun t => mkWeightedTarget (wt_target t) (wt_weight t)
         (wt_currentWeight t + wt_weight t - (if decide (i = j) then W else 0))) <$> w !! i.
Proof.
  intros Hs Hsmall Hne. destruct Hs as (HW & H0 & Hall). pose proof (conj HW (conj H0 Hall)) as Hs.
  unfold small_weights in Hsmall.
  assert (forall t, t ∈ w -> in_int64 (wt_currentWeight t + wt_weight t)) as Hadd.
  { intros t Ht. pose proof (smooth_bounds _ _ _ Hs Ht). pose proof (Hall _ Ht).
    assert (0 < Z.of_nat (length w)) by (destruct w; [done|cbn; lia]).
    unfold in_int64, int64_max, int64_min in *. nia. }
  assert (1 <= W) as HW1 by (destruct w as [|t w]; [done|]; apply (smooth_bounds _ _ t Hs); left).
  destruct (weighted_loop_all 0 w None 0) as (best & Hloop & Hbest); [done|..].
  { intros t Ht. apply Hall in Ht. lia. }
  { lia. }
  { rewrite HW. assert (0 < Z.of_nat (length w)) by (destruct w; [done|cbn; lia]).
    clear -Hsmall HW1 H. nia. }
  destruct best as [[j c]|]; [|by destruct Hbest].
  destruct Hbest as ([?|(_ & t & Ht & ->)] & Hmax & _); [done|]. rewrite Nat.sub_0_r in Ht.
  set (w1 := (fun t => mkWeightedTarget _ _ _) <$> w) in Hloop.
  assert (0 < wt_currentWeight t + wt_weight t) as Hpos.
  { pose proof (sum_Z_le_max (fun u => wt_currentWeight u + wt_weight u) w _ Hmax) as Hle.
    rewrite sum_Z_plus, H0 in Hle. unfold totalWeight in HW. nia. }
  pose proof (list_elem_of_lookup_2 _ _ _ Ht) as Htw.
  assert (forall i, alter (add_current (- (0 + totalWeight w))) j w1 !! i =
    (fun t => mkWeightedTarget (wt_target t) (wt_weight t)
       (wt_currentWeight t + wt_weight t - (if decide (i = j) then W else 0))) <$> w !! i) as Hlk.
  { intros i. destruct (decide (i = j)) as [->|Hij].
    - rewrite list_lookup_alter_eq. unfold w1. rewrite list_lookup_fmap, Ht. cbn.
      rewrite HW, add_current_id; [by f_equal|]. cbn. specialize (Hadd _ Htw).
      unfold in_int64, int64_max, int64_min in *. nia.
    - rewrite list_lookup_alter_ne by done. unfold w1. rewrite list_lookup_fmap.
      destruct (w !! i); [|done]. cbn. by rewrite Z.sub_0_r. }
  eexists j, _. split_and!; [by unfold weighted_choose; rewrite Hloop| |by unfold w1; rewrite length_alter, length_fmap|done].
  split_and!.
  - unfold totalWeight. erewrite sum_Z_alter by (unfold w1; rewrite list_lookup_fmap, Ht; done).
    unfold w1. rewrite sum_Z_fmap. rewrite <- HW. apply Z.sub_add.
  - erewrite sum_Z_alter by (unfold w1; rewrite list_lookup_fmap, Ht; done).
    unfold w1. rewrite sum_Z_fmap. cbn [wt_currentWeight add_current].
    rewrite sum_Z_plus, H0, HW. rewrite wrap64_id.
    + unfold totalWeight in HW. cbn [wt_currentWeight]. lia.
    + specialize (Hadd _ Htw). unfold in_int64, int64_max, int64_min in *. nia.
  - intros u (i & Hi)%list_elem_of_lookup_1. rewrite Hlk in Hi.
    destruct (w !! i) as [u0|] eqn:Hu0; [|done]. cbn in Hi. simplify_eq. cbn.
    pose proof (Hall _ (list_elem_of_lookup_2 _ _ _ Hu0)).
    destruct (decide (i = j)) as [->|]; [|lia]. simplify_eq. lia.
Qed.

Lemma weighted_picks_smooth W k w :
  smooth W w -> small_weights W w -> w <> [] ->
  exists picks w', weighted_picks k w = Some (picks, w') /\ smooth W w' /\ length w' = length w /\
    length picks = k /\
    forall i, w' !! i =
      (fun t => mkWeightedTarget (wt_target t) (wt_weight t)
         (wt_currentWeight t + Z.of_nat k * wt_weight t - W * picked i picks)) <$> w !! i.
Proof.
  revert w. induction k as [|k IH]; intros w Hs Hsmall Hne.
  { exists [], w. split_and!; try done. intros i. destruct (w !! i) as [[tg wt cw]|]; [|done].
    cbn. do 2 f_equal. unfold picked. cbn. lia. }
  destruct (weighted_choose_smooth W w Hs Hsmall Hne) as (j & w1 & Hc & Hs1 & Hl1 & Hlk1).
  destruct (IH w1 Hs1) as (picks & w2 & Hp & Hs2 & Hl2 & Hk & Hlk2).
  { unfold small_weights. by rewrite Hl1. }
  { intros ->. by destruct w. }
  exists (j :: picks), w2. cbn [weighted_picks]. rewrite Hc. cbn. rewrite Hp. cbn.
  split_and!; [done|done|congruence|by rewrite Hk|].
  intros i. rewrite Hlk2, Hlk1. destruct (w !! i) as [t|]; [|done]. cbn. f_equal. f_equal.
  rewrite picked_cons. destruct (decide (i = j)); lia.
Qed.

Lemma NewWeighted_smooth targets :
  targets <> [] -> smooth (totalWeight (NewWeighted targets)) (NewWeighted targets).
Proof.
  intros Hne. split_and!; [done| |].
  - induction targets as [|t [|t' ts] IH]; [done..|]. cbn. cbn in IH. by apply IH.
  - assert (forall t, t ∈ NewWeighted targets -> 1 <= wt_weight t /\ wt_currentWeight t = 0) as Hall.
    { intros u (t & -> & _)%list_elem_of_fmap. cbn. unfold effectiveWeight.
      destruct (Z.leb_spec (tg_Weight t) 0); lia. }
    intros t Ht. pose proof (Hall _ Ht). split; [lia|].
    assert (wt_weight t <= totalWeight (NewWeighted targets)); [|lia].
    apply sum_Z_elem_le; [|done]. intros u Hu. apply Hall in Hu. lia.
Qed.

Lemma share_nonneg W d : 1 <= W -> - W < W * d -> 0 <= W * d.
Proof. intros. destruct (Z.le_gt_cases 0 d); nia. Qed.

(** A round of [W] selections that starts from current weights zero. *)
Lemma weighted_round W w :
  smooth W w -> small_weights W w -> 1 <= W ->
  (forall t, t ∈ w -> wt_currentWeight t = 0) ->
  exists picks, weighted_picks (Z.to_nat W) w = Some (picks, w) /\
    forall i t, w !! i = Some t -> picked i picks = wt_weight t.
Proof.
  intros Hs Hsmall HW Hz.
  assert (w <> []) as Hne by (intros ->; destruct Hs as [<- _]; cbn in HW; lia).
  destruct (weighted_picks_smooth W (Z.to_nat W) w Hs Hsmall Hne)
    as (picks & w' & Hp & (_ & H0 & Hall) & Hlen & Hk & Hlk).
  rewrite Z2Nat.id in Hlk by lia.
  assert (forall i t, w !! i = Some t -> w' !! i =
    Some (mkWeightedTarget (wt_target t) (wt_weight t) (W * (wt_weight t - picked i picks)))) as Hcw.
  { intros i t Ht. rewrite Hlk, Ht. cbn. rewrite (Hz t) by by eapply list_elem_of_lookup_2.
    do 2 f_equal. lia. }
  assert (forall u, u ∈ w' -> 0 <= wt_currentWeight u) as Hnn.
  { intros u Hu. pose proof (Hall _ Hu) as [_ Hlow]. apply list_elem_of_lookup_1 in Hu as [i Hi].
    pose proof Hi as Hi'. rewrite Hlk in Hi'. destruct (w !! i) as [t|] eqn:Ht; [|done].
    rewrite (Hcw _ _ Ht) in Hi. injection Hi as <-. cbn in *. by apply share_nonneg. }
  assert (forall i t, w !! i = Some t -> picked i picks = wt_weight t) as Hexact.
  { intros i t Ht. pose proof (list_elem_of_lookup_2 _ _ _ (Hcw _ _ Ht)) as Hu.
    pose proof (sum_Z_elem_le wt_currentWeight w' _ Hnn Hu) as Hle. pose proof (Hnn _ Hu) as Hge.
    rewrite H0 in Hle. cbn in Hle, Hge. nia. }
  exists picks. split; [|done]. rewrite Hp. do 2 f_equal. apply list_eq. intros i.
  destruct (w !! i) as [t|] eqn:Ht; [|by rewrite Hlk, Ht].
  rewrite (Hcw _ _ Ht), (Hexact _ _ Ht), Z.sub_diag, Z.mul_0_r.
  rewrite <- (Hz t) by by eapply list_elem_of_lookup_2. by destruct t.
Qed.

(** C17: smooth weighted round robin is fair.  With [W] the sum of the effective weights, in
    any number [k] of selections no target is ahead of its share [k * weight / W] by a
    whole selection; after exactly [W] selections every target was chosen exactly its
    weight of times, and the balancer is back in its initial state. *)
Theorem smooth_weighted_is_fair targets (k : nat) :
  let w0 := NewWeighted targets in
  let W := totalWeight w0 in
  targets <> [] -> small_weights W w0 ->
  (exists picks w, weighted_picks k w0 = Some (picks, w) /\ length picks = k /\
     forall i t, targets !! i = Some t ->
       W * picked i picks < Z.of_nat k * effectiveWeight t + W) /\
  (exists picks, weighted_picks (Z.to_nat W) w0 = Some (picks, w0) /\
     forall i t, targets !! i = Some t -> picked i picks = effectiveWeight t).
Proof.
  intros w0 W Hne Hsmall. pose proof (NewWeighted_smooth targets Hne) as Hs. fold w0 W in Hs.
  assert (w0 <> []) as Hne0 by (unfold w0; by destruct targets).
  assert (1 <= W) as HW.
  { destruct w0 as [|t w] eqn:E; [done|]. apply (smooth_bounds W (t :: w) t Hs). left. }
  assert (forall i t, targets !! i = Some t -> w0 !! i = Some (mkWeightedTarget t (effectiveWeight t) 0)) as Hw0.
  { intros i t Ht. unfold w0, NewWeighted. by rewrite list_lookup_fmap, Ht. }
  split.
  - destruct (weighted_picks_smooth W k w0 Hs Hsmall Hne0) as (picks & w & Hp & (_ & _ & Hall) & _ & Hk & Hlk).
    exists picks, w. split_and!; [done..|]. intros i t Ht. specialize (Hlk i).
    rewrite (Hw0 _ _ Ht) in Hlk. cbn in Hlk. apply list_elem_of_lookup_2, Hall in Hlk. cbn in Hlk. lia.
  - destruct (weighted_round W w0 Hs Hsmall HW) as (picks & Hp & Hexact).
    { by intros u (t & -> & _)%list_elem_of_fmap. }
    exists picks. split; [done|]. intros i t Ht. by rewrite (Hexact _ _ (Hw0 _ _ Ht)).
Qed.

Lemma smooth_weighted_is_fair_witness :
  exists picks w, weighted_picks 5 (NewWeighted [mkTarget "a" 1 3; mkTarget "b" 2 1; mkTarget "c" 3 0]) =
    Some (picks, w) /\ length picks = 5%nat.
Proof.
  destruct (smooth_weighted_is_fair [mkTarget "a" 1 3; mkTarget "b" 2 1; mkTarget "c" 3 0] 5)
    as ((picks & w & H & Hl & _) & _); [discriminate|vm_compute; congruence|].
  exists picks, w. split; [exact H|exact Hl].
Defined.

(** ** Least connections: the counters *)

(** The selections handed out and not forgotten: the index each counts for, and whether
    its [Done] has run ([sync.Once]). *)
Record lc_system := mkLCSystem { lcs_lc : LeastConn; lcs_handles : list (Done * bool) }.

Inductive lc_op :=
  | LCSelect (options : SelectionOptions)
  | LCDone (handle : nat).

(** [Done] of a handle: [once.Do] runs its body the first time. *)
Definition lc_step (s : lc_system) (op : lc_op) : lc_system :=
  match op with
  | LCSelect options =>
      match LeastConn_Select options (lcs_lc s) with
      | Some (sel, lc) => mkLCSystem lc (lcs_handles s ++ [(sel_Done sel, false)])
      | None => s
      end
  | LCDone handle =>
      match lcs_handles s !! handle with
      | Some (done, false) =>
          mkLCSystem (LeastConn_Done done (lcs_lc s)) (<[handle := (done, true)]> (lcs_handles s))
      | _ => s
      end
  end.

(** The handles that count for the target at [i]. *)
Definition counts_for (i : nat) (h : Done * bool) : Z :=
  match h with
  | (releaseDone j, false) => if decide (i = j) then 1 else 0
  | _ => 0
  end.

Definition outstanding (i : nat) (handles : list (Done * bool)) : Z := sum_Z (counts_for i) handles.

Lemma outstanding_nonneg i handles : 0 <= outstanding i handles.
Proof.
  apply sum_Z_nonneg. intros [[|j] []] _; cbn; try done. by destruct (decide (i = j)).
Qed.

Lemma outstanding_insert i handles k h h' :
  handles !! k = Some h ->
  outstanding i (<[k := h']> handles) = outstanding i handles - counts_for i h + counts_for i h'.
Proof.
  unfold outstanding. revert k. induction handles as [|x l IH]; intros [|k]; csimpl; [done..|intros [= ->]; lia|].
  intros H. rewrite (IH _ H). lia.
Qed.

Definition lc_counted (s : lc_system) : Prop :=
  forall i t, lcs_lc s !! i = Some t -> lt_active t = outstanding i (lcs_handles s).

Lemma alter_active_counted (lc : LeastConn) d i k t (f g : nat -> Z) :
  (forall i t, lc !! i = Some t -> lt_active t = f i) ->
  (forall i, g i = f i + (if decide (i = k) then d else 0)) ->
  alter (add_active d) k lc !! i = Some t -> lt_active t = g i.
Proof.
  intros Hf Hg. rewrite Hg. destruct (decide (i = k)) as [->|Hne].
  - rewrite list_lookup_alter_eq. destruct (lc !! k) as [u|] eqn:Hu; [|done].
    intros [= <-]. cbn. by rewrite (Hf _ _ Hu).
  - rewrite list_lookup_alter_ne by done. intros Hu. rewrite (Hf _ _ Hu). lia.
Qed.

Lemma lc_step_counted s op : lc_counted s -> lc_counted (lc_step s op).
Proof.
  intros Hc. destruct op as [options|h]; cbn.
  - destruct (LeastConn_Select options (lcs_lc s)) as [[sel lc]|] eqn:Hsel; [|done].
    apply LeastConn_Select_spec in Hsel as (j & u & _ & -> & _ & _ & -> & _).
    intros i t. cbn. apply (alter_active_counted _ 1 _ j _ (fun i => outstanding i (lcs_handles s))
      (fun i => outstanding i (lcs_handles s ++ [(releaseDone j, false)])) Hc).
    intros i'. unfold outstanding. rewrite sum_Z_app. cbn. lia.
  - destruct (lcs_handles s !! h) as [[dn []]|] eqn:Hh; [done| |done].
    intros i t. destruct dn as [|j]; cbn [lcs_lc lcs_handles LeastConn_Done].
    + intros Ht. rewrite (outstanding_insert _ _ _ _ _ Hh). cbn. rewrite (Hc _ _ Ht). lia.
    + apply (alter_active_counted _ (-1) _ j _ (fun i => outstanding i (lcs_handles s))
        (fun i => outstanding i (<[h := (releaseDone j, true)]> (lcs_handles s))) Hc).
      intros i'. rewrite (outstanding_insert _ _ _ _ _ Hh). cbn. destruct (decide (i' = j)); lia.
Qed.

(** In every history of selections and releases (each release any number of times) a
    least-connections counter is the number of its selections not yet released, so it is
    never negative; and a selection picks, among the targets not excluded, one with the
    fewest outstanding selections, failing only when all are excluded. *)
Lemma least_conn_picks_least_loaded targets ops options :
  let s := foldl lc_step (mkLCSystem (NewLeastConn targets) []) ops in
  (forall i t, lcs_lc s !! i = Some t ->
     lt_active t = outstanding i (lcs_handles s) /\ 0 <= lt_active t) /\
  match LeastConn_Select options (lcs_lc s) with
  | Some (sel, lc) => exists i t,
      lcs_lc s !! i = Some t /\ lt_target t = sel_Target sel /\ sel_Done sel = releaseDone i /\
      isExcluded options (sel_Target sel) = false /\
      (forall k u, lcs_lc s !! k = Some u -> isExcluded options (lt_target u) = false ->
         outstanding i (lcs_handles s) <= outstanding k (lcs_handles s))
  | None => Forall (fun t => isExcluded options t = true) (lt_target <$> lcs_lc s)
  end.
Proof.
  intros s.
  assert (lc_counted s) as Hc.
  { unfold s. apply (foldl_preserves lc_counted); [intros; by apply lc_step_counted|].
    intros i t. cbn. unfold NewLeastConn. rewrite list_lookup_fmap.
    destruct (targets !! i); [|done]. by intros [= <-]. }
  split.
  { intros i t Ht. rewrite (Hc _ _ Ht). split; [done|apply outstanding_nonneg]. }
  destruct (LeastConn_Select options (lcs_lc s)) as [[sel lc]|] eqn:Hsel.
  - apply LeastConn_Select_spec in Hsel as (i & t & Ht & Hd & Hi & He & _ & Hmin).
    exists i, t. split_and!; try done; [by rewrite Ht|]. intros k u Hk Hu.
    rewrite <- (Hc _ _ Hi), <- (Hc _ _ Hk). eauto.
  - by apply LeastConn_total.
Qed.
