(* ===== verification/Retry.v ===== *)
(** * The retry transport: [internal/transport/retry.go] and [attempt.go]

    [RetryTransport.RoundTrip] drives the transport below it: it fails over past targets
    whose circuit is open, retries transient failures after a backoff, and replays the
    buffered body.  The transport below, the clock, the random source and the request's
    context are its environment, a class with the state they share.  Log events and trace
    spans are not modelled. *)

From stdpp Require Import sorting.
From S2P Require Import Prelude GoStrings GoErrors Config Http LoadBalancer.
From stdpp Require Import options.
#[local] Set Default Proof Using "Type*".

(** ** Attempt metadata *)

Definition HeaderServedBy : string := "X-Served-By".
Definition HeaderRetryCount : string := "X-Retry-Count".
Definition HeaderRetryTarget : string := "X-Retry-Target".

Definition empty_metadata : attemptMetadata := mkMetadata 0 "" [].

Definition withAttemptMetadata (req : Request) (metadata : attemptMetadata) : Request :=
  with_attempt metadata req.

Definition getAttemptMetadata (req : Request) : attemptMetadata :=
  match rq_attempt req with Some metadata => metadata | None => empty_metadata end.

Definition withRetryCount (retryCount : Z) (m : attemptMetadata) : attemptMetadata :=
  mkMetadata retryCount (md_target m) (md_triedTargets m).

Definition withTarget (target : string) (m : attemptMetadata) : attemptMetadata :=
  mkMetadata (md_retryCount m) target (md_triedTargets m).

(** [sort.Strings] *)
Definition string_le (s t : string) : Prop := String.leb s t = true.
#[export] Instance string_le_dec : RelDecision string_le.
Proof. intros s t. unfold string_le. apply _. Defined.
Definition sortStrings (l : list string) : list string := merge_sort string_le l.

(** Go ranges over [targets] in an unspecified order; the sort makes it irrelevant. *)
Definition withTriedTargets (targets : gset string) (m : attemptMetadata) : attemptMetadata :=
  mkMetadata (md_retryCount m) (md_target m) (sortStrings (elements targets)).

Definition excludedTargets (m : attemptMetadata) : gset string :=
  list_to_set (md_triedTargets m).

Definition applyAttemptHeaders (m : attemptMetadata) (headers : Header) : Header :=
  let headers := Header_Set HeaderRetryCount (Itoa (md_retryCount m)) headers in
  if bool_decide (md_target m = "") then headers
  else Header_Set HeaderRetryTarget (md_target m) headers.

Definition metadataFromError (err : option error) : option attemptMetadata :=
  match As as_attempt_error err with
  | Some (retryCount, target) => Some (mkMetadata retryCount target [])
  | None => None
  end.

Definition ApplyErrorHeaders (err : option error) (headers : Header) : Header :=
  match metadataFromError err with
  | Some metadata => applyAttemptHeaders metadata headers
  | None => headers
  end.

(** ** Classification of outcomes *)

Definition isConnectionFailure (err : option error) : bool :=
  if IsErrno err ECONNREFUSED then true
  else if IsErrno err ECONNRESET then true
  else if IsErrno err EPIPE then true
  else if IsErrno err ETIMEDOUT then true
  else if IsErrno err EHOSTUNREACH then true
  else if IsErrno err ENETUNREACH then true
  else false.

(** The body of [isTransientError], whose recursive call is [rec]. *)
Definition isTransientError_body (rec : option error -> bool) (err : option error) : bool :=
  match err with
  | None => false
  | Some _ =>
      if Is err ErrCircuitOpen then false
      else if Is err ErrNoHealthyTargets then false
      else if Is err Canceled then false
      else if Is err DeadlineExceeded then true
      else match As as_url_error err with
      | Some inner => rec inner
      | None =>
      match As as_dns_error err with
      | Some (timeout, temporary) => timeout || temporary
      | None =>
      if match As as_op_error err with Some inner => isConnectionFailure inner | None => false end
      then true
      else match As as_net_error err with
      | Some (timeout, temporary) => timeout || temporary
      | None => isConnectionFailure err
      end end end
  end.

(** A [url.Error] holds a shorter chain, so the chain's length is fuel enough
    ([isTransientError_eq]). *)
Fixpoint isTransientError_fuel (fuel : nat) (err : option error) : bool :=
  match fuel with
  | O => false
  | S fuel => isTransientError_body (isTransientError_fuel fuel) err
  end.

Definition isTransientError (err : option error) : bool :=
  isTransientError_fuel (S (length (chain_of err))) err.

Definition isRetryableMethod (method : string) : bool :=
  bool_decide (method ∈ ["GET"; "HEAD"; "PUT"; "DELETE"; "OPTIONS"]%string).

Definition isRetryableStatus (statusCode : Z) : bool :=
  (statusCode =? StatusBadGateway) || (statusCode =? StatusServiceUnavailable)
  || (statusCode =? StatusGatewayTimeout).

(** [err == nil && resp != nil && resp.StatusCode >= 500], and the reasons after it. *)
Definition retryReason (result : RoundTripResult) : string :=
  let '(resp, err) := result in
  match err with
  | None =>
      match resp with
      | Some resp => if StatusInternalServerError <=? rs_StatusCode resp then "upstream_5xx" else ""
      | None => ""
      end
  | Some _ =>
      if Is err DeadlineExceeded then "timeout"
      else if match As as_net_error err with Some (timeout, _) => timeout | None => false end
      then "timeout"
      else if isConnectionFailure err then "connection_failure"
      else ""
  end.

(** ** Policy *)

Definition defaultRetryBaseDelay : Duration := 100 * Millisecond.
Definition defaultRetryMaxDelay : Duration := 2 * Second.
Definition maxRetryReplayBodyBytes : Z := 2 ^ 20.
Definition fullJitterStrategy : string := "full".

Record retryPolicy := mkPolicy {
  rp_maxAttempts : Z;
  rp_baseDelay : Duration;
  rp_maxDelay : Duration;
  rp_jitter : string;
}.

Definition normalizeRetryPolicy (cfg : RetryConfig) (methodRetryable : bool) : retryPolicy :=
  let maxAttempts := if rt_MaxAttempts cfg <=? 0 then 1 else rt_MaxAttempts cfg in
  let maxAttempts := if methodRetryable then maxAttempts else 1 in
  let baseDelay := if rt_BaseDelay cfg <=? 0 then defaultRetryBaseDelay else rt_BaseDelay cfg in
  let maxDelay := if rt_MaxDelay cfg <=? 0 then defaultRetryMaxDelay else rt_MaxDelay cfg in
  let maxDelay := if maxDelay <? baseDelay then baseDelay else maxDelay in
  let jitter := if bool_decide (rt_Jitter cfg = "") then fullJitterStrategy else rt_Jitter cfg in
  mkPolicy maxAttempts baseDelay maxDelay jitter.

Definition shouldRetry (policy : retryPolicy) (logicalAttempt : Z) (result : RoundTripResult) : bool :=
  let '(resp, err) := result in
  if rp_maxAttempts policy <=? logicalAttempt + 1 then false
  else match err with
       | Some _ => isTransientError err
       | None => match resp with Some resp => isRetryableStatus (rs_StatusCode resp) | None => false end
       end.

(** The loop of [nextDelay] over [range logicalAttempt]. *)
Fixpoint doubleDelay (n : nat) (maxDelay delay : Duration) : Duration :=
  match n with
  | O => delay
  | S n =>
      if maxDelay <=? delay then maxDelay
      else if Z.quot maxDelay 2 <? delay then maxDelay
      else doubleDelay n maxDelay (wrap64 (delay * 2))
  end.

(** [nextDelay] before the jitter. *)
Definition backoffDelay (policy : retryPolicy) (logicalAttempt : Z) : Duration :=
  let delay := doubleDelay (Z.to_nat logicalAttempt) (rp_maxDelay policy) (rp_baseDelay policy) in
  if rp_maxDelay policy <? delay then rp_maxDelay policy else delay.

Definition uniqueTargetCount (targets : list Target) : Z :=
  Z.of_nat (size (list_to_set (targetAddress <$> targets) : gset string)).

(** ** The request body *)

(** [io.ReadAll(io.LimitReader(body, limit))]: the bytes and the error. *)
Definition readAllLimited (limit : Z) (body : RequestBody) : string * option error :=
  match body with
  | BodyNil | BodyNoBody => (""%string, None)
  | BodyReader content readErr _ =>
      if Z.of_nat (String.length content) <? limit then (content, readErr)
      else (String.substring 0 (Z.to_nat limit) content, None)
  end.

Definition closeBody (body : RequestBody) : option error :=
  match body with BodyReader _ _ closeErr => closeErr | _ => None end.

(** [if closeErr := body.Close(); err == nil && closeErr != nil { err = closeErr }] *)
Definition orClose (err : option error) (body : RequestBody) : option error :=
  match err with None => closeBody body | Some _ => err end.

Definition replayLimitError : error := Plain "request body exceeds retry replay limit".

(** The body, whether it is buffered, or the error. *)
Definition captureRequestBody (req : Request) (shouldBuffer : bool) : sum error (string * bool) :=
  let finish '(body, err) :=
    match err with
    | Some err => inl err
    | None =>
        if maxRetryReplayBodyBytes <? Z.of_nat (String.length body) then inl replayLimitError
        else inr (body, true)
    end in
  if negb shouldBuffer then inr (""%string, false)
  else match rq_Body req with
  | BodyNil | BodyNoBody => inr (""%string, false)
  | BodyReader _ _ _ =>
      match rq_GetBody req with
      | Some (inl readErr) => inl readErr
      | Some (inr reader) =>
          let '(body, err) := readAllLimited (maxRetryReplayBodyBytes + 1) reader in
          finish (body, orClose (orClose err reader) (rq_Body req))
      | None =>
          let '(body, err) := readAllLimited (maxRetryReplayBodyBytes + 1) (rq_Body req) in
          finish (body, orClose err (rq_Body req))
      end
  end.

Definition replayBody (body : string) : RequestBody :=
  if bool_decide (body = ""%string) then BodyNoBody else BodyReader body None None.

Definition cloneAttemptRequest (req : Request) (body : string) (hasBufferedBody : bool)
    (retryCount : Z) (triedTargets : gset string) : Request :=
  let attemptReq :=
    if hasBufferedBody
    then with_body (replayBody body) (Some (inr (replayBody body))) (Z.of_nat (String.length body)) req
    else req in
  withAttemptMetadata attemptReq
    (withTriedTargets triedTargets (withTarget "" (withRetryCount retryCount (getAttemptMetadata attemptReq)))).

Definition resolveAttemptMetadata (result : RoundTripResult) (retryCount : Z) : attemptMetadata :=
  let '(resp, err) := result in
  let adjust m := if (md_retryCount m =? 0) && (0 <? retryCount) then withRetryCount retryCount m else m in
  match resp ≫= rs_Request with
  | Some req => adjust (getAttemptMetadata req)
  | None =>
      match metadataFromError err with
      | Some m => adjust m
      | None => mkMetadata retryCount "" []
      end
  end.

(** ** Sleeping *)

(** [sleepWithContext]: [done] is when the context is done, counted from now, and its error;
    [timerFirst] is which case [select] takes when both are ready. *)
Definition sleepWithContext (done : option (Duration * error)) (timerFirst : bool) (delay : Duration) : option error :=
  match done with
  | None => None
  | Some (after, err) =>
      if delay <=? 0 then if after <=? 0 then Some err else None
      else if after <? delay then Some err
      else if delay <? after then None
      else if timerFirst then None else Some err
  end.

(** It sleeps the whole delay or returns the context's error, no later than that is there. *)
Lemma sleepWithContext_spec done timerFirst delay :
  match sleepWithContext done timerFirst delay with
  | None => forall after err, done = Some (after, err) -> 0 < after \/ 0 < delay -> Z.max 0 delay <= after
  | Some err => exists after, done = Some (after, err) /\ after <= Z.max 0 delay
  end.
Proof.
  unfold sleepWithContext. destruct done as [[after err]|]; [|done].
  destruct (Z.leb_spec delay 0); [destruct (Z.leb_spec after 0)|destruct (Z.ltb_spec after delay); [|destruct (Z.ltb_spec delay after); [|destruct timerFirst]]].
  all: first [exists after; split; [done|lia] | intros ? ? [= <- <-]; lia].
Qed.

(** ** The environment of the loop *)

(** The transport below, [req.Context().Err()], the sleep, [rand.Int63n], the close of a
    response body, and the two metrics of the loop. *)
Class RetryEnv (W : Type) := {
  env_RoundTrip : Request -> W -> RoundTripResult * W;
  env_ctxErr : W -> option error * W;
  env_sleep : Duration -> W -> option error * W;
  env_Int63n : Z -> W -> Z * W;
  env_closeBody : ResponseBody -> W -> W;
  env_IncRetry : string -> W -> W;
  env_ObserveRetryDelay : string -> Duration -> W -> W;
}.

(** What the loop did, for the theorems: the attempts it made and their outcomes, and the
    delays it slept. *)
Inductive RetryEvent :=
  | EvAttempt (req : Request) (result : RoundTripResult)
  | EvSleep (delay : Duration).

Section RetryTransport.
Context {W : Type} `{RetryEnv W}.

(** [None] is the panic of [Int63n] on an argument that is not positive. *)
Definition nextDelay (policy : retryPolicy) (logicalAttempt : Z) (w : W) : option (Duration * W) :=
  let delay := backoffDelay policy logicalAttempt in
  if delay <=? 0 then Some (0, w)
  else if negb (bool_decide (rp_jitter policy = fullJitterStrategy)) then Some (delay, w)
  else
    let n := wrap64 (delay + 1) in
    if n <=? 0 then None else Some (env_Int63n n w).

Record retryState := mkRetryState {
  st_tried : gset string;
  st_logical : Z;
  st_world : W;
  st_trace : list RetryEvent;
}.

Inductive Outcome :=
  | Continue (s : retryState)
  | Return (result : RoundTripResult) (s : retryState)
  | Panic (s : retryState).

(** The variables of the call the loop does not change. *)
Record retryCall := mkRetryCall {
  ca_req : Request;
  ca_policy : retryPolicy;
  ca_service : string;
  ca_body : string;
  ca_hasBody : bool;
  ca_total : Z;
}.

Definition attemptError (err : error) (retryCount : Z) (target : string) : RoundTripResult :=
  (None, Some (AttemptError (Some err) retryCount target)).

(** [triedTargets[metadata.target] = struct{}{}], when there is a target. *)
Definition addTried (target : string) (tried : gset string) : gset string :=
  if bool_decide (target = "") then tried else {[ target ]} ∪ tried.

(** The block of [errors.Is(roundTripErr, ErrCircuitOpen)]. *)
Definition failOver (c : retryCall) (metadata : attemptMetadata) (s : retryState) : Outcome :=
  let tried := addTried (md_target metadata) (st_tried s) in
  let s := mkRetryState tried (st_logical s) (st_world s) (st_trace s) in
  if (ca_total c =? 0) || (ca_total c <=? Z.of_nat (size tried))
  then Return (attemptError (ESentinel ErrNoHealthyTargets) (st_logical s) (md_target metadata)) s
  else
    let '(ctxErr, w) := env_ctxErr (st_world s) in
    let s := mkRetryState tried (st_logical s) w (st_trace s) in
    match ctxErr with
    | Some err => Return (attemptError err (st_logical s) (md_target metadata)) s
    | None => Continue s
    end.

(** What follows a [shouldRetry] that holds. *)
Definition backOff (c : retryCall) (metadata : attemptMetadata) (resp : option Response)
    (s : retryState) : Outcome :=
  let tried := addTried (md_target metadata) (st_tried s) in
  let tried := if ca_total c <=? Z.of_nat (size tried) then ∅ else tried in
  let w := match resp with Some resp => env_closeBody (rs_Body resp) (st_world s) | None => st_world s end in
  match nextDelay (ca_policy c) (st_logical s) w with
  | None => Panic (mkRetryState tried (st_logical s) w (st_trace s))
  | Some (delay, w) =>
      let '(sleepErr, w) := env_sleep delay w in
      let s := mkRetryState tried (st_logical s) w (st_trace s ++ [EvSleep delay]) in
      match sleepErr with
      | Some err => Return (attemptError err (st_logical s) (md_target metadata)) s
      | None =>
          Continue (mkRetryState tried (st_logical s + 1)
            (env_ObserveRetryDelay (ca_service c) delay (st_world s)) (st_trace s))
      end
  end.

(** One iteration of the loop. *)
Definition retryIteration (c : retryCall) (s : retryState) : Outcome :=
  let '(ctxErr, w) := env_ctxErr (st_world s) in
  let s := mkRetryState (st_tried s) (st_logical s) w (st_trace s) in
  match ctxErr with
  | Some err => Return (attemptError err (st_logical s) "") s
  | None =>
      let attemptReq := cloneAttemptRequest (ca_req c) (ca_body c) (ca_hasBody c) (st_logical s) (st_tried s) in
      let w := if 0 <? st_logical s then env_IncRetry (ca_service c) (st_world s) else st_world s in
      let '(result, w) := env_RoundTrip attemptReq w in
      let s := mkRetryState (st_tried s) (st_logical s) w (st_trace s ++ [EvAttempt attemptReq result]) in
      let metadata := resolveAttemptMetadata result (st_logical s) in
      if Is (snd result) ErrCircuitOpen then failOver c metadata s
      else if negb (shouldRetry (ca_policy c) (st_logical s) result) then Return result s
      else backOff c metadata (fst result) s
  end.

(** [fuel] bounds the iterations; [retry_terminates] gives a number that is enough. *)
Fixpoint retryLoop (fuel : nat) (c : retryCall) (s : retryState) : Outcome :=
  match fuel with
  | O => Continue s
  | S fuel =>
      match retryIteration c s with
      | Continue s => retryLoop fuel c s
      | outcome => outcome
      end
  end.

Definition routeMissingError : error := Plain "route config missing from request context".

Definition initialState (w : W) : retryState := mkRetryState ∅ 0 w [].

(** The call's variables, for a request with a route whose body is captured. *)
Definition newRetryCall (req : Request) (route : RouteConfig) (body : string) (hasBody : bool) : retryCall :=
  mkRetryCall req (normalizeRetryPolicy (rc_Retry route) (isRetryableMethod (rq_Method req)))
    (rc_Service route) body hasBody (uniqueTargetCount (rc_Targets route)).

(** [RetryTransport.RoundTrip] *)
Definition RetryTransport_RoundTrip (fuel : nat) (req : Request) (w : W) : Outcome :=
  match GetRouteConfig req with
  | None => Return (None, Some routeMissingError) (initialState w)
  | Some route =>
      let policy := normalizeRetryPolicy (rc_Retry route) (isRetryableMethod (rq_Method req)) in
      match captureRequestBody req (1 <? rp_maxAttempts policy) with
      | inl err => Return (None, Some (Wrapped "capture request body" err)) (initialState w)
      | inr (body, hasBody) => retryLoop fuel (newRetryCall req route body hasBody) (initialState w)
      end
  end.

End RetryTransport.

(** ** Classification: lemmas *)

Lemma isTransientError_fuel_enough fuel err :
  (length (chain_of err) < fuel)%nat ->
  forall fuel', (length (chain_of err) < fuel')%nat ->
  isTransientError_fuel fuel err = isTransientError_fuel fuel' err.
Proof.
  revert err. induction fuel as [|fuel IH]; intros err Hf fuel' Hf'; [lia|].
  destruct fuel' as [|fuel']; [lia|]. simpl. unfold isTransientError_body.
  destruct err as [e|]; [|done].
  destruct (As as_url_error (Some e)) as [inner|] eqn:Hu; [|done].
  apply chain_url_shorter in Hu. simpl in Hf, Hf'. by rewrite (IH inner ltac:(lia) fuel' ltac:(lia)).
Qed.

(** The fuel is enough: the function satisfies the equation of its source. *)
Lemma isTransientError_eq err : isTransientError err = isTransientError_body isTransientError err.
Proof.
  unfold isTransientError at 1. cbn [isTransientError_fuel]. unfold isTransientError_body.
  destruct err as [e|]; [|done].
  destruct (As as_url_error (Some e)) as [inner|] eqn:Hu; [|done].
  pose proof (chain_url_shorter _ _ Hu).
  assert (isTransientError_fuel (length (chain_of (Some e))) inner = isTransientError inner) as Heq
    by (apply isTransientError_fuel_enough; simpl; lia).
  by rewrite Heq.
Qed.

(** Every [syscall.Errno] implements [net.Error]. *)
Lemma errno_net_error err n : IsErrno err n = true -> exists b, As as_net_error err = Some b.
Proof.
  intros Hn%IsErrno_in. destruct (As as_net_error err) as [b|] eqn:Has; [by exists b|].
  rewrite As_None in Has. by specialize (Has _ Hn).
Qed.

Lemma connection_failure_errno err :
  isConnectionFailure err = true -> exists n, IsErrno err n = true.
Proof.
  unfold isConnectionFailure.
  repeat match goal with |- context [if IsErrno err ?n then _ else _] =>
    destruct (IsErrno err n) eqn:?; [by eauto|] end. done.
Qed.

(** ** Policy: lemmas *)

Record good_policy (p : retryPolicy) : Prop := {
  gp_attempts : 1 <= rp_maxAttempts p;
  gp_base : 0 < rp_baseDelay p;
  gp_max : rp_baseDelay p <= rp_maxDelay p;
  gp_int64 : rp_maxDelay p <= int64_max;
}.

Definition int64_retry (cfg : RetryConfig) : Prop :=
  in_int64 (rt_BaseDelay cfg) /\ in_int64 (rt_MaxDelay cfg).

Lemma normalizeRetryPolicy_good cfg m : int64_retry cfg -> good_policy (normalizeRetryPolicy cfg m).
Proof.
  unfold int64_retry, in_int64, int64_min. intros [[_ Hb] [_ Hm]].
  assert (defaultRetryBaseDelay = 100000000) as Ed by done.
  assert (defaultRetryMaxDelay = 2000000000) as Em by done.
  assert (2000000000 <= int64_max) by done.
  split; unfold normalizeRetryPolicy; cbn [rp_maxAttempts rp_baseDelay rp_maxDelay];
    repeat match goal with |- context [?x <=? ?y] => destruct (Z.leb_spec x y)
           | |- context [?x <? ?y] => destruct (Z.ltb_spec x y) end; destruct m; lia.
Qed.

Lemma doubleDelay_spec n maxDelay delay :
  0 < delay <= maxDelay -> maxDelay <= int64_max ->
  doubleDelay n maxDelay delay = Z.min (delay * 2 ^ Z.of_nat n) maxDelay.
Proof.
  revert delay. induction n as [|n IH]; intros delay Hd Hm; cbn [doubleDelay].
  { rewrite Z.mul_1_r. lia. }
  assert (1 <= 2 ^ Z.of_nat n) by (pose proof (Z.pow_pos_nonneg 2 (Z.of_nat n)); lia).
  rewrite Nat2Z.inj_succ, Z.pow_succ_r by lia.
  destruct (Z.leb_spec maxDelay delay); [nia|].
  rewrite Z.quot_div_nonneg by lia.
  pose proof (Z.div_mod maxDelay 2). pose proof (Z.mod_pos_bound maxDelay 2).
  destruct (Z.ltb_spec (maxDelay / 2) delay); [nia|].
  rewrite wrap64_id by (unfold in_int64, int64_min, int64_max in *; lia).
  rewrite IH by lia. f_equal. lia.
Qed.

Lemma backoffDelay_spec p n :
  good_policy p -> 0 <= n ->
  backoffDelay p n = Z.min (rp_baseDelay p * 2 ^ n) (rp_maxDelay p).
Proof.
  intros [_ Hb Hm H64] Hn. unfold backoffDelay. rewrite doubleDelay_spec by lia.
  rewrite Z2Nat.id by done. destruct (Z.ltb_spec (rp_maxDelay p) (Z.min (rp_baseDelay p * 2 ^ n) (rp_maxDelay p))); lia.
Qed.

Lemma backoffDelay_bounds p n : good_policy p -> 0 <= n -> 0 < backoffDelay p n <= rp_maxDelay p.
Proof.
  intros Hp Hn. rewrite backoffDelay_spec by done. destruct Hp as [_ Hb Hm _].
  pose proof (Z.pow_pos_nonneg 2 n). nia.
Qed.

(** ** The loop: one iteration by cases *)

Section LoopLemmas.
Context {W : Type} `{RetryEnv W}.
Implicit Types s : retryState (W := W).
Implicit Types c : retryCall.

Definition attemptRequest c s : Request :=
  cloneAttemptRequest (ca_req c) (ca_body c) (ca_hasBody c) (st_logical s) (st_tried s).

(** The attempt of an iteration: its result, and the trace with it. *)
Definition attempted c s (result : RoundTripResult) (trace : list RetryEvent) : Prop :=
  trace = st_trace s ++ [EvAttempt (attemptRequest c s) result] /\
  exists w1 w2, env_RoundTrip (attemptRequest c s) w1 = (result, w2).

Definition resultTarget (result : RoundTripResult) (n : Z) : string :=
  md_target (resolveAttemptMetadata result n).

(** [triedTargets] after a retryable outcome. *)
Definition nextRound c (target : string) (tried : gset string) : gset string :=
  let tried := addTried target tried in if ca_total c <=? Z.of_nat (size tried) then ∅ else tried.

Inductive iteration c s : Outcome -> Prop :=
  | iter_cancelled err w w' :
      env_ctxErr w = (Some err, w') ->
      iteration c s (Return (attemptError err (st_logical s) "")
                       (mkRetryState (st_tried s) (st_logical s) w' (st_trace s)))
  | iter_exhausted result trace tried w :
      attempted c s result trace -> Is (snd result) ErrCircuitOpen = true ->
      tried = addTried (resultTarget result (st_logical s)) (st_tried s) ->
      ca_total c = 0 \/ ca_total c <= Z.of_nat (size tried) ->
      iteration c s (Return (attemptError (ESentinel ErrNoHealthyTargets) (st_logical s)
                               (resultTarget result (st_logical s)))
                       (mkRetryState tried (st_logical s) w trace))
  | iter_failover_cancelled result trace err tried target w w' :
      attempted c s result trace -> env_ctxErr w = (Some err, w') ->
      iteration c s (Return (attemptError err (st_logical s) target)
                       (mkRetryState tried (st_logical s) w' trace))
  | iter_failover result trace tried w :
      attempted c s result trace -> Is (snd result) ErrCircuitOpen = true ->
      tried = addTried (resultTarget result (st_logical s)) (st_tried s) ->
      ca_total c <> 0 -> Z.of_nat (size tried) < ca_total c ->
      iteration c s (Continue (mkRetryState tried (st_logical s) w trace))
  | iter_return result trace w :
      attempted c s result trace -> Is (snd result) ErrCircuitOpen = false ->
      shouldRetry (ca_policy c) (st_logical s) result = false ->
      iteration c s (Return result (mkRetryState (st_tried s) (st_logical s) w trace))
  | iter_panic result trace tried w w' :
      attempted c s result trace -> nextDelay (ca_policy c) (st_logical s) w = None ->
      iteration c s (Panic (mkRetryState tried (st_logical s) w' trace))
  | iter_sleep_cancelled result trace delay err tried target w1 w2 w3 w4 :
      attempted c s result trace -> Is (snd result) ErrCircuitOpen = false ->
      shouldRetry (ca_policy c) (st_logical s) result = true ->
      nextDelay (ca_policy c) (st_logical s) w1 = Some (delay, w2) ->
      env_sleep delay w3 = (Some err, w4) ->
      iteration c s (Return (attemptError err (st_logical s) target)
                       (mkRetryState tried (st_logical s) w4 (trace ++ [EvSleep delay])))
  | iter_retry result trace delay w1 w2 w :
      attempted c s result trace -> Is (snd result) ErrCircuitOpen = false ->
      shouldRetry (ca_policy c) (st_logical s) result = true ->
      nextDelay (ca_policy c) (st_logical s) w1 = Some (delay, w2) ->
      iteration c s (Continue (mkRetryState
        (nextRound c (resultTarget result (st_logical s)) (st_tried s))
        (st_logical s + 1) w (trace ++ [EvSleep delay]))).

Lemma retryIteration_spec c s : iteration c s (retryIteration c s).
Proof.
  unfold retryIteration. destruct (env_ctxErr (st_world s)) as [[err|] w0] eqn:Hctx.
  { simpl. by eapply iter_cancelled. }
  cbn [st_tried st_logical st_world st_trace]. fold (attemptRequest c s).
  destruct (env_RoundTrip (attemptRequest c s) _) as [result w2] eqn:Hrt.
  assert (attempted c s result (st_trace s ++ [EvAttempt (attemptRequest c s) result])) as Hatt
    by (split; [done|by eauto]).
  destruct (Is (snd result) ErrCircuitOpen) eqn:Hcirc.
  - unfold failOver. cbn [st_tried st_logical st_world st_trace]. fold (resultTarget result (st_logical s)).
    destruct (Z.eqb_spec (ca_total c) 0) as [Ht|Ht]; [eapply iter_exhausted; eauto|].
    destruct (Z.leb_spec (ca_total c) (Z.of_nat (size (addTried (resultTarget result (st_logical s)) (st_tried s)))));
      [eapply iter_exhausted; eauto|].
    cbn [orb]. destruct (env_ctxErr w2) as [[err|] w3] eqn:Hctx2; cbn [st_tried st_logical st_world st_trace].
    + by eapply iter_failover_cancelled.
    + by eapply iter_failover.
  - destruct (shouldRetry (ca_policy c) (st_logical s) result) eqn:Hsr; cbn [negb].
    2: { by eapply iter_return. }
    unfold backOff. cbn [st_tried st_logical st_world st_trace]. fold (resultTarget result (st_logical s)).
    destruct (nextDelay _ _ _) as [[delay w4]|] eqn:Hnd; [|by eapply iter_panic].
    destruct (env_sleep delay w4) as [[err|] w5] eqn:Hsl; cbn [st_tried st_logical st_world st_trace].
    + by eapply iter_sleep_cancelled.
    + fold (nextRound c (resultTarget result (st_logical s)) (st_tried s)). by eapply iter_retry.
Qed.

(** Rule induction over the loop: [P] holds of the states the loop continues with, [Q] of
    what it ends with (or of where the fuel stopped it). *)
Lemma retryLoop_ind c (P : retryState -> Prop) (Q : Outcome -> Prop) :
  (forall s, P s -> Q (Continue s)) ->
  (forall s o, P s -> iteration c s o -> match o with Continue s' => P s' | _ => Q o end) ->
  forall fuel s, P s -> Q (retryLoop fuel c s).
Proof.
  intros Hstop Hstep fuel. induction fuel as [|fuel IH]; intros s Hs; cbn [retryLoop]; [by apply Hstop|].
  pose proof (Hstep s _ Hs (retryIteration_spec c s)) as Ho.
  destruct (retryIteration c s); [by apply IH|done|done].
Qed.

End LoopLemmas.

(** ** What the loop relies on *)

(** [rand.Int63n(n)] is in [[0, n)]. *)
Class RandLaws (W : Type) `{RetryEnv W} : Prop := {
  Int63n_range n w : 0 < n -> 0 <= fst (env_Int63n n w) < n;
}.

(** The promise the loop needs from the transport below it: an attempt rejected by an open
    circuit names its target, and that target was not among the excluded ones. *)
Class FailoverLaws (W : Type) `{RetryEnv W} : Prop := {
  failover_progress req w result w' n :
    env_RoundTrip req w = (result, w') -> Is (snd result) ErrCircuitOpen = true ->
    resultTarget result n <> "" /\
    resultTarget result n ∉ excludedTargets (getAttemptMetadata req);
}.

Lemma excludedTargets_tried tried m : excludedTargets (withTriedTargets tried m) = tried.
Proof.
  unfold excludedTargets, withTriedTargets, sortStrings. cbn [md_triedTargets].
  apply leibniz_equiv. rewrite (merge_sort_Permutation string_le). apply list_to_set_elements.
Qed.

Section LoopTheory.
Context {W : Type} `{RetryEnv W}.
Implicit Types s : retryState (W := W).
Implicit Types c : retryCall.

Lemma attemptRequest_excluded c s :
  excludedTargets (getAttemptMetadata (attemptRequest c s)) = st_tried s.
Proof. apply excludedTargets_tried. Qed.

Lemma nextRound_size c t tried :
  0 <= ca_total c -> Z.of_nat (size (nextRound c t tried)) < ca_total c \/ nextRound c t tried = ∅.
Proof.
  intros Hc. unfold nextRound.
  destruct (Z.leb_spec (ca_total c) (Z.of_nat (size (addTried t tried)))); [by right|by left].
Qed.

Lemma addTried_size t tried :
  t <> "" -> t ∉ tried -> size (addTried t tried) = S (size tried).
Proof.
  intros Hne Hni. unfold addTried. rewrite bool_decide_eq_false_2 by done.
  rewrite size_union, size_singleton by set_solver. done.
Qed.

(** The attempts that were not rejected by an open circuit. *)
Definition is_forwarded (e : RetryEvent) : bool :=
  match e with EvAttempt _ result => negb (Is (snd result) ErrCircuitOpen) | EvSleep _ => false end.
Definition is_sleep (e : RetryEvent) : bool :=
  match e with EvSleep _ => true | _ => false end.
Definition count_events (p : RetryEvent -> bool) (trace : list RetryEvent) : Z :=
  Z.of_nat (length (List.filter p trace)).

Lemma count_events_app p t1 t2 : count_events p (t1 ++ t2) = count_events p t1 + count_events p t2.
Proof. unfold count_events. rewrite List.filter_app, length_app. lia. Qed.

Lemma count_forwarded_attempt req result :
  count_events is_forwarded [EvAttempt req result] = if Is (snd result) ErrCircuitOpen then 0 else 1.
Proof. unfold count_events. simpl. by destruct (Is (snd result) ErrCircuitOpen). Qed.

Lemma shouldRetry_attempts p n result : shouldRetry p n result = true -> n + 1 < rp_maxAttempts p.
Proof. unfold shouldRetry. destruct result as [resp err]. by destruct (Z.leb_spec (rp_maxAttempts p) (n + 1)). Qed.

(** ** Bounds *)

(** At the head of the loop: as many forwarded attempts, and as many sleeps, as the
    logical attempt says. *)
Record loop_bounds c s : Prop := {
  lb_logical : 0 <= st_logical s < rp_maxAttempts (ca_policy c);
  lb_forwarded : count_events is_forwarded (st_trace s) = st_logical s;
  lb_sleeps : count_events is_sleep (st_trace s) = st_logical s;
  lb_delays d : EvSleep d ∈ st_trace s -> 0 <= d <= rp_maxDelay (ca_policy c);
}.

Definition outcome_state (o : Outcome (W := W)) : retryState :=
  match o with Continue s | Return _ s | Panic s => s end.

(** The bounds of a whole call. *)
Record call_bounds c s : Prop := {
  cb_forwarded : count_events is_forwarded (st_trace s) <= rp_maxAttempts (ca_policy c);
  cb_sleeps : count_events is_sleep (st_trace s) < rp_maxAttempts (ca_policy c);
  cb_delays d : EvSleep d ∈ st_trace s -> 0 <= d <= rp_maxDelay (ca_policy c);
}.

Lemma nextDelay_bounds `{!RandLaws W} p n w d w' :
  good_policy p -> 0 <= n -> nextDelay p n w = Some (d, w') -> 0 <= d <= rp_maxDelay p.
Proof.
  intros Hp Hn. pose proof (backoffDelay_bounds p n Hp Hn). unfold nextDelay.
  destruct (Z.leb_spec (backoffDelay p n) 0); [lia|].
  destruct (bool_decide (rp_jitter p = fullJitterStrategy)); cbn [negb]; [|intros [= <- <-]; lia].
  destruct (Z.leb_spec (wrap64 (backoffDelay p n + 1)) 0) as [|Hpos]; [done|]. intros [= Hd].
  pose proof (Int63n_range _ w Hpos) as Hr. rewrite Hd in Hr. simpl in Hr.
  destruct Hp as [_ _ _ H64].
  assert (in_int64 (backoffDelay p n + 1)) as Hin.
  { unfold in_int64, int64_min, int64_max in *.
    destruct (Z.eq_dec (backoffDelay p n) (2 ^ 63 - 1)) as [E|]; [|lia].
    rewrite E in Hpos. by vm_compute in Hpos. }
  rewrite wrap64_id in Hr by done. lia.
Qed.

Lemma attempted_trace c s result trace :
  attempted c s result trace ->
  count_events is_forwarded trace =
    count_events is_forwarded (st_trace s) + (if Is (snd result) ErrCircuitOpen then 0 else 1) /\
  count_events is_sleep trace = count_events is_sleep (st_trace s) /\
  (forall d, EvSleep d ∈ trace -> EvSleep d ∈ st_trace s).
Proof.
  intros [-> _]. rewrite !count_events_app, count_forwarded_attempt.
  change (count_events is_sleep [EvAttempt (attemptRequest c s) result]) with 0.
  split_and!; [done|lia|].
  intros d [?|Hd]%elem_of_app; [done|]. by apply list_elem_of_singleton in Hd.
Qed.

Lemma count_sleep_snoc trace d :
  count_events is_forwarded (trace ++ [EvSleep d]) = count_events is_forwarded trace /\
  count_events is_sleep (trace ++ [EvSleep d]) = count_events is_sleep trace + 1.
Proof.
  rewrite !count_events_app. change (count_events is_forwarded [EvSleep d]) with 0.
  change (count_events is_sleep [EvSleep d]) with 1. lia.
Qed.

Lemma iteration_bounds `{!RandLaws W} c s o :
  good_policy (ca_policy c) -> loop_bounds c s -> iteration c s o ->
  match o with Continue s' => loop_bounds c s' | _ => call_bounds c (outcome_state o) end.
Proof.
  intros Hp [Hl Hf Hs Hd] Hit.
  assert (forall result trace d w w', attempted c s result trace ->
    nextDelay (ca_policy c) (st_logical s) w = Some (d, w') ->
    forall d', EvSleep d' ∈ trace ++ [EvSleep d] -> 0 <= d' <= rp_maxDelay (ca_policy c)) as Hsnoc.
  { intros result trace d w w' Hatt Hnd d' Hin.
    destruct (attempted_trace _ _ _ _ Hatt) as (_ & _ & Hold).
    apply elem_of_app in Hin as [Hin|Hin]; [by apply Hd, Hold|].
    apply list_elem_of_singleton in Hin. injection Hin as ->.
    apply (nextDelay_bounds _ (st_logical s) w _ w'); [done|lia|done]. }
  destruct Hit as [err w w' Hctx|result trace tried w Hatt|result trace err tried target w w' Hatt
    |result trace tried w Hatt Hc|result trace w Hatt|result trace tried w w' Hatt
    |result trace delay err tried target w1 w2 w3 w4 Hatt Hc Hsr Hnd|result trace delay w1 w2 w Hatt Hc Hsr Hnd];
    cbn [outcome_state];
    try (destruct (attempted_trace _ _ _ _ Hatt) as (Ef & Es & Hold));
    try pose proof (count_sleep_snoc trace delay) as [Ef' Es'];
    try pose proof (shouldRetry_attempts _ _ _ Hsr);
    split; cbn [st_logical st_trace]; try done.
  all: try (by intros d Hin; apply Hd, Hold).
  all: try (by eapply Hsnoc).
  all: try (destruct (Is (snd result) ErrCircuitOpen); try done; lia); try lia.
Qed.

Lemma loop_bounds_call c s : loop_bounds c s -> call_bounds c s.
Proof. intros [? ? ? ?]. split; [lia|lia|done]. Qed.

Lemma retryLoop_bounds `{!RandLaws W} fuel c s :
  good_policy (ca_policy c) -> loop_bounds c s -> call_bounds c (outcome_state (retryLoop fuel c s)).
Proof.
  intros Hp. apply (retryLoop_ind c (loop_bounds c) (fun o => call_bounds c (outcome_state o))).
  - intros s0 Hs0. by apply loop_bounds_call.
  - intros s' o Hs' Hit. exact (iteration_bounds c s' o Hp Hs' Hit).
Qed.

Lemma initial_bounds c w : good_policy (ca_policy c) -> loop_bounds c (initialState w).
Proof.
  intros [H1 _ _ _]. split; cbn; [lia|done|done|]. by intros d ?%elem_of_nil.
Qed.

(** ** Termination *)

(** The iterations left: [T + 1] for each attempt the policy still allows, less the targets
    already tried in this round. *)
Definition iterations_left c s : Z :=
  (rp_maxAttempts (ca_policy c) - 1 - st_logical s) * (ca_total c + 1) +
  (ca_total c - Z.of_nat (size (st_tried s))).

Record loop_ready c s : Prop := {
  lr_logical : 0 <= st_logical s < rp_maxAttempts (ca_policy c);
  lr_total : 0 <= ca_total c;
  lr_tried : Z.of_nat (size (st_tried s)) <= ca_total c;
}.

Lemma iteration_progress `{!FailoverLaws W} c s s' :
  loop_ready c s -> iteration c s (Continue s') ->
  loop_ready c s' /\ iterations_left c s' < iterations_left c s.
Proof.
  intros [Hl Ht Htr] Hit. inversion Hit; subst; clear Hit.
  - match goal with Hatt : attempted _ _ _ _ |- _ => destruct Hatt as (_ & w1 & w2 & Hrt) end.
    destruct (failover_progress _ _ _ _ (st_logical s) Hrt) as [Hne Hni]; [done|].
    rewrite attemptRequest_excluded in Hni.
    rewrite addTried_size in * by done.
    split; [split; cbn [st_logical st_tried]; rewrite ?addTried_size by done; lia|].
    unfold iterations_left. cbn [st_logical st_tried]. rewrite addTried_size by done. lia.
  - match goal with Hsr : shouldRetry _ _ _ = true |- _ => apply shouldRetry_attempts in Hsr end.
    assert (0 <= Z.of_nat (size (nextRound c (resultTarget result (st_logical s)) (st_tried s))) <= ca_total c).
    { destruct (nextRound_size c (resultTarget result (st_logical s)) (st_tried s) Ht) as [?|E]; [lia|].
      rewrite E, size_empty. lia. }
    split; [split; cbn [st_logical st_tried]; lia|].
    unfold iterations_left. cbn [st_logical st_tried]. nia.
Qed.

Lemma retryLoop_ends `{!FailoverLaws W} fuel c s :
  loop_ready c s -> iterations_left c s < Z.of_nat fuel ->
  forall s', retryLoop fuel c s <> Continue s'.
Proof.
  revert s. induction fuel as [|fuel IH]; intros s Hr Hf s'; cbn [retryLoop].
  { exfalso. destruct Hr. unfold iterations_left in Hf. nia. }
  pose proof (retryIteration_spec c s) as Hit. destruct (retryIteration c s) as [s1|r s1|s1]; [|done|done].
  destruct (iteration_progress _ _ _ Hr Hit). apply IH; [done|lia].
Qed.

Lemma nextDelay_no_panic p n w :
  good_policy p -> 0 <= n -> rp_maxDelay p < int64_max -> nextDelay p n w <> None.
Proof.
  intros Hp Hn Hm. pose proof (backoffDelay_bounds p n Hp Hn). unfold nextDelay.
  destruct (backoffDelay p n <=? 0); [done|].
  destruct (negb _); [done|]. rewrite wrap64_id by (unfold in_int64, int64_min, int64_max in *; lia).
  destruct (Z.leb_spec (backoffDelay p n + 1) 0); [lia|done].
Qed.

Lemma retryLoop_no_panic c s :
  good_policy (ca_policy c) -> rp_maxDelay (ca_policy c) < int64_max -> 0 <= st_logical s ->
  forall fuel s', retryLoop fuel c s <> Panic s'.
Proof.
  intros Hp Hm Hs fuel.
  apply (retryLoop_ind c (fun s => 0 <= st_logical s) (fun o => forall s', o <> Panic s')); [done| |done].
  intros s1 o Hs1 Hit. inversion Hit; subst; try done.
  - match goal with Hn : nextDelay _ _ _ = None |- _ => by apply nextDelay_no_panic in Hn end.
  - cbn. lia.
Qed.

End LoopTheory.

(** ** What the loop sends and what it returns *)

Lemma substring_length n s :
  (n <= String.length s)%nat -> String.length (String.substring 0 n s) = n.
Proof.
  revert s. induction n as [|n IH]; intros [|a s]; cbn; [done|done|lia|].
  intros Hn. by rewrite IH by lia.
Qed.

(** Buffering a body whose reader does not fail: all of it, or the limit error. *)
Lemma captureRequestBody_reader req content :
  rq_Body req = BodyReader content None None -> rq_GetBody req = None ->
  captureRequestBody req true =
    if Z.of_nat (String.length content) <=? maxRetryReplayBodyBytes then inr (content, true)
    else inl replayLimitError.
Proof.
  intros Hb Hg. unfold captureRequestBody. rewrite Hb, Hg. cbn [negb readAllLimited orClose closeBody].
  assert (0 < maxRetryReplayBodyBytes) as HL by done. revert HL.
  generalize maxRetryReplayBodyBytes as L. intros L HL.
  destruct (Z.leb_spec (Z.of_nat (String.length content)) L) as [Hle|Hgt].
  - rewrite (proj2 (Z.ltb_lt _ (L + 1))) by lia. cbn. by rewrite (proj2 (Z.ltb_ge _ _)) by lia.
  - rewrite (proj2 (Z.ltb_ge _ (L + 1))) by lia. cbn [orClose closeBody].
    rewrite substring_length by lia. by rewrite (proj2 (Z.ltb_lt _ _)) by lia.
Qed.

Section Trace.
Context {W : Type} `{RetryEnv W}.
Implicit Types s : retryState (W := W).
Implicit Types c : retryCall.

(** Every attempt in the trace is a copy of the request made by [cloneAttemptRequest]. *)
Definition attempts_are_clones c (trace : list RetryEvent) : Prop :=
  forall r result, EvAttempt r result ∈ trace -> exists n tried,
    0 <= n < rp_maxAttempts (ca_policy c) /\
    r = cloneAttemptRequest (ca_req c) (ca_body c) (ca_hasBody c) n tried.

Definition failed_attempt c (trace : list RetryEvent) (target : string) : Prop :=
  exists r result n, EvAttempt r result ∈ trace /\ resultTarget result n = target /\
    (Is (snd result) ErrCircuitOpen = true \/ shouldRetry (ca_policy c) n result = true).

Definition tried_failed c s : Prop :=
  forall t, t ∈ st_tried s -> failed_attempt c (st_trace s) t.

Lemma failed_attempt_app c trace trace' t :
  failed_attempt c trace t -> failed_attempt c (trace ++ trace') t.
Proof. intros (r & result & n & ? & ? & ?). exists r, result, n. split_and!; [set_solver|done..]. Qed.

Lemma addTried_failed c s result trace :
  tried_failed c s -> attempted c s result trace ->
  (Is (snd result) ErrCircuitOpen = true \/ shouldRetry (ca_policy c) (st_logical s) result = true) ->
  forall t, t ∈ addTried (resultTarget result (st_logical s)) (st_tried s) -> failed_attempt c trace t.
Proof.
  intros Htf [-> _] Hf t Ht. unfold addTried in Ht. revert Ht.
  case_bool_decide; [intros; by apply failed_attempt_app, Htf|].
  intros [->%elem_of_singleton|Ht]%elem_of_union; [|by apply failed_attempt_app, Htf].
  exists (attemptRequest c s), result, (st_logical s). split_and!; [set_solver|done|done].
Qed.

Lemma attempted_clones c s result trace :
  0 <= st_logical s < rp_maxAttempts (ca_policy c) ->
  attempts_are_clones c (st_trace s) -> attempted c s result trace -> attempts_are_clones c trace.
Proof.
  intros Hl Hcl [-> _] r res [Hin|Hin]%elem_of_app; [by eapply Hcl|].
  apply list_elem_of_singleton in Hin. injection Hin as -> ->.
  by exists (st_logical s), (st_tried s).
Qed.

(** The invariant of the loop's head, and what a returning loop has done. *)
Record loop_inv c s : Prop := {
  li_bounds : loop_bounds c s;
  li_clones : attempts_are_clones c (st_trace s);
  li_failed : tried_failed c s;
}.

Inductive returned c (result : RoundTripResult) s : Prop :=
  | returned_outcome r :
      last (st_trace s) = Some (EvAttempt r result) -> Is (snd result) ErrCircuitOpen = false ->
      shouldRetry (ca_policy c) (count_events is_forwarded (st_trace s) - 1) result = false ->
      returned c result s
  | returned_exhausted n target (tried : gset string) :
      result = attemptError (ESentinel ErrNoHealthyTargets) n target ->
      ca_total c = 0 \/ ca_total c <= Z.of_nat (size tried) ->
      (forall t, t ∈ tried -> failed_attempt c (st_trace s) t) -> returned c result s
  | returned_cancelled n target err (w w' : W) d :
      result = attemptError err n target ->
      env_ctxErr w = (Some err, w') \/ env_sleep d w = (Some err, w') -> returned c result s.

Definition loop_result c (o : Outcome) : Prop :=
  attempts_are_clones c (st_trace (outcome_state o)) /\
  match o with Return result s => returned c result s | _ => True end.

Lemma iteration_result `{!RandLaws W} c s o :
  good_policy (ca_policy c) -> loop_inv c s -> iteration c s o ->
  match o with Continue s' => loop_inv c s' | _ => loop_result c o end.
Proof.
  intros Hp [Hb Hcl Htf] Hit. pose proof (iteration_bounds c s o Hp Hb Hit) as Hb'.
  pose proof (lb_logical _ _ Hb) as Hl.
  assert (forall result trace d, attempted c s result trace ->
    attempts_are_clones c (trace ++ [EvSleep d])) as Hsnoc.
  { intros result trace d Hatt r res [Hin|Hin]%elem_of_app.
    - by eapply (attempted_clones _ _ _ _ Hl Hcl Hatt).
    - by apply list_elem_of_singleton in Hin. }
  destruct Hit as [err w w' Hctx|result trace tried w Hatt Hc -> Hsz|result trace err tried target w w' Hatt Hctx
    |result trace tried w Hatt Hc -> Ht Hsz|result trace w Hatt Hc Hsr|result trace tried w w' Hatt
    |result trace delay err tried target w1 w2 w3 w4 Hatt Hc Hsr Hnd Hsl|result trace delay w1 w2 w Hatt Hc Hsr Hnd].
  - split; [done|]. eapply (returned_cancelled _ _ _ _ _ _ _ _ 0); eauto.
  - split; [by eapply attempted_clones|]. eapply returned_exhausted; [done..|].
    eapply addTried_failed; eauto.
  - split; [by eapply attempted_clones|]. eapply (returned_cancelled _ _ _ _ _ _ _ _ 0); eauto.
  - split; [done|by eapply attempted_clones|]. intros t Ht'. cbn in *. eapply addTried_failed; eauto.
  - split; [by eapply attempted_clones|].
    destruct (attempted_trace _ _ _ _ Hatt) as (Ef & _ & _). rewrite Hc in Ef. destruct Hatt as [-> Hrt].
    eapply returned_outcome; cbn [st_trace]; [by rewrite last_snoc|done|].
    rewrite Ef, (lb_forwarded _ _ Hb). by replace (st_logical s + 1 - 1) with (st_logical s) by lia.
  - split; [by eapply attempted_clones|done].
  - split; [by eapply Hsnoc|]. eapply returned_cancelled; eauto.
  - split; [done|by eapply Hsnoc|]. intros t Ht. cbn in *. apply failed_attempt_app.
    eapply (addTried_failed _ _ _ _ Htf Hatt); [by right|].
    unfold nextRound in Ht. destruct (ca_total c <=? _) in Ht; [set_solver|done].
Qed.

Lemma retryLoop_result `{!RandLaws W} fuel c w :
  good_policy (ca_policy c) -> loop_result c (retryLoop fuel c (initialState w)).
Proof.
  intros Hp. apply (retryLoop_ind c (loop_inv c) (loop_result c)).
  - intros s [_ Hcl _]. by split.
  - intros s o Hs Hit. exact (iteration_result c s o Hp Hs Hit).
  - split; [by apply initial_bounds|by intros ?? ?%elem_of_nil|by intros ? ?%elem_of_empty].
Qed.

End Trace.

(** ** The environment's state across a call *)

Section WorldLemmas.
Context {W : Type} `{RetryEnv W}.
Implicit Types s : retryState (W := W).
Implicit Types c : retryCall.

(** What each operation of the environment keeps, for the requests of [P], a call keeps. *)
Record env_keeps (P : Request -> Prop) (I : W -> Prop) : Prop := {
  keeps_RoundTrip req w : P req -> I w -> I (snd (env_RoundTrip req w));
  keeps_ctxErr w : I w -> I (snd (env_ctxErr w));
  keeps_sleep d w : I w -> I (snd (env_sleep d w));
  keeps_Int63n n w : I w -> I (snd (env_Int63n n w));
  keeps_closeBody b w : I w -> I (env_closeBody b w);
  keeps_IncRetry x w : I w -> I (env_IncRetry x w);
  keeps_ObserveRetryDelay x d w : I w -> I (env_ObserveRetryDelay x d w);
}.

Lemma nextDelay_keeps P I p n w d w' : env_keeps P I -> I w -> nextDelay p n w = Some (d, w') -> I w'.
Proof.
  intros HI Hw. unfold nextDelay. destruct (_ <=? 0); [by intros [= <- <-]|].
  destruct (negb _); [by intros [= <- <-]|]. destruct (_ <=? 0); [done|].
  intros [= E]. pose proof (keeps_Int63n _ _ HI (wrap64 (backoffDelay p n + 1)) w Hw) as Hk. by rewrite E in Hk.
Qed.

(** The states an iteration goes through, with their worlds: one attempt, then steps that
    keep [I] and add no attempt. *)
Lemma retryIteration_world (P : Request -> Prop) (I : W -> Prop) c s :
  env_keeps P I -> P (attemptRequest c s) -> I (st_world s) -> I (st_world (outcome_state (retryIteration c s))).
Proof.
  intros HI HP Hs. unfold retryIteration. pose proof (keeps_ctxErr _ _ HI _ Hs) as H1.
  destruct (env_ctxErr (st_world s)) as [[err|] w1]; [done|]. cbn [st_tried st_logical st_world st_trace snd] in *.
  set (w2 := if 0 <? st_logical s then _ else w1).
  assert (I w2) as H2 by (unfold w2; destruct (0 <? st_logical s); [by apply (keeps_IncRetry _ _ HI)|done]).
  pose proof (keeps_RoundTrip _ _ HI _ _ HP H2) as H3. unfold attemptRequest in H3.
  destruct (env_RoundTrip _ w2) as [result w3]. cbn [snd] in H3.
  destruct (Is (snd result) ErrCircuitOpen).
  - unfold failOver. cbn [st_tried st_logical st_world st_trace]. destruct (_ || _); [done|].
    pose proof (keeps_ctxErr _ _ HI _ H3) as H4. by destruct (env_ctxErr w3) as [[err|] w4].
  - destruct (negb _); [done|]. unfold backOff. cbn [st_tried st_logical st_world st_trace].
    set (w4 := match fst result with Some _ => _ | None => w3 end).
    assert (I w4) as H4 by (unfold w4; destruct (fst result); [by apply (keeps_closeBody _ _ HI)|done]).
    destruct (nextDelay _ _ w4) as [[delay w5]|] eqn:E; [|done].
    pose proof (nextDelay_keeps _ _ _ _ _ _ _ HI H4 E) as H5.
    pose proof (keeps_sleep _ _ HI delay _ H5) as H6. destruct (env_sleep delay w5) as [[err|] w6]; [done|].
    cbn. by apply (keeps_ObserveRetryDelay _ _ HI).
Qed.

Lemma retryLoop_world (P : Request -> Prop) (I : W -> Prop) fuel c s :
  env_keeps P I -> (forall s, P (attemptRequest c s)) -> I (st_world s) ->
  I (st_world (outcome_state (retryLoop fuel c s))).
Proof.
  intros HI HP. revert s. induction fuel as [|fuel IH]; intros s Hs; cbn [retryLoop]; [done|].
  pose proof (retryIteration_world P I c s HI (HP s) Hs) as H1.
  destruct (retryIteration c s) as [s1|r s1|s1]; [by apply IH|done|done].
Qed.

(** A quantity that only a forwarded attempt increases, and by one at most. *)
Record env_pays (f : W -> Z) : Prop := {
  pays_RoundTrip req w :
    f (snd (env_RoundTrip req w)) <=
    f w + (if Is (snd (fst (env_RoundTrip req w))) ErrCircuitOpen then 0 else 1);
  pays_ctxErr w : f (snd (env_ctxErr w)) <= f w;
  pays_sleep d w : f (snd (env_sleep d w)) <= f w;
  pays_Int63n n w : f (snd (env_Int63n n w)) <= f w;
  pays_closeBody b w : f (env_closeBody b w) <= f w;
  pays_IncRetry x w : f (env_IncRetry x w) <= f w;
  pays_ObserveRetryDelay x d w : f (env_ObserveRetryDelay x d w) <= f w;
}.

Lemma nextDelay_pays f p n w d w' : env_pays f -> nextDelay p n w = Some (d, w') -> f w' <= f w.
Proof.
  intros Hf. unfold nextDelay. destruct (_ <=? 0); [by intros [= <- <-]|].
  destruct (negb _); [by intros [= <- <-]|]. destruct (_ <=? 0); [done|].
  intros [= E]. pose proof (pays_Int63n _ Hf (wrap64 (backoffDelay p n + 1)) w) as Hk. by rewrite E in Hk.
Qed.

Definition unpaid (f : W -> Z) s : Z := f (st_world s) - count_events is_forwarded (st_trace s).

Lemma retryIteration_pays f c s :
  env_pays f -> unpaid f (outcome_state (retryIteration c s)) <= unpaid f s.
Proof.
  intros Hf. unfold unpaid, retryIteration. pose proof (pays_ctxErr _ Hf (st_world s)) as H1.
  destruct (env_ctxErr (st_world s)) as [[err|] w1]; cbn [outcome_state st_tried st_logical st_world st_trace snd] in *; [lia|].
  set (w2 := if 0 <? st_logical s then _ else w1).
  assert (f w2 <= f w1) as H2.
  { unfold w2. destruct (0 <? st_logical s); [apply (pays_IncRetry _ Hf)|lia]. }
  set (req := cloneAttemptRequest _ _ _ _ _). pose proof (pays_RoundTrip _ Hf req w2) as H3.
  destruct (env_RoundTrip req w2) as [result w3]. cbn [fst snd] in H3.
  pose proof (count_events_app is_forwarded (st_trace s) [EvAttempt req result]) as Hc.
  rewrite count_forwarded_attempt in Hc.
  destruct (Is (snd result) ErrCircuitOpen).
  - unfold failOver. cbn [st_tried st_logical st_world st_trace].
    destruct (_ || _); cbn [outcome_state st_world st_trace]; [lia|].
    pose proof (pays_ctxErr _ Hf w3). destruct (env_ctxErr w3) as [[err|] w4]; cbn in *; lia.
  - destruct (negb _); cbn [outcome_state st_world st_trace]; [lia|].
    unfold backOff. cbn [st_tried st_logical st_world st_trace].
    set (w4 := match fst result with Some _ => _ | None => w3 end).
    assert (f w4 <= f w3) by (unfold w4; destruct (fst result); [apply (pays_closeBody _ Hf)|lia]).
    destruct (nextDelay _ _ w4) as [[delay w5]|] eqn:E; cbn [outcome_state st_world st_trace]; [|lia].
    apply (nextDelay_pays f) in E; [|done]. pose proof (pays_sleep _ Hf delay w5).
    pose proof (count_sleep_snoc (st_trace s ++ [EvAttempt req result]) delay) as [Ec _].
    destruct (env_sleep delay w5) as [[err|] w6]; cbn [outcome_state st_world st_trace snd] in *; [lia|].
    pose proof (pays_ObserveRetryDelay _ Hf (ca_service c) delay w6). lia.
Qed.

Lemma retryLoop_pays f fuel c s :
  env_pays f -> unpaid f (outcome_state (retryLoop fuel c s)) <= unpaid f s.
Proof.
  intros Hf. revert s. induction fuel as [|fuel IH]; intros s; cbn [retryLoop]; [done|].
  pose proof (retryIteration_pays f c s Hf) as H1.
  destruct (retryIteration c s) as [s1|r s1|s1]; cbn [outcome_state] in *; [|done|done].
  etransitivity; [apply IH|done].
Qed.

End WorldLemmas.

(** A call ends: the lemma behind [retry_terminates]. *)
Lemma retry_ends {W} `{!RetryEnv W} `{!FailoverLaws W} req route (w : W) fuel :
  rq_route req = Some route -> int64_retry (rc_Retry route) ->
  let policy := normalizeRetryPolicy (rc_Retry route) (isRetryableMethod (rq_Method req)) in
  rp_maxDelay policy < int64_max ->
  rp_maxAttempts policy * (uniqueTargetCount (rc_Targets route) + 1) <= Z.of_nat fuel ->
  exists result s, RetryTransport_RoundTrip fuel req w = Return result s.
Proof.
  intros Hroute H64 policy Hmax Hfuel. unfold RetryTransport_RoundTrip, GetRouteConfig. rewrite Hroute.
  fold policy. destruct (captureRequestBody req _) as [err|[body hasBody]]; [by eauto|].
  pose proof (normalizeRetryPolicy_good _ (isRetryableMethod (rq_Method req)) H64) as Hp. fold policy in Hp.
  set (c := newRetryCall req route body hasBody).
  destruct (retryLoop fuel c (initialState w)) as [s|result s|s] eqn:E.
  - exfalso. revert E. apply retryLoop_ends.
    + destruct Hp. split; unfold c, newRetryCall, initialState;
        cbn [st_logical st_tried ca_policy ca_total]; fold policy; rewrite ?size_empty;
        unfold uniqueTargetCount; lia.
    + unfold iterations_left, c, newRetryCall, initialState.
      cbn [st_logical st_tried ca_policy ca_total]. fold policy. rewrite size_empty. lia.
  - by eauto.
  - exfalso. revert E. by apply retryLoop_no_panic.
Qed.


(** The lemma behind [retry_attempts_are_bounded]. *)
Lemma retry_bounds {W} `{!RetryEnv W} `{!RandLaws W} req route (w : W) fuel :
  rq_route req = Some route -> int64_retry (rc_Retry route) ->
  let policy := normalizeRetryPolicy (rc_Retry route) (isRetryableMethod (rq_Method req)) in
  let trace := st_trace (outcome_state (RetryTransport_RoundTrip fuel req w)) in
  count_events is_forwarded trace <= rp_maxAttempts policy /\
  count_events is_sleep trace < rp_maxAttempts policy /\
  (forall d, EvSleep d ∈ trace -> 0 <= d <= rp_maxDelay policy) /\
  (isRetryableMethod (rq_Method req) = false -> count_events is_forwarded trace <= 1).
Proof.
  intros Hroute H64 policy trace.
  pose proof (normalizeRetryPolicy_good _ (isRetryableMethod (rq_Method req)) H64) as Hp. fold policy in Hp.
  assert (count_events is_forwarded trace <= rp_maxAttempts policy /\
    count_events is_sleep trace < rp_maxAttempts policy /\
    (forall d, EvSleep d ∈ trace -> 0 <= d <= rp_maxDelay policy)) as (Hf & Hs & Hd).
  { unfold trace, RetryTransport_RoundTrip, GetRouteConfig. rewrite Hroute. fold policy.
    destruct (captureRequestBody req _) as [err|[body hasBody]].
    - destruct Hp. cbn [outcome_state st_trace initialState].
      change (count_events is_forwarded []) with 0. change (count_events is_sleep []) with 0.
      split_and!; [lia|lia|by intros d ?%elem_of_nil].
    - pose proof (retryLoop_bounds fuel (newRetryCall req route body hasBody) (initialState w) Hp) as Hb.
      destruct Hb as [Hf Hs Hd]; [by apply initial_bounds|]. by split_and!. }
  split_and!; [done..|]. intros Hm. etransitivity; [exact Hf|].
  unfold policy, normalizeRetryPolicy. rewrite Hm. cbn [rp_maxAttempts]. lia.
Qed.

(** ** A concrete environment

    A transport with three targets that picks the first one not excluded; a script says
    what each attempt meets ([None]: the target's circuit is open).  The context is never
    done, sleeps last, and the random source answers the middle of its range. *)
Definition demo_addresses : list string := ["a:1"; "b:2"; "c:3"]%string.

Definition demo_pick (req : Request) : option string :=
  List.find (fun t => negb (bool_decide (t ∈ excludedTargets (getAttemptMetadata req)))) demo_addresses.

Definition demo_RoundTrip (req : Request) (w : list (option RoundTripResult))
    : RoundTripResult * list (option RoundTripResult) :=
  match demo_pick req with
  | None => ((None, Some (ESentinel ErrNoTargets)), w)
  | Some t =>
      match w with
      | [] => ((Some (mkResponse 200 None RNil (Some (with_attempt (mkMetadata 0 t []) req))), None), [])
      | None :: w => ((None, Some (AttemptError (Some (ESentinel ErrCircuitOpen)) 0 t)), w)
      | Some (resp, err) :: w =>
          ((resp, if Is err ErrCircuitOpen then None else err), w)
      end
  end.

#[export] Instance demo_env : RetryEnv (list (option RoundTripResult)) := {
  env_RoundTrip := demo_RoundTrip;
  env_ctxErr w := (None, w);
  env_sleep _ w := (None, w);
  env_Int63n n w := (n / 2, w);
  env_closeBody _ w := w;
  env_IncRetry _ w := w;
  env_ObserveRetryDelay _ _ w := w;
}.

#[export] Instance demo_rand : RandLaws (list (option RoundTripResult)).
Proof. split. intros n w Hn. cbn. pose proof (Z.div_lt n 2). pose proof (Z.div_pos n 2). lia. Qed.

#[export] Instance demo_failover : FailoverLaws (list (option RoundTripResult)).
Proof.
  split. intros req w result w' n Hrt Hc. cbn in Hrt. unfold demo_RoundTrip in Hrt.
  destruct (demo_pick req) as [t|] eqn:Hp; [|by injection Hrt as <- _].
  apply List.find_some in Hp as [Hin Hni]. apply negb_true_iff, bool_decide_eq_false in Hni.
  destruct w as [|[[resp err]|] w]; injection Hrt as <- _; [done| |].
  - cbn in Hc. destruct (Is err ErrCircuitOpen) eqn:E; cbn in Hc; [done|congruence].
  - unfold resultTarget. cbn. destruct (0 <? n); cbn; (split; [|done]);
      intros ->; cbn in Hin; naive_solver.
Qed.

Definition demo_route : RouteConfig :=
  mkRouteConfig "/users" "" "users" [] false 0 None (mkRetryConfig 3 Second Minute "full")
    [mkTarget "a" 1 1; mkTarget "b" 2 1; mkTarget "c" 3 1] "round_robin".

Definition demo_request (method : string) (body : RequestBody) : Request :=
  mkRequest method "" "" "/users/1" "" "" ∅ body None 0 "9.9.9.9:1000" (Some demo_route) None.

Definition demo_503 : option RoundTripResult :=
  Some (Some (mkResponse 503 None RNil (Some (with_attempt (mkMetadata 0 "b:2" []) (demo_request "GET" BodyNil)))), None).

(** ** Properties *)

(** The retry loop ends.  When the transport below names, for every rejection by an
    open circuit, a target that was not excluded, a request makes at most
    [maxAttempts * (targets + 1)] iterations whatever the targets answer, and returns; the
    jitter never panics on a delay below the largest duration. *)
Lemma retry_terminates {W} `{!RetryEnv W} `{!FailoverLaws W} req route (w : W) fuel :
  rq_route req = Some route -> int64_retry (rc_Retry route) ->
  let policy := normalizeRetryPolicy (rc_Retry route) (isRetryableMethod (rq_Method req)) in
  rp_maxDelay policy < int64_max ->
  rp_maxAttempts policy * (uniqueTargetCount (rc_Targets route) + 1) <= Z.of_nat fuel ->
  exists result s, RetryTransport_RoundTrip fuel req w = Return result s.
Proof. apply retry_ends. Qed.

Lemma retry_terminates_witness :
  exists result s, RetryTransport_RoundTrip 12 (demo_request "GET" BodyNil) [None; demo_503; None] = Return result s.
Proof.
  apply (retry_terminates _ demo_route).
  - reflexivity.
  - split; split; vm_compute; discriminate.
  - vm_compute. reflexivity.
  - vm_compute. discriminate.
Defined.

(** However long the call has run, it has forwarded at most [maxAttempts] attempts past
    the circuit breakers, and exactly one at most when the method is not retryable (so a
    POST is never sent twice); it slept fewer times than that, never longer than the
    maximum delay. *)
Lemma retry_attempts_are_bounded {W} `{!RetryEnv W} `{!RandLaws W} req route (w : W) fuel :
  rq_route req = Some route -> int64_retry (rc_Retry route) ->
  let policy := normalizeRetryPolicy (rc_Retry route) (isRetryableMethod (rq_Method req)) in
  let trace := st_trace (outcome_state (RetryTransport_RoundTrip fuel req w)) in
  count_events is_forwarded trace <= rp_maxAttempts policy /\
  count_events is_sleep trace < rp_maxAttempts policy /\
  (forall d, EvSleep d ∈ trace -> 0 <= d <= rp_maxDelay policy) /\
  (isRetryableMethod (rq_Method req) = false -> count_events is_forwarded trace <= 1).
Proof. apply retry_bounds. Qed.

Lemma retry_attempts_are_bounded_witness :
  count_events is_forwarded
    (st_trace (outcome_state (RetryTransport_RoundTrip 12 (demo_request "POST" BodyNil) [None; demo_503; demo_503]))) <= 1.
Proof.
  apply (retry_attempts_are_bounded (demo_request "POST" BodyNil) demo_route [None; demo_503; demo_503] 12).
  - reflexivity.
  - split; split; vm_compute; discriminate.
  - reflexivity.
Defined.

(** C19: every attempt sends the client's request again: same method, path, headers and
    route, with the whole body from its start when the request has a body and may be
    retried; a body over the 1 MiB replay limit is refused before any attempt. *)
Theorem retry_replays_request {W} `{!RetryEnv W} `{!RandLaws W} req route (w : W) fuel content :
  rq_route req = Some route -> int64_retry (rc_Retry route) ->
  rq_Body req = BodyReader content None None -> rq_GetBody req = None ->
  1 < rp_maxAttempts (normalizeRetryPolicy (rc_Retry route) (isRetryableMethod (rq_Method req))) ->
  let trace := st_trace (outcome_state (RetryTransport_RoundTrip fuel req w)) in
  (forall r result, EvAttempt r result ∈ trace ->
     rq_Method r = rq_Method req /\ rq_Path r = rq_Path req /\ rq_Header r = rq_Header req /\
     rq_route r = rq_route req /\
     rq_Body r = replayBody content /\ rq_ContentLength r = Z.of_nat (String.length content)) /\
  (maxRetryReplayBodyBytes < Z.of_nat (String.length content) -> trace = []).
Proof.
  intros Hroute H64 Hbody Hget Hmax trace.
  pose proof (normalizeRetryPolicy_good _ (isRetryableMethod (rq_Method req)) H64) as Hp.
  unfold trace, RetryTransport_RoundTrip, GetRouteConfig. rewrite Hroute. cbv zeta.
  rewrite (proj2 (Z.ltb_lt _ _) Hmax), (captureRequestBody_reader _ _ Hbody Hget).
  destruct (Z.leb_spec (Z.of_nat (String.length content)) maxRetryReplayBodyBytes) as [Hle|Hgt].
  - split; [|lia]. intros r result Hin.
    pose proof (retryLoop_result fuel (newRetryCall req route content true) w Hp) as [Hcl _].
    destruct (Hcl _ _ Hin) as (n & tried & _ & ->). by split_and!.
  - split; [by intros ?? ?%elem_of_nil|done].
Qed.

Definition replay_trace : list RetryEvent :=
  st_trace (outcome_state (RetryTransport_RoundTrip 12
    (demo_request "PUT" (BodyReader "hello" None None)) [demo_503; None])).

Lemma retry_replays_request_witness :
  exists r result, replay_trace !! 2%nat = Some (EvAttempt r result) /\
    rq_Body r = BodyReader "hello" None None.
Proof.
  destruct (replay_trace !! 2%nat) as [[r result|d]|] eqn:Hlk;
    [|vm_compute in Hlk; discriminate|vm_compute in Hlk; discriminate].
  exists r, result. split; [reflexivity|].
  destruct (retry_replays_request (demo_request "PUT" (BodyReader "hello" None None)) demo_route
    [demo_503; None] 12 "hello") as [H _];
    [reflexivity|split; split; vm_compute; discriminate|reflexivity..|].
  destruct (H r result) as (_ & _ & _ & _ & Hb & _); [|exact Hb].
  apply (list_elem_of_lookup_2 replay_trace 2). exact Hlk.
Defined.

(** What a call returns is the outcome of its last attempt, one that no open circuit
    rejected and that is not to be retried (a success, an error that is not transient, or
    the last one allowed); or [ErrNoHealthyTargets], and then at least as many distinct
    targets as the route has were each rejected by an open circuit or failed; or the error
    its context or its sleep reported. *)
Lemma retry_returns_final_outcome {W} `{!RetryEnv W} `{!RandLaws W} req route (w : W) fuel body hasBody result s :
  rq_route req = Some route -> int64_retry (rc_Retry route) ->
  let policy := normalizeRetryPolicy (rc_Retry route) (isRetryableMethod (rq_Method req)) in
  captureRequestBody req (1 <? rp_maxAttempts policy) = inr (body, hasBody) ->
  RetryTransport_RoundTrip fuel req w = Return result s ->
  returned (newRetryCall req route body hasBody) result s.
Proof.
  intros Hroute H64 policy Hcap. unfold RetryTransport_RoundTrip, GetRouteConfig. rewrite Hroute.
  fold policy. rewrite Hcap. intros Hret.
  pose proof (normalizeRetryPolicy_good _ (isRetryableMethod (rq_Method req)) H64) as Hp.
  pose proof (retryLoop_result fuel (newRetryCall req route body hasBody) w Hp) as [_ Hr].
  by rewrite Hret in Hr.
Qed.

Lemma retry_returns_final_outcome_witness :
  let o := RetryTransport_RoundTrip 12 (demo_request "GET" BodyNil) [None; None; None] in
  exists s, o = Return (attemptError (ESentinel ErrNoHealthyTargets) 0 "c:3") s /\
    returned (newRetryCall (demo_request "GET" BodyNil) demo_route "" false)
      (attemptError (ESentinel ErrNoHealthyTargets) 0 "c:3") s.
Proof.
  intros o. exists (outcome_state o).
  assert (o = Return (attemptError (ESentinel ErrNoHealthyTargets) 0 "c:3") (outcome_state o)) as Ho
    by (vm_compute; reflexivity).
  split; [exact Ho|].
  apply (retry_returns_final_outcome (demo_request "GET" BodyNil) demo_route [None; None; None] 12).
  - reflexivity.
  - split; split; vm_compute; discriminate.
  - reflexivity.
  - exact Ho.
Defined.

(** The delay after the [n]-th attempt is [base * 2^n] capped at the maximum, computed
    without overflow; with full jitter it is a random duration between zero and that. *)
Lemma backoff_is_capped_exponential {W} `{!RetryEnv W} `{!RandLaws W} cfg m n (w : W) :
  int64_retry cfg -> 0 <= n ->
  let p := normalizeRetryPolicy cfg m in
  rp_maxDelay p < int64_max ->
  let cap := Z.min (rp_baseDelay p * 2 ^ n) (rp_maxDelay p) in
  exists d w', nextDelay p n w = Some (d, w') /\ 0 <= d <= cap /\
    (rp_jitter p <> fullJitterStrategy -> d = cap).
Proof.
  intros H64 Hn p Hm cap. pose proof (normalizeRetryPolicy_good cfg m H64) as Hp. fold p in Hp.
  pose proof (backoffDelay_bounds p n Hp Hn) as Hb. pose proof (backoffDelay_spec p n Hp Hn) as Hs.
  fold cap in Hs. unfold nextDelay. rewrite Hs in *.
  destruct (Z.leb_spec cap 0); [lia|].
  destruct (bool_decide (rp_jitter p = fullJitterStrategy)) eqn:Hj; cbn [negb].
  - rewrite wrap64_id by (unfold in_int64, int64_min, int64_max in *; lia).
    destruct (Z.leb_spec (cap + 1) 0); [lia|]. pose proof (Int63n_range (cap + 1) w ltac:(lia)).
    destruct (env_Int63n (cap + 1) w) as [d w']. exists d, w'. cbn in *.
    split_and!; [done|lia|lia|]. by apply bool_decide_eq_true in Hj.
  - exists cap, w. split_and!; [done|lia|lia|done].
Qed.

Lemma backoff_is_capped_exponential_witness :
  exists d w', nextDelay (normalizeRetryPolicy (mkRetryConfig 5 Second Minute "full") true) 4 ([] : list (option RoundTripResult)) =
    Some (d, w') /\ 0 <= d <= 16 * Second.
Proof.
  destruct (backoff_is_capped_exponential (mkRetryConfig 5 Second Minute "full") true 4 ([] : list (option RoundTripResult)))
    as (d & w' & H & Hd & _); [split; split; vm_compute; discriminate|lia|vm_compute; reflexivity|].
  exists d, w'. split; [exact H|exact Hd].
Defined.

(** Full jitter on the longest delay there is: the bound of the random number overflows. *)
Lemma longest_delay_panics {W} `{!RetryEnv W} (w : W) :
  nextDelay (normalizeRetryPolicy (mkRetryConfig 3 int64_max int64_max "full") true) 0 w = None.
Proof. reflexivity. Qed.

(** Which errors are worth a retry, however deep they are wrapped: a rejection by a
    circuit, exhausted targets and a cancellation never are; otherwise a deadline is; and
    an operation of the network that failed with one of the connection errors is.  An
    error that carries a system error number outside such an operation is judged by that
    number's [Timeout] and [Temporary], so the last line of the function, which would
    retry a refused connection, is never the one that answers. *)
Lemma transient_errors_classified err :
  (Is err ErrCircuitOpen = true \/ Is err ErrNoHealthyTargets = true \/ Is err Canceled = true ->
     isTransientError err = false) /\
  (Is err ErrCircuitOpen = false -> Is err ErrNoHealthyTargets = false -> Is err Canceled = false ->
     (Is err DeadlineExceeded = true -> isTransientError err = true) /\
     (As as_url_error err = None -> As as_dns_error err = None ->
        (forall inner, As as_op_error err = Some inner -> isConnectionFailure inner = true ->
           isTransientError err = true) /\
        (As as_net_error err = None -> Is err DeadlineExceeded = false ->
           As as_op_error err = None -> isTransientError err = false))).
Proof.
  rewrite isTransientError_eq. unfold isTransientError_body. destruct err as [e|].
  2: { split; [done|]. intros _ _ _. split; [done|]. intros _ _. split; [done|done]. }
  split.
  { intros H. destruct (Is (Some e) ErrCircuitOpen); [done|].
    destruct (Is (Some e) ErrNoHealthyTargets); [done|]. destruct (Is (Some e) Canceled); naive_solver. }
  intros -> -> ->. split; [by intros ->|]. intros -> ->.
  destruct (Is (Some e) DeadlineExceeded); [by split|]. split; [by intros ? -> ->|].
  intros Hn _ ->. rewrite Hn.
  destruct (isConnectionFailure (Some e)) eqn:Hc; [|done].
  apply connection_failure_errno in Hc as [n Hc].
  apply errno_net_error in Hc as [b Hc]. congruence.
Qed.

Lemma transient_errors_classified_witness :
  isTransientError (Some (AttemptError (Some (Wrapped "dial" (ESentinel Canceled))) 1 "a:1")) = false /\
  isTransientError (Some (UrlError (Some (OpError "dial" (Some (SyscallError (Some (Errno ECONNREFUSED)))))))) = true.
Proof.
  split.
  - exact (proj1 (transient_errors_classified (Some (AttemptError (Some (Wrapped "dial" (ESentinel Canceled))) 1 "a:1")))
      (or_intror (or_intror eq_refl))).
  - reflexivity.
Defined.

(** A refused connection outside a network operation is a connection failure, yet not
    transient. *)
Lemma bare_refused_not_transient :
  let err := Some (SyscallError (Some (Errno ECONNREFUSED))) in
  isConnectionFailure err = true /\ isTransientError err = false.
Proof. by vm_compute. Qed.
