(* ===== verification/Metrics.v ===== *)
(** * The metrics registry: [internal/metrics/registry.go]

    Counters, gauges and histograms labelled by service.  The vectors are Prometheus code
    the registry only calls: a class with their documented operations and laws.  A nil
    [*Registry], on which every method is a no-op, is [None]. *)

From S2P Require Import Prelude GoStrings.
From stdpp Require Import options.
#[local] Set Default Proof Using "Type*".

(** ** The vectors *)

(** A histogram is observed with a duration; its samples are what was observed, latest
    first. *)
Class Prometheus := {
  CounterVec : Type;
  CounterVec_new : CounterVec;
  CounterVec_Inc : string -> CounterVec -> CounterVec;
  CounterVec_value : CounterVec -> string -> Z;
  MetricGaugeVec : Type;
  GaugeVec_new : MetricGaugeVec;
  GaugeVec_Add : string -> Z -> MetricGaugeVec -> MetricGaugeVec;
  GaugeVec_Set : string -> Z -> MetricGaugeVec -> MetricGaugeVec;
  GaugeVec_value : MetricGaugeVec -> string -> Z;
  HistogramVec : Type;
  HistogramVec_new : HistogramVec;
  HistogramVec_Observe : string -> Duration -> HistogramVec -> HistogramVec;
  HistogramVec_samples : HistogramVec -> string -> list Duration;
}.

Class PrometheusLaws `{Prometheus} : Prop := {
  CounterVec_value_new s : CounterVec_value CounterVec_new s = 0;
  CounterVec_value_Inc s s' c :
    CounterVec_value (CounterVec_Inc s c) s' = CounterVec_value c s' + (if decide (s = s') then 1 else 0);
  GaugeVec_value_new s : GaugeVec_value GaugeVec_new s = 0;
  GaugeVec_value_Add s s' d g :
    GaugeVec_value (GaugeVec_Add s d g) s' = GaugeVec_value g s' + (if decide (s = s') then d else 0);
  GaugeVec_value_Set s s' v g :
    GaugeVec_value (GaugeVec_Set s v g) s' = if decide (s = s') then v else GaugeVec_value g s';
  HistogramVec_samples_new s : HistogramVec_samples HistogramVec_new s = [];
  HistogramVec_samples_Observe s s' d h :
    HistogramVec_samples (HistogramVec_Observe s d h) s' =
      (if decide (s = s') then [d] else []) ++ HistogramVec_samples h s';
}.

(** ** The registry *)

Section Metrics.
Context `{Prometheus}.

Record MetricsRegistry := mkMetrics {
  m_requestsTotal : CounterVec;
  m_requestFailuresTotal : CounterVec;
  m_requestDuration : HistogramVec;
  m_rateLimitRejections : CounterVec;
  m_retriesTotal : CounterVec;
  m_retryDelay : HistogramVec;
  m_circuitOpensTotal : CounterVec;
  m_openCircuits : MetricGaugeVec;
  m_upstreamDuration : HistogramVec;
  m_inFlightRequests : MetricGaugeVec;
}.

Definition NewMetricsRegistry : MetricsRegistry := {|
  m_requestsTotal := CounterVec_new;
  m_requestFailuresTotal := CounterVec_new;
  m_requestDuration := HistogramVec_new;
  m_rateLimitRejections := CounterVec_new;
  m_retriesTotal := CounterVec_new;
  m_retryDelay := HistogramVec_new;
  m_circuitOpensTotal := CounterVec_new;
  m_openCircuits := GaugeVec_new;
  m_upstreamDuration := HistogramVec_new;
  m_inFlightRequests := GaugeVec_new;
|}.

Definition normalizeService (service : string) : string :=
  let service := TrimSpace service in
  if bool_decide (service = "") then "unknown" else service.

Definition counter_Inc (service : string) (c : CounterVec) : CounterVec :=
  CounterVec_Inc (normalizeService service) c.
Definition gauge_Inc (service : string) (g : MetricGaugeVec) : MetricGaugeVec :=
  GaugeVec_Add (normalizeService service) 1 g.
Definition gauge_Dec (service : string) (g : MetricGaugeVec) : MetricGaugeVec :=
  GaugeVec_Add (normalizeService service) (-1) g.
Definition gauge_Set (service : string) (value : Z) (g : MetricGaugeVec) : MetricGaugeVec :=
  GaugeVec_Set (normalizeService service) value g.
Definition histogram_ObserveDuration (service : string) (d : Duration) (h : HistogramVec) : HistogramVec :=
  HistogramVec_Observe (normalizeService service) d h.

(** [http.StatusInternalServerError] *)
Definition isFailureStatus (statusCode : Z) : bool := 500 <=? statusCode.

Definition ObserveRequest (service : string) (statusCode : Z) (duration : Duration)
    (r : option MetricsRegistry) : option MetricsRegistry :=
  r ← r;
  Some (mkMetrics (counter_Inc service (m_requestsTotal r))
    (if isFailureStatus statusCode then counter_Inc service (m_requestFailuresTotal r)
     else m_requestFailuresTotal r)
    (histogram_ObserveDuration service duration (m_requestDuration r))
    (m_rateLimitRejections r) (m_retriesTotal r) (m_retryDelay r) (m_circuitOpensTotal r)
    (m_openCircuits r) (m_upstreamDuration r) (m_inFlightRequests r)).

(** The exemplar that is attached to the duration sample is not modelled. *)
Definition ObserveRequestWithExemplar (service : string) (statusCode : Z) (duration : Duration)
    (traceID : string) (r : option MetricsRegistry) : option MetricsRegistry :=
  ObserveRequest service statusCode duration r.

Definition IncRateLimitRejection (service : string) (r : option MetricsRegistry) : option MetricsRegistry :=
  r ← r;
  Some (mkMetrics (m_requestsTotal r) (m_requestFailuresTotal r) (m_requestDuration r)
    (counter_Inc service (m_rateLimitRejections r)) (m_retriesTotal r) (m_retryDelay r)
    (m_circuitOpensTotal r) (m_openCircuits r) (m_upstreamDuration r) (m_inFlightRequests r)).

Definition IncRetry (service : string) (r : option MetricsRegistry) : option MetricsRegistry :=
  r ← r;
  Some (mkMetrics (m_requestsTotal r) (m_requestFailuresTotal r) (m_requestDuration r)
    (m_rateLimitRejections r) (counter_Inc service (m_retriesTotal r)) (m_retryDelay r)
    (m_circuitOpensTotal r) (m_openCircuits r) (m_upstreamDuration r) (m_inFlightRequests r)).

Definition ObserveRetryDelay (service : string) (delay : Duration) (r : option MetricsRegistry)
    : option MetricsRegistry :=
  r ← r;
  Some (mkMetrics (m_requestsTotal r) (m_requestFailuresTotal r) (m_requestDuration r)
    (m_rateLimitRejections r) (m_retriesTotal r)
    (histogram_ObserveDuration service delay (m_retryDelay r))
    (m_circuitOpensTotal r) (m_openCircuits r) (m_upstreamDuration r) (m_inFlightRequests r)).

Definition IncCircuitOpen (service : string) (r : option MetricsRegistry) : option MetricsRegistry :=
  r ← r;
  Some (mkMetrics (m_requestsTotal r) (m_requestFailuresTotal r) (m_requestDuration r)
    (m_rateLimitRejections r) (m_retriesTotal r) (m_retryDelay r)
    (counter_Inc service (m_circuitOpensTotal r)) (m_openCircuits r) (m_upstreamDuration r)
    (m_inFlightRequests r)).

Definition SetOpenCircuits (service : string) (count : Z) (r : option MetricsRegistry)
    : option MetricsRegistry :=
  r ← r;
  Some (mkMetrics (m_requestsTotal r) (m_requestFailuresTotal r) (m_requestDuration r)
    (m_rateLimitRejections r) (m_retriesTotal r) (m_retryDelay r) (m_circuitOpensTotal r)
    (gauge_Set service count (m_openCircuits r)) (m_upstreamDuration r) (m_inFlightRequests r)).

Definition ObserveUpstreamDuration (service : string) (duration : Duration)
    (r : option MetricsRegistry) : option MetricsRegistry :=
  r ← r;
  Some (mkMetrics (m_requestsTotal r) (m_requestFailuresTotal r) (m_requestDuration r)
    (m_rateLimitRejections r) (m_retriesTotal r) (m_retryDelay r) (m_circuitOpensTotal r)
    (m_openCircuits r) (histogram_ObserveDuration service duration (m_upstreamDuration r))
    (m_inFlightRequests r)).

Definition with_inFlight (f : MetricGaugeVec -> MetricGaugeVec) (r : option MetricsRegistry)
    : option MetricsRegistry :=
  r ← r;
  Some (mkMetrics (m_requestsTotal r) (m_requestFailuresTotal r) (m_requestDuration r)
    (m_rateLimitRejections r) (m_retriesTotal r) (m_retryDelay r) (m_circuitOpensTotal r)
    (m_openCircuits r) (m_upstreamDuration r) (f (m_inFlightRequests r))).

Definition IncInFlight (service : string) : option MetricsRegistry -> option MetricsRegistry :=
  with_inFlight (gauge_Inc service).
Definition DecInFlight (service : string) : option MetricsRegistry -> option MetricsRegistry :=
  with_inFlight (gauge_Dec service).

End Metrics.

(** ** A concrete Prometheus *)

#[export] Instance map_prometheus : Prometheus := {
  CounterVec := gmap string Z;
  CounterVec_new := ∅;
  CounterVec_Inc s c := <[s := default 0 (c !! s) + 1]> c;
  CounterVec_value c s := default 0 (c !! s);
  MetricGaugeVec := gmap string Z;
  GaugeVec_new := ∅;
  GaugeVec_Add s d g := <[s := default 0 (g !! s) + d]> g;
  GaugeVec_Set s v g := <[s := v]> g;
  GaugeVec_value g s := default 0 (g !! s);
  HistogramVec := gmap string (list Duration);
  HistogramVec_new := ∅;
  HistogramVec_Observe s d h := <[s := d :: default [] (h !! s)]> h;
  HistogramVec_samples h s := default [] (h !! s);
}.

#[export] Instance map_prometheus_laws : PrometheusLaws (H := map_prometheus).
Proof.
  split; cbn; try done; intros; (destruct (decide (s = s')) as [->|];
    [rewrite lookup_insert_eq|rewrite lookup_insert_ne by done]); cbn; try done; lia.
Qed.
