(* ===== verification/Transport.v ===== *)
(** * The resilient transport chain: [internal/transport/resilient.go]

    Retry over load balancing over circuit breaking over the upstream transport.  The
    chain's state is a [World]: the breaker registry, the balancers by route key, the
    response bodies the chain has handed out, the metrics, and the environment of the base
    transport.  The base transport, its body readers, the request's context and the clock
    are parameters; the clock moves only when the environment is called.  The world also
    keeps a log of what the chain asked of breakers and balancers, for the theorems.

    No operation here removes a breaker or a balancer, so the pointer a closure captures is
    the object stored under its key. *)

From S2P Require Import Prelude GoStrings GoErrors Config Http Breaker Registry LoadBalancer Retry Metrics.
From stdpp Require Import options.
#[local] Set Default Proof Using "Type*".

(** ** The environment *)

(** The base [http.RoundTripper] and the readers of the bodies it returns (numbered by it),
    what [req.Context().Err()] is, the clock, a sleep under the context, [rand.Int63n],
    and the headers the trace propagator injects. *)
Class BaseEnv (E : Type) := {
  base_RoundTrip : Request -> E -> RoundTripResult * E;
  base_Read : nat -> E -> option error * E;
  base_Close : nat -> E -> option error * E;
  base_ctxErr : E -> option error;
  base_Now : E -> Time;
  base_sleep : Duration -> E -> option error * E;
  base_Int63n : Z -> E -> Z * E;
  base_Inject : E -> Header -> Header;
}.

(** ** Response bodies

    [releaseOnReadCloser] and [breakerOnReadCloser] embed the reader they wrap; [once] says
    that their [sync.Once] has run.  A closure is the variables it captures. *)
Inductive Body :=
  | BaseBody (id : nat)
  | NoBody
  | breakerOnReadCloser (inner : Body) (once : bool) (service : string) (targets : list Target) (target : string)
  | releaseOnReadCloser (inner : Body) (once : bool) (key : string) (done : Done).

(** What is asked of a breaker or a balancer. *)
Inductive Report := Succeeded | Failed | Ignored.

Inductive TransportEvent :=
  | Granted (target : string)
  | Rejected (target : string)
  | Reported (target : string) (report : Report)
  | Selected (key : string) (target : string)
  | Released (key : string).

(** ** Helpers *)

Definition routeService (req : Request) : string :=
  match GetRouteConfig req with Some route => rc_Service route | None => "" end.

Definition routeTargets (req : Request) : list Target :=
  match GetRouteConfig req with Some route => rc_Targets route | None => [] end.

Definition routePath (req : Request) : string :=
  match GetRouteConfig req with Some route => rc_Path route | None => "" end.

(** [None] is a nil [ctx]; the [option] inside is [ctx.Err()]. *)
Definition isCallerContextError (ctx : option (option error)) (err : option error) : bool :=
  if Is err Canceled then
    match ctx with None => true | Some ctxErr => Is ctxErr Canceled end
  else if Is err DeadlineExceeded then
    match ctx with None => false | Some ctxErr => Is ctxErr DeadlineExceeded end
  else false.

(** [err == io.EOF] *)
Definition isEOF (err : option error) : bool :=
  match err with Some (ESentinel EOF) => true | _ => false end.

Definition countsTowardCircuit (ctx : option (option error)) (err : option error) : bool :=
  match err with
  | None => false
  | Some _ =>
      if isCallerContextError ctx err then false
      else if Is err ErrCircuitOpen || Is err ErrNoHealthyTargets then false
      else true
  end.

Definition wrapAttemptError (err : option error) (metadata : attemptMetadata) : option error :=
  match err with
  | None => None
  | Some e =>
      match As as_attempt_error err with
      | Some _ => err
      | None => Some (AttemptError (Some e) (md_retryCount metadata) (md_target metadata))
      end
  end.

(** One target of [routeBalancerKey]: [|host:port@weight]. *)
Definition targetKey (target : Target) : string :=
  "|" +:+ tg_Host target +:+ ":" +:+ Itoa (tg_Port target) +:+ "@" +:+ Itoa (tg_Weight target).

Definition routeBalancerKey (route : RouteConfig) : string :=
  rc_Service route +:+ "|" +:+ rc_LoadBalancer route +:+
  foldr (fun target s => targetKey target +:+ s) "" (rc_Targets route).

(** The targets of one route, added to the service's: an address is added once. *)
Fixpoint addServiceTargets (seen : gset string) (acc targets : list Target) : gset string * list Target :=
  match targets with
  | [] => (seen, acc)
  | target :: targets =>
      let address := targetAddress target in
      if bool_decide (address ∈ seen) then addServiceTargets seen acc targets
      else addServiceTargets ({[ address ]} ∪ seen) (acc ++ [target]) targets
  end.

(** One iteration over [routes]: [seen] and [serviceTargets]. *)
Definition addRouteTargets (acc : gmap string (gset string) * gmap string (list Target)) (route : RouteConfig)
    : gmap string (gset string) * gmap string (list Target) :=
  let '(seen, serviceTargets) := acc in
  if bool_decide (rc_Service route = "") || bool_decide (rc_Targets route = []) then acc
  else
    let '(s, ts) := addServiceTargets (default ∅ (seen !! rc_Service route))
      (default [] (serviceTargets !! rc_Service route)) (rc_Targets route) in
    (<[rc_Service route := s]> seen,
     if bool_decide (ts = []) then serviceTargets else <[rc_Service route := ts]> serviceTargets).

Definition serviceTargetSets (routes : list RouteConfig) : gmap string (list Target) :=
  snd (foldl addRouteTargets (∅, ∅) routes).

(** ** The world *)

Section Transport.
Context {E G : Type} {HBase : BaseEnv E} {HGauge : GaugeVec G} {HProm : Prometheus}.

(** [ct.serviceTargets] *)
Variable serviceTargets : gmap string (list Target).

Record World := mkWorld {
  w_registry : Registry G;
  w_balancers : gmap string Balancer;
  w_bodies : gmap nat Body;
  w_nextBody : nat;
  w_metrics : option MetricsRegistry;
  w_env : E;
  w_log : list TransportEvent;
}.
Implicit Types w : World.

Definition with_registry (r : Registry G) w : World :=
  mkWorld r (w_balancers w) (w_bodies w) (w_nextBody w) (w_metrics w) (w_env w) (w_log w).
Definition with_balancers (m : gmap string Balancer) w : World :=
  mkWorld (w_registry w) m (w_bodies w) (w_nextBody w) (w_metrics w) (w_env w) (w_log w).
Definition with_bodies (m : gmap nat Body) (next : nat) w : World :=
  mkWorld (w_registry w) (w_balancers w) m next (w_metrics w) (w_env w) (w_log w).
Definition with_metrics (f : option MetricsRegistry -> option MetricsRegistry) w : World :=
  mkWorld (w_registry w) (w_balancers w) (w_bodies w) (w_nextBody w) (f (w_metrics w)) (w_env w) (w_log w).
Definition with_env (e : E) w : World :=
  mkWorld (w_registry w) (w_balancers w) (w_bodies w) (w_nextBody w) (w_metrics w) e (w_log w).
Definition log_event (ev : TransportEvent) w : World :=
  mkWorld (w_registry w) (w_balancers w) (w_bodies w) (w_nextBody w) (w_metrics w) (w_env w) (w_log w ++ [ev]).

Definition now w : Time := base_Now (w_env w).
Definition ctx w : option (option error) := Some (base_ctxErr (w_env w)).

(** A response body becomes [f] of itself; [http.NoBody] gets an object of its own. *)
Definition wrapBody (f : Body -> Body) (body : ResponseBody) w : ResponseBody * World :=
  match body with
  | RNil => (RNil, w)
  | RNoBody => (RReader (w_nextBody w), with_bodies (<[w_nextBody w := f NoBody]> (w_bodies w)) (S (w_nextBody w)) w)
  | RReader id => (RReader id, with_bodies (alter f id (w_bodies w)) (w_nextBody w) w)
  end.

Definition with_rs_body (body : ResponseBody) (resp : Response) : Response :=
  mkResponse (rs_StatusCode resp) (rs_Header resp) body (rs_Request resp).

(** ** Breakers *)

(** [breaker.State()] of the breaker under [target]. *)
Definition breakerState (target : string) w : State :=
  fst (TargetState (now w) target (w_registry w)).

(** [breaker.Allow()] *)
Definition breakerAllow (target : string) w : bool * World :=
  match r_breakers (w_registry w) !! target with
  | None => (false, w)
  | Some breaker =>
      let '(allowed, (breaker, calls)) := Allow (now w) breaker in
      (allowed, log_event (if allowed then Granted target else Rejected target)
         (with_registry (applyCalls calls (storeBreaker target breaker (w_registry w))) w))
  end.

Definition targetsForService (service : string) (fallback : list Target) : list Target :=
  if bool_decide (serviceTargets = ∅) || bool_decide (service = "") then fallback
  else match serviceTargets !! service with
       | Some [] | None => fallback
       | Some targets => targets
       end.

Definition targetOpen (address : string) w : bool :=
  let '(state, ok) := TargetState (now w) address (w_registry w) in
  ok && bool_decide (state = StateOpen).

(** The loop of [openCircuitCount], from the addresses seen and the count so far. *)
Fixpoint countOpen (seen : gset string) (openCount : Z) (targets : list Target) w : Z :=
  match targets with
  | [] => openCount
  | target :: targets =>
      let address := targetAddress target in
      if bool_decide (address ∈ seen) then countOpen seen openCount targets w
      else countOpen ({[ address ]} ∪ seen) (if targetOpen address w then openCount + 1 else openCount) targets w
  end.

Definition openCircuitCount (targets : list Target) (fallbackTarget : string) w : Z :=
  if bool_decide (targets = []) then
    if bool_decide (fallbackTarget = "") then 0
    else if targetOpen fallbackTarget w then 1 else 0
  else countOpen ∅ 0 targets w.

Definition syncOpenCircuitGauge (service : string) (targets : list Target) (fallbackTarget : string) w : World :=
  match w_metrics w with
  | None => w
  | Some _ => with_metrics (SetOpenCircuits service (openCircuitCount targets fallbackTarget w)) w
  end.

Definition recordBreakerFailure (service : string) (targets : list Target) (target : string) w : World :=
  let before := breakerState target w in
  let w := log_event (Reported target Failed)
    (with_registry (onBreaker target (RecordFailure (now w)) (w_registry w)) w) in
  let after := breakerState target w in
  let w :=
    if negb (bool_decide (before = StateOpen)) && bool_decide (after = StateOpen)
    then with_metrics (IncCircuitOpen service) w else w in
  syncOpenCircuitGauge service targets target w.

Definition recordBreakerSuccess (service : string) (targets : list Target) (target : string) w : World :=
  syncOpenCircuitGauge service targets target
    (log_event (Reported target Succeeded)
      (with_registry (onBreaker target (RecordSuccess (now w)) (w_registry w)) w)).

Definition recordBreakerIgnored (service : string) (targets : list Target) (target : string) w : World :=
  syncOpenCircuitGauge service targets target
    (log_event (Reported target Ignored)
      (with_registry (onBreaker target RecordIgnored (w_registry w)) w)).

Definition recordBreaker (report : Report) (service : string) (targets : list Target) (target : string) : World -> World :=
  match report with
  | Succeeded => recordBreakerSuccess service targets target
  | Failed => recordBreakerFailure service targets target
  | Ignored => recordBreakerIgnored service targets target
  end.

(** ** Balancers *)

(** [balancerFor]: the key the balancer is stored under, or the error of [New]. *)
Definition balancerFor (route : RouteConfig) w : option (Balancer * World) :=
  let key := routeBalancerKey route in
  match w_balancers w !! key with
  | Some balancer => Some (balancer, w)
  | None =>
      balancer ← NewBalancer (rc_LoadBalancer route) (rc_Targets route);
      Some (balancer, with_balancers (<[key := balancer]> (w_balancers w)) w)
  end.

(** [selection.Done()] *)
Definition releaseSelection (key : string) (done : Done) w : World :=
  log_event (Released key) (with_balancers (alter (Balancer_Done done) key (w_balancers w)) w).

(** ** Reading and closing bodies *)

(** [r.once.Do(f)] for the closure [report] of a breaker body. *)
Definition onceReport (once : bool) (report : Report) (service : string) (targets : list Target)
    (target : string) w : World :=
  if once then w else recordBreaker report service targets target w.

Definition onceRelease (once : bool) (key : string) (done : Done) w : World :=
  if once then w else releaseSelection key done w.

(** [Read]: the error it returns, the body after it. *)
Fixpoint Body_Read (b : Body) w : option error * Body * World :=
  match b with
  | BaseBody id => let '(err, e) := base_Read id (w_env w) in (err, b, with_env e w)
  | NoBody => (Some (ESentinel EOF), b, w)
  | breakerOnReadCloser inner once service targets target =>
      let '(err, inner, w) := Body_Read inner w in
      match err with
      | None => (None, breakerOnReadCloser inner once service targets target, w)
      | Some _ =>
          let report :=
            if Is err EOF then Succeeded
            else if isCallerContextError (ctx w) err then Ignored
            else Failed in
          (err, breakerOnReadCloser inner true service targets target,
           onceReport once report service targets target w)
      end
  | releaseOnReadCloser inner once key done =>
      let '(err, inner, w) := Body_Read inner w in
      if isEOF err
      then (err, releaseOnReadCloser inner true key done, onceRelease once key done w)
      else (err, releaseOnReadCloser inner once key done, w)
  end.

Fixpoint Body_Close (b : Body) w : option error * Body * World :=
  match b with
  | BaseBody id => let '(err, e) := base_Close id (w_env w) in (err, b, with_env e w)
  | NoBody => (None, b, w)
  | breakerOnReadCloser inner once service targets target =>
      let '(err, inner, w) := Body_Close inner w in
      let report :=
        match err with
        | Some _ => if isCallerContextError (ctx w) err then Ignored else Failed
        | None => Ignored
        end in
      (err, breakerOnReadCloser inner true service targets target,
       onceReport once report service targets target w)
  | releaseOnReadCloser inner once key done =>
      let '(err, inner, w) := Body_Close inner w in
      (err, releaseOnReadCloser inner true key done, onceRelease once key done w)
  end.

(** The body object [id], read or closed in place. *)
Definition readBody (id : nat) w : option error * World :=
  match w_bodies w !! id with
  | None => (None, w)
  | Some b =>
      let '(err, b, w) := Body_Read b w in
      (err, with_bodies (<[id := b]> (w_bodies w)) (w_nextBody w) w)
  end.

Definition closeBodyObject (id : nat) w : option error * World :=
  match w_bodies w !! id with
  | None => (None, w)
  | Some b =>
      let '(err, b, w) := Body_Close b w in
      (err, with_bodies (<[id := b]> (w_bodies w)) (w_nextBody w) w)
  end.

(** ** The transports, each over the next *)

Definition Transport : Type := Request -> World -> RoundTripResult * World.

Definition nilResponseError : error := Plain "upstream transport returned nil response".

(** [UpstreamTransport.RoundTrip]: the base transport, whose body becomes an object. *)
Definition UpstreamTransport_RoundTrip (req : Request) w : RoundTripResult * World :=
  let req := with_header (base_Inject (w_env w) (rq_Header req)) req in
  let '((resp, err), e) := base_RoundTrip req (w_env w) in
  let w := with_env e w in
  match err with
  | Some err => ((None, Some err), w)
  | None =>
      match resp with
      | None => ((None, None), w)
      | Some resp =>
          let '(body, w) :=
            match rs_Body resp with
            | RReader id => (RReader (w_nextBody w),
                with_bodies (<[w_nextBody w := BaseBody id]> (w_bodies w)) (S (w_nextBody w)) w)
            | body => (body, w)
            end in
          let request := match rs_Request resp with Some r => r | None => req end in
          ((Some (mkResponse (rs_StatusCode resp) (rs_Header resp) body (Some request)), None), w)
      end
  end.

Definition targetMissingError : error := Plain "upstream target missing from request".

(** [CircuitBreakerTransport.RoundTrip] after the request was admitted. *)
Definition admittedRoundTrip (next : Transport) (service : string) (targets : list Target)
    (target : string) (req : Request) w : RoundTripResult * World :=
  let start := now w in
  let '((resp, err), w) := next req w in
  let w := with_metrics (ObserveUpstreamDuration service (SubTime (now w) start)) w in
  match err with
  | Some _ =>
      ((None, err),
       recordBreaker (if countsTowardCircuit (ctx w) err then Failed else Ignored) service targets target w)
  | None =>
      match resp with
      | None => ((None, Some nilResponseError), recordBreaker Failed service targets target w)
      | Some resp =>
          if StatusInternalServerError <=? rs_StatusCode resp
          then ((Some resp, None), recordBreaker Failed service targets target w)
          else match rs_Body resp with
               | RNil => ((Some (with_rs_body RNoBody resp), None),
                          recordBreaker Succeeded service targets target w)
               | _ =>
                   let '(body, w) :=
                     wrapBody (fun inner => breakerOnReadCloser inner false service targets target)
                       (rs_Body resp) w in
                   ((Some (with_rs_body body resp), None), w)
               end
      end
  end.

Definition CircuitBreakerTransport_RoundTrip (next : Transport) (req : Request) w
    : RoundTripResult * World :=
  let service := routeService req in
  let targets := targetsForService service (routeTargets req) in
  let target := md_target (getAttemptMetadata req) in
  let target := if bool_decide (target = "") then rq_URLHost req else target in
  if bool_decide (target = "") then ((None, Some targetMissingError), w)
  else
    let w := with_registry (BreakerForService target service (w_registry w)) w in
    let '(allowed, w) := breakerAllow target w in
    let w := syncOpenCircuitGauge service targets target w in
    if negb allowed then ((None, Some (ESentinel ErrCircuitOpen)), w)
    else admittedRoundTrip next service targets target req w.

Definition unknownStrategyError : error := Plain "unknown load balancer strategy".

(** [LoadBalancerTransport.RoundTrip] after the selection. *)
Definition selectedRoundTrip (next : Transport) (key : string) (sel : Selection) (req : Request) w
    : RoundTripResult * World :=
  let host := targetAddress (sel_Target sel) in
  let outbound := with_upstream "http" host host req in
  let metadata := withTarget host (getAttemptMetadata outbound) in
  let outbound := withAttemptMetadata outbound metadata in
  let '((resp, err), w) := next outbound w in
  match err with
  | Some _ => ((None, wrapAttemptError err metadata), releaseSelection key (sel_Done sel) w)
  | None =>
      match resp with
      | None => ((None, wrapAttemptError (Some nilResponseError) metadata),
                 releaseSelection key (sel_Done sel) w)
      | Some resp =>
          let header := match rs_Header resp with Some h => h | None => ∅ end in
          let header := applyAttemptHeaders metadata (Header_Set HeaderServedBy host header) in
          let request := match rs_Request resp with Some r => r | None => outbound end in
          match rs_Body resp with
          | RNil => ((Some (mkResponse (rs_StatusCode resp) (Some header) RNoBody (Some request)), None),
                     releaseSelection key (sel_Done sel) w)
          | _ =>
              let '(body, w) :=
                wrapBody (fun inner => releaseOnReadCloser inner false key (sel_Done sel)) (rs_Body resp) w in
              ((Some (mkResponse (rs_StatusCode resp) (Some header) body (Some request)), None), w)
          end
      end
  end.

Definition LoadBalancerTransport_RoundTrip (next : Transport) (req : Request) w
    : RoundTripResult * World :=
  match GetRouteConfig req with
  | None => ((None, Some routeMissingError), w)
  | Some route =>
      if bool_decide (rc_Targets route = []) then ((None, Some (ESentinel ErrNoTargets)), w)
      else match balancerFor route w with
      | None => ((None, Some unknownStrategyError), w)
      | Some (balancer, w) =>
          let key := routeBalancerKey route in
          let options := mkOptions (excludedTargets (getAttemptMetadata req)) in
          match Balancer_Select options balancer with
          | None => ((None, Some (ESentinel ErrNoTargets)), w)
          | Some (sel, balancer) =>
              let w := log_event (Selected key (targetAddress (sel_Target sel)))
                (with_balancers (<[key := balancer]> (w_balancers w)) w) in
              selectedRoundTrip next key sel req w
          end
      end
  end.

(** What [NewResilientTransport] builds below the retry transport. *)
Definition resilientChain : Transport :=
  LoadBalancerTransport_RoundTrip (CircuitBreakerTransport_RoundTrip UpstreamTransport_RoundTrip).

(** ** The retry transport over the chain *)

#[export] Instance chain_env : RetryEnv World := {
  env_RoundTrip := resilientChain;
  env_ctxErr w := (base_ctxErr (w_env w), w);
  env_sleep d w := let '(err, e) := base_sleep d (w_env w) in (err, with_env e w);
  env_Int63n n w := let '(r, e) := base_Int63n n (w_env w) in (r, with_env e w);
  env_closeBody body w := match body with RReader id => snd (closeBodyObject id w) | _ => w end;
  env_IncRetry service := with_metrics (IncRetry service);
  env_ObserveRetryDelay service d := with_metrics (ObserveRetryDelay service d);
}.

(** [NewResilientTransport], given a registry of breakers, and a request through it. *)
Definition NewResilientTransport (breakers : Registry G) (metrics : option MetricsRegistry) (e : E) : World :=
  mkWorld breakers ∅ ∅ 0 metrics e [].

Definition Resilient_RoundTrip (fuel : nat) (req : Request) w : Outcome (W := World) :=
  RetryTransport_RoundTrip fuel req w.

End Transport.
