(* ===== verification/TransportTheory.v ===== *)
(** * The resilient transport chain: theorems

    Accounting: every request a breaker admits reports one result to it, and every
    selection is released once, by the time the response body is closed.  Failover: a
    rejected attempt names a target that was not excluded, so the retry loop over the chain
    ends.  Routing: attempts go to the route's own targets. *)

From S2P Require Import Prelude GoStrings GoErrors Config Http Breaker Registry LoadBalancer Fairness Retry Metrics Transport.
From stdpp Require Import options.
#[local] Set Default Proof Using "Type*".

(** ** Sums over a map *)

Definition msum {A} (f : A -> Z) (m : gmap nat A) : Z := map_fold (fun _ x z => f x + z) 0 m.

Lemma msum_empty {A} (f : A -> Z) : msum f ∅ = 0.
Proof. apply map_fold_empty. Qed.

Lemma msum_insert_new {A} (f : A -> Z) (m : gmap nat A) i x :
  m !! i = None -> msum f (<[i := x]> m) = f x + msum f m.
Proof.
  intros Hi. unfold msum. apply (map_fold_insert_L (fun _ x z => f x + z) 0 i x m); [|done].
  intros. lia.
Qed.

Lemma msum_delete {A} (f : A -> Z) (m : gmap nat A) i x :
  m !! i = Some x -> msum f m = f x + msum f (delete i m).
Proof.
  intros Hi. rewrite <- (insert_delete_id m i x Hi) at 1. apply msum_insert_new. apply lookup_delete_eq.
Qed.

Lemma msum_insert {A} (f : A -> Z) (m : gmap nat A) i x y :
  m !! i = Some x -> msum f (<[i := y]> m) = msum f m - f x + f y.
Proof.
  intros Hi. rewrite (msum_delete f m i x Hi), <- insert_delete_eq, msum_insert_new by apply lookup_delete_eq. lia.
Qed.

Lemma msum_alter {A} (f : A -> Z) (m : gmap nat A) i (g : A -> A) x :
  m !! i = Some x -> msum f (alter g i m) = msum f m - f x + f (g x).
Proof.
  intros Hi. replace (alter g i m) with (<[i := g x]> m); [by apply msum_insert|].
  apply map_eq. intros j. destruct (decide (i = j)) as [<-|Hne].
  - by rewrite lookup_insert_eq, lookup_alter_eq, Hi.
  - by rewrite lookup_insert_ne, lookup_alter_ne by done.
Qed.

(** ** What is still owed *)

Fixpoint pendingReport (target : string) (b : Body) : Z :=
  match b with
  | BaseBody _ | NoBody => 0
  | breakerOnReadCloser inner once _ _ t =>
      (if once then 0 else if decide (t = target) then 1 else 0) + pendingReport target inner
  | releaseOnReadCloser inner _ _ _ => pendingReport target inner
  end.

Fixpoint pendingRelease (key : string) (b : Body) : Z :=
  match b with
  | BaseBody _ | NoBody => 0
  | breakerOnReadCloser inner _ _ _ _ => pendingRelease key inner
  | releaseOnReadCloser inner once k _ =>
      (if once then 0 else if decide (k = key) then 1 else 0) + pendingRelease key inner
  end.

Definition count_log (p : TransportEvent -> bool) (log : list TransportEvent) : Z :=
  Z.of_nat (length (List.filter p log)).

Lemma count_log_snoc p log ev : count_log p (log ++ [ev]) = count_log p log + (if p ev then 1 else 0).
Proof. unfold count_log. rewrite List.filter_app, length_app. simpl. destruct (p ev); simpl; lia. Qed.

Definition is_admitted (target : string) (ev : TransportEvent) : bool :=
  match ev with Granted t => bool_decide (t = target) | _ => false end.
Definition is_reported (target : string) (ev : TransportEvent) : bool :=
  match ev with Reported t _ => bool_decide (t = target) | _ => false end.
Definition is_selected (key : string) (ev : TransportEvent) : bool :=
  match ev with Selected k _ => bool_decide (k = key) | _ => false end.
Definition is_released (key : string) (ev : TransportEvent) : bool :=
  match ev with Released k => bool_decide (k = key) | _ => false end.

Section Accounting.
Context {E G : Type} {HBase : BaseEnv E} {HGauge : GaugeVec G} {HProm : Prometheus}.
Variable serviceTargets : gmap string (list Target).
Implicit Types w : World (E := E) (G := G).

(** [admissions] and [selections]: what is owed beyond the reports made and the bodies
    still open. *)
Record accounts (admissions selections : string -> Z) w : Prop := {
  ac_admissions t : count_log (is_admitted t) (w_log w) =
    count_log (is_reported t) (w_log w) + msum (pendingReport t) (w_bodies w) + admissions t;
  ac_selections k : count_log (is_selected k) (w_log w) =
    count_log (is_released k) (w_log w) + msum (pendingRelease k) (w_bodies w) + selections k;
  ac_fresh id : (w_nextBody w <= id)%nat -> w_bodies w !! id = None;
}.

Definition one (x y : string) : Z := if decide (x = y) then 1 else 0.

Lemma accounts_ext a s a' s' w :
  (forall t, a t = a' t) -> (forall k, s k = s' k) -> accounts a s w -> accounts a' s' w.
Proof. intros Ha Hs [H1 H2 H3]. split; [intros; by rewrite <- Ha|intros; by rewrite <- Hs|done]. Qed.

(** An update that leaves the log and the bodies. *)
Lemma accounts_same a s w w' :
  w_log w' = w_log w -> w_bodies w' = w_bodies w -> w_nextBody w' = w_nextBody w ->
  accounts a s w -> accounts a s w'.
Proof. intros Hl Hb Hn [H1 H2 H3]. split; rewrite ?Hl, ?Hb, ?Hn; done. Qed.

Lemma accounts_log_event ev a s w :
  accounts a s w ->
  accounts
    (fun t => a t + (if is_admitted t ev then 1 else 0) - (if is_reported t ev then 1 else 0))
    (fun k => s k + (if is_selected k ev then 1 else 0) - (if is_released k ev then 1 else 0))
    (log_event ev w).
Proof.
  intros [H1 H2 H3]. split; cbn.
  - intros t. rewrite !count_log_snoc, H1. lia.
  - intros k. rewrite !count_log_snoc, H2. lia.
  - done.
Qed.

Lemma sync_log service targets t w :
  let w' := syncOpenCircuitGauge service targets t w in
  w_log w' = w_log w /\ w_bodies w' = w_bodies w /\ w_nextBody w' = w_nextBody w /\
  w_env w' = w_env w /\ w_balancers w' = w_balancers w /\ w_registry w' = w_registry w.
Proof. unfold syncOpenCircuitGauge. by destruct (w_metrics w). Qed.

Lemma accounts_sync service targets t a s w :
  accounts a s w -> accounts a s (syncOpenCircuitGauge service targets t w).
Proof.
  destruct (sync_log service targets t w) as (Hl & Hb & Hn & _). by apply accounts_same.
Qed.

Lemma accounts_record report service targets t a s w :
  accounts a s w ->
  accounts (fun t' => a t' - one t t') s (recordBreaker report service targets t w).
Proof.
  intros Ha.
  assert (forall r w1, w_log w1 = w_log w -> w_bodies w1 = w_bodies w -> w_nextBody w1 = w_nextBody w ->
    accounts (fun t' => a t' - one t t') s (log_event (Reported t r) w1)) as Hrep.
  { intros r w1 Hl Hb Hn. apply (accounts_same _ _ _ w1 Hl Hb Hn) in Ha.
    apply (accounts_log_event (Reported t r)) in Ha. revert Ha. apply accounts_ext; cbn.
    - intros t'. unfold one. case_bool_decide; case_decide; try done; lia.
    - intros. lia. }
  destruct report; cbn [recordBreaker]; unfold recordBreakerSuccess, recordBreakerIgnored, recordBreakerFailure;
    apply accounts_sync; try (by apply Hrep).
  destruct (_ && _); [|by apply Hrep].
  eapply accounts_same; [..|apply Hrep; reflexivity]; reflexivity.
Qed.

Lemma accounts_release key dn a s w :
  accounts a s w -> accounts a (fun k => s k - one key k) (releaseSelection key dn w).
Proof.
  intros Ha. unfold releaseSelection.
  apply (accounts_same _ _ _ (with_balancers (alter (Balancer_Done dn) key (w_balancers w)) w)) in Ha;
    [|done..].
  apply (accounts_log_event (Released key)) in Ha. revert Ha. apply accounts_ext; cbn.
  - intros. lia.
  - intros k. unfold one. case_bool_decide; case_decide; try done; lia.
Qed.

(** ** Bodies *)

Lemma accounts_onceReport (once : bool) report service targets t a s w :
  accounts a s w ->
  accounts (fun t' => a t' - (if once then 0 else one t t')) s (onceReport once report service targets t w).
Proof.
  intros Ha. unfold onceReport. destruct once; [|by apply accounts_record].
  revert Ha. by apply accounts_ext; intros; lia.
Qed.

Lemma accounts_onceRelease (once : bool) key dn a s w :
  accounts a s w ->
  accounts a (fun k => s k - (if once then 0 else one key k)) (onceRelease once key dn w).
Proof.
  intros Ha. unfold onceRelease. destruct once; [|by apply accounts_release].
  revert Ha. by apply accounts_ext; intros; lia.
Qed.

Lemma accounts_env a s w e : accounts a s w -> accounts a s (with_env e w).
Proof. by apply accounts_same. Qed.

(** Reading or closing a body pays what the body no longer owes. *)
Lemma Body_Read_accounts b a s w :
  accounts a s w ->
  let '(_, b', w') := Body_Read b w in
  accounts (fun t => a t + pendingReport t b' - pendingReport t b)
           (fun k => s k + pendingRelease k b' - pendingRelease k b) w'.
Proof.
  revert a s w. induction b as [id| |inner IH once service targets t|inner IH once key dn]; intros a s w Ha.
  - cbn. destruct (base_Read id (w_env w)) as [err e]. apply accounts_env. revert Ha.
    by apply accounts_ext; intros; cbn; lia.
  - cbn. revert Ha. by apply accounts_ext; intros; cbn; lia.
  - cbn [Body_Read]. specialize (IH a s w Ha). destruct (Body_Read inner w) as [[err inner'] w1].
    destruct err as [err|].
    + apply (accounts_onceReport once (if Is (Some err) EOF then Succeeded
        else if isCallerContextError (ctx w1) (Some err) then Ignored else Failed) service targets t) in IH.
      revert IH. apply accounts_ext; intros; cbn; unfold one; destruct once; lia.
    + revert IH. apply accounts_ext; intros; cbn; lia.
  - cbn [Body_Read]. specialize (IH a s w Ha). destruct (Body_Read inner w) as [[err inner'] w1].
    destruct (isEOF err).
    + apply (accounts_onceRelease once key dn) in IH.
      revert IH. apply accounts_ext; intros; cbn; unfold one; destruct once; lia.
    + revert IH. apply accounts_ext; intros; cbn; lia.
Qed.

Lemma Body_Close_accounts b a s w :
  accounts a s w ->
  let '(_, b', w') := Body_Close b w in
  accounts (fun t => a t - pendingReport t b) (fun k => s k - pendingRelease k b) w' /\
  (forall t, pendingReport t b' = 0) /\ (forall k, pendingRelease k b' = 0).
Proof.
  revert a s w. induction b as [id| |inner IH once service targets t|inner IH once key dn]; intros a s w Ha.
  - cbn. destruct (base_Close id (w_env w)) as [err e]. split; [|done]. apply accounts_env. revert Ha.
    by apply accounts_ext; intros; cbn; lia.
  - cbn. split; [|done]. revert Ha. by apply accounts_ext; intros; cbn; lia.
  - cbn [Body_Close]. specialize (IH a s w Ha). destruct (Body_Close inner w) as [[err inner'] w1].
    destruct IH as (IH & Hr & Hk). split; [|split; intros; cbn; [rewrite Hr|rewrite Hk]; done].
    match goal with |- accounts _ _ (onceReport _ ?r _ _ _ _) =>
      apply (accounts_onceReport once r service targets t) in IH end.
    revert IH. apply accounts_ext; intros; cbn; unfold one; destruct once; lia.
  - cbn [Body_Close]. specialize (IH a s w Ha). destruct (Body_Close inner w) as [[err inner'] w1].
    destruct IH as (IH & Hr & Hk). split; [|split; intros; cbn; [rewrite Hr|rewrite Hk]; done].
    apply (accounts_onceRelease once key dn) in IH.
    revert IH. apply accounts_ext; intros; cbn; unfold one; destruct once; lia.
Qed.

Lemma accounts_set_body a s w id b b' :
  w_bodies w !! id = Some b -> accounts a s w ->
  accounts (fun t => a t - pendingReport t b' + pendingReport t b)
           (fun k => s k - pendingRelease k b' + pendingRelease k b)
           (with_bodies (<[id := b']> (w_bodies w)) (w_nextBody w) w).
Proof.
  intros Hb [H1 H2 H3]. split; cbn.
  - intros t. rewrite (msum_insert _ _ _ _ _ Hb), H1. lia.
  - intros k. rewrite (msum_insert _ _ _ _ _ Hb), H2. lia.
  - intros j Hj. rewrite lookup_insert_ne; [by apply H3|]. intros <-. by rewrite (H3 _ Hj) in Hb.
Qed.

Lemma recordBreaker_bodies report service targets t w :
  let w' := recordBreaker report service targets t w in
  w_bodies w' = w_bodies w /\ w_nextBody w' = w_nextBody w /\ w_balancers w' = w_balancers w /\
  w_env w' = w_env w.
Proof.
  destruct report; cbn [recordBreaker]; unfold recordBreakerSuccess, recordBreakerIgnored, recordBreakerFailure;
    try (destruct (_ && _)); match goal with |- context [syncOpenCircuitGauge ?a ?b ?c ?d] =>
      destruct (sync_log a b c d) as (_ & -> & -> & -> & -> & _) end; done.
Qed.

(** Reading and closing leave the table of bodies and the set of balancers. *)
Definition same_tables w w' : Prop :=
  w_bodies w' = w_bodies w /\ w_nextBody w' = w_nextBody w.

Lemma Body_Read_tables b w : same_tables w (snd (Body_Read b w)).
Proof.
  revert w. induction b as [id| |inner IH once service targets t|inner IH once key dn]; intros w; cbn [Body_Read].
  - by destruct (base_Read id (w_env w)).
  - done.
  - specialize (IH w). destruct (Body_Read inner w) as [[err inner'] w1]. destruct err; [|done].
    cbn [snd] in *. unfold onceReport. destruct once; [done|]. destruct IH as [E1 E2].
    split; [rewrite <- E1|rewrite <- E2]; apply recordBreaker_bodies.
  - specialize (IH w). destruct (Body_Read inner w) as [[err inner'] w1].
    destruct (isEOF err); [|done]. by destruct once.
Qed.

Lemma Body_Close_tables b w : same_tables w (snd (Body_Close b w)).
Proof.
  revert w. induction b as [id| |inner IH once service targets t|inner IH once key dn]; intros w; cbn [Body_Close].
  - by destruct (base_Close id (w_env w)).
  - done.
  - specialize (IH w). destruct (Body_Close inner w) as [[err inner'] w1].
    cbn [snd] in *. unfold onceReport. destruct once; [done|]. destruct IH as [E1 E2].
    split; [rewrite <- E1|rewrite <- E2]; apply recordBreaker_bodies.
  - specialize (IH w). destruct (Body_Close inner w) as [[err inner'] w1]. by destruct once.
Qed.

Lemma accounts_readBody a s id w : accounts a s w -> accounts a s (snd (readBody id w)).
Proof.
  intros Ha. unfold readBody. destruct (w_bodies w !! id) as [b|] eqn:Hb; [|done].
  pose proof (Body_Read_accounts b a s w Ha) as Hr. pose proof (Body_Read_tables b w) as [Ht Hn].
  destruct (Body_Read b w) as [[err b'] w1]. cbn [snd] in *. rewrite <- Ht in Hb.
  apply (accounts_set_body _ _ _ _ _ b' Hb) in Hr. revert Hr. apply accounts_ext; intros; lia.
Qed.

Lemma accounts_closeBody a s id w :
  accounts a s w ->
  accounts a s (snd (closeBodyObject id w)) /\
  (forall b t, w_bodies (snd (closeBodyObject id w)) !! id = Some b -> pendingReport t b = 0 /\ pendingRelease t b = 0).
Proof.
  intros Ha. unfold closeBodyObject. destruct (w_bodies w !! id) as [b|] eqn:Hb; [|by split; [|intros b t Hb0; cbn in Hb0; congruence]].
  pose proof (Body_Close_accounts b a s w Ha) as Hr. pose proof (Body_Close_tables b w) as [Ht Hn].
  destruct (Body_Close b w) as [[err b'] w1]. destruct Hr as (Hr & H1 & H2). cbn [snd] in *. split.
  - rewrite <- Ht in Hb. apply (accounts_set_body _ _ _ _ _ b' Hb) in Hr. revert Hr.
    apply accounts_ext; intros; rewrite ?H1, ?H2; lia.
  - intros b0 t. cbn. rewrite lookup_insert_eq. intros [= <-]. by split.
Qed.

(** ** The transports *)

(** The body a response carries is an object of the world. *)
Definition body_known (result : RoundTripResult) w : Prop :=
  forall resp id, fst result = Some resp -> rs_Body resp = RReader id -> is_Some (w_bodies w !! id).

Definition keeps_accounts (next : Transport (E := E) (G := G)) : Prop :=
  forall req a s w, accounts a s w ->
    accounts a s (snd (next req w)) /\ body_known (fst (next req w)) (snd (next req w)).

Lemma upstream_keeps_accounts : keeps_accounts UpstreamTransport_RoundTrip.
Proof.
  intros req a s w Ha. unfold UpstreamTransport_RoundTrip.
  destruct (base_RoundTrip _ (w_env w)) as [[resp err] e].
  destruct err as [err|]; [by split; [apply accounts_env|intros ??]|].
  destruct resp as [resp|]; [|by split; [apply accounts_env|intros ??]].
  destruct (rs_Body resp) as [| |id] eqn:Hb; cbn [fst snd].
  - split; [by apply accounts_env|]. intros r i [= <-]. cbn. discriminate.
  - split; [by apply accounts_env|]. intros r i [= <-]. cbn. discriminate.
  - split.
    + destruct Ha as [H1 H2 H3]. split; cbn.
      * intros t. by rewrite msum_insert_new, H1 by (apply H3; lia).
      * intros k. by rewrite msum_insert_new, H2 by (apply H3; lia).
      * intros j Hj. rewrite lookup_insert_ne by lia. apply H3. lia.
    + intros r i [= <-]. cbn. intros [= <-]. rewrite lookup_insert_eq. by eexists.
Qed.

(** Wrapping a body moves what was owed into the body. *)
Lemma accounts_wrapBody f body a s w :
  accounts a s w -> body <> RNil -> (forall id, body = RReader id -> is_Some (w_bodies w !! id)) ->
  (forall b, (forall t, pendingReport t (f b) = pendingReport t (f NoBody) + pendingReport t b) /\
             (forall k, pendingRelease k (f b) = pendingRelease k (f NoBody) + pendingRelease k b)) ->
  let '(body', w') := wrapBody f body w in
  accounts (fun t => a t - pendingReport t (f NoBody)) (fun k => s k - pendingRelease k (f NoBody)) w' /\
  (forall id, body' = RReader id -> is_Some (w_bodies w' !! id)).
Proof.
  intros [H1 H2 H3] Hnil Hknown Hf. destruct body as [| |id]; [done|..]; cbn [wrapBody].
  - split; [split; cbn|].
    + intros t. rewrite msum_insert_new, H1 by (apply H3; lia). lia.
    + intros k. rewrite msum_insert_new, H2 by (apply H3; lia). lia.
    + intros j Hj. rewrite lookup_insert_ne by lia. apply H3. lia.
    + intros i [= <-]. cbn. rewrite lookup_insert_eq. by eexists.
  - destruct (Hknown id eq_refl) as [b Hb]. destruct (Hf b) as [Hr Hk]. split; [split; cbn|].
    + intros t. rewrite (msum_alter _ _ _ _ _ Hb), H1, Hr. lia.
    + intros k. rewrite (msum_alter _ _ _ _ _ Hb), H2, Hk. lia.
    + intros j Hj. destruct (decide (id = j)) as [<-|Hne].
      * by rewrite (H3 _ Hj) in Hb.
      * rewrite lookup_alter_ne by done. by apply H3.
    + intros i [= <-]. cbn. rewrite lookup_alter_eq, Hb. by eexists.
Qed.

Lemma accounts_metrics f a s w : accounts a s w -> accounts a s (with_metrics f w).
Proof. by apply accounts_same. Qed.

Lemma body_known_none err w : body_known (None, err) w.
Proof. by intros ??. Qed.

Lemma admitted_keeps_accounts next service targets t req a s w :
  keeps_accounts next -> accounts a s w ->
  let r := admittedRoundTrip next service targets t req w in
  accounts (fun t' => a t' - one t t') s (snd r) /\ body_known (fst r) (snd r).
Proof.
  intros Hnext Ha. unfold admittedRoundTrip. destruct (Hnext req a s w Ha) as [Ha1 Hk1].
  destruct (next req w) as [[resp err] w1]. cbn [fst snd] in Ha1, Hk1.
  set (w2 := with_metrics _ w1). assert (accounts a s w2) as Ha2 by by apply accounts_metrics.
  destruct err as [err|].
  { split; [|apply body_known_none]. by apply accounts_record. }
  destruct resp as [resp|]; [|split; [by apply accounts_record|apply body_known_none]].
  destruct (StatusInternalServerError <=? rs_StatusCode resp).
  { split; [by apply accounts_record|]. intros r id [= <-] Hid.
    destruct (recordBreaker_bodies Failed service targets t w2) as (Hb & _). cbn [snd]. rewrite Hb.
    by eapply Hk1. }
  destruct (rs_Body resp) as [| |id] eqn:Hbody.
  { split; [by apply accounts_record|]. by intros r i [= <-]. }
  all: pose proof (accounts_wrapBody (fun inner => breakerOnReadCloser inner false service targets t)
    (rs_Body resp) a s w2 Ha2) as Hw; rewrite Hbody in Hw;
    destruct (wrapBody _ _ w2) as [body w3] eqn:Ew;
    (destruct Hw as [Ha3 Hk3]; [done|by intros i [= <-]; eapply Hk1|
      intros b; split; intros; cbn; repeat case_decide; lia|]); cbn [fst snd];
    (split; [|intros r i [= <-]; cbn; apply Hk3]);
    revert Ha3; apply accounts_ext; intros; cbn; unfold one; try case_decide; lia.
Qed.

Lemma breakerAllow_accounts t a s w :
  accounts a s w ->
  let '(allowed, w') := breakerAllow t w in
  accounts (fun t' => a t' + if allowed then one t t' else 0) s w' /\ w_bodies w' = w_bodies w.
Proof.
  intros Ha. unfold breakerAllow. destruct (r_breakers (w_registry w) !! t) as [b|].
  2: { split; [|done]. revert Ha. apply accounts_ext; intros; lia. }
  destruct (Allow (now w) b) as [allowed [b' calls]]. split; [|done].
  match goal with |- accounts _ _ (log_event _ ?w1) =>
    apply (accounts_same _ _ _ w1) in Ha; [|done..] end.
  apply (accounts_log_event (if allowed then Granted t else Rejected t)) in Ha.
  revert Ha. apply accounts_ext; intros; destruct allowed; cbn; unfold one;
    try case_bool_decide; try case_decide; try done; lia.
Qed.

Lemma breaker_keeps_accounts next :
  keeps_accounts next -> keeps_accounts (CircuitBreakerTransport_RoundTrip serviceTargets next).
Proof.
  intros Hnext req a s w Ha. unfold CircuitBreakerTransport_RoundTrip.
  set (service := routeService req). set (targets := targetsForService _ _ _).
  set (t := if bool_decide (md_target (getAttemptMetadata req) = "") then _ else _).
  destruct (bool_decide (t = "")); [by split; [|apply body_known_none]|].
  set (w1 := with_registry _ w). assert (accounts a s w1) as Ha1 by by apply (accounts_same _ _ w).
  pose proof (breakerAllow_accounts t a s w1 Ha1) as Ha2.
  destruct (breakerAllow t w1) as [allowed w2]. destruct Ha2 as [Ha2 _].
  apply (accounts_sync service targets t) in Ha2.
  destruct allowed; cbn [negb].
  - destruct (admitted_keeps_accounts next service targets t req _ _ _ Hnext Ha2) as [Ha3 Hk3].
    split; [|done]. revert Ha3. apply accounts_ext; intros; lia.
  - split; [|apply body_known_none]. cbn [snd]. revert Ha2. apply accounts_ext; intros; lia.
Qed.

Lemma selected_keeps_accounts next key sel req a s w :
  keeps_accounts next -> accounts a s w ->
  let r := selectedRoundTrip next key sel req w in
  accounts a (fun k => s k - one key k) (snd r) /\ body_known (fst r) (snd r).
Proof.
  intros Hnext Ha. unfold selectedRoundTrip.
  set (outbound := withAttemptMetadata _ _). destruct (Hnext outbound a s w Ha) as [Ha1 Hk1].
  destruct (next outbound w) as [[resp err] w1]. cbn [fst snd] in Ha1, Hk1.
  destruct err as [err|]; [split; [by apply accounts_release|apply body_known_none]|].
  destruct resp as [resp|]; [|split; [by apply accounts_release|apply body_known_none]].
  destruct (rs_Body resp) as [| |id] eqn:Hbody.
  { split; [by apply accounts_release|]. by intros r i [= <-]. }
  all: pose proof (accounts_wrapBody (fun inner => releaseOnReadCloser inner false key (sel_Done sel))
    (rs_Body resp) a s w1 Ha1) as Hw; rewrite Hbody in Hw;
    destruct (wrapBody _ _ w1) as [body w3] eqn:Ew;
    (destruct Hw as [Ha3 Hk3]; [done|by intros i [= <-]; eapply Hk1|
      intros b; split; intros; cbn; repeat case_decide; lia|]); cbn [fst snd];
    (split; [|intros r i [= <-]; cbn; apply Hk3]);
    revert Ha3; apply accounts_ext; intros; cbn; unfold one; try case_decide; lia.
Qed.

Lemma balancer_keeps_accounts next :
  keeps_accounts next -> keeps_accounts (LoadBalancerTransport_RoundTrip next).
Proof.
  intros Hnext req a s w Ha. unfold LoadBalancerTransport_RoundTrip.
  destruct (GetRouteConfig req) as [route|]; [|by split; [|apply body_known_none]].
  destruct (bool_decide (rc_Targets route = [])); [by split; [|apply body_known_none]|].
  assert (forall b w1, balancerFor route w = Some (b, w1) -> accounts a s w1) as Hfor.
  { intros b w1. unfold balancerFor. destruct (w_balancers w !! _); [by intros [= <- <-]|].
    destruct (NewBalancer _ _); cbn; intros [= <- <-]. by apply (accounts_same _ _ w). }
  destruct (balancerFor route w) as [[b w1]|]; [|by split; [|apply body_known_none]].
  specialize (Hfor _ _ eq_refl).
  destruct (Balancer_Select _ b) as [[sel b']|]; [|by split; [|apply body_known_none]].
  set (key := routeBalancerKey route).
  apply (accounts_same _ _ _ (with_balancers (<[key := b']> (w_balancers w1)) w1)) in Hfor; [|done..].
  apply (accounts_log_event (Selected key (targetAddress (sel_Target sel)))) in Hfor.
  destruct (selected_keeps_accounts next key sel req _ _ _ Hnext Hfor) as [Ha2 Hk2].
  split; [|done]. revert Ha2. apply accounts_ext; intros; cbn; unfold one;
    try case_bool_decide; try case_decide; try done; lia.
Qed.

Lemma chain_keeps_accounts : keeps_accounts (resilientChain serviceTargets).
Proof. apply balancer_keeps_accounts, breaker_keeps_accounts, upstream_keeps_accounts. Qed.

End Accounting.

(** ** A session: requests through the retry transport, bodies read and closed *)

Section Session.
Context {E G : Type} {HBase : BaseEnv E} {HGauge : GaugeVec G} {HProm : Prometheus}.
Variable serviceTargets : gmap string (list Target).
Implicit Types w : World (E := E) (G := G).

Inductive session_op :=
  | OpRequest (fuel : nat) (req : Request)
  | OpRead (body : nat)
  | OpClose (body : nat).

Definition session_step w (op : session_op) : World :=
  match op with
  | OpRequest fuel req => st_world (outcome_state (Resilient_RoundTrip serviceTargets fuel req w))
  | OpRead id => snd (readBody id w)
  | OpClose id => snd (closeBodyObject id w)
  end.

Lemma chain_env_keeps (P : Request -> Prop) (I : World -> Prop) :
  (forall req w, P req -> I w -> I (snd (resilientChain serviceTargets req w))) ->
  (forall e w, I w -> I (with_env e w)) ->
  (forall f w, I w -> I (with_metrics f w)) ->
  (forall id w, I w -> I (snd (closeBodyObject id w))) ->
  @env_keeps World (chain_env serviceTargets) P I.
Proof.
  intros Hchain Henv Hmet Hclose. split; intros; cbn; auto.
  - destruct (base_sleep d (w_env w)). by apply Henv.
  - destruct (base_Int63n n (w_env w)). by apply Henv.
  - destruct b; auto.
Qed.

Lemma request_keeps (I : World -> Prop) fuel req w :
  @env_keeps World (chain_env serviceTargets) (fun r => rq_route r = rq_route req) I -> I w ->
  I (st_world (outcome_state (Resilient_RoundTrip serviceTargets fuel req w))).
Proof.
  intros HI Hw. unfold Resilient_RoundTrip, RetryTransport_RoundTrip.
  destruct (GetRouteConfig req) as [route|]; [|done].
  destruct (captureRequestBody req _) as [err|[body hasBody]]; [done|].
  eapply retryLoop_world; [exact HI| |done]. intros s. unfold attemptRequest, cloneAttemptRequest. cbn.
  by destruct hasBody.
Qed.

Lemma session_step_accounts w op :
  accounts (fun _ => 0) (fun _ => 0) w -> accounts (fun _ => 0) (fun _ => 0) (session_step w op).
Proof.
  destruct op as [fuel req|id|id]; cbn [session_step].
  - apply (request_keeps (accounts (fun _ => 0) (fun _ => 0))). apply chain_env_keeps.
    + intros r w0 _ Hw0. by apply chain_keeps_accounts.
    + intros e w0. apply accounts_env.
    + intros f w0. apply accounts_metrics.
    + intros id w0. apply accounts_closeBody.
  - apply accounts_readBody.
  - apply accounts_closeBody.
Qed.

Lemma new_accounts (breakers : Registry G) metrics (e : E) :
  accounts (E := E) (G := G) (fun _ => 0) (fun _ => 0) (NewResilientTransport breakers metrics e).
Proof. split; cbn; intros; rewrite ?msum_empty; done. Qed.

End Session.

(** Every admission is accounted for.  In any session of requests (with all their
    attempts), body reads and body closes, the requests a target's breaker admitted are
    exactly the results reported to it plus the response bodies that will still report one;
    likewise the selections of a balancer are its releases plus the bodies that will still
    release one; and closing a body leaves nothing pending in it.  So no half-open slot and
    no connection count leaks. *)
Lemma admissions_are_accounted {E G} {HBase : BaseEnv E} {HGauge : GaugeVec G} {HProm : Prometheus}
    serviceTargets (breakers : Registry G) metrics (e : E) ops :
  let w := foldl (session_step serviceTargets) (NewResilientTransport breakers metrics e) ops in
  (forall target, count_log (is_admitted target) (w_log w) =
     count_log (is_reported target) (w_log w) + msum (pendingReport target) (w_bodies w)) /\
  (forall key, count_log (is_selected key) (w_log w) =
     count_log (is_released key) (w_log w) + msum (pendingRelease key) (w_bodies w)) /\
  (forall id b x, w_bodies (snd (closeBodyObject id w)) !! id = Some b ->
     pendingReport x b = 0 /\ pendingRelease x b = 0).
Proof.
  intros w.
  assert (accounts (fun _ => 0) (fun _ => 0) w) as [H1 H2 H3].
  { unfold w. apply (foldl_preserves (accounts (fun _ => 0) (fun _ => 0))); [|apply new_accounts].
    intros w0 op. apply session_step_accounts. }
  split_and!; [intros; rewrite H1; lia|intros; rewrite H2; lia|].
  intros id b x. by apply (accounts_closeBody (fun _ => 0) (fun _ => 0) id w).
Qed.

(** ** A breaker body reports once *)

Section BodyReports.
Context {E G : Type} {HBase : BaseEnv E} {HGauge : GaugeVec G} {HProm : Prometheus}.
Implicit Types w : World (E := E) (G := G).

Inductive body_op := BodyRead | BodyClose.

(** What an operation on a breaker body decides, from the error it met and the context at
    that moment; [None]: nothing yet. *)
Definition decides (op : body_op) (err : option error) (c : option (option error)) : option Report :=
  match op, err with
  | BodyRead, None => None
  | BodyRead, Some _ =>
      Some (if Is err EOF then Succeeded else if isCallerContextError c err then Ignored else Failed)
  | BodyClose, Some _ => Some (if isCallerContextError c err then Ignored else Failed)
  | BodyClose, None => Some Ignored
  end.

Definition body_step (op : body_op) (b : Body) w : option error * Body * World :=
  match op with BodyRead => Body_Read b w | BodyClose => Body_Close b w end.

(** The error of one operation on the base reader, and the environment after it. *)
Definition base_step (op : body_op) (id : nat) (e : E) : option error * E :=
  match op with BodyRead => base_Read id e | BodyClose => base_Close id e end.

Definition report_events (target : string) (r : option Report) : list TransportEvent :=
  match r with Some r => [Reported target r] | None => [] end.

(** The first decision of the operations, with the environment it was taken in. *)
Fixpoint first_decision (id : nat) (ops : list body_op) (e : E) : option Report :=
  match ops with
  | [] => None
  | op :: ops =>
      let '(err, e) := base_step op id e in
      match decides op err (Some (base_ctxErr e)) with
      | Some r => Some r
      | None => first_decision id ops e
      end
  end.

Definition body_run (ops : list body_op) (b : Body) w : Body * World :=
  foldl (fun '(b, w) op => let '(_, b, w) := body_step op b w in (b, w)) (b, w) ops.

Lemma recordBreaker_log report service targets t w :
  w_log (recordBreaker report service targets t w) = w_log w ++ [Reported t report].
Proof.
  destruct report; cbn [recordBreaker]; unfold recordBreakerSuccess, recordBreakerIgnored, recordBreakerFailure;
    try (destruct (_ && _)); match goal with |- context [syncOpenCircuitGauge ?a ?b ?c ?d] =>
      destruct (sync_log a b c d) as (-> & _) end; done.
Qed.

Lemma recordBreaker_env report service targets t w :
  w_env (recordBreaker report service targets t w) = w_env w.
Proof. apply recordBreaker_bodies. Qed.

Lemma body_step_breaker op id once service targets t w :
  exists w', body_step op (breakerOnReadCloser (BaseBody id) once service targets t) w =
    (fst (base_step op id (w_env w)),
     breakerOnReadCloser (BaseBody id)
       (match decides op (fst (base_step op id (w_env w))) (Some (base_ctxErr (snd (base_step op id (w_env w))))) with
        | Some _ => true | None => once end) service targets t, w') /\
    w_env w' = snd (base_step op id (w_env w)) /\
    w_log w' = w_log w ++
      (if once then [] else report_events t
        (decides op (fst (base_step op id (w_env w))) (Some (base_ctxErr (snd (base_step op id (w_env w))))))).
Proof.
  destruct op; cbn [body_step Body_Read Body_Close base_step].
  - destruct (base_Read id (w_env w)) as [[err|] e]; cbn [decides].
    + eexists. split; [done|]. unfold onceReport. destruct once; cbn [fst snd].
      * by rewrite app_nil_r.
      * by rewrite recordBreaker_env, recordBreaker_log.
    + eexists. split; [done|]. split; [done|]. destruct once; by rewrite app_nil_r.
  - destruct (base_Close id (w_env w)) as [err e]; cbn [decides fst snd].
    destruct err as [err|]; (eexists; split; [done|]; unfold onceReport; destruct once;
      [by rewrite app_nil_r|by rewrite recordBreaker_env, recordBreaker_log]).
Qed.

Lemma body_run_once ops id service targets t w :
  w_log (snd (body_run ops (breakerOnReadCloser (BaseBody id) true service targets t) w)) = w_log w.
Proof.
  unfold body_run. revert w. induction ops as [|op ops IH]; intros w; cbn [foldl]; [done|].
  destruct (body_step_breaker op id true service targets t w) as (w' & -> & _ & Hlog).
  destruct (decides _ _ _); rewrite IH, Hlog; apply app_nil_r.
Qed.

End BodyReports.

(** The body of an admitted response reports to its breaker at most once, whatever
    reads and closes the client makes of it, and what it reports is the first decision: the
    end of the body is a success, an error is a failure unless the caller's own context
    ended, and a close before the end is neither. *)
Lemma body_reports_first_decision {E G} {HBase : BaseEnv E} {HGauge : GaugeVec G} {HProm : Prometheus}
    ops id service targets t (w : World (E := E) (G := G)) :
  w_log (snd (body_run ops (breakerOnReadCloser (BaseBody id) false service targets t) w)) =
    w_log w ++ report_events t (first_decision id ops (w_env w)).
Proof.
  unfold body_run. revert w. induction ops as [|op ops IH]; intros w; cbn [foldl first_decision].
  { cbn. by rewrite app_nil_r. }
  destruct (body_step_breaker op id false service targets t w) as (w' & -> & Henv & Hlog).
  destruct (base_step op id (w_env w)) as [err e] eqn:Eb. cbn [fst snd] in *.
  destruct (decides op err (Some (base_ctxErr e))) as [r|].
  - rewrite <- Hlog. apply body_run_once.
  - rewrite IH, Hlog, Henv. by rewrite app_nil_r.
Qed.

(** ** Failover over the chain *)

(** [net/http] does not return the gateway's own error types, and [rand.Int63n] answers in
    its range. *)
Class BaseLaws (E : Type) `{BaseEnv E} : Prop := {
  base_own_errors req e resp err e' :
    base_RoundTrip req e = ((resp, Some err), e') ->
    As as_attempt_error (Some err) = None /\ Is (Some err) ErrCircuitOpen = false;
  base_Int63n_range n e : 0 < n -> 0 <= fst (base_Int63n n e) < n;
}.

Lemma targetAddress_nonempty t : targetAddress t <> "".
Proof.
  unfold targetAddress, JoinHostPort. destruct (contains_byte colon (tg_Host t)); [by rewrite ?append_cons|].
  destruct (tg_Host t); by rewrite ?append_nil_l, ?append_cons.
Qed.

Section Failover.
Context {E G : Type} {HBase : BaseEnv E} {HLaws : BaseLaws E} {HGauge : GaugeVec G} {HProm : Prometheus}.
Variable serviceTargets : gmap string (list Target).
Implicit Types w : World (E := E) (G := G).

(** An error of the circuit breaker transport carries no attempt metadata yet, and is a
    rejection only when the breaker did not admit the request. *)
Definition plain_errors (next : Transport (E := E) (G := G)) : Prop :=
  forall req w err, snd (fst (next req w)) = Some err -> As as_attempt_error (Some err) = None.

Lemma upstream_errors req w err :
  snd (fst (UpstreamTransport_RoundTrip req w)) = Some err ->
  As as_attempt_error (Some err) = None /\ Is (Some err) ErrCircuitOpen = false.
Proof.
  unfold UpstreamTransport_RoundTrip.
  destruct (base_RoundTrip _ (w_env w)) as [[resp [err0|]] e] eqn:Eb; cbn.
  - intros [= <-]. by eapply base_own_errors.
  - destruct resp as [resp|]; [|done]. by destruct (rs_Body resp).
Qed.

Lemma admitted_errors service targets t req w err :
  snd (fst (admittedRoundTrip UpstreamTransport_RoundTrip service targets t req w)) = Some err ->
  As as_attempt_error (Some err) = None /\ Is (Some err) ErrCircuitOpen = false.
Proof.
  unfold admittedRoundTrip. pose proof (upstream_errors req w) as Hu.
  destruct (UpstreamTransport_RoundTrip req w) as [[resp [err0|]] w1]; cbn [fst snd] in *.
  { intros [= <-]. by apply Hu. }
  destruct resp as [resp|]; [|by intros [= <-]].
  destruct (_ <=? _); [done|]. destruct (rs_Body resp); [done|..]; by destruct (wrapBody _ _ _).
Qed.

Lemma breaker_plain_errors :
  plain_errors (CircuitBreakerTransport_RoundTrip serviceTargets UpstreamTransport_RoundTrip).
Proof.
  intros req w err. unfold CircuitBreakerTransport_RoundTrip.
  destruct (bool_decide _); [by intros [= <-]|].
  destruct (breakerAllow _ _) as [[] w1]; cbn [negb]; [|by intros [= <-]].
  intros Herr. by apply admitted_errors in Herr as [? _].
Qed.

Lemma selected_target next key sel req w n :
  plain_errors next -> Is (snd (fst (selectedRoundTrip next key sel req w))) ErrCircuitOpen = true ->
  resultTarget (fst (selectedRoundTrip next key sel req w)) n = targetAddress (sel_Target sel).
Proof.
  intros Hp. unfold selectedRoundTrip. set (outbound := withAttemptMetadata _ _).
  pose proof (Hp outbound w) as He.
  destruct (next outbound w) as [[resp err] w1]. cbn [fst snd] in *.
  destruct err as [err|].
  - intros _. cbn [wrapAttemptError]. rewrite (He err eq_refl).
    unfold resultTarget. cbn. by destruct (_ && _).
  - destruct resp as [resp|]; [|done]. destruct (rs_Body resp); [done|..]; by destruct (wrapBody _ _ _).
Qed.

#[export] Instance chain_failover : @FailoverLaws (World (E := E) (G := G)) (chain_env serviceTargets).
Proof.
  split. intros req w result w' n Hrt Hc. cbn in Hrt.
  unfold resilientChain, LoadBalancerTransport_RoundTrip in Hrt.
  destruct (GetRouteConfig req) as [route|]; [|by injection Hrt as <- _].
  destruct (bool_decide _); [by injection Hrt as <- _|].
  destruct (balancerFor route w) as [[b w1]|]; [|by injection Hrt as <- _].
  destruct (Balancer_Select _ b) as [[sel b']|] eqn:Hsel; [|by injection Hrt as <- _].
  apply select_sound in Hsel as (_ & Hex & _).
  match type of Hrt with selectedRoundTrip ?nx ?k _ _ ?w2 = _ =>
    pose proof (selected_target nx k sel req w2 n breaker_plain_errors) as Ht end.
  rewrite Hrt in Ht. cbn [fst snd] in Ht. rewrite (Ht Hc). split; [apply targetAddress_nonempty|].
  unfold isExcluded in Hex. by apply bool_decide_eq_false in Hex.
Qed.

#[export] Instance chain_rand : @RandLaws (World (E := E) (G := G)) (chain_env serviceTargets).
Proof.
  split. intros n w Hn. cbn. pose proof (base_Int63n_range n (w_env w) Hn) as Hr.
  by destruct (base_Int63n n (w_env w)).
Qed.

(** ** Admissions of one call *)

Definition is_admission (ev : TransportEvent) : bool := match ev with Granted _ => true | _ => false end.
Definition admissions w : Z := count_log is_admission (w_log w).

Lemma admissions_log ev w :
  admissions (log_event ev w) = admissions w + (if is_admission ev then 1 else 0).
Proof. apply count_log_snoc. Qed.

Lemma recordBreaker_admissions report service targets t w :
  admissions (recordBreaker report service targets t w) = admissions w.
Proof. unfold admissions. rewrite recordBreaker_log, count_log_snoc. apply Z.add_0_r. Qed.

Lemma sync_admissions service targets t w :
  admissions (syncOpenCircuitGauge service targets t w) = admissions w.
Proof. unfold admissions. by destruct (sync_log service targets t w) as (-> & _). Qed.

Lemma wrapBody_log f body w : w_log (snd (wrapBody f body w)) = w_log w.
Proof. by destruct body. Qed.

Lemma upstream_log req w : w_log (snd (UpstreamTransport_RoundTrip req w)) = w_log w.
Proof.
  unfold UpstreamTransport_RoundTrip. destruct (base_RoundTrip _ _) as [[[resp|] [err|]] e]; try done.
  by destruct (rs_Body resp).
Qed.

Lemma admitted_admissions service targets t req w :
  admissions (snd (admittedRoundTrip UpstreamTransport_RoundTrip service targets t req w)) = admissions w.
Proof.
  unfold admittedRoundTrip. pose proof (upstream_log req w) as Hl.
  destruct (UpstreamTransport_RoundTrip req w) as [[resp err] w1]. cbn [snd] in Hl.
  set (w2 := with_metrics _ w1). assert (admissions w2 = admissions w) as Ha
    by (unfold admissions; cbn; by rewrite Hl).
  destruct err as [err|]; [cbn [snd]; by rewrite recordBreaker_admissions|].
  destruct resp as [resp|]; [|cbn [snd]; by rewrite recordBreaker_admissions].
  destruct (_ <=? _); [cbn [snd]; by rewrite recordBreaker_admissions|].
  destruct (rs_Body resp) eqn:Hb; [cbn [snd]; by rewrite recordBreaker_admissions|..].
  all: match goal with |- context [wrapBody ?f ?b ?v] => pose proof (wrapBody_log f b v) as Hw;
    destruct (wrapBody f b v) as [body w3] end; cbn [snd] in *; unfold admissions in *; by rewrite Hw.
Qed.

(** One attempt admits at most one request, and none when it is rejected. *)
Lemma breaker_admissions req w :
  let r := CircuitBreakerTransport_RoundTrip serviceTargets UpstreamTransport_RoundTrip req w in
  admissions (snd r) <= admissions w + (if Is (snd (fst r)) ErrCircuitOpen then 0 else 1).
Proof.
  unfold CircuitBreakerTransport_RoundTrip. set (service := routeService req).
  set (t := if bool_decide (md_target (getAttemptMetadata req) = "") then _ else _).
  set (targets := targetsForService _ _ _).
  destruct (bool_decide (t = "")); [cbn [fst snd]; destruct (Is _ _); lia|].
  set (w1 := with_registry _ w).
  assert (forall allowed w2, breakerAllow t w1 = (allowed, w2) ->
    admissions w2 <= admissions w + (if allowed then 1 else 0)) as Hallow.
  { intros allowed w2. unfold breakerAllow. destruct (r_breakers (w_registry w1) !! t);
      [|intros [= <- <-]; change (admissions w1) with (admissions w); lia].
    destruct (Allow (now w1) b) as [a [b' calls]]. intros [= <- <-]. rewrite admissions_log.
    change (admissions (with_registry _ w1)) with (admissions w). by destruct a. }
  destruct (breakerAllow t w1) as [[] w2]; specialize (Hallow _ _ eq_refl); cbn [negb].
  - pose proof (admitted_errors service targets t req (syncOpenCircuitGauge service targets t w2)) as He.
    rewrite admitted_admissions, sync_admissions.
    cbv match in Hallow.
    destruct (snd (fst _)) as [err|]; [|change (Is None ErrCircuitOpen) with false; cbv match; lia].
    destruct (He _ eq_refl) as [_ ->]. cbv match. lia.
  - cbv match in Hallow. cbn [fst snd]. rewrite sync_admissions.
    change (Is (Some (ESentinel ErrCircuitOpen)) ErrCircuitOpen) with true. cbv match. lia.
Qed.

(** Wrapping an error in its attempt keeps what it is. *)
Lemma wrapAttemptError_Is err m s : Is (wrapAttemptError err m) s = Is err s.
Proof.
  destruct err as [err|]; [|done]. cbn [wrapAttemptError]. by destruct (As as_attempt_error _).
Qed.

Lemma selected_admissions key sel req w :
  let r := selectedRoundTrip (CircuitBreakerTransport_RoundTrip serviceTargets UpstreamTransport_RoundTrip) key sel req w in
  admissions (snd r) <= admissions w + (if Is (snd (fst r)) ErrCircuitOpen then 0 else 1).
Proof.
  unfold selectedRoundTrip. set (outbound := withAttemptMetadata _ _).
  pose proof (breaker_admissions outbound w) as Hb. cbv zeta in Hb.
  destruct (CircuitBreakerTransport_RoundTrip serviceTargets _ outbound w) as [[resp err] w1].
  cbn [fst snd] in Hb.
  assert (forall k dn, admissions (releaseSelection k dn w1) = admissions w1) as Hrel.
  { intros k dn. unfold releaseSelection. rewrite admissions_log. apply Z.add_0_r. }
  destruct err as [err|]; [cbn [fst snd]; by rewrite wrapAttemptError_Is, Hrel|].
  change (Is None ErrCircuitOpen) with false in Hb.
  destruct resp as [resp|]; [|cbn [fst snd]; rewrite wrapAttemptError_Is, Hrel; exact Hb].
  destruct (rs_Body resp); [cbn [fst snd]; rewrite Hrel; exact Hb|..].
  all: match goal with |- context [wrapBody ?f ?b ?v] => pose proof (wrapBody_log f b v) as Hw;
    destruct (wrapBody f b v) as [body w3] end; cbn [fst snd] in *; unfold admissions in *; rewrite Hw; exact Hb.
Qed.

Lemma chain_admissions req w :
  let r := resilientChain serviceTargets req w in
  admissions (snd r) <= admissions w + (if Is (snd (fst r)) ErrCircuitOpen then 0 else 1).
Proof.
  unfold resilientChain, LoadBalancerTransport_RoundTrip.
  destruct (GetRouteConfig req) as [route|]; [|cbn [fst snd]; destruct (Is _ _); lia].
  destruct (bool_decide _); [cbn [fst snd]; destruct (Is _ _); lia|].
  assert (forall b w1, balancerFor route w = Some (b, w1) -> admissions w1 = admissions w) as Hfor.
  { intros b w1. unfold balancerFor. destruct (w_balancers w !! _); [by intros [= <- <-]|].
    destruct (NewBalancer _ _); cbn; by intros [= <- <-]. }
  destruct (balancerFor route w) as [[b w1]|]; [|cbn [fst snd]; destruct (Is _ _); lia]. specialize (Hfor _ _ eq_refl).
  destruct (Balancer_Select _ b) as [[sel b']|]; [|cbn [fst snd]; destruct (Is _ _); lia].
  match goal with |- context [selectedRoundTrip _ ?k sel req ?w2] =>
    pose proof (selected_admissions k sel req w2) as Hs;
    assert (admissions w2 = admissions w1) as Hw2 by (rewrite admissions_log; apply Z.add_0_r) end.
  cbv zeta in *. lia.
Qed.

Lemma Body_Close_admissions b w : admissions (snd (Body_Close b w)) = admissions w.
Proof.
  revert w. induction b as [id| |inner IH once service targets t|inner IH once key dn]; intros w; cbn [Body_Close].
  - by destruct (base_Close id (w_env w)).
  - done.
  - specialize (IH w). destruct (Body_Close inner w) as [[err inner'] w1]. cbn [snd] in *.
    unfold onceReport. destruct once; [done|]. by rewrite recordBreaker_admissions.
  - specialize (IH w). destruct (Body_Close inner w) as [[err inner'] w1]. cbn [snd] in *.
    destruct once; [done|]. unfold onceRelease, releaseSelection. rewrite admissions_log, Z.add_0_r. done.
Qed.

Lemma close_admissions id w : admissions (snd (closeBodyObject id w)) = admissions w.
Proof.
  unfold closeBodyObject. destruct (w_bodies w !! id) as [b|]; [|done].
  pose proof (Body_Close_admissions b w) as Hc. by destruct (Body_Close b w) as [[err b'] w1].
Qed.

Lemma chain_pays : @env_pays World (chain_env serviceTargets) admissions.
Proof.
  split; intros; cbn; try reflexivity.
  - apply chain_admissions.
  - by destruct (base_sleep d (w_env w)).
  - by destruct (base_Int63n n (w_env w)).
  - destruct b; [done|done|]. by rewrite close_admissions.
Qed.

End Failover.

(** C1: a client request through the whole chain ends, and is bounded: it returns after at
    most [maxAttempts * (targets + 1)] attempts, of which the breakers admit at most
    [maxAttempts] to an upstream, and at most one when the method is not retryable: a POST
    is never sent twice, whatever fails over or is retried. *)
Theorem request_ends_and_is_bounded {E G} {HBase : BaseEnv E} {HLaws : BaseLaws E} {HGauge : GaugeVec G}
    {HProm : Prometheus} serviceTargets req route (w : World (E := E) (G := G)) fuel :
  rq_route req = Some route -> int64_retry (rc_Retry route) ->
  let policy := normalizeRetryPolicy (rc_Retry route) (isRetryableMethod (rq_Method req)) in
  rp_maxDelay policy < int64_max ->
  rp_maxAttempts policy * (uniqueTargetCount (rc_Targets route) + 1) <= Z.of_nat fuel ->
  exists result s,
    Resilient_RoundTrip serviceTargets fuel req w = Return result s /\
    admissions (st_world s) <= admissions w + rp_maxAttempts policy /\
    (isRetryableMethod (rq_Method req) = false -> admissions (st_world s) <= admissions w + 1).
Proof.
  intros Hroute H64 policy Hmax Hfuel.
  destruct (@retry_ends _ (chain_env serviceTargets) (chain_failover serviceTargets) req route w fuel Hroute H64 Hmax Hfuel)
    as (result & s & Hret).
  exists result, s. split; [exact Hret|].
  destruct (@retry_bounds _ (chain_env serviceTargets) (chain_rand serviceTargets) req route w fuel Hroute H64)
    as (Hf & _ & _ & Hone).
  rewrite Hret in Hf, Hone. cbn [outcome_state] in Hf, Hone.
  assert (admissions (st_world s) - count_events is_forwarded (st_trace s) <= admissions w) as Hp.
  { unfold Resilient_RoundTrip, RetryTransport_RoundTrip in Hret.
    destruct (GetRouteConfig req) as [route'|]; [|injection Hret as <- <-; by rewrite Z.sub_0_r].
    destruct (captureRequestBody req _) as [err|[body hasBody]]; [injection Hret as <- <-; by rewrite Z.sub_0_r|].
    pose proof (@retryLoop_pays _ (chain_env serviceTargets) admissions fuel (newRetryCall req route' body hasBody)
      (initialState w) (chain_pays serviceTargets)) as Hpay.
    rewrite Hret in Hpay. unfold unpaid in Hpay. cbn [outcome_state st_world st_trace initialState] in Hpay.
    change (count_events is_forwarded []) with 0 in Hpay. lia. }
  split; [fold policy in Hf; lia|]. intros Hm. specialize (Hone Hm). lia.
Qed.
