(* ===== verification/TransportTargets.v ===== *)
(** * The resilient transport chain: targets, keys and gauges

    The key a balancer is stored under determines the route's targets, so attempts stay on
    the route's own targets; the targets of a service are the union of its routes'; the
    gauge of open circuits counts distinct targets; and a request whose circuit is open
    never reaches an upstream. *)

From S2P Require Import Prelude GoStrings GoErrors Config Http Breaker Registry LoadBalancer Fairness Retry Metrics Transport TransportTheory.
From stdpp Require Import options.
#[local] Set Default Proof Using "Type*".

(** ** Balancer keys *)

Definition bar : ascii := byte 124.

(** No vertical bar in the service, the strategy or a host. *)
Record bar_free (route : RouteConfig) : Prop := {
  bf_service : contains_byte bar (rc_Service route) = false;
  bf_strategy : contains_byte bar (rc_LoadBalancer route) = false;
  bf_hosts : Forall (fun t => contains_byte bar (tg_Host t) = false) (rc_Targets route);
}.

(** What follows the bar of one target. *)
Definition targetSegment (t : Target) : string :=
  (tg_Host t +:+ String colon (Itoa (tg_Port t))) +:+ String (byte 64) (Itoa (tg_Weight t)).

Lemma targetKey_segment t s : targetKey t +:+ s = String bar (targetSegment t +:+ s).
Proof.
  unfold targetKey, targetSegment. change "|" with (String bar ""). change ":" with (String colon "").
  change "@" with (String (byte 64) "").
  repeat (rewrite append_cons || rewrite append_nil_l || rewrite append_assoc). done.
Qed.

Lemma targetSegment_inj t1 t2 : targetSegment t1 = targetSegment t2 -> t1 = t2.
Proof.
  intros Heq. apply append_sep_inj_r in Heq as [Hhp Hw]; [|by apply Itoa_no_byte..].
  apply append_sep_inj_r in Hhp as [Hh Hp]; [|by apply Itoa_no_byte..].
  apply (inj Itoa) in Hw, Hp. destruct t1, t2; cbn in *; congruence.
Qed.

Lemma targetSegment_bar t : contains_byte bar (tg_Host t) = false -> contains_byte bar (targetSegment t) = false.
Proof.
  intros Hh. unfold targetSegment. rewrite !contains_byte_append, Hh. cbn.
  by rewrite !Itoa_no_byte by done.
Qed.

Definition targetsKey (ts : list Target) : string := foldr (fun t s => targetKey t +:+ s) "" ts.

Lemma targetsKey_starts ts : starts_with bar (targetsKey ts).
Proof. destruct ts as [|t ts]; [by left|right]. cbn. rewrite targetKey_segment. by eexists. Qed.

Lemma targetsKey_inj ts1 ts2 :
  Forall (fun t => contains_byte bar (tg_Host t) = false) ts1 ->
  Forall (fun t => contains_byte bar (tg_Host t) = false) ts2 ->
  targetsKey ts1 = targetsKey ts2 -> ts1 = ts2.
Proof.
  intros H1. revert ts2. induction H1 as [|t1 ts1 Ht1 _ IH]; intros [|t2 ts2] H2; cbn; rewrite ?targetKey_segment; [done..|].
  apply Forall_cons in H2 as [Ht2 H2]. intros [= Heq].
  apply (append_sep_inj bar) in Heq as [Hseg Hrest]; [|by apply targetSegment_bar..|by apply targetsKey_starts|by apply targetsKey_starts].
  apply targetSegment_inj in Hseg as ->. f_equal. by apply IH.
Qed.

(** The lemma behind [balancer_keys_injective]. *)
Lemma routeBalancerKey_inj r1 r2 :
  bar_free r1 -> bar_free r2 -> routeBalancerKey r1 = routeBalancerKey r2 ->
  rc_Service r1 = rc_Service r2 /\ rc_LoadBalancer r1 = rc_LoadBalancer r2 /\ rc_Targets r1 = rc_Targets r2.
Proof.
  intros [S1 L1 T1] [S2 L2 T2]. unfold routeBalancerKey. change "|" with (String bar "").
  rewrite !append_cons, !append_nil_l. intros Heq.
  apply (append_sep_inj bar) in Heq as [Hs Heq]; [|done|done|right; by eexists|right; by eexists].
  injection Heq as Heq.
  apply (append_sep_inj bar) in Heq as [Hl Ht]; [|done|done|apply targetsKey_starts|apply targetsKey_starts].
  split_and!; [done|done|by apply targetsKey_inj].
Qed.

(** Routes whose service, strategy and hosts hold no vertical bar share a balancer only
    when they have the same service, the same strategy and the same targets, weights and
    order included. *)
Lemma balancer_keys_injective r1 r2 :
  bar_free r1 -> bar_free r2 -> routeBalancerKey r1 = routeBalancerKey r2 ->
  rc_Service r1 = rc_Service r2 /\ rc_LoadBalancer r1 = rc_LoadBalancer r2 /\ rc_Targets r1 = rc_Targets r2.
Proof. apply routeBalancerKey_inj. Qed.

Lemma balancer_keys_injective_witness :
  bar_free demo_route /\ rc_Targets demo_route = rc_Targets demo_route.
Proof.
  assert (bar_free demo_route) as Hb by (split; [reflexivity|reflexivity|repeat constructor]).
  split; [exact Hb|]. exact (proj2 (proj2 (balancer_keys_injective demo_route demo_route Hb Hb eq_refl))).
Defined.

(** A bar in a host makes two routes with different targets share a balancer. *)
Lemma balancer_keys_collide :
  let r1 := mkRouteConfig "/a" "" "s" [] false 0 None (mkRetryConfig 0 0 0 "")
              [mkTarget "x:1@1|y" 2 1] "round_robin" in
  let r2 := mkRouteConfig "/b" "" "s" [] false 0 None (mkRetryConfig 0 0 0 "")
              [mkTarget "x" 1 1; mkTarget "y" 2 1] "round_robin" in
  routeBalancerKey r1 = routeBalancerKey r2 /\ rc_Targets r1 <> rc_Targets r2.
Proof. split; [by vm_compute|done]. Qed.

(** ** Attempts stay on the route's targets *)

Section Targets.
Context {E G : Type} {HBase : BaseEnv E} {HGauge : GaugeVec G} {HProm : Prometheus}.
Variable serviceTargets : gmap string (list Target).
Implicit Types w : World (E := E) (G := G).

(** Every balancer was built for the targets of a route with its key, and every selection
    was one of the targets of such a route. *)
Definition keyed (routes : RouteConfig -> Prop) w : Prop :=
  (forall key b, w_balancers w !! key = Some b -> exists route,
     routes route /\ routeBalancerKey route = key /\ Balancer_targets b = rc_Targets route) /\
  (forall key addr, Selected key addr ∈ w_log w -> exists route,
     routes route /\ routeBalancerKey route = key /\ addr ∈ targetAddress <$> rc_Targets route).

Lemma keyed_same routes w w' :
  w_balancers w' = w_balancers w -> (forall k a, Selected k a ∈ w_log w' -> Selected k a ∈ w_log w) ->
  keyed routes w -> keyed routes w'.
Proof. intros Hb Hl [H1 H2]. split; [by rewrite Hb|]. intros k a Ha. by apply H2, Hl. Qed.

Lemma NewBalancer_targets strategy targets b :
  NewBalancer strategy targets = Some b -> Balancer_targets b = targets.
Proof.
  unfold NewBalancer. repeat case_bool_decide; intros [= <-]; cbn; [done|..];
    unfold NewWeighted, NewLeastConn; rewrite <- list_fmap_compose; apply list_fmap_id.
Qed.

Lemma keyed_release routes key dn w : keyed routes w -> keyed routes (releaseSelection key dn w).
Proof.
  intros [H1 H2]. split; cbn.
  - intros k b. destruct (decide (key = k)) as [<-|Hne].
    + rewrite lookup_alter_eq. destruct (w_balancers w !! key) as [b0|] eqn:Hb; [|done]. intros [= <-].
      destruct (H1 _ _ Hb) as (route & ? & ? & Ht). exists route. split_and!; [done|done|].
      rewrite <- Ht. apply (release_targets (BalancerLaws := Balancer_laws)).
    + rewrite lookup_alter_ne by done. apply H1.
  - intros k a [Ha|Ha]%elem_of_app; [by apply H2|]. by apply list_elem_of_singleton in Ha.
Qed.

Lemma keyed_record routes report service targets t w :
  keyed routes w -> keyed routes (recordBreaker report service targets t w).
Proof.
  apply keyed_same; [apply recordBreaker_bodies|]. intros k a. rewrite recordBreaker_log.
  intros [Ha|Ha]%elem_of_app; [done|]. by apply list_elem_of_singleton in Ha.
Qed.

Lemma keyed_env routes e w : keyed routes w -> keyed routes (with_env e w).
Proof. by apply keyed_same. Qed.

Lemma keyed_wrap routes f body w : keyed routes w -> keyed routes (snd (wrapBody f body w)).
Proof. apply keyed_same; by destruct body. Qed.

Lemma keyed_bodies routes m n w : keyed routes w -> keyed routes (with_bodies m n w).
Proof. by apply keyed_same. Qed.

Lemma keyed_Body_Read routes b w : keyed routes w -> keyed routes (snd (Body_Read b w)).
Proof.
  revert w. induction b as [id| |inner IH once service targets t|inner IH once key dn]; intros w Hw; cbn [Body_Read].
  - destruct (base_Read id (w_env w)). by apply keyed_env.
  - done.
  - specialize (IH w Hw). destruct (Body_Read inner w) as [[err inner'] w1]. destruct err; [|done].
    cbn [snd] in *. unfold onceReport. destruct once; [done|by apply keyed_record].
  - specialize (IH w Hw). destruct (Body_Read inner w) as [[err inner'] w1].
    destruct (isEOF err); [|done]. cbn [snd] in *. destruct once; [done|by apply keyed_release].
Qed.

Lemma keyed_Body_Close routes b w : keyed routes w -> keyed routes (snd (Body_Close b w)).
Proof.
  revert w. induction b as [id| |inner IH once service targets t|inner IH once key dn]; intros w Hw; cbn [Body_Close].
  - destruct (base_Close id (w_env w)). by apply keyed_env.
  - done.
  - specialize (IH w Hw). destruct (Body_Close inner w) as [[err inner'] w1].
    cbn [snd] in *. unfold onceReport. destruct once; [done|by apply keyed_record].
  - specialize (IH w Hw). destruct (Body_Close inner w) as [[err inner'] w1].
    cbn [snd] in *. destruct once; [done|by apply keyed_release].
Qed.

Lemma keyed_read routes id w : keyed routes w -> keyed routes (snd (readBody id w)).
Proof.
  intros Hw. unfold readBody. destruct (w_bodies w !! id) as [b|]; [|done].
  pose proof (keyed_Body_Read routes b w Hw) as Hb. destruct (Body_Read b w) as [[err b'] w1].
  by apply keyed_bodies.
Qed.

Lemma keyed_close routes id w : keyed routes w -> keyed routes (snd (closeBodyObject id w)).
Proof.
  intros Hw. unfold closeBodyObject. destruct (w_bodies w !! id) as [b|]; [|done].
  pose proof (keyed_Body_Close routes b w Hw) as Hb. destruct (Body_Close b w) as [[err b'] w1].
  by apply keyed_bodies.
Qed.

Lemma keyed_sync routes service targets t w :
  keyed routes w -> keyed routes (syncOpenCircuitGauge service targets t w).
Proof.
  destruct (sync_log service targets t w) as (Hl & _ & _ & _ & Hb & _).
  apply keyed_same; [done|]. by rewrite Hl.
Qed.

Definition keeps_keyed (next : Transport (E := E) (G := G)) : Prop :=
  forall routes req w, keyed routes w -> keyed routes (snd (next req w)).

Lemma upstream_keyed : keeps_keyed UpstreamTransport_RoundTrip.
Proof.
  intros routes req w Hw. unfold UpstreamTransport_RoundTrip.
  destruct (base_RoundTrip _ _) as [[[resp|] [err|]] e]; cbn [snd]; try by apply keyed_env.
  by destruct (rs_Body resp).
Qed.

Lemma breaker_keyed : keeps_keyed (CircuitBreakerTransport_RoundTrip serviceTargets UpstreamTransport_RoundTrip).
Proof.
  intros routes req w Hw. unfold CircuitBreakerTransport_RoundTrip.
  set (service := routeService req). set (targets := targetsForService _ _ _).
  set (t := if bool_decide (md_target (getAttemptMetadata req) = "") then _ else _).
  destruct (bool_decide (t = "")); [done|]. set (w1 := with_registry _ w).
  assert (forall allowed w2, breakerAllow t w1 = (allowed, w2) ->
    keyed routes (syncOpenCircuitGauge service targets t w2)) as Hallow.
  { intros allowed w2. unfold breakerAllow. destruct (r_breakers (w_registry w1) !! t) as [b|].
    - destruct (Allow (now w1) b) as [a [b' calls]]. intros [= <- <-]. apply keyed_sync.
      revert Hw. apply keyed_same; [done|]. cbn. intros k x [Hx|Hx]%elem_of_app; [exact Hx|].
      apply list_elem_of_singleton in Hx. by destruct a.
    - intros [= <- <-]. apply keyed_sync. revert Hw. by apply keyed_same. }
  destruct (breakerAllow t w1) as [[] w2]; specialize (Hallow _ _ eq_refl); cbn [negb]; [|done].
  unfold admittedRoundTrip. pose proof (upstream_keyed routes req _ Hallow) as Hu.
  destruct (UpstreamTransport_RoundTrip req _) as [[resp err] w3]. cbn [snd] in Hu.
  apply (keyed_same _ _ (with_metrics (ObserveUpstreamDuration service
    (SubTime (now w3) (now (syncOpenCircuitGauge service targets t w2)))) w3)) in Hu; [|done|done].
  destruct err as [err|]; [by apply keyed_record|].
  destruct resp as [resp|]; [|by apply keyed_record].
  destruct (_ <=? _); [by apply keyed_record|].
  destruct (rs_Body resp); [by apply keyed_record|..].
  all: match goal with |- context [wrapBody ?f ?b ?v] => pose proof (keyed_wrap routes f b v Hu) as Hv;
    destruct (wrapBody f b v) as [body w4] end; done.
Qed.

Lemma chain_keyed (routes : RouteConfig -> Prop) req route w :
  (forall r, routes r -> bar_free r) -> rq_route req = Some route -> routes route ->
  keyed routes w -> keyed routes (snd (resilientChain serviceTargets req w)).
Proof.
  intros Hbf Hroute HR Hw. unfold resilientChain, LoadBalancerTransport_RoundTrip, GetRouteConfig.
  rewrite Hroute. destruct (bool_decide _); [done|].
  destruct (balancerFor route w) as [[b w1]|] eqn:Hfor; [|done].
  assert (keyed routes w1 /\ Balancer_targets b = rc_Targets route) as [Hw1 Hb].
  { unfold balancerFor in Hfor. destruct (w_balancers w !! routeBalancerKey route) as [b0|] eqn:Hl.
    - injection Hfor as -> ->. split; [done|]. destruct Hw as [H1 _].
      destruct (H1 _ _ Hl) as (r & Hr & Hk & ->).
      by apply (routeBalancerKey_inj r route) in Hk as (_ & _ & ->); [..|apply Hbf|apply Hbf].
    - destruct (NewBalancer _ _) as [b0|] eqn:Hn; [|done]. cbn in Hfor. injection Hfor as <- <-.
      apply NewBalancer_targets in Hn. split; [|done]. destruct Hw as [H1 H2]. split; [|done].
      intros k b1. cbn. destruct (decide (routeBalancerKey route = k)) as [<-|Hne].
      + rewrite lookup_insert_eq. intros [= <-]. by exists route.
      + rewrite lookup_insert_ne by done. apply H1. }
  destruct (Balancer_Select _ b) as [[sel b']|] eqn:Hsel; [|done].
  apply select_sound in Hsel as (Hin & _ & Hb').
  set (w2 := log_event _ _). assert (keyed routes w2) as Hw2.
  { destruct Hw1 as [H1 H2]. split; cbn.
    - intros k b1. destruct (decide (routeBalancerKey route = k)) as [<-|Hne].
      + rewrite lookup_insert_eq. intros [= <-]. exists route. split_and!; [done|done|congruence].
      + rewrite lookup_insert_ne by done. apply H1.
    - intros k a [Ha|Ha]%elem_of_app; [by apply H2|]. apply list_elem_of_singleton in Ha. injection Ha as -> ->.
      exists route. split_and!; [done|done|]. rewrite <- Hb. by apply list_elem_of_fmap_2. }
  unfold selectedRoundTrip. set (outbound := withAttemptMetadata _ _).
  pose proof (breaker_keyed routes outbound w2 Hw2) as Hn.
  destruct (CircuitBreakerTransport_RoundTrip _ _ outbound w2) as [[resp err] w3]. cbn [snd] in Hn.
  destruct err as [err|]; [by apply keyed_release|].
  destruct resp as [resp|]; [|by apply keyed_release].
  destruct (rs_Body resp); [by apply keyed_release|..].
  all: match goal with |- context [wrapBody ?f ?b ?v] => pose proof (keyed_wrap routes f b v Hn) as Hv;
    destruct (wrapBody f b v) as [body w4] end; done.
Qed.

(** The routes of a session's requests. *)
Definition session_route (ops : list session_op) (route : RouteConfig) : Prop :=
  exists fuel req, OpRequest fuel req ∈ ops /\ rq_route req = Some route.

Lemma session_step_keyed (routes : RouteConfig -> Prop) w op :
  (forall r, routes r -> bar_free r) ->
  (forall fuel req route, op = OpRequest fuel req -> rq_route req = Some route -> routes route) ->
  keyed routes w -> keyed routes (session_step serviceTargets w op).
Proof.
  intros Hbf Hop Hw. destruct op as [fuel req|id|id]; cbn [session_step].
  - destruct (rq_route req) as [route|] eqn:Hroute.
    + apply (request_keeps serviceTargets (keyed routes)); [|done]. apply chain_env_keeps.
      * intros r w0 Hr Hw0. rewrite Hroute in Hr. by eapply chain_keyed; eauto.
      * intros e w0. apply keyed_env.
      * intros f w0. by apply keyed_same.
      * intros id w0. apply keyed_close.
    + unfold Resilient_RoundTrip, RetryTransport_RoundTrip, GetRouteConfig. by rewrite Hroute.
  - by apply keyed_read.
  - by apply keyed_close.
Qed.

End Targets.

(** Attempts stay on their route: in any session, whatever the retries and failovers,
    every target that was selected is a target of a route with the balancer's key, one of
    the routes of the session's own requests. *)
Lemma selections_stay_on_route {E G} {HBase : BaseEnv E} {HGauge : GaugeVec G} {HProm : Prometheus}
    serviceTargets (breakers : Registry G) metrics (e : E) ops key addr :
  (forall route, session_route ops route -> bar_free route) ->
  let w := foldl (session_step serviceTargets) (NewResilientTransport breakers metrics e) ops in
  Selected key addr ∈ w_log w ->
  exists route, session_route ops route /\ routeBalancerKey route = key /\
    addr ∈ targetAddress <$> rc_Targets route.
Proof.
  intros Hbf w Hsel.
  assert (keyed (session_route ops) w) as [_ H]; [|by apply H].
  assert (forall ops' w0, (forall op, op ∈ ops' -> op ∈ ops) -> keyed (session_route ops) w0 ->
    keyed (session_route ops) (foldl (session_step serviceTargets) w0 ops')) as Hfold.
  { induction ops' as [|op ops' IH]; intros w0 Hsub Hw0; cbn [foldl]; [done|].
    apply IH; [set_solver|]. apply session_step_keyed; [done| |done].
    intros fuel req route -> Hr. exists fuel, req. split; [set_solver|done]. }
  apply Hfold; [done|]. split; cbn; [by intros ?? ?|by intros ?? ?%elem_of_nil].
Qed.

(** ** The targets of a service *)

Lemma addServiceTargets_spec targets seen acc :
  seen = list_to_set (targetAddress <$> acc) -> NoDup (targetAddress <$> acc) ->
  let '(seen', ts) := addServiceTargets seen acc targets in
  seen' = list_to_set (targetAddress <$> ts) /\ NoDup (targetAddress <$> ts) /\
  (forall a, a ∈ targetAddress <$> ts <-> a ∈ targetAddress <$> acc \/ a ∈ targetAddress <$> targets).
Proof.
  revert seen acc. induction targets as [|t targets IH]; intros seen acc Hseen Hnd; cbn [addServiceTargets].
  { split_and!; [done|done|]. intros a. cbn. set_solver. }
  case_bool_decide as Hin.
  - specialize (IH seen acc Hseen Hnd). destruct (addServiceTargets seen acc targets) as [seen' ts].
    destruct IH as (-> & ? & IH). split_and!; [done|done|]. intros a. rewrite IH, fmap_cons, elem_of_cons.
    rewrite Hseen, elem_of_list_to_set in Hin. naive_solver.
  - specialize (IH ({[targetAddress t]} ∪ seen) (acc ++ [t])).
    destruct (addServiceTargets _ (acc ++ [t]) targets) as [seen' ts].
    rewrite Hseen, elem_of_list_to_set in Hin.
    destruct IH as (-> & ? & IH).
    { rewrite Hseen, fmap_app, list_to_set_app_L. cbn. set_solver. }
    { rewrite fmap_app. apply NoDup_app. split_and!; [done| |apply NoDup_singleton].
      intros x Hx ->%list_elem_of_singleton. done. }
    split_and!; [done|done|]. intros a. rewrite IH, fmap_app, elem_of_app, fmap_cons, elem_of_cons.
    change (targetAddress <$> [t]) with [targetAddress t]. set_solver.
Qed.

(** What [serviceTargetSets] has after some routes. *)
Definition service_sets (routes : list RouteConfig)
    (acc : gmap string (gset string) * gmap string (list Target)) : Prop :=
  forall s, s <> "" ->
    let ts := default [] (snd acc !! s) in
    default ∅ (fst acc !! s) = list_to_set (targetAddress <$> ts) /\ NoDup (targetAddress <$> ts) /\
    (forall a, a ∈ targetAddress <$> ts <->
       exists route, route ∈ routes /\ rc_Service route = s /\ a ∈ targetAddress <$> rc_Targets route).

Lemma addRouteTargets_spec routes acc route :
  service_sets routes acc -> service_sets (routes ++ [route]) (addRouteTargets acc route).
Proof.
  intros Hacc s Hs. destruct (Hacc s Hs) as (Hseen & Hnd & Hin). destruct acc as [seen sts]. cbn [fst snd] in *.
  assert (forall a, (exists r, r ∈ routes ++ [route] /\ rc_Service r = s /\ a ∈ targetAddress <$> rc_Targets r) <->
    a ∈ targetAddress <$> default [] (sts !! s) \/ rc_Service route = s /\ a ∈ targetAddress <$> rc_Targets route) as Happ.
  { intros a. rewrite Hin. setoid_rewrite elem_of_app. setoid_rewrite list_elem_of_singleton. naive_solver. }
  unfold addRouteTargets. case_bool_decide as He; cbn [orb].
  { cbn [fst snd]. split_and!; [done|done|]. intros a. rewrite Happ. split; [by left|].
    intros [?|[? _]]; [done|congruence]. }
  case_bool_decide as Ht.
  { cbn [fst snd]. split_and!; [done|done|]. intros a. rewrite Happ, Ht. cbn. split; [by left|].
    intros [?|[_ ?%elem_of_nil]]; done. }
  destruct (decide (rc_Service route = s)) as [Heq|Hne].
  - rewrite Heq. pose proof (addServiceTargets_spec (rc_Targets route) _ _ Hseen Hnd) as Hadd.
    destruct (addServiceTargets _ _ _) as [seen' ts]. destruct Hadd as (-> & Hnd' & Hin'). cbn [fst snd].
    assert (ts <> []) as Hne.
    { intros ->. destruct (rc_Targets route) as [|t l]; [done|].
      assert (targetAddress t ∈ targetAddress <$> ([] : list Target)) as Hbad by (apply Hin'; right; left).
      by apply elem_of_nil in Hbad. }
    rewrite bool_decide_eq_false_2 by done. rewrite !lookup_insert_eq. cbn.
    split_and!; [done|done|]. intros a. rewrite Hin', Happ. naive_solver.
  - destruct (addServiceTargets _ _ _) as [seen' ts]. cbn [fst snd].
    assert ((if bool_decide (ts = []) then sts else <[rc_Service route:=ts]> sts) !! s = sts !! s) as ->
      by (case_bool_decide; [done|by rewrite lookup_insert_ne]).
    rewrite lookup_insert_ne by done. split_and!; [done|done|]. intros a. rewrite Happ. naive_solver.
Qed.

(** The targets a service's circuits are counted over are those of all its routes: each
    address of each of them exactly once, and nothing else. *)
Lemma service_targets_are_union routes s :
  s <> "" ->
  let ts := default [] (serviceTargetSets routes !! s) in
  NoDup (targetAddress <$> ts) /\
  (forall a, a ∈ targetAddress <$> ts <->
     exists route, route ∈ routes /\ rc_Service route = s /\ a ∈ targetAddress <$> rc_Targets route).
Proof.
  intros Hs.
  assert (forall rs done_ acc, service_sets done_ acc ->
    service_sets (done_ ++ rs) (foldl addRouteTargets acc rs)) as Hfold.
  { induction rs as [|r rs IH]; intros dn acc Hacc; cbn [foldl]; [by rewrite app_nil_r|].
    change (r :: rs) with ([r] ++ rs). rewrite app_assoc. apply IH. by apply addRouteTargets_spec. }
  destruct (Hfold routes [] (∅, ∅)) with (s := s) as (_ & ? & ?); [|done|done].
  intros s' _. cbn. split_and!; [by rewrite !lookup_empty|rewrite lookup_empty; constructor|].
  intros a. rewrite lookup_empty. cbn. set_solver.
Qed.

Lemma service_targets_are_union_witness :
  NoDup (targetAddress <$> default [] (serviceTargetSets [demo_route; demo_route] !! "users")).
Proof. apply (service_targets_are_union [demo_route; demo_route] "users"). discriminate. Defined.

(** ** The gauge of open circuits *)

Section OpenCircuits.
Context {E G : Type} {HBase : BaseEnv E} {HGauge : GaugeVec G} {HProm : Prometheus}.
Implicit Types w : World (E := E) (G := G).

Lemma countOpen_spec targets seen n w :
  countOpen seen n targets w =
    n + Z.of_nat (size (filter (fun a => targetOpen a w = true)
                          (list_to_set (targetAddress <$> targets) ∖ seen : gset string))).
Proof.
  revert seen n. induction targets as [|t targets IH]; intros seen n; cbn [countOpen].
  { match goal with |- context [size ?X] => assert (size X = 0%nat) as -> end; [|lia].
    apply size_empty_iff. set_solver. }
  rewrite fmap_cons, list_to_set_cons. case_bool_decide as Hin; rewrite IH.
  - f_equal. do 3 f_equal. set_solver.
  - set (a := targetAddress t) in *. set (X := list_to_set (targetAddress <$> targets) : gset string).
    assert (({[a]} ∪ X) ∖ seen = {[a]} ∪ X ∖ ({[a]} ∪ seen)) as ->.
    { apply set_eq. intros x. destruct (decide (x = a)); set_solver. }
    set (Y := X ∖ ({[a]} ∪ seen)). set (P := fun x => targetOpen x w = true).
    destruct (targetOpen a w) eqn:Ho.
    + assert (filter P ({[a]} ∪ Y) = {[a]} ∪ filter P Y) as ->.
      { apply set_eq. intros x. rewrite elem_of_filter, !elem_of_union, elem_of_filter, !elem_of_singleton.
        unfold P. split; [intros [? [?|?]]; [by left|by right]|].
        intros [->|[? ?]]; (split; [done|]); [by left|by right]. }
      rewrite size_union, size_singleton by set_solver. lia.
    + assert (filter P ({[a]} ∪ Y) = filter P Y) as ->; [|lia].
      apply set_eq. intros x. rewrite !elem_of_filter, elem_of_union, elem_of_singleton.
      unfold P. split; [intros [Hx [->|?]]; [congruence|done]|].
      intros [? ?]. split; [done|by right].
Qed.

End OpenCircuits.

(** The open-circuit count of a service is the number of distinct addresses among its
    targets whose breaker is open at that moment. *)
Lemma open_circuits_counted {E G} {HBase : BaseEnv E} {HGauge : GaugeVec G} {HProm : Prometheus}
    targets fallback (w : World (E := E) (G := G)) :
  targets <> [] ->
  openCircuitCount targets fallback w =
    Z.of_nat (size (filter (fun a => targetOpen a w = true)
                      (list_to_set (targetAddress <$> targets) : gset string))).
Proof.
  intros Hne. unfold openCircuitCount. rewrite bool_decide_eq_false_2 by done. rewrite countOpen_spec.
  by rewrite difference_empty_L.
Qed.

(** ** An open circuit protects its upstream *)

(** A request whose target's breaker is open and whose timeout has not elapsed is
    answered with [ErrCircuitOpen] without calling the transport below: the environment is
    untouched, and the only trace is the rejection. *)
Lemma open_circuit_shields_upstream {E G} {HBase : BaseEnv E} {HGauge : GaugeVec G} {HProm : Prometheus}
    serviceTargets next req target (b : Breaker Callback) (w : World (E := E) (G := G)) :
  md_target (getAttemptMetadata req) = target -> target <> "" ->
  r_breakers (w_registry w) !! target = Some b ->
  b_state b = StateOpen -> now w < b_openUntil b ->
  let '((resp, err), w') := CircuitBreakerTransport_RoundTrip serviceTargets next req w in
  resp = None /\ err = Some (ESentinel ErrCircuitOpen) /\
  w_env w' = w_env w /\ w_bodies w' = w_bodies w /\ w_log w' = w_log w ++ [Rejected target].
Proof.
  intros Ht Hne Hb Hst Hnow. unfold CircuitBreakerTransport_RoundTrip. rewrite Ht.
  rewrite !(bool_decide_eq_false_2 (target = "")) by done. cbv zeta.
  set (r1 := BreakerForService target (routeService req) (w_registry w)).
  assert (exists b1, r_breakers r1 !! target = Some b1 /\ b_state b1 = StateOpen /\ b_openUntil b1 = b_openUntil b)
    as (b1 & Hb1 & Hst1 & Hop1).
  { unfold r1, BreakerForService. rewrite Hb. unfold ensureBreakerService.
    case_bool_decide; [by exists b|]. unfold attachBreaker, setStateChangeCallback. cbn.
    rewrite lookup_insert_eq. eexists. split; [done|]. by split. }
  unfold breakerAllow. cbn [w_registry with_registry]. rewrite Hb1.
  assert (Allow (now (with_registry r1 w)) b1 = (false, (b1, []))) as ->.
  { unfold Allow, timeoutElapsed, Before. rewrite Hst1, Hop1. change (now (with_registry r1 w)) with (now w).
    rewrite (proj2 (Z.ltb_lt _ _) Hnow). rewrite andb_false_r. by rewrite Hst1. }
  cbn [negb]. match goal with |- context [syncOpenCircuitGauge ?a ?b ?c ?d] =>
    destruct (sync_log a b c d) as (-> & -> & _ & -> & _) end. done.
Qed.

(** ** Witnesses: a concrete base transport

    A script of statuses ([None]: the connection is refused); every body ends at once; each
    call takes one second. *)
Record demo_base := mkDemoBase { db_script : list (option Z); db_now : Time }.

Definition demo_base_RoundTrip (req : Request) (e : demo_base) : RoundTripResult * demo_base :=
  let later script := mkDemoBase script (db_now e + Second) in
  match db_script e with
  | None :: script =>
      ((None, Some (OpError "dial" (Some (SyscallError (Some (Errno ECONNREFUSED)))))), later script)
  | Some status :: script => ((Some (mkResponse status None (RReader 0) None), None), later script)
  | [] => ((Some (mkResponse 200 None (RReader 0) None), None), later [])
  end.

#[export] Instance demo_base_env : BaseEnv demo_base := {
  base_RoundTrip := demo_base_RoundTrip;
  base_Read _ e := (Some (ESentinel EOF), e);
  base_Close _ e := (None, e);
  base_ctxErr _ := None;
  base_Now := db_now;
  base_sleep d e := (None, mkDemoBase (db_script e) (db_now e + d));
  base_Int63n n e := (n / 2, e);
  base_Inject _ h := h;
}.

#[export] Instance demo_base_laws : BaseLaws demo_base.
Proof.
  split.
  - intros req e resp err e'. cbn. unfold demo_base_RoundTrip.
    destruct (db_script e) as [|[st|] l]; [done|done|]. by intros [= _ <- _].
  - intros n e Hn. cbn. pose proof (Z.div_lt n 2). pose proof (Z.div_pos n 2). lia.
Qed.

(** Breakers that open at the first failure, for a minute. *)
Definition demo_world (script : list (option Z)) : World (E := demo_base) (G := gmap string Z) :=
  NewResilientTransport (NewRegistry (mkCBConfig 1 1 Minute Minute 1) false) None (mkDemoBase script Minute).

Lemma request_ends_and_is_bounded_witness :
  exists result s,
    Resilient_RoundTrip ∅ 12 (demo_request "POST" BodyNil) (demo_world [Some 503]) = Return result s /\
    admissions (st_world s) <= 1.
Proof.
  destruct (request_ends_and_is_bounded ∅ (demo_request "POST" BodyNil) demo_route (demo_world [Some 503]) 12)
    as (result & s & H & _ & Hone).
  - reflexivity.
  - split; split; vm_compute; discriminate.
  - vm_compute. reflexivity.
  - vm_compute. discriminate.
  - exists result, s. split; [exact H|]. exact (Hone eq_refl).
Defined.

(** Two failures open two circuits; the next request fails over to the third target. *)
Lemma failover_example :
  let w := foldl (session_step ∅) (demo_world [Some 503; None; Some 200])
             [OpRequest 12 (demo_request "GET" BodyNil); OpRequest 12 (demo_request "GET" BodyNil)] in
  w_log w =
    [Selected "users|round_robin|a:1@1|b:2@1|c:3@1" "a:1"; Granted "a:1"; Reported "a:1" Failed;
     Released "users|round_robin|a:1@1|b:2@1|c:3@1";
     Selected "users|round_robin|a:1@1|b:2@1|c:3@1" "b:2"; Granted "b:2"; Reported "b:2" Failed;
     Released "users|round_robin|a:1@1|b:2@1|c:3@1";
     Selected "users|round_robin|a:1@1|b:2@1|c:3@1" "c:3"; Granted "c:3";
     Selected "users|round_robin|a:1@1|b:2@1|c:3@1" "a:1"; Rejected "a:1";
     Released "users|round_robin|a:1@1|b:2@1|c:3@1";
     Selected "users|round_robin|a:1@1|b:2@1|c:3@1" "b:2"; Rejected "b:2";
     Released "users|round_robin|a:1@1|b:2@1|c:3@1";
     Selected "users|round_robin|a:1@1|b:2@1|c:3@1" "c:3"; Granted "c:3"].
Proof. vm_compute. reflexivity. Qed.

Lemma selections_stay_on_route_witness :
  exists route, session_route [OpRequest 12 (demo_request "GET" BodyNil)] route /\
    "a:1"%string ∈ targetAddress <$> rc_Targets route.
Proof.
  destruct (selections_stay_on_route (G := gmap string Z) ∅
    (NewRegistry (mkCBConfig 1 1 Minute Minute 1) false) None (mkDemoBase [] Minute)
    [OpRequest 12 (demo_request "GET" BodyNil)] (routeBalancerKey demo_route) "a:1")
    as (route & Hs & _ & Hin).
  - intros route (fuel & req & Hop & Hr). apply list_elem_of_singleton in Hop. injection Hop as _ ->.
    injection Hr as <-. split; [reflexivity|reflexivity|repeat constructor].
  - apply list_elem_of_lookup. exists 0%nat. vm_compute. reflexivity.
  - exists route. split; [exact Hs|exact Hin].
Defined.

Lemma open_circuits_counted_witness :
  openCircuitCount (rc_Targets demo_route) "" (demo_world []) = 0.
Proof.
  rewrite (open_circuits_counted (rc_Targets demo_route) "" (demo_world [])) by discriminate.
  vm_compute. reflexivity.
Defined.

(** The world after a failure has opened the circuit of [a:1]. *)
Definition tripped_world : World (E := demo_base) (G := gmap string Z) :=
  session_step ∅ (demo_world [Some 503]) (OpRequest 1 (demo_request "POST" BodyNil)).

Lemma open_circuit_shields_upstream_witness :
  exists b, r_breakers (w_registry tripped_world) !! "a:1"%string = Some b /\
    let req := with_attempt (mkMetadata 0 "a:1" []) (demo_request "POST" BodyNil) in
    let '((resp, err), w') := CircuitBreakerTransport_RoundTrip ∅ UpstreamTransport_RoundTrip req tripped_world in
    resp = None /\ err = Some (ESentinel ErrCircuitOpen).
Proof.
  destruct (r_breakers (w_registry tripped_world) !! "a:1"%string) as [b|] eqn:Hb;
    [|vm_compute in Hb; discriminate].
  exists b. split; [reflexivity|].
  pose proof (open_circuit_shields_upstream ∅ UpstreamTransport_RoundTrip
    (with_attempt (mkMetadata 0 "a:1" []) (demo_request "POST" BodyNil)) "a:1" b tripped_world) as H.
  cbv zeta. destruct (CircuitBreakerTransport_RoundTrip _ _ _ tripped_world) as [[resp err] w'].
  destruct H as (H1 & H2 & _); [reflexivity|discriminate|exact Hb|..].
  - vm_compute in Hb. injection Hb as <-. reflexivity.
  - vm_compute in Hb. injection Hb as <-. vm_compute. reflexivity.
  - split; [exact H1|exact H2].
Defined.
