(* ===== verification/RateStore.v ===== *)
(** * The rate limit store: [internal/ratelimit/store.go]

    [RedisStore.Allow] runs one Lua script on a Redis sorted set.  Redis is a parameter: a
    class with the commands the script calls and their documented laws, and a clock that
    drops expired keys.  The script itself is translated.  Scores are integers of
    milliseconds, exact in Redis's doubles below 2^53. *)

From stdpp Require Import sorting.
From S2P Require Import Prelude GoStrings GoErrors.
From stdpp Require Import options.
#[local] Set Default Proof Using "Type*".

(** ** Redis *)

Class Redis (R : Type) := {
  redis_view : R -> string -> gmap string Z;        (* member -> score *)
  redis_deadline : R -> string -> option Z;
  redis_clock : R -> Z;
  redis_advance : Z -> R -> R;                      (* the clock reaches an instant *)
  zremrangebyscore : string -> Z -> R -> R;         (* from -inf to the score *)
  zcard : string -> R -> Z;
  zadd : string -> Z -> string -> R -> R;
  pexpire : string -> Z -> R -> R;
  zrange_first : string -> R -> option (string * Z); (* ZRANGE key 0 0 WITHSCORES *)
}.

(** An empty sorted set is no key, so it has no deadline. *)
Class RedisLaws (R : Type) `{Redis R} : Prop := {
  advance_clock t r : redis_clock (redis_advance t r) = t;
  advance_view t r k : redis_view (redis_advance t r) k =
    match redis_deadline r k with Some d => if d <=? t then ∅ else redis_view r k | None => redis_view r k end;
  advance_deadline t r k : redis_deadline (redis_advance t r) k =
    match redis_deadline r k with Some d => if d <=? t then None else Some d | None => None end;
  zrem_clock k s r : redis_clock (zremrangebyscore k s r) = redis_clock r;
  zrem_view k s r k' : redis_view (zremrangebyscore k s r) k' =
    if decide (k' = k) then filter (fun '(_, score) => s < score) (redis_view r k) else redis_view r k';
  zrem_deadline k s r k' : redis_deadline (zremrangebyscore k s r) k' =
    if decide (k' = k) then
      (if decide (filter (fun '(_, score) => s < score) (redis_view r k) = ∅) then None else redis_deadline r k)
    else redis_deadline r k';
  zcard_view k r : zcard k r = Z.of_nat (size (redis_view r k));
  zadd_clock k s m r : redis_clock (zadd k s m r) = redis_clock r;
  zadd_view k s m r k' : redis_view (zadd k s m r) k' =
    if decide (k' = k) then <[m := s]> (redis_view r k) else redis_view r k';
  zadd_deadline k s m r k' : redis_deadline (zadd k s m r) k' = redis_deadline r k';
  pexpire_clock k ms r : redis_clock (pexpire k ms r) = redis_clock r;
  pexpire_view k ms r k' : redis_view (pexpire k ms r) k' = redis_view r k';
  pexpire_deadline k ms r k' : redis_deadline (pexpire k ms r) k' =
    if decide (k' = k /\ redis_view r k <> ∅) then Some (redis_clock r + ms) else redis_deadline r k';
  zrange_first_view k r :
    match zrange_first k r with
    | Some (m, s) => redis_view r k !! m = Some s /\
        (forall m' s', redis_view r k !! m' = Some s' -> s <= s')
    | None => redis_view r k = ∅
    end;
}.

(** ** Times *)

(** [time.Unix(0, 0)], in nanoseconds since January 1, year 1. *)
Definition unix_epoch : Time := 62135596800 * Second.

Definition UnixMilli (t : Time) : Z := (t - unix_epoch) / Millisecond.
Definition fromUnixMilli (ms : Z) : Time := unix_epoch + ms * Millisecond.
Definition Milliseconds (d : Duration) : Z := Z.quot d Millisecond.

(** ** The store *)

Definition slidingWindowStrategy : string := "sliding_window".

Record RateRequest := mkRateRequest {
  rr_Key : string;
  rr_Limit : Z;
  rr_Window : Duration;
  rr_Strategy : string;
  rr_Member : string;
  rr_Now : Time;
}.

Record Decision := mkDecision {
  dc_Allowed : bool;
  dc_Remaining : Z;
  dc_ResetAt : Time;
}.

Definition open_brace : ascii := byte 123.
Definition close_brace : ascii := byte 125.

(** [redisKeySanitizer] *)
Definition sanitize_byte (c : ascii) : ascii :=
  if bool_decide (c = open_brace) || bool_decide (c = close_brace) then byte 95 else c.

Definition sanitizeRedisKeySegment (value : string) : string := map_bytes sanitize_byte (TrimSpace value).

Definition Key (clientKey routePath : string) : string :=
  "rate_limit:{" +:+ sanitizeRedisKeySegment clientKey +:+ "}:" +:+ routePath.

(** What a script reply holds. *)
Inductive RedisValue := RedisInt (n : Z) | RedisString (s : string) | RedisOther.

(** [None] is the error. *)
Definition redisInt (value : RedisValue) : option Z :=
  match value with
  | RedisInt n => Some n
  | RedisString s => ParseInt s
  | RedisOther => None
  end.

Section Store.
Context {R : Type} `{Redis R}.

(** The Lua script: the reply and the server after it. *)
Definition resetAt (key : string) (now_ms window_ms : Z) (r : R) : Z :=
  match zrange_first key r with
  | Some (_, oldest) => oldest + window_ms
  | None => now_ms + window_ms
  end.

Definition slidingWindowScript (key : string) (now_ms window_ms limit : Z) (member : string) (r : R)
    : (Z * Z * Z) * R :=
  let min_score := now_ms - window_ms in
  let r := zremrangebyscore key min_score r in
  let count := zcard key r in
  if count <? limit then
    let r := pexpire key window_ms (zadd key now_ms member r) in
    ((1, limit - (count + 1), resetAt key now_ms window_ms r), r)
  else
    let r := pexpire key window_ms r in
    ((0, 0, resetAt key now_ms window_ms r), r).

(** [s.script.Run(...).Slice()]: the server may fail instead ([failure]), before or after
    the script ran. *)
Inductive ScriptFailure := FailBefore (err : error) | FailAfter (err : error).

Definition runScript (failure : option ScriptFailure) (key : string) (now_ms window_ms limit : Z)
    (member : string) (r : R) : sum error (list RedisValue) * R :=
  match failure with
  | Some (FailBefore err) => (inl err, r)
  | _ =>
      let '((allowed, remaining, reset), r) := slidingWindowScript key now_ms window_ms limit member r in
      match failure with
      | Some (FailAfter err) => (inl err, r)
      | _ => (inr [RedisInt allowed; RedisInt remaining; RedisInt reset], r)
      end
  end.

Definition storeError (message : string) : error := Plain message.

(** The decoding of the reply. *)
Definition decodeReply (values : list RedisValue) : sum error Decision :=
  match values with
  | [v0; v1; v2] =>
      match redisInt v0 with
      | None => inl (storeError "decode rate limit allowed flag")
      | Some allowedFlag =>
          match redisInt v1 with
          | None => inl (storeError "decode rate limit remaining count")
          | Some remaining =>
              match redisInt v2 with
              | None => inl (storeError "decode rate limit reset time")
              | Some resetAtMillis =>
                  inr (mkDecision (bool_decide (allowedFlag = 1)) remaining (fromUnixMilli resetAtMillis))
              end
          end
      end
  | _ => inl (storeError "unexpected rate limit script response length")
  end.

Definition windowMillis (window : Duration) : Z :=
  Milliseconds window + (if Z.rem window Millisecond =? 0 then 0 else 1).

(** [configured]: the store has a client.  [wallClock] is [time.Now()]. *)
Definition Store_Allow (configured : bool) (failure : option ScriptFailure) (wallClock : Time)
    (request : RateRequest) (r : R) : sum error Decision * R :=
  if negb configured then (inl (storeError "redis client is not configured"), r)
  else if bool_decide (TrimSpace (rr_Key request) = "") then (inl (storeError "rate limit key is required"), r)
  else if bool_decide (TrimSpace (rr_Member request) = "") then (inl (storeError "rate limit member is required"), r)
  else if rr_Limit request <=? 0 then (inl (storeError "rate limit limit must be greater than 0"), r)
  else if rr_Window request <=? 0 then (inl (storeError "rate limit window must be greater than 0"), r)
  else
    let strategy := TrimSpace (rr_Strategy request) in
    let strategy := if bool_decide (strategy = "") then slidingWindowStrategy else strategy in
    if negb (bool_decide (strategy = slidingWindowStrategy))
    then (inl (storeError "unsupported rate limit strategy"), r)
    else
      let now := if IsZero (rr_Now request) then wallClock else rr_Now request in
      let '(reply, r) := runScript failure (rr_Key request) (UnixMilli now) (windowMillis (rr_Window request))
                           (rr_Limit request) (rr_Member request) r in
      match reply with
      | inl err => (inl err, r)
      | inr values => (decodeReply values, r)
      end.

End Store.

(** [NewRedisStore]: whether the store has a client. *)
Definition NewRedisStore (address : string) : bool := negb (bool_decide (TrimSpace address = "")).

(** ** A concrete Redis *)

Record map_redis := mkMapRedis { mr_clock : Z; mr_sets : gmap string (gmap string Z); mr_deadlines : gmap string Z }.

Definition mr_set (k : string) (v : gmap string Z) (r : map_redis) : map_redis :=
  mkMapRedis (mr_clock r) (<[k := v]> (mr_sets r)) (if bool_decide (v = ∅) then delete k (mr_deadlines r) else mr_deadlines r).

Definition mr_view (r : map_redis) (k : string) : gmap string Z := default ∅ (mr_sets r !! k).

Definition mr_live (t : Z) (r : map_redis) (k : string) : bool :=
  match mr_deadlines r !! k with Some d => t <? d | None => true end.

(** The member with the least score, of a list. *)
Fixpoint least_member (l : list (string * Z)) : option (string * Z) :=
  match l with
  | [] => None
  | (m, s) :: l =>
      match least_member l with
      | Some (m', s') => if s' <? s then Some (m', s') else Some (m, s)
      | None => Some (m, s)
      end
  end.

#[export] Instance map_redis_redis : Redis map_redis := {
  redis_view := mr_view;
  redis_deadline r k := mr_deadlines r !! k;
  redis_clock := mr_clock;
  redis_advance t r := mkMapRedis t (filter (fun '(k, _) => mr_live t r k = true) (mr_sets r))
                         (filter (fun '(_, d) => t < d) (mr_deadlines r));
  zremrangebyscore k s r := mr_set k (filter (fun '(_, score) => s < score) (mr_view r k)) r;
  zcard k r := Z.of_nat (size (mr_view r k));
  zadd k s m r := mr_set k (<[m := s]> (mr_view r k)) r;
  pexpire k ms r := if bool_decide (mr_view r k = ∅) then r
                    else mkMapRedis (mr_clock r) (mr_sets r) (<[k := mr_clock r + ms]> (mr_deadlines r));
  zrange_first k r := least_member (map_to_list (mr_view r k));
}.

Lemma least_member_spec l :
  match least_member l with
  | Some (m, s) => (m, s) ∈ l /\ (forall m' s', (m', s') ∈ l -> s <= s')
  | None => l = []
  end.
Proof.
  induction l as [|[m s] l IH]; cbn [least_member]; [done|].
  destruct (least_member l) as [[m1 s1]|].
  - destruct IH as [Hin Hmin]. destruct (Z.ltb_spec s1 s).
    + split; [by right|]. intros m' s' [[= -> ->]|Hin']%elem_of_cons; [lia|eauto].
    + split; [by left|]. intros m' s' [[= -> ->]|Hin']%elem_of_cons; [lia|]. specialize (Hmin _ _ Hin'). lia.
  - subst. split; [by left|]. intros m' s' [[= -> ->]|Hin']%elem_of_cons; [lia|]. by apply elem_of_nil in Hin'.
Qed.

Lemma mr_view_set k v r k' : mr_view (mr_set k v r) k' = if decide (k' = k) then v else mr_view r k'.
Proof.
  unfold mr_view, mr_set. cbn. case_decide as Hk; [subst; by rewrite lookup_insert_eq|].
  by rewrite lookup_insert_ne.
Qed.

#[export] Instance map_redis_laws : RedisLaws map_redis.
Proof.
  split; cbn; try done; intros.
  - unfold mr_view. cbn. rewrite map_lookup_filter. unfold mr_live.
    destruct (mr_sets r !! k) as [v|] eqn:Hv; cbn.
    + destruct (mr_deadlines r !! k) as [d|]; cbn; [|by rewrite option_guard_True].
      destruct (Z.leb_spec d t); [rewrite option_guard_False by (intros Hl; apply Z.ltb_lt in Hl; lia)
        |rewrite option_guard_True by (apply Z.ltb_lt; lia)]; done.
    + by destruct (mr_deadlines r !! k) as [d|]; [destruct (_ <=? _)|].
  - rewrite map_lookup_filter. destruct (mr_deadlines r !! k) as [d|]; cbn; [|done].
    destruct (Z.leb_spec d t); [rewrite option_guard_False by lia|rewrite option_guard_True by lia]; done.
  - apply mr_view_set.
  - unfold mr_set. cbn. case_decide as Hk; [subst|].
    + case_bool_decide as Hv; [rewrite decide_True by done; apply lookup_delete_eq|by rewrite decide_False].
    + case_bool_decide; [by rewrite lookup_delete_ne|done].
  - apply mr_view_set.
  - unfold mr_set. cbn. rewrite bool_decide_eq_false_2; [done|]. apply insert_non_empty.
  - by case_bool_decide.
  - by case_bool_decide.
  - case_bool_decide as Hv; [rewrite decide_False by tauto; done|]. cbn.
    destruct (decide (k' = k)) as [->|Hk].
    + rewrite decide_True by done. apply lookup_insert_eq.
    + rewrite decide_False by tauto. by rewrite lookup_insert_ne.
  - pose proof (least_member_spec (map_to_list (mr_view r k))) as Hl.
    destruct (least_member _) as [[m s]|].
    + destruct Hl as [Hin Hmin]. split; [by apply elem_of_map_to_list|].
      intros m' s' Hm. by apply (Hmin m'), elem_of_map_to_list.
    + by apply map_to_list_empty_iff.
Qed.

(** ** The specification: a log of the requests allowed *)

(** Who was allowed, and when, in order. *)
Abbreviation RateLog := (list (string * Z)).

Definition within (low : Z) (log : RateLog) : RateLog := filter (fun '(_, t) => low < t) log.

Definition oldest (now : Z) (log : RateLog) : Z := match log with (_, t) :: _ => t | [] => now end.

(** A request is allowed when fewer than [limit] were in the window before it. *)
Definition log_step (limit window now : Z) (member : string) (log : RateLog) : (Z * Z * Z) * RateLog :=
  let recent := within (now - window) log in
  let count := Z.of_nat (length recent) in
  if count <? limit
  then ((1, limit - (count + 1), oldest now (recent ++ [(member, now)]) + window), log ++ [(member, now)])
  else ((0, 0, oldest now recent + window), log).

(** The requests of a session, each when the server's clock has reached its instant. *)
Record call := mkCall { c_key : string; c_now : Z; c_window : Z; c_limit : Z; c_member : string }.

Fixpoint script_run {R} `{Redis R} (calls : list call) (r : R) : list (string * (Z * Z * Z)) * R :=
  match calls with
  | [] => ([], r)
  | c :: calls =>
      let '(reply, r) := slidingWindowScript (c_key c) (c_now c) (c_window c) (c_limit c) (c_member c)
                           (redis_advance (c_now c) r) in
      let '(replies, r) := script_run calls r in
      ((c_key c, reply) :: replies, r)
  end.

Fixpoint log_run (k : string) (calls : list call) (log : RateLog) : list (Z * Z * Z) * RateLog :=
  match calls with
  | [] => ([], log)
  | c :: calls =>
      if bool_decide (c_key c = k) then
        let '(reply, log) := log_step (c_limit c) (c_window c) (c_now c) (c_member c) log in
        let '(replies, log) := log_run k calls log in
        (reply :: replies, log)
      else log_run k calls log
  end.

Definition replies_for (k : string) (replies : list (string * (Z * Z * Z))) : list (Z * Z * Z) :=
  (filter (fun '(k', _) => k' = k) replies).*2.

Fixpoint times_from (t0 : Z) (calls : list call) : Prop :=
  match calls with [] => True | c :: calls => t0 <= c_now c /\ times_from (c_now c) calls end.

(** The calls of a key: one window, one limit, both positive, and a member of its own each. *)
Definition same_limit (k : string) (limit window : Z) (calls : list call) : Prop :=
  forall c, c ∈ calls -> c_key c = k -> c_limit c = limit /\ c_window c = window.

Definition members_of (k : string) (calls : list call) : list string :=
  c_member <$> filter (fun c => c_key c = k) calls.

(** ** The log *)

Definition by_time (x y : string * Z) : Prop := x.2 <= y.2.

Record good_log (last : Z) (log : RateLog) : Prop := {
  gl_members : NoDup log.*1;
  gl_sorted : StronglySorted by_time log;
  gl_last m t : (m, t) ∈ log -> t <= last;
}.

Lemma elem_of_within low log m t : (m, t) ∈ within low log <-> (m, t) ∈ log /\ low < t.
Proof. unfold within. rewrite list_elem_of_filter. naive_solver. Qed.

Lemma within_members low log : NoDup log.*1 -> NoDup (within low log).*1.
Proof.
  unfold within. induction log as [|[m t] log IH]; [done|].
  rewrite fmap_cons, NoDup_cons. intros [Hni Hnd].
  rewrite filter_cons. case_decide; [|auto]. rewrite fmap_cons. apply NoDup_cons. split; [|auto].
  intros Hin. apply Hni. apply list_elem_of_fmap in Hin as ([m' t'] & -> & Hin).
  apply list_elem_of_filter in Hin as [_ Hin]. apply list_elem_of_fmap. by exists (m', t').
Qed.

Lemma within_sorted low log : StronglySorted by_time log -> StronglySorted by_time (within low log).
Proof.
  unfold within. induction 1 as [|[m t] log Hs IH Hall]; [constructor|].
  rewrite filter_cons. case_decide; [|done]. constructor; [done|].
  eapply Forall_forall. intros x Hx. apply list_elem_of_filter in Hx as [_ Hx].
  rewrite Forall_forall in Hall. by apply Hall.
Qed.

Lemma oldest_least now log m t :
  StronglySorted by_time log -> (m, t) ∈ log -> oldest now log <= t.
Proof.
  intros Hs Hin. destruct Hs as [|[m0 t0] log Hs Hall]; [by apply elem_of_nil in Hin|]. cbn.
  apply elem_of_cons in Hin as [[= -> ->]|Hin]; [lia|].
  rewrite Forall_forall in Hall. apply (Hall _ Hin).
Qed.

Lemma good_log_app last now m log :
  good_log last log -> last <= now -> m ∉ log.*1 -> good_log now (log ++ [(m, now)]).
Proof.
  intros [Hnd Hs Hl] Hle Hm. split.
  - rewrite fmap_app. apply NoDup_app. split_and!; [done| |apply NoDup_singleton].
    intros x Hx Hx'. apply list_elem_of_singleton in Hx'. cbn in Hx'. by subst.
  - clear Hnd Hm. induction Hs as [|[m0 t0] log Hs IH Hall]; cbn; [by repeat constructor|].
    constructor; [apply IH; intros; eapply Hl; by right|].
    apply Forall_app. split; [done|]. apply Forall_singleton. unfold by_time. cbn.
    specialize (Hl m0 t0 ltac:(by left)). lia.
  - intros m' t' [Hin|Hin]%elem_of_app; [specialize (Hl _ _ Hin); lia|].
    apply list_elem_of_singleton in Hin. by injection Hin as -> ->.
Qed.

(** ** Refinement *)

Section Refinement.
Context {R : Type} `{RedisLaws R}.
Implicit Types r : R.

(** The sorted set of a key holds the log's entries above a threshold that is out of every
    later window, and does not expire before they are. *)
Record holds (k : string) (window last : Z) (log : RateLog) r : Prop := {
  ho_log : good_log last log;
  ho_view : exists low, low + window <= last /\
    (forall m t, redis_view r k !! m = Some t <-> (m, t) ∈ log /\ low < t);
  ho_deadline d m t : redis_deadline r k = Some d -> redis_view r k !! m = Some t -> t + window <= d;
}.

Lemma holds_empty k window last r : redis_view r k = ∅ -> holds k window last [] r.
Proof.
  intros Hr. split; [split; [constructor|constructor|by intros ?? ?%elem_of_nil]| |].
  - exists (last - window). split; [lia|]. intros m t. rewrite Hr, lookup_empty. split; [done|].
    by intros [?%elem_of_nil _].
  - intros d m t _. by rewrite Hr, lookup_empty.
Qed.

Lemma holds_advance k window last now log r :
  last <= now -> holds k window last log r -> holds k window now log (redis_advance now r).
Proof.
  intros Hle [[Hnd Hs Hl] (low & Hlow & Hv) Hd].
  assert (good_log now log) as Hg.
  { split; [done|done|]. intros m t Hin. specialize (Hl _ _ Hin). lia. }
  destruct (redis_deadline r k) as [d|] eqn:Hdl; [destruct (Z.leb_spec d now) as [Hexp|Hexp]|].
  - split; [done| |].
    + exists (now - window). split; [lia|]. intros m t. rewrite advance_view, Hdl.
      rewrite (proj2 (Z.leb_le _ _)) by done. rewrite lookup_empty. split; [done|].
      intros [Hin Ht]. exfalso. destruct (Z.le_gt_cases t low); [lia|].
      assert (redis_view r k !! m = Some t) as Hm by (apply Hv; done).
      specialize (Hd _ _ _ eq_refl Hm). lia.
    + intros d' m t. rewrite advance_deadline, Hdl. by rewrite (proj2 (Z.leb_le _ _)).
  - split; [done| |].
    + exists low. split; [lia|]. intros m t. rewrite advance_view, Hdl.
      by rewrite (proj2 (Z.leb_gt _ _)).
    + intros d' m t. rewrite advance_deadline, advance_view, Hdl.
      rewrite (proj2 (Z.leb_gt _ _)) by done. intros [= <-]. by apply Hd.
  - split; [done| |].
    + exists low. split; [lia|]. intros m t. by rewrite advance_view, Hdl.
    + intros d' m t. by rewrite advance_deadline, Hdl.
Qed.

(** A set that holds exactly the entries above [low] has as many as the log. *)
Lemma view_within low log r k :
  NoDup log.*1 -> (forall m t, redis_view r k !! m = Some t <-> (m, t) ∈ log /\ low < t) ->
  size (redis_view r k) = length (within low log).
Proof.
  intros Hnd Hv. assert (redis_view r k = list_to_map (within low log)) as ->.
  { apply map_eq. intros m. apply option_eq. intros t. rewrite Hv, <- elem_of_within.
    apply elem_of_list_to_map. by apply within_members. }
  rewrite map_size_list_to_map; [done|]. by apply within_members.
Qed.

Lemma resetAt_within low log now window r k :
  good_log now log -> low < now ->
  (forall m t, redis_view r k !! m = Some t <-> (m, t) ∈ log /\ low < t) ->
  resetAt k now window r = oldest now (within low log) + window.
Proof.
  intros [Hnd Hs _] Hlow Hv. unfold resetAt. pose proof (zrange_first_view k r) as Hf.
  destruct (zrange_first k r) as [[m s]|].
  - destruct Hf as [Hm Hmin]. f_equal. apply Hv in Hm as [Hin Hls].
    assert ((m, s) ∈ within low log) as Hw by by apply elem_of_within.
    pose proof (oldest_least now _ _ _ (within_sorted low _ Hs) Hw) as Hle.
    destruct (within low log) as [|[m0 t0] l] eqn:E; [by apply elem_of_nil in Hw|]. cbn in *.
    assert ((m0, t0) ∈ within low log) as Hw0 by (rewrite E; left).
    apply elem_of_within in Hw0. apply Hv in Hw0. specialize (Hmin _ _ Hw0). lia.
  - assert (within low log = []) as ->; [|done].
    destruct (within low log) as [|[m0 t0] l] eqn:E; [done|].
    assert ((m0, t0) ∈ within low log) as Hw0 by (rewrite E; left).
    apply elem_of_within in Hw0. apply Hv in Hw0. by rewrite Hf, lookup_empty in Hw0.
Qed.

Lemma script_own k limit window now m log r :
  0 < limit -> 0 < window -> m ∉ log.*1 -> redis_clock r = now -> holds k window now log r ->
  let '(reply, r') := slidingWindowScript k now window limit m r in
  let '(reply', log') := log_step limit window now m log in
  reply = reply' /\ holds k window now log' r'.
Proof.
  intros Hlim Hwin Hm Hclock [Hg (low & Hlow & Hv) Hd]. unfold slidingWindowScript, log_step.
  set (r1 := zremrangebyscore k (now - window) r).
  assert (forall m t, redis_view r1 k !! m = Some t <-> (m, t) ∈ log /\ now - window < t) as Hv1.
  { intros m' t'. unfold r1. rewrite zrem_view, decide_True by done.
    rewrite map_lookup_filter_Some, Hv. intuition lia. }
  pose proof (view_within _ _ _ _ (gl_members _ _ Hg) Hv1) as Hsize.
  rewrite zcard_view, Hsize. set (recent := within (now - window) log) in *.
  destruct (Z.ltb_spec (Z.of_nat (length recent)) limit) as [Hlt|Hge].
  - set (r2 := zadd k now m r1). set (log' := log ++ [(m, now)]).
    assert (good_log now log') as Hg' by (eapply good_log_app; [exact Hg|lia|done]).
    assert (forall m' t, redis_view (pexpire k window r2) k !! m' = Some t <-> (m', t) ∈ log' /\ now - window < t) as Hv2.
    { intros m' t. rewrite pexpire_view. unfold r2. rewrite zadd_view, decide_True by done.
      unfold log'. rewrite elem_of_app, list_elem_of_singleton.
      destruct (decide (m = m')) as [<-|Hne].
      - rewrite lookup_insert_eq. split; [intros [= <-]; split; [by right|clear - Hwin; lia]|].
        intros [[Hin|[= ->]] _]; [|done]. destruct Hm. apply list_elem_of_fmap. by exists (m, t).
      - rewrite lookup_insert_ne, Hv1 by done. split; [intros [? ?]; split; [by left|done]|].
        intros [[?|[= <- _]] ?]; done. }
    assert (redis_view r2 k <> ∅) as Hne.
    { unfold r2. rewrite zadd_view, decide_True by done. apply insert_non_empty. }
    split.
    + do 2 f_equal. rewrite (resetAt_within (now - window) _ _ _ _ _ Hg' ltac:(lia) Hv2). do 2 f_equal.
      unfold log', recent, within. rewrite filter_app. f_equal.
      rewrite filter_cons, decide_True by lia. done.
    + split; [done|exists (now - window); split; [lia|done]|].
      intros d m' t Hdl Hm'. rewrite pexpire_deadline, decide_True in Hdl by done.
      unfold r2 in Hdl. rewrite zadd_clock in Hdl. unfold r1 in Hdl. rewrite zrem_clock, Hclock in Hdl.
      injection Hdl as <-. apply Hv2 in Hm' as [Hin _]. apply (gl_last _ _ Hg') in Hin. lia.
  - assert (forall m' t, redis_view (pexpire k window r1) k !! m' = Some t <-> (m', t) ∈ log /\ now - window < t) as Hv2
      by (intros; by rewrite pexpire_view).
    assert (redis_view r1 k <> ∅) as Hne.
    { intros E. rewrite E, map_size_empty in Hsize. lia. }
    split.
    + f_equal. by rewrite (resetAt_within (now - window) _ _ _ _ _ Hg ltac:(lia) Hv2).
    + split; [done|exists (now - window); split; [lia|done]|].
      intros d m' t Hdl Hm'. rewrite pexpire_deadline, decide_True in Hdl by done.
      unfold r1 in Hdl. rewrite zrem_clock, Hclock in Hdl.
      injection Hdl as <-. apply Hv2 in Hm' as [Hin _]. apply (gl_last _ _ Hg) in Hin. lia.
Qed.

(** A call for another key leaves the set and the deadline. *)
Lemma script_other k key limit w now m r :
  key <> k ->
  let r' := snd (slidingWindowScript key now w limit m r) in
  redis_view r' k = redis_view r k /\ redis_deadline r' k = redis_deadline r k.
Proof.
  intros Hne. unfold slidingWindowScript.
  assert (k <> key) as Hne' by done.
  destruct (_ <? _); cbn [snd]; rewrite ?pexpire_view, ?zadd_view, ?pexpire_deadline, ?zadd_deadline,
    ?zrem_view, ?zrem_deadline, ?(decide_False (P := k = key)) by done.
  all: split; [done|]. all: by rewrite decide_False by tauto.
Qed.

Lemma script_run_refines k limit window calls last log r :
  0 < limit -> 0 < window -> times_from last calls -> same_limit k limit window calls ->
  NoDup (members_of k calls) -> (forall m, m ∈ members_of k calls -> m ∉ log.*1) ->
  holds k window last log r ->
  let '(replies, r') := script_run calls r in
  replies_for k replies = fst (log_run k calls log) /\
  exists last', holds k window last' (snd (log_run k calls log)) r'.
Proof.
  intros Hlim Hwin. revert last log r. induction calls as [|c calls IH]; intros last log r Ht Hsame Hnd Hfresh Hh;
    cbn [script_run log_run]; [by split; [|exists last]|].
  destruct Ht as [Hc Ht]. apply (holds_advance _ _ _ _ _ _ Hc) in Hh.
  assert (same_limit k limit window calls) as Hsame' by (intros c' Hc'; apply Hsame; by right).
  unfold members_of in Hnd, Hfresh. rewrite filter_cons in Hnd, Hfresh.
  case_bool_decide as Hk.
  - rewrite decide_True in Hnd, Hfresh by done. cbn in Hnd, Hfresh. apply NoDup_cons in Hnd as [Hni Hnd].
    destruct (Hsame c ltac:(by left) Hk) as [-> ->].
    pose proof (script_own k limit window (c_now c) (c_member c) log (redis_advance (c_now c) r)
      Hlim Hwin (Hfresh _ ltac:(by left)) (advance_clock _ _) Hh) as Hown.
    rewrite Hk. destruct (slidingWindowScript _ _ _ _ _ _) as [reply r1].
    destruct (log_step _ _ _ _ log) as [reply' log'] eqn:Els. destruct Hown as [-> Hh'].
    assert (forall m, m ∈ members_of k calls -> m ∉ log'.*1) as Hfresh'.
    { intros m Hm. unfold log_step in Els. destruct (_ <? _); injection Els as _ <-; [|apply Hfresh; by right].
      rewrite fmap_app, elem_of_app. intros [Hin|Hin]; [by apply (Hfresh m); [right|]|].
      apply list_elem_of_singleton in Hin. cbn in Hin. subst. by apply Hni. }
    specialize (IH _ _ _ Ht Hsame' Hnd Hfresh' Hh').
    destruct (script_run calls r1) as [replies r2]. destruct (log_run k calls log') as [replies' log2].
    cbn [fst snd] in *. destruct IH as [<- IH]. split; [|done].
    unfold replies_for. by rewrite filter_cons, decide_True.
  - rewrite decide_False in Hnd, Hfresh by done.
    pose proof (script_other k (c_key c) (c_limit c) (c_window c) (c_now c) (c_member c)
      (redis_advance (c_now c) r) Hk) as [Hv Hd].
    destruct (slidingWindowScript _ _ _ _ _ _) as [reply r1]. cbn [snd] in Hv, Hd.
    assert (holds k window (c_now c) log r1) as Hh'.
    { destruct Hh as [Hg Hview Hdl]. split; [done|by rewrite Hv|]. by rewrite Hv, Hd. }
    specialize (IH _ _ _ Ht Hsame' Hnd Hfresh Hh').
    destruct (script_run calls r1) as [replies r2]. destruct IH as [<- IH]. split; [|done].
    unfold replies_for. by rewrite filter_cons, decide_False.
Qed.

End Refinement.

(** ** The limit *)

(** The instants among [times] in the window that ends at [t]. *)
Definition in_window (window t : Z) (times : list Z) : Z :=
  Z.of_nat (length (filter (fun s => t - window < s /\ s <= t) times)).

Definition limited (limit window last : Z) (log : RateLog) : Prop :=
  (forall m s, (m, s) ∈ log -> s <= last) /\ (forall t, in_window window t log.*2 <= limit).

Lemma filter_length_le {A} (P Q : A -> Prop) `{!forall x, base.Decision (P x), !forall x, base.Decision (Q x)} l :
  (forall x, x ∈ l -> P x -> Q x) -> (length (filter P l) <= length (filter Q l))%nat.
Proof.
  induction l as [|x l IH]; intros Himp; [done|]. rewrite !filter_cons.
  specialize (IH ltac:(intros y Hy; apply Himp; by right)). specialize (Himp x ltac:(by left)).
  destruct (decide (P x)), (decide (Q x)); cbn; try lia. exfalso. auto.
Qed.

Lemma filter_fmap_length {A B} (f : A -> B) (P : A -> Prop) (Q : B -> Prop)
    `{!forall x, base.Decision (P x), !forall x, base.Decision (Q x)} l :
  (forall x, P x -> Q (f x)) -> (length (filter P l) <= length (filter Q (f <$> l)))%nat.
Proof.
  intros Himp. induction l as [|x l IH]; [done|]. rewrite fmap_cons, !filter_cons.
  specialize (Himp x). destruct (decide (P x)), (decide (Q (f x))); cbn; try lia. exfalso. auto.
Qed.

Lemma sublist_filter_length {A} (P : A -> Prop) `{!forall x, base.Decision (P x)} l1 l2 :
  l1 `sublist_of` l2 -> (length (filter P l1) <= length (filter P l2))%nat.
Proof.
  induction 1 as [|x l1 l2 _ IH|x l1 l2 _ IH]; [done| |]; rewrite !filter_cons; case_decide; cbn; lia.
Qed.

Lemma within_times low log : length (within low log) = length (filter (fun t => low < t) log.*2).
Proof.
  unfold within. induction log as [|[m t] log IH]; [done|].
  rewrite fmap_cons, !filter_cons. cbn [snd]. repeat case_decide; cbn [length]; congruence || lia.
Qed.

Lemma log_step_limited limit window last now m log :
  0 <= limit -> last <= now -> limited limit window last log ->
  limited limit window now (snd (log_step limit window now m log)).
Proof.
  intros Hlim Hle [Hlast Hin]. unfold log_step. rewrite within_times.
  destruct (Z.ltb_spec (Z.of_nat (length (filter (fun t => now - window < t) log.*2))) limit) as [Hlt|];
    cbn [snd]; (split; [|try done]).
  - intros m' s [Hs|Hs]%elem_of_app; [specialize (Hlast _ _ Hs); lia|].
    apply list_elem_of_singleton in Hs. by injection Hs as -> ->.
  - intros t. specialize (Hin t). revert Hin. unfold in_window.
    rewrite fmap_app, filter_app, length_app. cbn [fmap list_fmap snd]. rewrite filter_cons, filter_nil.
    case_decide as Ht; cbn [length]; [|lia]. intros _.
    assert (in_window window t log.*2 <= Z.of_nat (length (filter (fun s => now - window < s) log.*2))) as Hf;
      [|unfold in_window in Hf; lia].
    apply Nat2Z.inj_le.
    apply filter_length_le. intros s _; cbn; lia.
  - intros m' s Hs. specialize (Hlast _ _ Hs). lia.
Qed.

(** ** Sessions of the store *)

Section Session.
Context {R : Type} `{RedisLaws R}.
Implicit Types r : R.

(** The requests of a session, each with the failure of its round trip, if any; the
    server's clock has reached the instant of each. *)
Fixpoint store_session (requests : list (RateRequest * option ScriptFailure)) r
    : list (RateRequest * sum error Decision) :=
  match requests with
  | [] => []
  | (q, failure) :: requests =>
      let '(answer, r) := Store_Allow true failure zero_time q (redis_advance (UnixMilli (rr_Now q)) r) in
      (q, answer) :: store_session requests r
  end.

Definition allowed_for (k : string) (entry : RateRequest * sum error Decision) : bool :=
  match entry with
  | (q, inr d) => bool_decide (rr_Key q = k) && dc_Allowed d
  | _ => false
  end.

(** When the requests of the key that were allowed came. *)
Definition allowed_times (k : string) (session : list (RateRequest * sum error Decision)) : list Time :=
  (fun entry => rr_Now entry.1) <$> filter (fun entry => allowed_for k entry = true) session.

Fixpoint ordered_from (t0 : Time) (requests : list (RateRequest * option ScriptFailure)) : Prop :=
  match requests with
  | [] => True
  | (q, _) :: requests => t0 <= rr_Now q /\ ordered_from (rr_Now q) requests
  end.

Definition same_policy (k : string) (limit : Z) (window : Duration) (requests : list (RateRequest * option ScriptFailure)) : Prop :=
  forall q f, (q, f) ∈ requests -> rr_Key q = k -> rr_Limit q = limit /\ rr_Window q = window.

Definition request_members (k : string) (requests : list (RateRequest * option ScriptFailure)) : list string :=
  (fun qf => rr_Member qf.1) <$> filter (fun qf => rr_Key qf.1 = k) requests.

(** Either the request does not reach the server, or the script runs on it once. *)
Lemma Store_Allow_runs failure wallClock q r :
  let '(answer, r') := Store_Allow true failure wallClock q r in
  (exists err, answer = inl err /\ r' = r) \/
  (let now := if IsZero (rr_Now q) then wallClock else rr_Now q in
   let '((allowed, remaining, reset), r'') :=
     slidingWindowScript (rr_Key q) (UnixMilli now) (windowMillis (rr_Window q)) (rr_Limit q) (rr_Member q) r in
   0 < rr_Limit q /\ 0 < rr_Window q /\ r' = r'' /\
   match answer with
   | inr d => d = mkDecision (bool_decide (allowed = 1)) remaining (fromUnixMilli reset)
   | inl _ => is_Some failure
   end).
Proof.
  unfold Store_Allow. cbn [negb].
  case_bool_decide; [by left; eexists|]. case_bool_decide; [by left; eexists|].
  destruct (Z.leb_spec (rr_Limit q) 0); [by left; eexists|].
  destruct (Z.leb_spec (rr_Window q) 0); [by left; eexists|].
  destruct (negb _); [by left; eexists|].
  unfold runScript. destruct failure as [[err|err]|]; cbv iota beta zeta.
  - by left; eexists.
  - destruct (slidingWindowScript _ _ _ _ _ _) as [[[? ?] ?] ?]. right. by eauto.
  - destruct (slidingWindowScript _ _ _ _ _ _) as [[[? ?] ?] ?]. right. by eauto.
Qed.

Lemma windowMillis_ceil window : 0 < window ->
  0 < windowMillis window /\ window <= windowMillis window * Millisecond < window + Millisecond.
Proof.
  intros Hw. unfold windowMillis, Milliseconds.
  assert (Millisecond = 1000000) as -> by done.
  pose proof (Z.quot_rem' window 1000000) as Hq. pose proof (Z.rem_bound_pos window 1000000) as Hb.
  destruct (Z.eqb_spec (Z.rem window 1000000) 0); lia.
Qed.

Lemma UnixMilli_mono t u : t <= u -> UnixMilli t <= UnixMilli u.
Proof. intros. unfold UnixMilli. apply Z.div_le_mono; [done|lia]. Qed.

Definition no_more (k : string) (limit window last : Z) (log : RateLog) r (times : list Time) : Prop :=
  holds k window last log r /\ limited limit window last log /\
  (UnixMilli <$> times) `sublist_of` log.*2.

(** The log of the policy the script implements grows by what it allowed. *)
Lemma log_step_grows limit window now m log :
  let '((allowed, _, _), log') := log_step limit window now m log in
  log' = if bool_decide (allowed = 1) then log ++ [(m, now)] else log.
Proof. unfold log_step. by destruct (_ <? _). Qed.

Lemma holds_other k window last log r r' :
  redis_view r' k = redis_view r k -> redis_deadline r' k = redis_deadline r k ->
  holds k window last log r -> holds k window last log r'.
Proof. intros Hv Hd [Hg Hview Hdl]. split; [done|by rewrite Hv|]. by rewrite Hv, Hd. Qed.

Lemma session_step k limit window failure last q log r times :
  0 < limit -> 0 < window -> 0 < rr_Now q -> last <= UnixMilli (rr_Now q) ->
  (rr_Key q = k -> rr_Limit q = limit /\ rr_Window q = window /\ rr_Member q ∉ log.*1) ->
  no_more k limit (windowMillis window) last log r times ->
  let '(answer, r') := Store_Allow true failure zero_time q (redis_advance (UnixMilli (rr_Now q)) r) in
  exists log',
    no_more k limit (windowMillis window) (UnixMilli (rr_Now q)) log' r'
      (times ++ if allowed_for k (q, answer) then [rr_Now q] else []) /\
    (log' = log \/ rr_Key q = k /\ log' = log ++ [(rr_Member q, UnixMilli (rr_Now q))]).
Proof.
  intros Hlim Hwin Hnow Hle Hk (Hh & Hl & Hsub).
  apply (holds_advance _ _ _ _ _ _ Hle) in Hh.
  pose proof (Store_Allow_runs failure zero_time q (redis_advance (UnixMilli (rr_Now q)) r)) as Hrun.
  destruct (Store_Allow _ _ _ _ _) as [answer r'].
  assert (limited limit (windowMillis window) (UnixMilli (rr_Now q)) log) as Hl'.
  { destruct Hl as [Hlast Hin]. split; [|done]. intros m s Hs. specialize (Hlast _ _ Hs). lia. }
  destruct Hrun as [(err & -> & ->)|Hrun].
  { exists log. cbn [allowed_for]. rewrite app_nil_r. by split; [|left]. }
  replace (IsZero (rr_Now q)) with false in Hrun by (symmetry; apply Z.eqb_neq; lia).
  cbv zeta match in Hrun. destruct (decide (rr_Key q = k)) as [Hkey|Hkey].
  - destruct (Hk Hkey) as (Hql & Hqw & Hm). rewrite Hkey, Hql, Hqw in Hrun.
    pose proof (windowMillis_ceil window Hwin) as [HW _].
    pose proof (script_own k limit (windowMillis window) (UnixMilli (rr_Now q)) (rr_Member q) log _
      Hlim HW Hm (advance_clock _ _) Hh) as Hown.
    pose proof (log_step_limited limit (windowMillis window) _ _ (rr_Member q) log ltac:(lia) Hle Hl) as Hlim'.
    pose proof (log_step_grows limit (windowMillis window) (UnixMilli (rr_Now q)) (rr_Member q) log) as Hgrow.
    destruct (slidingWindowScript _ _ _ _ _ _) as [[[allowed remaining] reset] r''].
    destruct Hrun as (_ & _ & -> & Hans).
    destruct (log_step _ _ _ _ _) as [[[? ?] ?] log']. destruct Hown as [[= <- <- <-] Hh'].
    cbn [snd] in Hlim'. exists log'. split; [split_and!; [done|done|]|].
    + destruct answer as [err|d]; cbn [allowed_for].
      * rewrite app_nil_r. subst log'. case_bool_decide; [|done].
        rewrite fmap_app. etrans; [exact Hsub|]. apply sublist_inserts_r. done.
      * subst d. rewrite bool_decide_eq_true_2 by done. cbn [dc_Allowed andb].
        subst log'. case_bool_decide; [|by rewrite app_nil_r].
        rewrite !fmap_app. by apply sublist_app.
    + subst log'. case_bool_decide; [by right|by left].
  - exists log. split; [|by left].
    pose proof (script_other k (rr_Key q) (rr_Limit q) (windowMillis (rr_Window q)) (UnixMilli (rr_Now q)) (rr_Member q)
      (redis_advance (UnixMilli (rr_Now q)) r) Hkey) as [Hv Hd].
    destruct (slidingWindowScript _ _ _ _ _ _) as [[[allowed remaining] reset] r''].
    destruct Hrun as (_ & _ & -> & Hans). cbn [snd] in Hv, Hd.
    replace (allowed_for k (q, answer)) with false.
    + rewrite app_nil_r. split_and!; [|done|done]. by eapply holds_other.
    + destruct answer; cbn; [done|]. by rewrite bool_decide_eq_false_2.
Qed.

Lemma session_no_more k limit window requests t0 log r times :
  0 < limit -> 0 < window -> 0 < t0 -> ordered_from t0 requests -> same_policy k limit window requests ->
  NoDup (request_members k requests) -> (forall m, m ∈ request_members k requests -> m ∉ log.*1) ->
  no_more k limit (windowMillis window) (UnixMilli t0) log r times ->
  exists log' r' last,
    no_more k limit (windowMillis window) last log' r' (times ++ allowed_times k (store_session requests r)).
Proof.
  intros Hlim Hwin. revert t0 log r times.
  induction requests as [|[q failure] requests IH]; intros t0 log r times Ht0 Hord Hsame Hnd Hfresh Hn.
  { cbn [store_session allowed_times]. unfold allowed_times. rewrite filter_nil, app_nil_r. eauto. }
  destruct Hord as [Hq Hord].
  assert (rr_Key q = k -> rr_Limit q = limit /\ rr_Window q = window /\ rr_Member q ∉ log.*1) as Hk.
  { intros Hkey. destruct (Hsame q failure ltac:(by left) Hkey) as [? ?]. split_and!; [done|done|].
    apply Hfresh. unfold request_members. rewrite filter_cons_True by done. by left. }
  pose proof (session_step k limit window failure (UnixMilli t0) q log r times Hlim Hwin ltac:(lia)
    (UnixMilli_mono _ _ Hq) Hk Hn) as Hstep.
  cbn [store_session]. destruct (Store_Allow _ _ _ _ _) as [answer r'].
  destruct Hstep as (log' & Hn' & Hlog).
  unfold allowed_times. rewrite filter_cons.
  assert (forall m, m ∈ request_members k requests -> m ∉ log'.*1) as Hfresh'.
  { unfold request_members in *. rewrite filter_cons in Hnd, Hfresh. intros m Hm.
    destruct Hlog as [->|[Hkey ->]]; [apply Hfresh; case_decide; [by right|done]|].
    rewrite decide_True in Hnd, Hfresh by done. rewrite fmap_cons in Hnd, Hfresh.
    apply NoDup_cons in Hnd as [Hni _]. rewrite fmap_app. intros [Hin|Hin]%elem_of_app.
    - revert Hin. apply Hfresh. by right.
    - apply list_elem_of_singleton in Hin. cbn in Hin, Hni. by subst m. }
  assert (NoDup (request_members k requests)) as Hnd'.
  { revert Hnd. unfold request_members. rewrite filter_cons. case_decide; [|done].
    rewrite fmap_cons, NoDup_cons. by intros [_ ?]. }
  destruct (IH (rr_Now q) log' r' _ ltac:(lia) Hord (fun q' f' Hin => Hsame q' f' ltac:(by right)) Hnd' Hfresh' Hn')
    as (log2 & r2 & last & Hn2).
  exists log2, r2, last. revert Hn2. unfold allowed_times. rewrite <- app_assoc.
  by destruct (allowed_for k (q, answer)); cbn.
Qed.

End Session.

(** Entries of the real window are in the window of milliseconds that contains it. *)
Lemma real_window W t s : t - (W - 1) * Millisecond < s /\ s <= t ->
  UnixMilli t - W < UnixMilli s /\ UnixMilli s <= UnixMilli t.
Proof.
  unfold UnixMilli. change Millisecond with 1000000. set (e := unix_epoch). intros [H1 H2].
  pose proof (Z.div_mod (t - e) 1000000 ltac:(lia)). pose proof (Z.mod_pos_bound (t - e) 1000000 ltac:(lia)).
  pose proof (Z.div_mod (s - e) 1000000 ltac:(lia)). pose proof (Z.mod_pos_bound (s - e) 1000000 ltac:(lia)).
  nia.
Qed.

(** C24: the limit holds for every window: take any session of requests to [Allow], for any
    keys, in the order of their times, with failing round trips, in which the requests of
    one key have one policy and a member each.  Of the requests of the key that [Allow]
    answered as allowed, no interval a millisecond shorter than the configured window (rounded
    up to milliseconds), wherever it starts, contains more than the limit. *)
Theorem sliding_window_never_exceeded {R} `{RedisLaws R} k limit window requests (r : R) t0 t :
  0 < limit -> 0 < window -> 0 < t0 -> ordered_from t0 requests -> same_policy k limit window requests ->
  NoDup (request_members k requests) -> redis_view r k = ∅ ->
  in_window ((windowMillis window - 1) * Millisecond) t (allowed_times k (store_session requests r)) <= limit.
Proof.
  intros Hlim Hwin Ht0 Hord Hsame Hnd Hr.
  destruct (session_no_more k limit window requests t0 [] r [] Hlim Hwin Ht0 Hord Hsame Hnd)
    as (log & r' & last & _ & [_ Hin] & Hsub).
  - intros m _. apply not_elem_of_nil.
  - split_and!; [by apply holds_empty| |done].
    split; [by intros ?? ?%elem_of_nil|]. intros t'. unfold in_window. cbn. lia.
  - etrans; [|apply (Hin (UnixMilli t))]. apply Nat2Z.inj_le.
    etrans; [|apply (sublist_filter_length _ _ _ Hsub)].
    apply filter_fmap_length. apply real_window.
Qed.

(** A policy of two requests in 100 ms. *)
Definition demo_rate_request (key member : string) (now : Z) : RateRequest * option ScriptFailure :=
  (mkRateRequest key 2 (100 * Millisecond) "" member (unix_epoch + now * Millisecond), None).

Definition demo_requests : list (RateRequest * option ScriptFailure) :=
  [demo_rate_request "k" "r1" 1000; demo_rate_request "other" "x" 1010; demo_rate_request "k" "r2" 1050;
   demo_rate_request "k" "r3" 1060; demo_rate_request "k" "r4" 1100; demo_rate_request "k" "r5" 1300].

Lemma sliding_window_never_exceeded_witness :
  allowed_times "k" (store_session demo_requests (mkMapRedis 0 ∅ ∅)) =
    (fun ms => unix_epoch + ms * Millisecond) <$> [1000; 1050; 1100; 1300] /\
  in_window (99 * Millisecond) (unix_epoch + 1100 * Millisecond)
    (allowed_times "k" (store_session demo_requests (mkMapRedis 0 ∅ ∅))) <= 2.
Proof.
  split; [vm_compute; reflexivity|].
  apply (sliding_window_never_exceeded "k" 2 (100 * Millisecond) demo_requests (mkMapRedis 0 ∅ ∅) 1).
  - lia.
  - reflexivity.
  - lia.
  - vm_compute. intuition discriminate.
  - intros q f Hq Hk. unfold demo_requests in Hq.
    repeat (apply elem_of_cons in Hq as [[= -> ->]|Hq]; [first [split; reflexivity|discriminate Hk]|]).
    by apply elem_of_nil in Hq.
  - vm_compute. repeat constructor; set_solver.
  - reflexivity.
Defined.

(** C25: the script implements the sliding window: on an empty server, in any session of
    calls on any keys at times that do not go back, the replies a key gets (allowed or not,
    how many are left, when the oldest leaves) are those of the specification that keeps
    the log of everything it allowed and counts the entries of the window; trimming and
    expiry of the sorted set are not observable. *)
Theorem script_refines_sliding_window {R} `{RedisLaws R} k limit window calls (r : R) t0 :
  0 < limit -> 0 < window -> times_from t0 calls -> same_limit k limit window calls ->
  NoDup (members_of k calls) -> redis_view r k = ∅ ->
  replies_for k (fst (script_run calls r)) = fst (log_run k calls []).
Proof.
  intros Hlim Hwin Ht Hsame Hnd Hr.
  pose proof (script_run_refines k limit window calls t0 [] r Hlim Hwin Ht Hsame Hnd) as Href.
  destruct (script_run calls r) as [replies r']. apply Href.
  - intros m _. apply not_elem_of_nil.
  - by apply holds_empty.
Qed.

Definition demo_calls : list call :=
  [mkCall "k" 1000 100 2 "r1"; mkCall "other" 1010 100 1 "x"; mkCall "k" 1050 100 2 "r2";
   mkCall "k" 1060 100 2 "r3"; mkCall "k" 1100 100 2 "r4"; mkCall "k" 1300 100 2 "r5"].

Lemma script_refines_sliding_window_witness :
  replies_for "k" (fst (script_run demo_calls (mkMapRedis 0 ∅ ∅))) =
    [(1, 1, 1100); (1, 0, 1100); (0, 0, 1100); (1, 0, 1150); (1, 1, 1400)].
Proof.
  rewrite (script_refines_sliding_window "k" 2 100 demo_calls (mkMapRedis 0 ∅ ∅) 0).
  - vm_compute. reflexivity.
  - lia.
  - lia.
  - vm_compute. intuition discriminate.
  - intros c Hc Hk. unfold demo_calls in Hc.
    repeat (apply elem_of_cons in Hc as [->|Hc]; [first [split; reflexivity|discriminate Hk]|]).
    by apply elem_of_nil in Hc.
  - vm_compute. repeat constructor; set_solver.
  - reflexivity.
Defined.

