(* ===== verification/Handlers.v ===== *)
(** * HTTP handlers: [internal/response/response.go], [internal/middleware/chain.go] and the
    [statusRecorder] of [internal/middleware/tracing.go]

    A handler writes to a [ResponseWriter]: the connection, or a recorder over a writer.
    The [Server] state is the connection's response, the recorders allocated so far, and
    the state [D] of what the handlers call, which they reach through the interface
    [Downstream].  A handler returns or panics with [http.ErrAbortHandler].  Handlers share
    a request's header map, but nothing reads it after the next handler returned except
    log statements, so a request is passed down as a value.  Log events and trace spans
    are not modelled. *)

From S2P Require Import Prelude GoStrings GoErrors Config Http Metrics RateStore.
From stdpp Require Import options.
#[local] Set Default Proof Using "Type*".

(** ** The connection *)

Record ErrorBody := mkErrorBody { eb_Error : string; eb_Code : Z; eb_RequestID : string }.

(** What is written to a body: a JSON document, or bytes read from the reader [id]. *)
Inductive Chunk :=
  | ErrorJSON (body : ErrorBody)
  | ObjectJSON (fields : list (string * string))
  | Copied (id : nat)
  | Text (s : string).

(** The response of [net/http]: the header map is sent with the first final status; later
    changes are not, and later statuses are dropped.  An informational status is sent at
    once and is not final. *)
Record Conn := mkConn {
  cn_Header : Header;
  cn_informational : list Z;
  cn_sent : option (Z * Header);
  cn_body : list Chunk;
}.

Definition new_conn : Conn := mkConn ∅ [] None [].

Definition StatusSwitchingProtocols : Z := 101.

Definition informational (code : Z) : bool :=
  (100 <=? code) && (code <=? 199) && negb (code =? StatusSwitchingProtocols).

Definition conn_WriteHeader (code : Z) (c : Conn) : Conn :=
  match cn_sent c with
  | Some _ => c
  | None =>
      if informational code
      then mkConn (cn_Header c) (cn_informational c ++ [code]) None (cn_body c)
      else mkConn (cn_Header c) (cn_informational c) (Some (code, cn_Header c)) (cn_body c)
  end.

Definition conn_Write (chunk : Chunk) (c : Conn) : Conn :=
  let c := match cn_sent c with None => conn_WriteHeader StatusOK c | Some _ => c end in
  mkConn (cn_Header c) (cn_informational c) (cn_sent c) (cn_body c ++ [chunk]).

Definition conn_set_header (h : Header) (c : Conn) : Conn :=
  mkConn h (cn_informational c) (cn_sent c) (cn_body c).

(** The status the client gets when the handler has returned. *)
Definition client_status (c : Conn) : Z :=
  match cn_sent c with Some (code, _) => code | None => StatusOK end.

(** ** Writers *)

Record statusRecorder := mkRecorder { sr_statusCode : Z; sr_wroteHeader : bool }.

Inductive ResponseWriter := Connection | Recorder (id : nat) (inner : ResponseWriter).

(** ** What the handlers call *)

(** The clock, the metrics registry (nil or not), fresh UUIDs and the rate limit store. *)
Class Downstream (D : Type) `{Prometheus} := {
  dn_Now : D -> Time;
  dn_metrics : D -> option MetricsRegistry;
  dn_update_metrics : (option MetricsRegistry -> option MetricsRegistry) -> D -> D;
  dn_NewUUID : D -> string * D;
  dn_Allow : RateRequest -> D -> sum error Decision * D;
}.

Class DownstreamLaws (D : Type) `{Downstream D} : Prop := {
  dn_metrics_update f d : dn_metrics (dn_update_metrics f d) = f (dn_metrics d);
  dn_metrics_UUID d : dn_metrics (snd (dn_NewUUID d)) = dn_metrics d;
  dn_metrics_Allow q d : dn_metrics (snd (dn_Allow q d)) = dn_metrics d;
  dn_UUID_nonblank d : TrimSpace (fst (dn_NewUUID d)) <> "";
}.

(** ** The state *)

Section Handlers.
Context {D : Type}.

Record Server := mkServer {
  sv_conn : Conn;
  sv_recorders : list statusRecorder;
  sv_down : D;
}.
Implicit Types s : Server.

Definition on_conn (f : Conn -> Conn) s : Server := mkServer (f (sv_conn s)) (sv_recorders s) (sv_down s).
Definition on_down (f : D -> D) s : Server := mkServer (sv_conn s) (sv_recorders s) (f (sv_down s)).
Definition with_recorders (rs : list statusRecorder) s : Server := mkServer (sv_conn s) rs (sv_down s).

Inductive Completion := Returned | Aborted.

Definition Handler : Type := ResponseWriter -> Request -> Server -> Completion * Server.
Definition Middleware : Type := Handler -> Handler.

(** [w.Header()]: a recorder shows the map of the writer it embeds. *)
Fixpoint Writer_Header (w : ResponseWriter) s : Header :=
  match w with Connection => cn_Header (sv_conn s) | Recorder _ inner => Writer_Header inner s end.
Fixpoint Writer_SetHeader (w : ResponseWriter) (h : Header) s : Server :=
  match w with
  | Connection => on_conn (conn_set_header h) s
  | Recorder _ inner => Writer_SetHeader inner h s
  end.

(** [w.Header().Set(key, value)] *)
Definition Writer_Set (w : ResponseWriter) (key value : string) s : Server :=
  Writer_SetHeader w (Header_Set key value (Writer_Header w s)) s.

(** [statusRecorder.WriteHeader], and the connection's. *)
Fixpoint WriteHeader (w : ResponseWriter) (statusCode : Z) s : Server :=
  match w with
  | Connection => on_conn (conn_WriteHeader statusCode) s
  | Recorder id inner =>
      match sv_recorders s !! id with
      | Some (mkRecorder _ false) =>
          WriteHeader inner statusCode (with_recorders (<[id := mkRecorder statusCode true]> (sv_recorders s)) s)
      | _ => s
      end
  end.

(** [statusRecorder.Write], and the connection's. *)
Fixpoint Write (w : ResponseWriter) (data : Chunk) s : Server :=
  match w with
  | Connection => on_conn (conn_Write data) s
  | Recorder id inner =>
      let s :=
        match sv_recorders s !! id with
        | Some (mkRecorder _ false) => WriteHeader w StatusOK s
        | _ => s
        end in
      Write inner data s
  end.

(** [&statusRecorder{ResponseWriter: w, statusCode: http.StatusOK}] *)
Definition new_recorder (w : ResponseWriter) s : ResponseWriter * Server :=
  (Recorder (length (sv_recorders s)) w,
   with_recorders (sv_recorders s ++ [mkRecorder StatusOK false]) s).

(** [recorder.statusCode] *)
Definition recorder_status (w : ResponseWriter) s : Z :=
  match w with
  | Recorder id _ => match sv_recorders s !! id with Some r => sr_statusCode r | None => StatusOK end
  | Connection => StatusOK
  end.

(** ** Responses *)

(** Encoding the payloads of the gateway does not fail. *)
Definition WriteJSON (w : ResponseWriter) (status : Z) (payload : Chunk) s : Server :=
  let s := Writer_Set w "Content-Type" "application/json" s in
  Write w payload (WriteHeader w status s).

Definition RequestID (req : Request) : string := Header_Get (rq_Header req) "X-Request-ID".

Definition WriteError (w : ResponseWriter) (req : Request) (status : Z) (message : string) s : Server :=
  WriteJSON w status (ErrorJSON (mkErrorBody message status (RequestID req))) s.

(** A handler that answers with an error. *)
Definition respondError (w : ResponseWriter) (req : Request) (status : Z) (message : string) s : Completion * Server :=
  (Returned, WriteError w req status message s).

(** ** Composition *)

(** [Chain]: the loop runs from the last middleware. *)
Fixpoint chain_loop (index : nat) (handler : Handler) (middlewares : list Middleware) : Handler :=
  match index with
  | O => handler
  | S index =>
      let handler := match (middlewares !! index : option Middleware) with Some m => m handler | None => handler end in
      chain_loop index handler middlewares
  end.

Definition Chain (handler : Handler) (middlewares : list Middleware) : Handler :=
  chain_loop (length middlewares) handler middlewares.

Lemma chain_loop_take n h (ms : list Middleware) :
  (n <= length ms)%nat -> chain_loop n h ms = foldr (fun (m : Middleware) h => m h) h (take n ms).
Proof.
  revert h. induction n as [|n IH]; intros h Hn; [by rewrite take_0|]. cbn [chain_loop].
  destruct (lookup_lt_is_Some_2 ms n) as [m Hm]; [lia|]. rewrite Hm, IH by lia.
  by rewrite (take_S_r _ _ _ Hm), foldr_app.
Qed.

(** The first middleware is the outermost. *)
Lemma Chain_foldr h (ms : list Middleware) : Chain h ms = foldr (fun (m : Middleware) h => m h) h ms.
Proof. unfold Chain. by rewrite chain_loop_take, take_ge by lia. Qed.

(** What a middleware guarantees to the next handler: on a request that satisfies [P], it
    calls the next handler with requests that satisfy [Q] only, so handlers that agree on
    those cannot be told apart. *)
Definition guarantees (P Q : Request -> Prop) (m : Middleware) : Prop :=
  forall next next' : Handler,
    (forall w req s, Q req -> next w req s = next' w req s) ->
    forall w req s, P req -> m next w req s = m next' w req s.

Lemma guarantees_foldr Ps ms P :
  Forall2 (fun PQ m => guarantees PQ.1 PQ.2 m) Ps ms ->
  (forall i PQ PQ', Ps !! i = Some PQ -> Ps !! S i = Some PQ' -> forall req, PQ.2 req -> PQ'.1 req) ->
  (forall PQ, Ps !! O = Some PQ -> forall req, P req -> PQ.1 req) ->
  guarantees P (match last Ps with Some PQ => PQ.2 | None => P end) (fun h => foldr (fun (m : Middleware) h => m h) h ms).
Proof.
  intros Hms. revert P. induction Hms as [|[Q Q'] m Ps ms Hm Hms IH]; intros P Hlink Hfirst next next' Hnext w req s HP; cbn [foldr].
  - by apply Hnext.
  - apply (Hm _ _) with (req := req); [|by apply (Hfirst (Q, Q'))]. intros w' req' s' HQ'.
    apply (IH Q'); [|..|done].
    + intros i PQ PQ' H1 H2. by apply (Hlink (S i)).
    + intros PQ HPQ. by apply (Hlink O (Q, Q')).
    + intros w2 req2 s2 HQ. apply Hnext. rewrite last_cons. by destruct (last Ps).
Qed.

(** A handler that preserves a predicate of what the handlers call. *)
Definition keeps (I : D -> Prop) (h : Handler) : Prop :=
  forall w req s, I (sv_down s) -> I (sv_down (h w req s).2).

Lemma keeps_foldr I h (ms : list Middleware) :
  Forall (fun m : Middleware => forall next, keeps I next -> keeps I (m next)) ms -> keeps I h ->
  keeps I (foldr (fun (m : Middleware) h => m h) h ms).
Proof. induction 1 as [|m ms Hm _ IH]; intros Hh; cbn [foldr]; [done|]. apply Hm, IH, Hh. Qed.

(** ** Recorders and the connection *)

Fixpoint recorder_ids (w : ResponseWriter) : list nat :=
  match w with Connection => [] | Recorder id inner => id :: recorder_ids inner end.

(** What a recorder that follows the connection holds. *)
Definition following (c : Conn) : statusRecorder :=
  match cn_sent c with None => mkRecorder StatusOK false | Some (code, _) => mkRecorder code true end.

Record tracks (w : ResponseWriter) s : Prop := {
  tr_nodup : NoDup (recorder_ids w);
  tr_follow id : id ∈ recorder_ids w -> sv_recorders s !! id = Some (following (sv_conn s));
}.

Lemma WriteHeader_sent w code s h c :
  tracks w s -> cn_sent (sv_conn s) = Some (c, h) -> WriteHeader w code s = s.
Proof.
  intros [_ Hf] Hc. destruct w as [|id inner]; cbn [WriteHeader].
  - destruct s as [conn rs d]. unfold on_conn, conn_WriteHeader. cbn in *. by rewrite Hc.
  - rewrite (Hf id) by (by left). unfold following. by rewrite Hc.
Qed.

(** A final status goes to the connection and to every recorder. *)
Lemma WriteHeader_fresh w code s :
  informational code = false -> NoDup (recorder_ids w) -> cn_sent (sv_conn s) = None ->
  (forall id, id ∈ recorder_ids w -> sv_recorders s !! id = Some (mkRecorder StatusOK false)) ->
  let s' := WriteHeader w code s in
  sv_conn s' = mkConn (cn_Header (sv_conn s)) (cn_informational (sv_conn s))
                 (Some (code, cn_Header (sv_conn s))) (cn_body (sv_conn s)) /\
  sv_down s' = sv_down s /\ length (sv_recorders s') = length (sv_recorders s) /\
  (forall id, id ∈ recorder_ids w -> sv_recorders s' !! id = Some (mkRecorder code true)) /\
  (forall id, id ∉ recorder_ids w -> sv_recorders s' !! id = sv_recorders s !! id).
Proof.
  intros Hcode. revert s. induction w as [|id inner IH]; intros s Hnd Hc Hf; cbn [WriteHeader recorder_ids].
  - unfold on_conn, conn_WriteHeader. cbn. rewrite Hc, Hcode. split_and!; try done. by intros id ?%elem_of_nil.
  - apply NoDup_cons in Hnd as [Hni Hnd]. pose proof (Hf id ltac:(by left)) as Hid. rewrite Hid.
    set (s1 := with_recorders _ s).
    assert (forall i, i ∈ recorder_ids inner -> sv_recorders s1 !! i = Some (mkRecorder StatusOK false)) as Hf1.
    { intros i Hi. cbn. rewrite list_lookup_insert_ne by (by intros ->). apply Hf. by right. }
    destruct (IH s1 Hnd Hc Hf1) as (Hconn & Hdown & Hlen & Hin & Hout).
    split_and!; [done|done|by rewrite Hlen; cbn; rewrite length_insert| |].
    + intros i [->|Hi]%elem_of_cons; [|by apply Hin]. rewrite Hout by done. cbn.
      apply list_lookup_insert_eq. by eapply lookup_lt_Some.
    + intros i [Hne Hi]%not_elem_of_cons. rewrite Hout by done. cbn. by rewrite list_lookup_insert_ne.
Qed.

Lemma tracks_unsent w s :
  tracks w s -> cn_sent (sv_conn s) = None ->
  forall id, id ∈ recorder_ids w -> sv_recorders s !! id = Some (mkRecorder StatusOK false).
Proof. intros [_ Hf] Hc id Hid. rewrite (Hf id Hid). unfold following. by rewrite Hc. Qed.

Lemma tracks_WriteHeader w code s :
  informational code = false -> tracks w s -> tracks w (WriteHeader w code s).
Proof.
  intros Hcode Ht. destruct (cn_sent (sv_conn s)) as [[c h]|] eqn:Hc.
  - by rewrite (WriteHeader_sent _ _ _ _ _ Ht Hc).
  - destruct (WriteHeader_fresh w code s Hcode (tr_nodup _ _ Ht) Hc (tracks_unsent _ _ Ht Hc)) as (Hconn & _ & _ & Hin & _).
    split; [apply Ht|]. intros id Hid. rewrite Hin, Hconn by done. done.
Qed.

Lemma tracks_inner id inner s : tracks (Recorder id inner) s -> tracks inner s.
Proof. intros [Hnd Hf]. apply NoDup_cons in Hnd as [_ Hnd]. split; [done|]. intros i Hi. apply Hf. by right. Qed.

(** A body write goes to the connection after the status 200, if none was sent. *)
Lemma Write_sent w data s c h :
  tracks w s -> cn_sent (sv_conn s) = Some (c, h) -> Write w data s = on_conn (conn_Write data) s.
Proof.
  induction w as [|id inner IH]; intros Ht Hc; cbn [Write]; [done|].
  destruct Ht as [Hnd Hf]. rewrite (Hf id) by (by left). unfold following at 1. rewrite Hc.
  apply IH; [by eapply tracks_inner|done].
Qed.

Lemma tracks_on_conn w (f : Conn -> Conn) s :
  cn_sent (f (sv_conn s)) = cn_sent (sv_conn s) -> tracks w s -> tracks w (on_conn f s).
Proof.
  intros Hf [Hnd Hid]. split; [done|]. intros id Hin. cbn. rewrite (Hid id Hin). unfold following. by rewrite Hf.
Qed.

Lemma tracks_on_down w (f : D -> D) s : tracks w s -> tracks w (on_down f s).
Proof. by intros [Hnd Hid]. Qed.

Lemma Write_fresh w data s :
  tracks w s -> cn_sent (sv_conn s) = None ->
  Write w data s = on_conn (conn_Write data) (WriteHeader w StatusOK s).
Proof.
  intros Ht Hc. destruct w as [|id inner].
  - cbn. unfold on_conn, conn_Write, conn_WriteHeader. cbn. by rewrite Hc.
  - pose proof (tracks_WriteHeader (Recorder id inner) StatusOK s eq_refl Ht) as Ht'.
    pose proof (WriteHeader_fresh (Recorder id inner) StatusOK s eq_refl (tr_nodup _ _ Ht) Hc (tracks_unsent _ _ Ht Hc)) as (Hconn & _).
    change (Write (Recorder id inner) data s) with
      (Write inner data (match sv_recorders s !! id with Some (mkRecorder _ false) => WriteHeader (Recorder id inner) StatusOK s | _ => s end)).
    rewrite (tracks_unsent _ _ Ht Hc id) by (by left).
    eapply Write_sent; [by eapply tracks_inner|]. by rewrite Hconn.
Qed.

Lemma tracks_Write w data s : tracks w s -> tracks w (Write w data s).
Proof.
  intros Ht. destruct (cn_sent (sv_conn s)) as [[c h]|] eqn:Hc.
  - rewrite (Write_sent _ _ _ _ _ Ht Hc). apply tracks_on_conn; [|done].
    unfold conn_Write. by rewrite Hc.
  - rewrite Write_fresh by done.
    pose proof (WriteHeader_fresh w StatusOK s eq_refl (tr_nodup _ _ Ht) Hc (tracks_unsent _ _ Ht Hc)) as (Hconn & _).
    apply tracks_on_conn; [|by apply tracks_WriteHeader].
    unfold conn_Write. by rewrite Hconn.
Qed.

Lemma Writer_Header_conn w s : Writer_Header w s = cn_Header (sv_conn s).
Proof. by induction w. Qed.

Lemma Writer_SetHeader_conn w h s : Writer_SetHeader w h s = on_conn (conn_set_header h) s.
Proof. by induction w. Qed.

Lemma tracks_Set w w' key value s : tracks w s -> tracks w (Writer_Set w' key value s).
Proof. intros Ht. unfold Writer_Set. rewrite Writer_SetHeader_conn. by apply tracks_on_conn. Qed.

Lemma tracks_status w s : tracks w s -> w <> Connection -> recorder_status w s = client_status (sv_conn s).
Proof.
  intros [_ Hf] Hw. destruct w as [|id inner]; [done|]. cbn. rewrite (Hf id) by (by left).
  unfold following, client_status. by destruct (cn_sent _) as [[??]|].
Qed.

(** A recorder allocated over a writer that has not sent follows it. *)
Lemma tracks_new_recorder w s :
  tracks w s -> cn_sent (sv_conn s) = None ->
  let '(w', s') := new_recorder w s in tracks w' s' /\ cn_sent (sv_conn s') = None.
Proof.
  intros Ht Hc. cbn. split; [|done]. destruct Ht as [Hnd Hf].
  assert (forall id, id ∈ recorder_ids w -> (id < length (sv_recorders s))%nat) as Hlt.
  { intros id Hid. by eapply lookup_lt_Some, Hf. }
  split; cbn [recorder_ids].
  - apply NoDup_cons. split; [|done]. intros Hin. specialize (Hlt _ Hin). lia.
  - cbn. intros id [->|Hid]%elem_of_cons.
    + rewrite list_lookup_middle by done. unfold following. by rewrite Hc.
    + rewrite lookup_app_l by (by apply Hlt). by apply Hf.
Qed.

(** The response on a connection that has sent none. *)
Lemma WriteJSON_unsent w status payload s :
  informational status = false -> tracks w s -> cn_sent (sv_conn s) = None ->
  let h := Header_Set "Content-Type" "application/json" (cn_Header (sv_conn s)) in
  let s' := WriteJSON w status payload s in
  sv_conn s' = mkConn h (cn_informational (sv_conn s)) (Some (status, h)) (cn_body (sv_conn s) ++ [payload]) /\
  sv_down s' = sv_down s /\ tracks w s'.
Proof.
  intros Hst Ht Hc. cbv zeta. unfold WriteJSON.
  pose proof (tracks_Set w w "Content-Type" "application/json" s Ht) as Ht1.
  unfold Writer_Set in *. rewrite Writer_SetHeader_conn, Writer_Header_conn in *.
  set (s1 := on_conn _ s) in *. assert (cn_sent (sv_conn s1) = None) as Hc1 by done.
  destruct (WriteHeader_fresh w status s1 Hst (tr_nodup _ _ Ht1) Hc1 (tracks_unsent _ _ Ht1 Hc1)) as (Hconn & Hdown & _).
  pose proof (tracks_WriteHeader w status s1 Hst Ht1) as Ht2.
  rewrite (Write_sent _ _ _ _ _ Ht2 ltac:(by rewrite Hconn)). cbn [sv_conn sv_down on_conn].
  rewrite Hconn, Hdown. split_and!; [done|done|]. apply tracks_on_conn; [|done].
  unfold conn_Write. by rewrite Hconn.
Qed.

(** A writer does not touch what the handlers call. *)
Lemma WriteHeader_down w code s : sv_down (WriteHeader w code s) = sv_down s.
Proof.
  revert s. induction w as [|id inner IH]; intros s; cbn [WriteHeader]; [done|].
  destruct (sv_recorders s !! id) as [[? []]|]; [done| |done]. by rewrite IH.
Qed.

Lemma Write_down w data s : sv_down (Write w data s) = sv_down s.
Proof.
  revert s. induction w as [|id inner IH]; intros s; cbn [Write]; [done|]. rewrite IH.
  destruct (sv_recorders s !! id) as [[? []]|]; [done| |done]. apply (WriteHeader_down (Recorder id inner)).
Qed.

Lemma WriteJSON_down w status payload s : sv_down (WriteJSON w status payload s) = sv_down s.
Proof. unfold WriteJSON, Writer_Set. by rewrite Write_down, WriteHeader_down, Writer_SetHeader_conn. Qed.

Lemma respondError_keeps (I : D -> Prop) w req status message s :
  I (sv_down s) -> I (sv_down (respondError w req status message s).2).
Proof. unfold respondError, WriteError. cbn [snd]. by rewrite WriteJSON_down. Qed.

Lemma Writer_Set_down w key value s : sv_down (Writer_Set w key value s) = sv_down s.
Proof. unfold Writer_Set. by rewrite Writer_SetHeader_conn. Qed.

(** ** What is done with a writer *)

Inductive WriterOp := OpStatus (code : Z) | OpData (data : Chunk) | OpHeader (key value : string).

Definition writer_op (w : ResponseWriter) s (op : WriterOp) : Server :=
  match op with
  | OpStatus code => WriteHeader w code s
  | OpData data => Write w data s
  | OpHeader key value => Writer_Set w key value s
  end.

Definition final_op (op : WriterOp) : Prop :=
  match op with OpStatus code => informational code = false | _ => True end.

Lemma tracks_ops w ops s : Forall final_op ops -> tracks w s -> tracks w (foldl (writer_op w) s ops).
Proof.
  intros Hops. revert s. induction Hops as [|[code|data|key value] ops Hop Hops IH]; intros s Ht; [done|..]; apply IH.
  - by apply tracks_WriteHeader.
  - by apply tracks_Write.
  - by apply tracks_Set.
Qed.

(** The status a recorder keeps is the status the client gets: whatever a handler
    writes to a recorder, over any stack of recorders over an unused connection, and in
    whatever order, as long as it sets no informational status. *)
Lemma recorder_shows_client_status w id ops s :
  tracks (Recorder id w) s -> Forall final_op ops ->
  let s' := foldl (writer_op (Recorder id w)) s ops in
  recorder_status (Recorder id w) s' = client_status (sv_conn s').
Proof. intros Ht Hops. apply tracks_status; [|done]. by apply tracks_ops. Qed.

End Handlers.

Definition demo_server : Server (D := unit) :=
  mkServer new_conn [mkRecorder StatusOK false; mkRecorder StatusOK false] tt.

Lemma demo_server_tracks : tracks (Recorder 1 (Recorder 0 Connection)) demo_server.
Proof.
  split; cbn.
  - repeat constructor; set_solver.
  - intros id Hid. apply elem_of_cons in Hid as [->|Hid]; [done|].
    apply elem_of_cons in Hid as [->|Hid]; [done|]. by apply elem_of_nil in Hid.
Qed.

Lemma recorder_shows_client_status_witness :
  let ops := [OpHeader "A" "b"; OpStatus 429; OpStatus 200; OpData (Text "x")] in
  let s' := foldl (writer_op (Recorder 1 (Recorder 0 Connection))) demo_server ops in
  recorder_status (Recorder 1 (Recorder 0 Connection)) s' = client_status (sv_conn s') /\
  client_status (sv_conn s') = 429.
Proof.
  split; [|vm_compute; reflexivity].
  apply (recorder_shows_client_status (Recorder 0 Connection) 1
    [OpHeader "A" "b"; OpStatus 429; OpStatus 200; OpData (Text "x")] demo_server demo_server_tracks).
  repeat constructor.
Defined.

(** An informational status is final for a recorder: the status that follows is dropped,
    and the client gets 200. *)
Lemma informational_status_loses_final :
  let w := Recorder 0 Connection in
  let s' := foldl (writer_op w) demo_server [OpStatus 103; OpStatus 503; OpData (Text "x")] in
  recorder_status w s' = 103 /\ client_status (sv_conn s') = 200.
Proof. vm_compute. done. Qed.

(** ** A concrete state for the handlers *)

Record demo_down := mkDemoDown { dd_now : Time; dd_metrics : option MetricsRegistry; dd_uuid : bool; dd_redis : map_redis }.

#[export] Instance demo_downstream : Downstream demo_down := {
  dn_Now := dd_now;
  dn_metrics := dd_metrics;
  dn_update_metrics f d := mkDemoDown (dd_now d) (f (dd_metrics d)) (dd_uuid d) (dd_redis d);
  dn_NewUUID d := (if dd_uuid d then "uuid-1" else "uuid-0", mkDemoDown (dd_now d) (dd_metrics d) (negb (dd_uuid d)) (dd_redis d));
  dn_Allow q d :=
    let '(answer, r) := Store_Allow true None (dd_now d) q (redis_advance (UnixMilli (dd_now d)) (dd_redis d)) in
    (answer, mkDemoDown (dd_now d) (dd_metrics d) (dd_uuid d) r);
}.

#[export] Instance demo_downstream_laws : DownstreamLaws demo_down.
Proof.
  split; [done|done| |].
  - intros q d. unfold dn_Allow, demo_downstream. by case_match.
  - intros d. cbn. by destruct (dd_uuid d).
Qed.

(** 2024-01-01, with metrics on. *)
Definition demo_gateway : Server (D := demo_down) :=
  mkServer new_conn []
    (mkDemoDown (unix_epoch + 1704067200 * Second) (Some NewMetricsRegistry) false (mkMapRedis 0 ∅ ∅)).

(** A handler that answers 200. *)
Definition demo_handler : Handler (D := demo_down) := fun w req s => (Returned, Write w (Text (rq_Path req)) s).
