(* ===== verification/Router.v ===== *)
(** * Routing: [internal/middleware/router.go], [internal/middleware/unsupported.go]

    The routes are sorted by the length of their path, longest first, and stably; a request
    takes the first whose path is a prefix of its own. *)

From stdpp Require Import sorting.
From S2P Require Import Prelude GoStrings GoErrors Config Http Handlers.
From stdpp Require Import options.
#[local] Set Default Proof Using "Type*".

(** ** The router *)

(** [sort.SliceStable]: a stable sort has one result, which this insertion sort computes. *)
Definition longer (left right : RouteConfig) : bool :=
  (String.length (rc_Path right) <? String.length (rc_Path left))%nat.

Fixpoint insert_route (route : RouteConfig) (sorted : list RouteConfig) : list RouteConfig :=
  match sorted with
  | [] => [route]
  | r :: sorted => if longer route r then route :: r :: sorted else r :: insert_route route sorted
  end.

Definition sortRoutes (routes : list RouteConfig) : list RouteConfig :=
  foldl (fun sorted route => insert_route route sorted) [] routes.

Fixpoint router_match (routes : list RouteConfig) (path : string) : option RouteConfig :=
  match routes with
  | [] => None
  | route :: routes => if HasPrefix path (rc_Path route) then Some route else router_match routes path
  end.

Definition methodAllowed (allowedMethods : list string) (method : string) : bool :=
  bool_decide (allowedMethods = []) || existsb (fun allowedMethod => EqualFold allowedMethod method) allowedMethods.

Section Router.
Context {D : Type}.

Definition Router (routes : list RouteConfig) : Middleware (D := D) := fun next w req s =>
  match router_match (sortRoutes routes) (rq_Path req) with
  | None => respondError w req StatusNotFound "route not found" s
  | Some route =>
      if negb (methodAllowed (rc_Methods route) (rq_Method req))
      then respondError w req StatusMethodNotAllowed "method not allowed"
             (Writer_Set w "Allow" (Join (rc_Methods route) ", ") s)
      else next w (with_route route req) s
  end.

(** [UnsupportedFeatures] *)
Definition UnsupportedFeatures : Middleware (D := D) := fun next w req s =>
  match GetRouteConfig req with
  | None => respondError w req StatusInternalServerError "route config missing" s
  | Some _ => next w req s
  end.

End Router.

(** ** The route of a path *)

(** The first route, in the order of the configuration, among those with the longest path
    that is a prefix of [path]. *)
Definition best_route (routes : list RouteConfig) (path : string) (route : RouteConfig) : Prop :=
  exists before after, routes = before ++ route :: after /\
    HasPrefix path (rc_Path route) = true /\
    (forall r, r ∈ before -> HasPrefix path (rc_Path r) = true ->
       (String.length (rc_Path r) < String.length (rc_Path route))%nat) /\
    (forall r, r ∈ after -> HasPrefix path (rc_Path r) = true ->
       (String.length (rc_Path r) <= String.length (rc_Path route))%nat).

Definition pick_better (path : string) (best : option RouteConfig) (route : RouteConfig) : option RouteConfig :=
  if HasPrefix path (rc_Path route) then
    match best with
    | Some b => if longer route b then Some route else Some b
    | None => Some route
    end
  else best.

Lemma pick_better_spec path routes :
  match foldl (pick_better path) None routes with
  | Some route => best_route routes path route
  | None => forall r, r ∈ routes -> HasPrefix path (rc_Path r) = false
  end.
Proof.
  induction routes as [|route routes IH] using rev_ind; [by intros r ?%elem_of_nil|].
  rewrite foldl_app. cbn [foldl]. unfold pick_better at 1.
  destruct (HasPrefix path (rc_Path route)) eqn:Hp.
  - destruct (foldl _ None routes) as [b|].
    + destruct IH as (before & after & -> & Hb & Hbefore & Hafter). unfold longer.
      destruct (Nat.ltb_spec (String.length (rc_Path b)) (String.length (rc_Path route))) as [Hl|Hl].
      * exists (before ++ b :: after), []. split_and!; [done|done| |by intros r ?%elem_of_nil].
        intros r [Hr|[->|Hr]%elem_of_cons]%elem_of_app Hpr; [specialize (Hbefore _ Hr Hpr); lia|done|].
        specialize (Hafter _ Hr Hpr). lia.
      * exists before, (after ++ [route]). split_and!; [by rewrite <- app_assoc|done|done|].
        intros r [Hr|Hr]%elem_of_app Hpr; [by apply Hafter|]. apply list_elem_of_singleton in Hr. by subst.
    + exists routes, []. split_and!; [done|done| |by intros r ?%elem_of_nil].
      intros r Hr Hpr. by rewrite IH in Hpr.
  - destruct (foldl _ None routes) as [b|].
    + destruct IH as (before & after & -> & Hb & Hbefore & Hafter).
      exists before, (after ++ [route]). split_and!; [by rewrite <- app_assoc|done|done|].
      intros r [Hr|Hr]%elem_of_app Hpr; [by apply Hafter|]. apply list_elem_of_singleton in Hr. subst. congruence.
    + intros r [Hr|Hr]%elem_of_app; [by apply IH|]. apply list_elem_of_singleton in Hr. by subst.
Qed.

Lemma router_match_head routes path route :
  router_match routes path = Some route -> route ∈ routes /\ HasPrefix path (rc_Path route) = true.
Proof.
  induction routes as [|r routes IH]; cbn; [done|]. destruct (HasPrefix path (rc_Path r)) eqn:Hp.
  - intros [= ->]. by split; [left|].
  - intros [Hin Hm]%IH. by split; [right|].
Qed.

Definition by_length (left right : RouteConfig) : Prop :=
  (String.length (rc_Path right) <= String.length (rc_Path left))%nat.

Lemma insert_route_perm route sorted : insert_route route sorted ≡ₚ route :: sorted.
Proof.
  induction sorted as [|r sorted IH]; cbn [insert_route]; [done|]. destruct (longer route r); [reflexivity|].
  etrans; [apply perm_skip, IH|apply perm_swap].
Qed.

Lemma insert_route_sorted route sorted :
  StronglySorted by_length sorted -> StronglySorted by_length (insert_route route sorted).
Proof.
  induction 1 as [|r sorted Hs IH Hall]; cbn [insert_route]; [by repeat constructor|].
  destruct (longer route r) eqn:Hl; unfold longer in Hl.
  - apply Nat.ltb_lt in Hl. constructor; [by constructor|]. constructor; [unfold by_length; lia|].
    eapply Forall_impl; [exact Hall|]. unfold by_length. intros; lia.
  - apply Nat.ltb_ge in Hl. constructor; [done|]. rewrite insert_route_perm. by constructor.
Qed.

Lemma sortRoutes_app routes route : sortRoutes (routes ++ [route]) = insert_route route (sortRoutes routes).
Proof. unfold sortRoutes. by rewrite foldl_app. Qed.

Lemma sortRoutes_sorted routes : StronglySorted by_length (sortRoutes routes).
Proof.
  induction routes as [|r routes IH] using rev_ind; [constructor|]. rewrite sortRoutes_app. by apply insert_route_sorted.
Qed.

Lemma router_match_insert path route sorted :
  StronglySorted by_length sorted ->
  router_match (insert_route route sorted) path = pick_better path (router_match sorted path) route.
Proof.
  unfold pick_better. induction 1 as [|r sorted Hs IH Hall]; cbn [insert_route router_match]; [done|].
  destruct (longer route r) eqn:Hl; cbn [router_match].
  - destruct (HasPrefix path (rc_Path route)), (HasPrefix path (rc_Path r)) eqn:Hr; [by rewrite Hl|..]; try done.
    destruct (router_match sorted path) as [b|] eqn:Hb; [|done].
    apply router_match_head in Hb as [Hb _]. rewrite Forall_forall in Hall. specialize (Hall _ Hb).
    unfold longer, by_length in *. apply Nat.ltb_lt in Hl. by rewrite (proj2 (Nat.ltb_lt _ _)) by lia.
  - destruct (HasPrefix path (rc_Path r)) eqn:Hr; [|done]. by rewrite Hl; destruct (HasPrefix path (rc_Path route)).
Qed.

Lemma router_match_best routes path :
  router_match (sortRoutes routes) path = foldl (pick_better path) None routes.
Proof.
  induction routes as [|r routes IH] using rev_ind; [done|].
  rewrite sortRoutes_app, foldl_app, router_match_insert by apply sortRoutes_sorted. by rewrite IH.
Qed.

Lemma methodAllowed_spec methods method :
  methodAllowed methods method = true <->
  methods = [] \/ exists m, m ∈ methods /\ EqualFold m method = true.
Proof.
  unfold methodAllowed. rewrite orb_true_iff, bool_decide_eq_true, existsb_exists. setoid_rewrite list_elem_of_In. done.
Qed.

(** C21: dispatch: a request goes to the first route, in the order of the configuration,
    among those with the longest path that is a prefix of the request's; it is passed on
    with that route exactly when the route allows its method (compared without case, or
    every method when it names none), and answered with 405 and the allowed methods
    otherwise; with no such route it is answered with 404. *)
Theorem router_dispatches {D} routes (next : Handler (D := D)) w req s :
  ((forall r, r ∈ routes -> HasPrefix (rq_Path req) (rc_Path r) = false) /\
   Router routes next w req s = respondError w req StatusNotFound "route not found" s) \/
  (exists route, best_route routes (rq_Path req) route /\
    let allowed := rc_Methods route = [] \/ exists m, m ∈ rc_Methods route /\ EqualFold m (rq_Method req) = true in
    (allowed /\ Router routes next w req s = next w (with_route route req) s \/
     ~ allowed /\ Router routes next w req s =
       respondError w req StatusMethodNotAllowed "method not allowed"
         (Writer_Set w "Allow" (Join (rc_Methods route) ", ") s))).
Proof.
  unfold Router. rewrite router_match_best. pose proof (pick_better_spec (rq_Path req) routes) as Hbest.
  destruct (foldl _ None routes) as [route|]; [right|by left].
  exists route. split; [done|]. cbv zeta. rewrite <- methodAllowed_spec.
  destruct (methodAllowed _ _); cbn [negb]; [by left|by right].
Qed.
