(* ===== verification/Auth.v ===== *)
(** * Identity: [internal/middleware/auth.go] and [Tracing] of [internal/middleware/tracing.go]

    [Tracing] removes the identity headers a client may have sent and gives the request an
    identifier; [Auth] sets them again from the claims of a verified token.  The JWT parser
    is a library: a class with the law its documentation states for the options the
    gateway gives it. *)

From S2P Require Import Prelude GoStrings GoErrors Config Http Metrics RateStore Handlers Router.
From stdpp Require Import options.
#[local] Set Default Proof Using "Type*".

(** ** Tokens *)

Record authClaims := mkClaims {
  cl_Role : string;
  cl_Subject : string;
  cl_ExpiresAt : option Time;
  cl_IssuedAt : option Time;
}.

(** What [errors.Is] finds in a parse error. *)
Record JWTError := mkJWTError { je_Malformed : bool; je_Expired : bool }.

(** [parser.ParseWithClaims] with the options of [Auth], at an instant: the methods that are
    valid, the key for the method of the token; [None] is a nil token, the flag is
    [token.Valid]. *)
Class JWTParser := {
  ParseWithClaims : list string -> Time -> string -> (string -> option string) -> sum JWTError (option (bool * authClaims));
  jwt_signed : string -> string -> string -> authClaims -> Prop; (* token, method, key, claims *)
}.

(** A token that parses as valid is signed with a valid method under the key for it, has an
    expiry that has not come, and was not issued in the future. *)
Class JWTParserLaws `{JWTParser} : Prop := {
  ParseWithClaims_valid methods now token keyFunc claims :
    ParseWithClaims methods now token keyFunc = inr (Some (true, claims)) ->
    exists alg key, alg ∈ methods /\ keyFunc alg = Some key /\ jwt_signed token alg key claims /\
      (exists e, cl_ExpiresAt claims = Some e /\ now < e) /\
      (forall i, cl_IssuedAt claims = Some i -> i <= now);
}.

Definition HS256 : string := "HS256".

Definition HeaderRequestID : string := "X-Request-ID".
Definition HeaderUserID : string := "X-User-ID".
Definition HeaderUserRole : string := "X-User-Role".

Definition authSchemeBearer : string := "Bearer".
Definition authConfigErrorMessage : string := "jwt auth is not configured".
Definition authMissingHeaderMessage : string := "missing authorization header".
Definition authMalformedTokenMessage : string := "malformed token".
Definition authExpiredTokenMessage : string := "token expired".
Definition authInvalidTokenMessage : string := "invalid token".

Definition bearerToken (header : string) : option string :=
  match Cut (TrimSpace header) space with
  | Some (scheme, token) =>
      if negb (EqualFold scheme authSchemeBearer) || bool_decide (TrimSpace token = "") then None
      else Some (TrimSpace token)
  | None => None
  end.

(** [subtle.ConstantTimeCompare] is one exactly on equal slices. *)
Definition signingMethodMatches (got want : string) : bool :=
  if negb (bool_decide (String.length got = String.length want)) then false
  else bool_decide (got = want).

Section Auth.
Context {D : Type} {HProm : Prometheus} {HDown : Downstream D} {HJWT : JWTParser}.

Definition writeAuthError (w : ResponseWriter) (req : Request) (err : JWTError) (s : Server (D := D)) : Server :=
  if je_Malformed err then WriteError w req StatusUnauthorized authMalformedTokenMessage s
  else if je_Expired err then WriteError w req StatusUnauthorized authExpiredTokenMessage s
  else WriteError w req StatusUnauthorized authInvalidTokenMessage s.

(** The request [Auth] passes on. *)
Definition authenticated (claims : authClaims) (req : Request) : Request :=
  with_header
    (Header_Del "Authorization"
      (Header_Set HeaderUserRole (cl_Role claims)
        (Header_Set HeaderUserID (cl_Subject claims) (rq_Header req)))) req.

Definition Auth (authCfg : AuthConfig) : Middleware (D := D) := fun next w req s =>
  let algorithm := TrimSpace (ac_JWTAlgorithm authCfg) in
  let secretValue := TrimSpace (ac_JWTSecret authCfg) in
  match GetRouteConfig req with
  | None => respondError w req StatusInternalServerError "route config missing" s
  | Some route =>
      if negb (rc_AuthRequired route) then next w req s
      else if bool_decide (secretValue = "") || negb (signingMethodMatches algorithm HS256)
      then respondError w req StatusInternalServerError authConfigErrorMessage s
      else
        let authorization := TrimSpace (Header_Get (rq_Header req) "Authorization") in
        if bool_decide (authorization = "")
        then respondError w req StatusUnauthorized authMissingHeaderMessage s
        else match bearerToken authorization with
        | None => respondError w req StatusUnauthorized authMalformedTokenMessage s
        | Some tokenString =>
            let keyFunc alg := if negb (signingMethodMatches alg algorithm) then None else Some secretValue in
            match ParseWithClaims [algorithm] (dn_Now (sv_down s)) tokenString keyFunc with
            | inl err => (Returned, writeAuthError w req err s)
            | inr None => respondError w req StatusUnauthorized authInvalidTokenMessage s
            | inr (Some (valid, claims)) =>
                if negb valid then respondError w req StatusUnauthorized authInvalidTokenMessage s
                else if bool_decide (cl_ExpiresAt claims = None) || bool_decide (cl_IssuedAt claims = None)
                        || bool_decide (TrimSpace (cl_Subject claims) = "")
                        || bool_decide (TrimSpace (cl_Role claims) = "")
                then respondError w req StatusUnauthorized authInvalidTokenMessage s
                else next w (authenticated claims req) s
            end
        end
  end.

(** [Tracing] up to the log events and spans: the request it passes on. *)
Definition identified (requestID : string) (req : Request) : Request :=
  with_header
    (Header_Set HeaderRequestID requestID
      (Header_Del HeaderRequestID (Header_Del HeaderUserRole (Header_Del HeaderUserID (rq_Header req))))) req.

Definition Tracing : Middleware (D := D) := fun next w req s =>
  let '(requestID, down) := dn_NewUUID (sv_down s) in
  let s := on_down (fun _ => down) s in
  let req := identified requestID req in
  let '(recorder, s) := new_recorder w s in
  let s := Writer_Set recorder HeaderRequestID requestID s in
  next recorder req s.

(** ** Tokens and rejections *)

Lemma signingMethodMatches_spec got want : signingMethodMatches got want = bool_decide (got = want).
Proof.
  unfold signingMethodMatches. destruct (decide (got = want)) as [->|Hne].
  - by rewrite !bool_decide_eq_true_2.
  - rewrite (bool_decide_eq_false_2 (got = want)) by done. by destruct (negb _).
Qed.

(** The claims that admit a request to a protected route. *)
Definition admits (authCfg : AuthConfig) (now : Time) (req : Request) (claims : authClaims) : Prop :=
  let secret := TrimSpace (ac_JWTSecret authCfg) in
  secret <> "" /\ TrimSpace (ac_JWTAlgorithm authCfg) = HS256 /\
  (exists token, bearerToken (TrimSpace (Header_Get (rq_Header req) "Authorization")) = Some token /\
     jwt_signed token HS256 secret claims) /\
  (exists e, cl_ExpiresAt claims = Some e /\ now < e) /\
  (exists i, cl_IssuedAt claims = Some i /\ i <= now) /\
  TrimSpace (cl_Subject claims) <> "" /\ TrimSpace (cl_Role claims) <> "".

(** [Auth] passes the request on, with the identity of its token, or answers itself. *)
Lemma Auth_cases `{!JWTParserLaws} authCfg next w req s :
  (exists route, GetRouteConfig req = Some route /\ rc_AuthRequired route = false /\
     Auth authCfg next w req s = next w req s) \/
  (exists route claims, GetRouteConfig req = Some route /\ rc_AuthRequired route = true /\
     admits authCfg (dn_Now (sv_down s)) req claims /\
     (forall next', Auth authCfg next' w req s = next' w (authenticated claims req) s)) \/
  (exists status message, (status = StatusUnauthorized \/ status = StatusInternalServerError) /\
     (forall next', Auth authCfg next' w req s = respondError w req status message s)).
Proof.
  unfold Auth.
  destruct (GetRouteConfig req) as [route|] eqn:Hroute; [|right; right; eauto 6].
  destruct (rc_AuthRequired route) eqn:Hreq; cbn [negb]; [|left; eauto].
  case_bool_decide as Hsecret; cbn [orb]; [right; right; eauto 6|].
  rewrite signingMethodMatches_spec. case_bool_decide as Halg; cbn [negb]; [|right; right; eauto 6].
  case_bool_decide; [right; right; eauto 6|].
  destruct (bearerToken _) as [token|] eqn:Htoken; [|right; right; eauto 6].
  destruct (ParseWithClaims _ _ _ _) as [err|[[valid claims]|]] eqn:Hparse; [|..|right; right; eauto 6].
  { right. right. unfold writeAuthError, respondError.
    destruct (je_Malformed err); [eauto 6|]. destruct (je_Expired err); eauto 6. }
  destruct valid; cbn [negb]; [|right; right; eauto 6].
  case_bool_decide as He; cbn [orb]; [right; right; eauto 6|].
  case_bool_decide as Hi; cbn [orb]; [right; right; eauto 6|].
  case_bool_decide as Hsub; cbn [orb]; [right; right; eauto 6|].
  case_bool_decide as Hrole; cbn [orb]; [right; right; eauto 6|].
  right. left. exists route, claims. split_and!; [done|done| |done].
  apply ParseWithClaims_valid in Hparse as (alg & key & Hin & Hkey & Hsigned & (e' & He' & Hlt) & Hiat).
  apply list_elem_of_singleton in Hin as ->. revert Hkey. rewrite signingMethodMatches_spec, bool_decide_eq_true_2 by done.
  intros [= <-]. rewrite Halg in Hsigned. unfold admits. split_and!; [done|done|by eauto|by eauto| |done|done].
  destruct (cl_IssuedAt claims) as [i|]; [eauto|done].
Qed.

(** Authentication: a request for a protected route reaches the next handler only with
    a bearer token signed by HS256 under the configured, non-blank secret, not expired at
    the current time, not issued in the future, with a non-blank subject and role; it then
    carries the token's subject and role as its identity and no token, and its other
    headers as they came.  Any other is answered with 401, or with 500 when
    authentication is not configured; a public route's request passes unchanged. *)
Lemma auth_admits_only_signed `{!JWTParserLaws} authCfg next w req s route :
  GetRouteConfig req = Some route ->
  (rc_AuthRequired route = false /\ Auth authCfg next w req s = next w req s) \/
  (rc_AuthRequired route = true /\
    ((exists claims, admits authCfg (dn_Now (sv_down s)) req claims /\
        Auth authCfg next w req s = next w (authenticated claims req) s) \/
     (exists status message, (status = StatusUnauthorized \/ status = StatusInternalServerError) /\
        Auth authCfg next w req s = respondError w req status message s))).
Proof.
  intros Hroute. destruct (rc_AuthRequired route) eqn:Hreq.
  - right. split; [done|].
    destruct (Auth_cases authCfg next w req s) as [(r & Hr & Hq & _)|[(r & claims & Hr & _ & Ha & Hn)|(status & m & Hs & Hn)]].
    + congruence.
    + left. eauto.
    + right. eauto.
  - left. split; [done|]. unfold Auth. by rewrite Hroute, Hreq.
Qed.

(** ** Identity *)

Definition no_identity (req : Request) : Prop :=
  Header_Get (rq_Header req) HeaderUserID = "" /\ Header_Get (rq_Header req) HeaderUserRole = "".

(** The identity headers come from a token, or there are none. *)
Definition identity_ok (authCfg : AuthConfig) (req : Request) : Prop :=
  exists route, GetRouteConfig req = Some route /\
    (rc_AuthRequired route = false /\ no_identity req \/
     rc_AuthRequired route = true /\ Header_Get (rq_Header req) "Authorization" = "" /\
     exists now req0 claims, admits authCfg now req0 claims /\
       Header_Get (rq_Header req) HeaderUserID = cl_Subject claims /\
       Header_Get (rq_Header req) HeaderUserRole = cl_Role claims).

Lemma identified_no_identity requestID req : no_identity (identified requestID req).
Proof.
  unfold no_identity, identified. cbn [rq_Header with_header].
  split; rewrite Header_Get_Set_ne by done; rewrite Header_Get_Del_ne by done.
  - by rewrite Header_Get_Del_ne, Header_Get_Del by done.
  - by rewrite Header_Get_Del.
Qed.

Lemma authenticated_headers claims req :
  Header_Get (rq_Header (authenticated claims req)) HeaderUserID = cl_Subject claims /\
  Header_Get (rq_Header (authenticated claims req)) HeaderUserRole = cl_Role claims /\
  Header_Get (rq_Header (authenticated claims req)) "Authorization" = "" /\
  forall key, CanonicalHeaderKey key ∉ ["X-User-Id"; "X-User-Role"; "Authorization"] ->
    Header_Get (rq_Header (authenticated claims req)) key = Header_Get (rq_Header req) key.
Proof.
  unfold authenticated. cbn [rq_Header with_header]. split_and!.
  - by rewrite Header_Get_Del_ne, Header_Get_Set_ne, Header_Get_Set by done.
  - by rewrite Header_Get_Del_ne, Header_Get_Set by done.
  - apply Header_Get_Del.
  - intros key Hkey. rewrite !not_elem_of_cons in Hkey. destruct Hkey as (H1 & H2 & H3 & _).
    rewrite Header_Get_Del_ne, !Header_Get_Set_ne; [done|..]; intros Heq; rewrite <- Heq in *; done.
Qed.

Lemma Tracing_guarantees : guarantees (fun _ => True) no_identity Tracing.
Proof.
  intros next next' Hnext w req s _. unfold Tracing.
  destruct (dn_NewUUID _) as [requestID down]. apply Hnext, identified_no_identity.
Qed.

Lemma Router_guarantees routes :
  guarantees no_identity (fun req => no_identity req /\ exists route, GetRouteConfig req = Some route /\ route ∈ routes)
    (Router (D := D) routes).
Proof.
  intros next next' Hnext w req s Hreq. unfold Router. rewrite router_match_best.
  pose proof (pick_better_spec (rq_Path req) routes) as Hbest.
  destruct (foldl _ _ _) as [route|]; [|done]. destruct (negb _); [done|].
  apply Hnext. split; [done|]. exists route. split; [done|].
  destruct Hbest as (? & ? & -> & _). set_solver.
Qed.

Lemma Auth_guarantees `{!JWTParserLaws} authCfg P :
  (forall req, P req -> no_identity req) ->
  guarantees P (identity_ok authCfg) (Auth authCfg).
Proof.
  intros HP next next' Hnext w req s Hreq.
  destruct (Auth_cases authCfg next w req s) as [(r & Hr & Hq & _)|[(r & claims & Hr & Hq & Ha & Hn)|(status & m & Hs & Hn)]].
  - unfold Auth. rewrite Hr, Hq. cbn [negb]. apply Hnext. exists r. split; [done|]. left. auto.
  - rewrite !Hn. apply Hnext. exists r. split; [done|]. right.
    destruct (authenticated_headers claims req) as (H1 & H2 & H3 & _). eauto 10.
  - by rewrite !Hn.
Qed.

End Auth.

(** ** A concrete parser *)

(** A token is [method.subject.role.key]. *)
#[export] Instance dotted_parser : JWTParser := {
  ParseWithClaims methods now token keyFunc :=
    match Split token (byte 46) with
    | [alg; subject; role; key] =>
        if bool_decide (alg ∈ methods) && bool_decide (keyFunc alg = Some key) && (0 <=? now) && (now <? 10 ^ 30)
        then inr (Some (true, mkClaims role subject (Some (10 ^ 30)) (Some 0)))
        else inl (mkJWTError false (10 ^ 30 <=? now))
    | _ => inl (mkJWTError true false)
    end;
  jwt_signed token alg key claims :=
    Split token (byte 46) = [alg; cl_Subject claims; cl_Role claims; key];
}.

#[export] Instance dotted_parser_laws : JWTParserLaws.
Proof.
  split. intros methods now token keyFunc claims. cbn.
  destruct (Split token (byte 46)) as [|alg [|subject [|role [|key [|? ?]]]]] eqn:Hsplit; try done.
  case_bool_decide as Halg; [|done]. case_bool_decide as Hkey; [|done]. cbn [andb].
  destruct (Z.leb_spec 0 now); [|done]. destruct (Z.ltb_spec now (10 ^ 30)); [|done]. cbn [andb].
  intros [= <-]. exists alg, key. cbn. split_and!; [done|done|done|eauto|]. by intros i [= <-].
Qed.

Definition demo_auth : AuthConfig := mkAuthConfig "s3cret" "HS256".

Definition demo_protected_route : RouteConfig :=
  mkRouteConfig "/api/orders" "/api" "orders" [] true 0 None (mkRetryConfig 0 0 0 "") [mkTarget "o" 80 1] "round_robin".

Definition demo_protected_request (authorization : string) : Request :=
  with_route demo_protected_route
    (mkRequest "GET" "" "" "/api/orders/1" "" "gateway"
       {[ "Authorization" := [authorization]; "X-User-Id" := ["admin"] ]}
       BodyNil None 0 "192.0.2.1:1234" None None).

Definition echo_user : Handler (D := demo_down) := fun w req s =>
  (Returned, WriteJSON w StatusOK (Text (Header_Get (rq_Header req) HeaderUserID)) s).

Lemma auth_admits_only_signed_witness :
  cn_body (sv_conn (snd (Auth demo_auth echo_user Connection
    (demo_protected_request "Bearer HS256.u1.admin.s3cret") demo_gateway))) = [Text "u1"] /\
  let req := demo_protected_request "Bearer HS256.u1.admin.guess" in
  (rc_AuthRequired demo_protected_route = false /\
     Auth demo_auth echo_user Connection req demo_gateway = echo_user Connection req demo_gateway) \/
  (rc_AuthRequired demo_protected_route = true /\
   ((exists claims, admits demo_auth (dn_Now (sv_down demo_gateway)) req claims /\
       Auth demo_auth echo_user Connection req demo_gateway = echo_user Connection (authenticated claims req) demo_gateway) \/
    (exists status message, (status = StatusUnauthorized \/ status = StatusInternalServerError) /\
       Auth demo_auth echo_user Connection req demo_gateway = respondError Connection req status message demo_gateway))).
Proof.
  split; [vm_compute; reflexivity|].
  apply (auth_admits_only_signed demo_auth echo_user Connection
    (demo_protected_request "Bearer HS256.u1.admin.guess") demo_gateway demo_protected_route). reflexivity.
Defined.
