(* ===== verification/Netip.v ===== *)
(** * IP addresses: what the gateway uses of [net/netip] and [net]

    Addresses, their parsing and printing, prefixes, their parsing and masking, and [net.SplitHostPort], as the
    standard library of Go has them.  An IPv4 address is its four octets, an IPv6 address
    its eight groups of sixteen bits and its zone. *)

From S2P Require Import Prelude GoStrings.
From stdpp Require Import options.

Inductive Addr :=
  | IPv4 (octets : list Z)
  | IPv6 (groups : list Z) (zone : string).

#[export] Instance Addr_eq_dec : EqDecision Addr.
Proof. solve_decision. Defined.

(** ** Parsing *)

Definition digit_of (a : ascii) : option Z :=
  let n := Z.of_nat (nat_of_ascii a) in
  if (48 <=? n) && (n <=? 57) then Some (n - 48) else None.

Definition hex_of (a : ascii) : option Z :=
  let n := Z.of_nat (nat_of_ascii a) in
  if (48 <=? n) && (n <=? 57) then Some (n - 48)
  else if (97 <=? n) && (n <=? 102) then Some (n - 87)
  else if (65 <=? n) && (n <=? 70) then Some (n - 55)
  else None.

Definition dot : ascii := byte 46.
Definition percent : ascii := byte 37.

(** One field of a dotted address: digits without a leading zero, at most 255. *)
Fixpoint octet_loop (digLen : nat) (val : Z) (s : string) : option Z :=
  match s with
  | EmptyString => if (digLen =? 0)%nat then None else Some val
  | String a s =>
      d ← digit_of a;
      if bool_decide (digLen = 1%nat) && (val =? 0) then None
      else if 255 <? val * 10 + d then None
      else octet_loop (S digLen) (val * 10 + d) s
  end.

Definition parseIPv4Fields (s : string) : option (list Z) :=
  match Split s dot with
  | [a; b; c; d] =>
      a ← octet_loop 0 0 a; b ← octet_loop 0 0 b; c ← octet_loop 0 0 c; d ← octet_loop 0 0 d;
      Some [a; b; c; d]
  | _ => None
  end.

(** The hexadecimal digits a group starts with: how many, their value, what follows;
    [None] when there are more than four. *)
Fixpoint hex_group (off : nat) (acc : Z) (s : string) : option (nat * Z * string) :=
  match s with
  | EmptyString => Some (off, acc, s)
  | String a s' =>
      match hex_of a with
      | None => Some (off, acc, s)
      | Some d => if (3 <? off)%nat then None else hex_group (S off) (acc * 16 + d) s'
      end
  end.

(** The loop over the groups, most recent first: the groups, where the ellipsis is, and
    what was not read.  Eight groups at most, so eight iterations. *)
Fixpoint parseIPv6Groups (fuel : nat) (groups : list Z) (ellipsis : option nat) (s : string)
    : option (list Z * option nat * string) :=
  match fuel with
  | O => Some (groups, ellipsis, s)
  | S fuel =>
      '(off, acc, rest) ← hex_group 0 0 s;
      if (off =? 0)%nat then None
      else match rest with
      | EmptyString => Some (groups ++ [acc], ellipsis, "")
      | String c after =>
          if bool_decide (c = dot) then
            if bool_decide (ellipsis = None) && negb (length groups =? 6)%nat then None
            else if (8 <? length groups + 2)%nat then None
            else match parseIPv4Fields s with
                 | Some [a; b; c; d] => Some (groups ++ [a * 256 + b; c * 256 + d], ellipsis, "")
                 | _ => None
                 end
          else if negb (bool_decide (c = colon)) then None
          else match after with
          | EmptyString => None
          | String c' after' =>
              if bool_decide (c' = colon) then
                match ellipsis with
                | Some _ => None
                | None =>
                    let ellipsis := Some (S (length groups)) in
                    if bool_decide (after' = "") then Some (groups ++ [acc], ellipsis, "")
                    else parseIPv6Groups fuel (groups ++ [acc]) ellipsis after'
                end
              else parseIPv6Groups fuel (groups ++ [acc]) ellipsis after
          end
      end
  end.

Definition expandEllipsis (groups : list Z) (ellipsis : nat) : list Z :=
  take ellipsis groups ++ replicate (8 - length groups) 0 ++ drop ellipsis groups.

Definition parseIPv6 (s : string) : option Addr :=
  '(s, zone) ← match Cut s percent with
               | Some (_, "") => None
               | Some (s, zone) => Some (s, zone)
               | None => Some (s, "")
               end;
  let leading := HasPrefix s "::" in
  let s := if leading then drop_bytes 2 s else s in
  if leading && bool_decide (s = "") then Some (IPv6 (replicate 8 0) zone)
  else
    '(groups, ellipsis, rest) ← parseIPv6Groups 8 [] (if leading then Some O else None) s;
    if negb (bool_decide (rest = "")) then None
    else if (length groups <? 8)%nat then
      ellipsis ← ellipsis;
      Some (IPv6 (expandEllipsis groups ellipsis) zone)
    else match ellipsis with
         | Some _ => None
         | None => Some (IPv6 groups zone)
         end.

(** The first of ['.'], [':'] and ['%'] decides. *)
Fixpoint address_kind (s : string) : option bool :=
  match s with
  | EmptyString => None
  | String a s =>
      if bool_decide (a = dot) then Some false
      else if bool_decide (a = colon) then Some true
      else if bool_decide (a = percent) then None
      else address_kind s
  end.

Definition ParseAddr (s : string) : option Addr :=
  match address_kind s with
  | Some false => octets ← parseIPv4Fields s; Some (IPv4 octets)
  | Some true => parseIPv6 s
  | None => None
  end.

Definition Unmap (a : Addr) : Addr :=
  match a with
  | IPv6 [0; 0; 0; 0; 0; 65535; g; h] _ => IPv4 [g / 256; g mod 256; h / 256; h mod 256]
  | _ => a
  end.

(** ** Printing *)

Definition hex_digit (n : Z) : string :=
  String (byte (Z.to_nat (if n <? 10 then n + 48 else n + 87))) "".

Definition hex_string (g : Z) : string :=
  let d := [g / 4096; g / 256 mod 16; g / 16 mod 16; g mod 16] in
  let fix strip (d : list Z) :=
    match d with
    | [] => ""
    | [x] => hex_digit x
    | x :: d => if x =? 0 then strip d else hex_digit x +:+ foldr (fun x s => hex_digit x +:+ s) "" d
    end in
  strip d.

Fixpoint zeros (groups : list Z) : nat :=
  match groups with 0 :: groups => S (zeros groups) | _ => O end.

(** The first longest run of two or more zero groups. *)
Definition longestZeros (groups : list Z) : nat * nat :=
  foldl (fun '(start, len) i =>
    let l := zeros (drop i groups) in
    if (2 <=? l)%nat && (len <? l)%nat then (i, l) else (start, len)) (8%nat, O) (seq 0 8).

Fixpoint join_hex (groups : list Z) : string :=
  match groups with
  | [] => ""
  | [g] => hex_string g
  | g :: groups => hex_string g +:+ ":" +:+ join_hex groups
  end.

Definition groups_string (groups : list Z) : string :=
  let '(start, len) := longestZeros groups in
  if (len =? 0)%nat then join_hex groups
  else join_hex (take start groups) +:+ "::" +:+ join_hex (drop (start + len) groups).

Definition octets_string (octets : list Z) : string := Join (Itoa <$> octets) ".".

Definition Addr_String (a : Addr) : string :=
  match a with
  | IPv4 octets => octets_string octets
  | IPv6 groups zone =>
      match Unmap a with
      | IPv4 octets => "::ffff:" +:+ octets_string octets
      | IPv6 _ _ => groups_string groups
      end +:+ (if bool_decide (zone = "") then "" else "%" +:+ zone)
  end.

(** ** Classes of addresses *)

Definition addr_value (a : Addr) : Z :=
  match a with
  | IPv4 octets => foldl (fun n o => n * 256 + o) 0 octets
  | IPv6 groups _ => foldl (fun n g => n * 65536 + g) 0 groups
  end.

Definition IsLoopback (a : Addr) : bool :=
  match Unmap a with
  | IPv4 octets => bool_decide (head octets = Some 127)
  | a => addr_value a =? 1
  end.

Definition IsPrivate (a : Addr) : bool :=
  match Unmap a with
  | IPv4 (a :: b :: _) =>
      (a =? 10) || ((a =? 172) && (Z.land b 240 =? 16)) || ((a =? 192) && (b =? 168))
  | IPv6 (g :: _) _ => Z.land (Z.shiftr g 8) 254 =? 252
  | _ => false
  end.

(** A prefix of its address's leading [pf_bits] bits. *)
Record Prefix := mkPrefix { pf_addr : Addr; pf_bits : Z }.

Definition Contains (p : Prefix) (ip : Addr) : bool :=
  match pf_addr p, ip with
  | IPv4 _, IPv4 _ => Z.shiftr (Z.lxor (addr_value (pf_addr p)) (addr_value ip)) (32 - pf_bits p) =? 0
  | IPv6 _ _, IPv6 _ zone =>
      bool_decide (zone = "") && (Z.shiftr (Z.lxor (addr_value (pf_addr p)) (addr_value ip)) (128 - pf_bits p) =? 0)
  | _, _ => false
  end.

(** ** Hosts and ports *)

Definition open_bracket : ascii := byte 91.
Definition close_bracket : ascii := byte 93.

(** The bytes before and after the last [sep]. *)
Definition CutLast (s : string) (sep : ascii) : option (string * string) :=
  '(after, before) ← Cut (String.rev s) sep;
  Some (String.rev before, String.rev after).

(** [net.SplitHostPort]: [None] is the error. *)
Definition SplitHostPort (hostport : string) : option (string * string) :=
  '(before, port) ← CutLast hostport colon;
  if contains_byte open_bracket port || contains_byte close_bracket port then None
  else match before with
  | String c inner =>
      if bool_decide (c = open_bracket) then
        '(host, rest) ← Cut inner close_bracket;
        if negb (bool_decide (rest = "")) || contains_byte open_bracket host then None
        else Some (host, port)
      else if contains_byte colon before || contains_byte open_bracket before || contains_byte close_bracket before
      then None else Some (before, port)
  | EmptyString => Some ("", port)
  end.

(** ** Prefixes *)

Fixpoint decimal (acc : Z) (s : string) : option Z :=
  match s with
  | EmptyString => Some acc
  | String a s => d ← digit_of a; decimal (acc * 10 + d) s
  end.

(** The bits of a prefix: no sign, no leading zero. *)
Definition parseBits (s : string) : option Z :=
  match s with
  | EmptyString => None
  | String a rest =>
      if negb (bool_decide (rest = "")) && bool_decide (a = byte 48) then None else decimal 0 s
  end.

Definition address_bits (a : Addr) : Z := match a with IPv4 _ => 32 | IPv6 _ _ => 128 end.

Definition ParsePrefix (s : string) : option Prefix :=
  '(address, bitsStr) ← CutLast s slash;
  ip ← ParseAddr address;
  if match ip with IPv6 _ zone => negb (bool_decide (zone = "")) | IPv4 _ => false end then None
  else
    bits ← parseBits bitsStr;
    if address_bits ip <? bits then None else Some (mkPrefix ip bits).

(** Units of [w] bits, the last one first, with the last [k] bits of them all cleared. *)
Fixpoint clear_bits (w k : Z) (units : list Z) : list Z :=
  match units with
  | [] => []
  | u :: units => if w <=? k then 0 :: clear_bits w (k - w) units else Z.shiftl (Z.shiftr u k) k :: units
  end.

Definition Masked (p : Prefix) : Prefix :=
  match pf_addr p with
  | IPv4 octets => mkPrefix (IPv4 (rev (clear_bits 8 (32 - pf_bits p) (rev octets)))) (pf_bits p)
  | IPv6 groups zone => mkPrefix (IPv6 (rev (clear_bits 16 (128 - pf_bits p) (rev groups))) "") (pf_bits p)
  end.

Definition Prefix_String (p : Prefix) : string := Addr_String (pf_addr p) +:+ "/" +:+ Itoa (pf_bits p).

Lemma units_value_snoc w units u :
  foldl (fun n o => n * 2 ^ w + o) 0 (units ++ [u]) = foldl (fun n o => n * 2 ^ w + o) 0 units * 2 ^ w + u.
Proof. by rewrite foldl_snoc. Qed.

Lemma clear_bits_value w k units :
  0 < w -> 0 <= k -> Forall (fun u => 0 <= u < 2 ^ w) units ->
  let value us := foldl (fun n o => n * 2 ^ w + o) 0 (rev us) in
  Z.shiftr (value (clear_bits w k units)) k = Z.shiftr (value units) k.
Proof.
  cbv zeta. intros Hw. revert k. induction units as [|u units IH]; intros k Hk Hall; [done|].
  apply Forall_cons in Hall as [Hu Hall]. cbn [clear_bits rev].
  assert (0 < 2 ^ w) as Hpos by (apply Z.pow_pos_nonneg; lia).
  destruct (Z.leb_spec w k) as [Hle|Hlt]; cbn [rev]; rewrite !units_value_snoc.
  - assert (forall x, Z.shiftr x k = Z.shiftr (Z.shiftr x w) (k - w)) as Hs by (intros x; rewrite Z.shiftr_shiftr by lia; f_equal; lia).
    rewrite (Hs (_ + 0)), (Hs (_ + u)).
    rewrite !(Z.shiftr_div_pow2 _ w) by lia. rewrite Z.add_0_r, Z.div_mul by lia.
    rewrite Z.div_add_l, (Z.div_small u) by lia. rewrite Z.add_0_r. by apply IH; [lia|].
  - rewrite !Z.shiftr_div_pow2, Z.shiftl_mul_pow2 by lia.
    assert (0 < 2 ^ k) by (apply Z.pow_pos_nonneg; lia).
    replace (2 ^ w) with (2 ^ (w - k) * 2 ^ k) by (rewrite <- Z.pow_add_r by lia; f_equal; lia).
    set (V := foldl _ 0 (rev units)). rewrite !Z.mul_assoc.
    rewrite !Z.div_add_l, Z.div_mul by lia. done.
Qed.

(** Octets and groups in their range, as they are parsed. *)
Definition octet_ok (u : Z) : Prop := 0 <= u < 2 ^ 8.
Definition group_ok (u : Z) : Prop := 0 <= u < 2 ^ 16.
Definition addr_wf (a : Addr) : Prop :=
  match a with IPv4 octets => Forall octet_ok octets | IPv6 groups _ => Forall group_ok groups end.

Lemma octet_loop_ok len val s o : octet_ok val -> octet_loop len val s = Some o -> octet_ok o.
Proof.
  revert len val. induction s as [|a s IH]; intros len val Hv; cbn [octet_loop].
  - case_match; [done|]. by intros [= <-].
  - unfold digit_of. cbv zeta. destruct ((48 <=? _) && _) eqn:Hd; cbn [mbind option_bind]; [|done]. apply andb_true_iff in Hd as [H1%Z.leb_le H2%Z.leb_le].
    case_match; [done|]. destruct (Z.ltb_spec 255 (val * 10 + (Z.of_nat (nat_of_ascii a) - 48))); [done|].
    apply IH. unfold octet_ok in *. lia.
Qed.

Lemma parseIPv4Fields_ok s octets : parseIPv4Fields s = Some octets -> Forall octet_ok octets.
Proof.
  unfold parseIPv4Fields. destruct (Split s dot) as [|a [|b [|c [|d [|? ?]]]]]; try done.
  assert (octet_ok 0) as H0 by (unfold octet_ok; lia).
  destruct (octet_loop 0 0 a) eqn:Ha; [|done]. destruct (octet_loop 0 0 b) eqn:Hb; [|done].
  destruct (octet_loop 0 0 c) eqn:Hc; [|done]. destruct (octet_loop 0 0 d) eqn:Hd; [|done].
  intros [= <-]. repeat constructor; by eapply octet_loop_ok.
Qed.

Lemma hex_group_ok off acc s off' acc' rest :
  (off <= 4)%nat -> 0 <= acc < 16 ^ Z.of_nat off -> hex_group off acc s = Some (off', acc', rest) -> group_ok acc'.
Proof.
  revert off acc. assert (forall off acc, (off <= 4)%nat -> 0 <= acc < 16 ^ Z.of_nat off -> group_ok acc) as Hok.
  { intros off acc Hoff Hacc. unfold group_ok. assert (16 ^ Z.of_nat off <= 16 ^ 4) by (apply Z.pow_le_mono_r; lia). lia. }
  induction s as [|a s IH]; intros off acc Hoff Hacc; cbn [hex_group].
  - intros [= <- <- <-]. by eapply Hok.
  - destruct (hex_of a) as [d|] eqn:Hd.
    + destruct (Nat.ltb_spec 3 off); [done|]. apply IH; [lia|].
      assert (0 <= d < 16) by (unfold hex_of in Hd; repeat case_match; simplify_eq;
        repeat match goal with H : _ && _ = true |- _ => apply andb_true_iff in H as [?%Z.leb_le ?%Z.leb_le] end; lia).
      rewrite Nat2Z.inj_succ, Z.pow_succ_r by lia. lia.
    + intros [= <- <- <-]. by eapply Hok.
Qed.

Lemma parseIPv6Groups_ok fuel groups ellipsis s groups' ellipsis' rest :
  Forall group_ok groups -> parseIPv6Groups fuel groups ellipsis s = Some (groups', ellipsis', rest) -> Forall group_ok groups'.
Proof.
  revert groups ellipsis s. induction fuel as [|fuel IH]; intros groups ellipsis s Hg; cbn [parseIPv6Groups]; [by intros [= <- _ _]|].
  destruct (hex_group 0 0 s) as [[[off acc] after]|] eqn:Hhex; [|done]. cbn [mbind option_bind].
  apply hex_group_ok in Hhex; [|lia|done].
  assert (Forall group_ok (groups ++ [acc])) as Hg' by (apply Forall_app; split; [done|by apply Forall_singleton]).
  destruct (off =? 0)%nat; [done|]. destruct after as [|c after]; [by intros [= <- _ _]|].
  destruct (bool_decide (c = dot)).
  - destruct (_ && _); [done|]. destruct (_ <? _)%nat; [done|].
    destruct (parseIPv4Fields s) as [[|x [|y [|z [|u [|? ?]]]]]|] eqn:Hv4; try done. intros [= <- _ _].
    apply parseIPv4Fields_ok in Hv4. rewrite !Forall_cons in Hv4. unfold octet_ok in Hv4.
    apply Forall_app. split; [done|]. apply Forall_cons. split; [unfold group_ok; lia|]. apply Forall_singleton. unfold group_ok. lia.
  - destruct (negb _); [done|]. destruct after as [|c' after]; [done|]. destruct (bool_decide (c' = colon)); [|by apply IH].
    destruct ellipsis; [done|]. destruct (bool_decide (after = "")); [by intros [= <- _ _]|by apply IH].
Qed.

Lemma ParseAddr_wf s a : ParseAddr s = Some a -> addr_wf a.
Proof.
  unfold ParseAddr. destruct (address_kind s) as [[]|]; [|destruct (parseIPv4Fields s) eqn:H4; [|done]; intros [= <-]; by apply parseIPv4Fields_ok in H4|done].
  unfold parseIPv6. intros H.
  assert (forall s zone, (if HasPrefix s "::" && bool_decide ((if HasPrefix s "::" then drop_bytes 2 s else s) = "") then Some (IPv6 (replicate 8 0) zone)
    else '(groups, ellipsis, rest) ← parseIPv6Groups 8 [] (if HasPrefix s "::" then Some O else None) (if HasPrefix s "::" then drop_bytes 2 s else s);
    if negb (bool_decide (rest = "")) then None
    else if (length groups <? 8)%nat then ellipsis ← ellipsis; Some (IPv6 (expandEllipsis groups ellipsis) zone)
    else match ellipsis with Some _ => None | None => Some (IPv6 groups zone) end) = Some a -> addr_wf a) as Hbody.
  { clear. intros s zone. destruct (_ && _); [intros [= <-]; cbn; repeat (apply Forall_cons; split; [unfold group_ok; lia|]); done|].
    destruct (parseIPv6Groups _ _ _ _) as [[[groups ellipsis] rest]|] eqn:Hg; [|done]. cbn [mbind option_bind].
    apply parseIPv6Groups_ok in Hg; [|done]. destruct (negb _); [done|]. destruct (_ <? _)%nat.
    - destruct ellipsis as [i|]; [|done]. intros [= <-]. unfold addr_wf, expandEllipsis.
      apply Forall_app. split; [by apply Forall_take|]. apply Forall_app. split; [apply Forall_replicate; unfold group_ok; lia|by apply Forall_drop].
    - destruct ellipsis; [done|]. by intros [= <-]. }
  destruct (Cut s percent) as [[s' [|z zone]]|]; [done|..]; cbn [mbind option_bind] in H; by apply (Hbody _ _ H).
Qed.

Lemma ParsePrefix_spec s p :
  ParsePrefix s = Some p ->
  addr_wf (pf_addr p) /\ (match pf_addr p with IPv6 _ zone => zone = "" | IPv4 _ => True end) /\
  pf_bits p <= address_bits (pf_addr p).
Proof.
  unfold ParsePrefix. destruct (CutLast s slash) as [[address bitsStr]|]; [|done]. cbn [mbind option_bind].
  destruct (ParseAddr address) as [ip|] eqn:Hip; [|done]. cbn [mbind option_bind]. apply ParseAddr_wf in Hip.
  destruct (match ip with IPv4 _ => false | IPv6 _ zone => _ end) eqn:Hz; [done|].
  destruct (parseBits bitsStr) as [bits|]; [|done]. cbn [mbind option_bind].
  destruct (Z.ltb_spec (address_bits ip) bits); [done|]. intros [= <-]. cbn. split_and!; [done| |done].
  destruct ip; [done|]. by apply negb_false_iff, bool_decide_eq_true in Hz.
Qed.

(** Clearing the bits below a prefix does not change the addresses it contains. *)
Lemma Masked_Contains p ip :
  addr_wf (pf_addr p) -> (match pf_addr p with IPv6 _ zone => zone = "" | IPv4 _ => True end) ->
  pf_bits p <= address_bits (pf_addr p) -> Contains (Masked p) ip = Contains p ip.
Proof.
  destruct p as [a bits]. unfold Masked, Contains. cbn [pf_addr pf_bits]. intros Hwf Hz Hb.
  assert (forall w us k, 0 < w -> 0 <= k -> Forall (fun u => 0 <= u < 2 ^ w) us ->
    Z.shiftr (foldl (fun n o => n * 2 ^ w + o) 0 (rev (clear_bits w k (rev us)))) k = Z.shiftr (foldl (fun n o => n * 2 ^ w + o) 0 us) k) as Hclear.
  { intros w us k Hw Hk Hus. rewrite (clear_bits_value w k (rev us) Hw Hk); [by rewrite List.rev_involutive|]. by apply List.Forall_rev. }
  destruct a as [octets|groups zone], ip as [octets'|groups' zone']; cbn [pf_addr pf_bits]; try done; cbn [address_bits] in Hb.
  - rewrite !Z.shiftr_lxor. cbn [addr_value]. pose proof (Hclear 8 octets (32 - bits) ltac:(lia) ltac:(lia) Hwf) as Hc.
    change (2 ^ 8) with 256 in Hc. by rewrite Hc.
  - rewrite !Z.shiftr_lxor. cbn [addr_value]. pose proof (Hclear 16 groups (128 - bits) ltac:(lia) ltac:(lia) Hwf) as Hc.
    change (2 ^ 16) with 65536 in Hc. by rewrite Hc.
Qed.

(** ** Examples *)

Example ParseAddr_v4 : ParseAddr "192.168.0.1" = Some (IPv4 [192; 168; 0; 1]).
Proof. reflexivity. Qed.
Example ParseAddr_leading_zero : ParseAddr "192.168.00.1" = None.
Proof. reflexivity. Qed.
Example ParseAddr_v6 : ParseAddr "2001:db8::8:800:200c:417a%eth0" = Some (IPv6 [8193; 3512; 0; 0; 8; 2048; 8204; 16762] "eth0").
Proof. reflexivity. Qed.
Example ParseAddr_mapped : Unmap <$> ParseAddr "::ffff:10.0.0.1" = Some (IPv4 [10; 0; 0; 1]).
Proof. reflexivity. Qed.
Example ParseAddr_full_ellipsis : ParseAddr "1:2:3:4::5:6:7:8" = None.
Proof. reflexivity. Qed.
Example Addr_String_v6 : Addr_String <$> ParseAddr "2001:DB8:0:0:8:800:200C:417A" = Some "2001:db8::8:800:200c:417a".
Proof. reflexivity. Qed.
Example Addr_String_loopback : Addr_String <$> ParseAddr "0:0:0:0:0:0:0:1" = Some "::1".
Proof. reflexivity. Qed.
Example SplitHostPort_v6 : SplitHostPort "[::1]:8080" = Some ("::1", "8080").
Proof. reflexivity. Qed.
Example SplitHostPort_bare_v6 : SplitHostPort "::1" = None.
Proof. reflexivity. Qed.
Example ParsePrefix_v4 : Masked <$> ParsePrefix "10.1.2.3/8" = Some (mkPrefix (IPv4 [10; 0; 0; 0]) 8).
Proof. reflexivity. Qed.
Example ParsePrefix_v6 : Prefix_String ∘ Masked <$> ParsePrefix "2001:db8:ffff::1/33" = Some "2001:db8:8000::/33".
Proof. reflexivity. Qed.
Example ParsePrefix_leading_zero : ParsePrefix "10.0.0.0/08" = None.
Proof. reflexivity. Qed.
