(* ===== verification/RateLimiter.v ===== *)
(** * Rate limiting: [internal/middleware/ratelimit.go]

    The bucket of a request is its user, or the client's address as far as the forwarded
    chain can be trusted.  A store that fails lets the request through. *)

From S2P Require Import Prelude GoStrings GoErrors Config Http Metrics RateStore Handlers Auth Netip.
From stdpp Require Import options.
#[local] Set Default Proof Using "Type*".

Definition HeaderRateLimitLimit : string := "X-RateLimit-Limit".
Definition HeaderRateLimitRemaining : string := "X-RateLimit-Remaining".
Definition HeaderRateLimitReset : string := "X-RateLimit-Reset".
Definition HeaderRetryAfter : string := "Retry-After".

Definition rateLimitExceededMessage : string := "rate limit exceeded".
Definition rateLimitConfigInvalidMessage : string := "rate limit configuration invalid".
Definition rateLimitMetadataMissingMessage : string := "rate limit metadata missing".
Definition rateLimitStrategyUnsupportedMessage : string := "route rate limit strategy is not implemented yet".
Definition defaultRateLimitStrategy : string := "sliding_window".

(** ** The client *)

Definition parseIP (value : string) : option Addr :=
  addr ← ParseAddr (TrimSpace value); Some (Unmap addr).

Definition parseRemoteIP (remoteAddr : string) : option Addr :=
  match SplitHostPort (TrimSpace remoteAddr) with
  | Some (host, _) => parseIP host
  | None => parseIP remoteAddr
  end.

Definition trustedProxy (remoteIP : Addr) (trustedProxies : list Prefix) : bool :=
  existsb (fun prefix => Contains prefix remoteIP) trustedProxies.

(** A hop is [None] when it is not valid. *)
Definition parseForwardedForChain (value : string) : option (list (option Addr)) :=
  if bool_decide (TrimSpace value = "") then None
  else Some (parseIP <$> Split value comma).

(** The loop of [forwardedClientIP], over the chain from its end. *)
Fixpoint forwarded_loop (trustedProxies : list Prefix) (downstreamHop : Addr) (chain : list (option Addr)) : Addr :=
  match chain with
  | [] => downstreamHop
  | candidate :: chain =>
      if negb (trustedProxy downstreamHop trustedProxies) then downstreamHop
      else match candidate with
      | None => downstreamHop
      | Some addr =>
          if negb (trustedProxy addr trustedProxies) then addr
          else forwarded_loop trustedProxies addr chain
      end
  end.

Definition forwardedClientIP (remoteIP : Addr) (forwarded : list (option Addr)) (trustedProxies : list Prefix) : Addr :=
  forwarded_loop trustedProxies remoteIP (reverse forwarded).

Definition requestClientIP (req : Request) (trustedProxies : list Prefix) : option Addr :=
  match parseRemoteIP (rq_RemoteAddr req) with
  | None => None
  | Some remoteIP =>
      if trustedProxy remoteIP trustedProxies then
        match parseForwardedForChain (Header_Get (rq_Header req) "X-Forwarded-For") with
        | Some forwardedChain => Some (forwardedClientIP remoteIP forwardedChain trustedProxies)
        | None => Some remoteIP
        end
      else Some remoteIP
  end.

Definition rateLimitClientKey (req : Request) (trustedProxies : list Prefix) : string :=
  let userID := TrimSpace (Header_Get (rq_Header req) HeaderUserID) in
  if negb (bool_decide (userID = "")) then "user:" +:+ userID
  else match requestClientIP req trustedProxies with
       | None => ""
       | Some clientIP => "ip:" +:+ Addr_String clientIP
       end.

(** ** The response headers *)

(** [resetAt.Unix()] *)
Definition Unix (t : Time) : Z := (t - unix_epoch) / Second.

(** [Seconds] is a float; its ceiling is exact for less than 48 days, where its last bit
    is less than a nanosecond. *)
Definition ceilSeconds (d : Duration) : Z := - ((- d) / Second).

Definition retryAfterSeconds (now resetAt : Time) : Z :=
  let seconds := ceilSeconds (SubTime resetAt now) in
  if seconds <? 1 then 1 else seconds.

Definition setRateLimitHeaders (limit : Z) (decision : Decision) (header : Header) : Header :=
  Header_Set HeaderRateLimitReset (Itoa (Unix (dc_ResetAt decision)))
    (Header_Set HeaderRateLimitRemaining (Itoa (dc_Remaining decision))
      (Header_Set HeaderRateLimitLimit (Itoa limit) header)).

(** ** The middleware *)

Section RateLimiter.
Context {D : Type} {HProm : Prometheus} {HDown : Downstream D}.

(** [store]: it is not nil. *)
Definition RateLimiter (store : bool) (trustedProxies : list Prefix) : Middleware (D := D) := fun next w req s =>
  match GetRouteConfig req with
  | None => respondError w req StatusInternalServerError "route config missing" s
  | Some route =>
      match rc_RateLimit route with
      | None => next w req s
      | Some limit =>
          let strategy := TrimSpace (rl_Strategy limit) in
          let strategy := if bool_decide (strategy = "") then defaultRateLimitStrategy else strategy in
          if negb (bool_decide (strategy = defaultRateLimitStrategy))
          then respondError w req StatusNotImplemented rateLimitStrategyUnsupportedMessage s
          else if (rl_Requests limit <=? 0) || (rl_Window limit <=? 0)
          then respondError w req StatusInternalServerError rateLimitConfigInvalidMessage s
          else
            let clientKey := rateLimitClientKey req trustedProxies in
            let requestID := TrimSpace (Header_Get (rq_Header req) HeaderRequestID) in
            if bool_decide (clientKey = "") || bool_decide (requestID = "")
            then respondError w req StatusInternalServerError rateLimitMetadataMissingMessage s
            else if negb store then next w req s
            else
              let now := dn_Now (sv_down s) in
              let '(answer, down) :=
                dn_Allow (mkRateRequest (Key clientKey (rc_Path route)) (rl_Requests limit) (rl_Window limit)
                            strategy requestID now) (sv_down s) in
              let s := on_down (fun _ => down) s in
              match answer with
              | inl _ => next w req s
              | inr decision =>
                  let s := Writer_SetHeader w (setRateLimitHeaders (rl_Requests limit) decision (Writer_Header w s)) s in
                  if negb (dc_Allowed decision) then
                    let s := on_down (dn_update_metrics (IncRateLimitRejection (rc_Service route))) s in
                    let s := Writer_Set w HeaderRetryAfter (Itoa (retryAfterSeconds now (dc_ResetAt decision))) s in
                    respondError w req StatusTooManyRequests rateLimitExceededMessage s
                  else next w req s
              end
      end
  end.

(** ** Passing requests on *)

Lemma RateLimiter_cases store trustedProxies w req s :
  (exists s', forall next, RateLimiter store trustedProxies next w req s = next w req s') \/
  (exists r, forall next, RateLimiter store trustedProxies next w req s = r).
Proof.
  unfold RateLimiter.
  destruct (GetRouteConfig req) as [route|]; [|right; eauto].
  destruct (rc_RateLimit route) as [limit|]; [|left; eauto].
  destruct (negb _); [right; eauto|]. destruct (_ || _); [right; eauto|].
  destruct (_ || _); [right; eauto|]. destruct (negb store); [left; eauto|].
  destruct (dn_Allow _ _) as [[err|decision] down]; [left; eauto|].
  destruct (negb _); [right; eauto|left; eauto].
Qed.

(** The other strategy that [Validate] accepts is not served. *)
Lemma token_bucket_not_served store trustedProxies next w req s route limit :
  GetRouteConfig req = Some route -> rc_RateLimit route = Some limit -> rl_Strategy limit = "token_bucket" ->
  rl_Strategy limit ∈ validRateLimitStrategies /\
  RateLimiter store trustedProxies next w req s = respondError w req StatusNotImplemented rateLimitStrategyUnsupportedMessage s.
Proof. intros Hr Hl Hs. unfold RateLimiter. rewrite Hr, Hl, Hs. split; [by vm_compute; right; left|done]. Qed.

Lemma RateLimiter_guarantees store trustedProxies P : guarantees P P (RateLimiter store trustedProxies).
Proof.
  intros next next' Hnext w req s HP.
  destruct (RateLimiter_cases store trustedProxies w req s) as [[s' Hs]|[r Hr]].
  - rewrite !Hs. by apply Hnext.
  - by rewrite !Hr.
Qed.

End RateLimiter.

(** ** The decision *)

Lemma retryAfterSeconds_covers now resetAt :
  in_int64 (resetAt - now) ->
  1 <= retryAfterSeconds now resetAt /\ resetAt - now <= retryAfterSeconds now resetAt * Second.
Proof.
  intros [H1 H2]. unfold retryAfterSeconds, ceilSeconds.
  replace (SubTime resetAt now) with (resetAt - now) by (unfold SubTime; lia).
  set (d := resetAt - now). pose proof (Z.mul_div_le (- d) Second ltac:(done)).
  destruct (Z.ltb_spec (- (- d / Second)) 1); change Second with 1000000000 in *; lia.
Qed.

Section Decision.
Context {D : Type} {HProm : Prometheus} {HDown : Downstream D} {HLaws : DownstreamLaws D} {HPromLaws : PrometheusLaws}.

(** The question the middleware asks the store. *)
Definition rate_question (route : RouteConfig) (limit : RateLimitConfig) (trustedProxies : list Prefix) (req : Request)
    (now : Time) : RateRequest :=
  mkRateRequest (Key (rateLimitClientKey req trustedProxies) (rc_Path route)) (rl_Requests limit) (rl_Window limit)
    defaultRateLimitStrategy (TrimSpace (Header_Get (rq_Header req) HeaderRequestID)) now.

Definition rejections (service : string) (r : option MetricsRegistry) : Z :=
  match r with Some r => CounterVec_value (m_rateLimitRejections r) (normalizeService service) | None => 0 end.

(** C23: rate limiting: for a limited route with a valid sliding window, and a request that
    can be attributed, the store is asked once, about the bucket of the client and the
    route.  If it fails, the request passes; if it allows, the request passes with the
    limit, what remains and the reset in the response's headers; if it denies, the client
    gets 429 with the same headers and a [Retry-After] that covers the time to the reset,
    at least a second, the next handler is not called, and the rejection is counted. *)
Theorem rate_limiter_follows_store trustedProxies next w req (s : Server (D := D)) route limit :
  GetRouteConfig req = Some route -> rc_RateLimit route = Some limit ->
  TrimSpace (rl_Strategy limit) ∈ [""; defaultRateLimitStrategy] ->
  0 < rl_Requests limit -> 0 < rl_Window limit ->
  rateLimitClientKey req trustedProxies <> "" -> TrimSpace (Header_Get (rq_Header req) HeaderRequestID) <> "" ->
  tracks w s -> cn_sent (sv_conn s) = None ->
  let now := dn_Now (sv_down s) in
  let '(answer, down) := dn_Allow (rate_question route limit trustedProxies req now) (sv_down s) in
  match answer with
  | inl _ => RateLimiter true trustedProxies next w req s = next w req (on_down (fun _ => down) s)
  | inr decision =>
      let h := setRateLimitHeaders (rl_Requests limit) decision (cn_Header (sv_conn s)) in
      if dc_Allowed decision
      then RateLimiter true trustedProxies next w req s =
             next w req (on_conn (conn_set_header h) (on_down (fun _ => down) s))
      else
        let '(completion, s') := RateLimiter true trustedProxies next w req s in
        completion = Returned /\ cn_body (sv_conn s') = cn_body (sv_conn s) ++
          [ErrorJSON (mkErrorBody rateLimitExceededMessage StatusTooManyRequests (RequestID req))] /\
        (exists n, cn_sent (sv_conn s') =
            Some (StatusTooManyRequests, Header_Set "Content-Type" "application/json" (Header_Set HeaderRetryAfter (Itoa n) h)) /\
          1 <= n /\ (in_int64 (dc_ResetAt decision - now) -> dc_ResetAt decision - now <= n * Second)) /\
        (forall service, rejections service (dn_metrics (sv_down s')) =
           rejections service (dn_metrics (sv_down s)) +
           (if decide (normalizeService (rc_Service route) = normalizeService service)
            then match dn_metrics (sv_down s) with Some _ => 1 | None => 0 end else 0))
  end.
Proof.
  intros Hroute Hlimit Hstrategy Hreq Hwin Hkey Hid Ht Hc. cbv zeta.
  assert ((if bool_decide (TrimSpace (rl_Strategy limit) = "") then defaultRateLimitStrategy else TrimSpace (rl_Strategy limit))
    = defaultRateLimitStrategy) as Hst.
  { apply elem_of_cons in Hstrategy as [->|Hs]; [done|]. apply list_elem_of_singleton in Hs as ->. done. }
  destruct (dn_Allow _ _) as [answer down] eqn:Hallow.
  pose proof (dn_metrics_Allow (rate_question route limit trustedProxies req (dn_Now (sv_down s))) (sv_down s)) as Hm.
  rewrite Hallow in Hm. cbn [snd] in Hm.
  unfold RateLimiter. rewrite Hroute, Hlimit. cbv zeta. rewrite Hst.
  rewrite bool_decide_eq_true_2, !bool_decide_eq_false_2 by done.
  rewrite (proj2 (Z.leb_gt (rl_Requests limit) 0)), (proj2 (Z.leb_gt (rl_Window limit) 0)) by done. cbn [negb orb].
  unfold rate_question in Hallow. rewrite Hallow. destruct answer as [err|decision]; [done|].
  rewrite Writer_SetHeader_conn, Writer_Header_conn. cbn [sv_conn on_down].
  destruct (dc_Allowed decision); [done|]. cbn [negb]. unfold respondError, WriteError, Writer_Set.
  rewrite Writer_SetHeader_conn, Writer_Header_conn. set (s2 := on_conn _ _).
  assert (tracks w s2) as Ht2 by (apply tracks_on_conn; [done|]; by apply tracks_on_down, tracks_on_conn, tracks_on_down).
  destruct (WriteJSON_unsent w StatusTooManyRequests (ErrorJSON (mkErrorBody rateLimitExceededMessage StatusTooManyRequests (RequestID req)))
    s2 eq_refl Ht2 Hc) as (Hconn & Hdown & _).
  rewrite Hconn, Hdown. split_and!; [done|done| |].
  - exists (retryAfterSeconds (dn_Now (sv_down s)) (dc_ResetAt decision)). split; [done|].
    split; [unfold retryAfterSeconds; destruct (Z.ltb_spec (ceilSeconds (SubTime (dc_ResetAt decision) (dn_Now (sv_down s)))) 1); lia|].
    apply retryAfterSeconds_covers.
  - intros service. unfold s2. cbn [sv_down on_conn on_down]. rewrite dn_metrics_update, Hm. unfold rejections, IncRateLimitRejection.
    destruct (dn_metrics (sv_down s)) as [r|]; cbn; [unfold counter_Inc; by rewrite CounterVec_value_Inc|].
    by destruct (decide _).
Qed.

End Decision.

(** ** The client's address *)

(** A valid hop of a trusted proxy. *)
Definition trusted_hop (trustedProxies : list Prefix) (hop : option Addr) : Prop :=
  exists addr, hop = Some addr /\ trustedProxy addr trustedProxies = true.

(** The hops the loop passed over, from the edge, and where it stopped. *)
Lemma forwarded_loop_spec trustedProxies remoteIP chain :
  trustedProxy remoteIP trustedProxies = true ->
  exists passed rest, chain = passed ++ rest /\ Forall (trusted_hop trustedProxies) passed /\
    ((exists addr rest', rest = Some addr :: rest' /\ trustedProxy addr trustedProxies = false /\
        forwarded_loop trustedProxies remoteIP chain = addr) \/
     ((rest = [] \/ head rest = Some None) /\
        Some (forwarded_loop trustedProxies remoteIP chain) = default (Some remoteIP) (last passed))).
Proof.
  revert remoteIP. induction chain as [|candidate chain IH]; intros remoteIP Hr; cbn [forwarded_loop].
  - exists [], []. split_and!; [done|done|]. right. eauto.
  - rewrite Hr. cbn [negb]. destruct candidate as [addr|].
    + destruct (trustedProxy addr trustedProxies) eqn:Ha; cbn [negb].
      * destruct (IH addr Ha) as (passed & rest & -> & Hp & Hstop).
        exists (Some addr :: passed), rest. split_and!; [done|constructor; [by eexists|done]|].
        destruct Hstop as [?|[Hrest Hlast]]; [by left|right]. split; [done|].
        rewrite Hlast, last_cons. by destruct (last passed).
      * exists [], (Some addr :: chain). split_and!; [done|done|]. left. eauto.
    + exists [], (None :: chain). split_and!; [done|done|]. right. eauto.
Qed.

(** C22: the client's address: an untrusted peer is its own client, whatever chain it
    forwards.  For a trusted peer, all hops the chain lists after the client's are valid
    addresses of trusted proxies, and the client is the nearest untrusted hop; when there is
    none, because the chain is exhausted or its next hop is no address, it is the farthest
    proxy that was verified. *)
Theorem client_ip_is_nearest_untrusted req trustedProxies remoteIP :
  parseRemoteIP (rq_RemoteAddr req) = Some remoteIP ->
  let forwarded := parseForwardedForChain (Header_Get (rq_Header req) "X-Forwarded-For") in
  (trustedProxy remoteIP trustedProxies = false \/ forwarded = None) /\
    requestClientIP req trustedProxies = Some remoteIP \/
  exists hops unverified passed,
    trustedProxy remoteIP trustedProxies = true /\ forwarded = Some hops /\
    hops = unverified ++ passed /\ Forall (trusted_hop trustedProxies) passed /\
    ((exists client, last unverified = Some (Some client) /\ trustedProxy client trustedProxies = false /\
        requestClientIP req trustedProxies = Some client) \/
     ((unverified = [] \/ last unverified = Some None) /\
        requestClientIP req trustedProxies = default (Some remoteIP) (head passed))).
Proof.
  intros Hr. cbv zeta. unfold requestClientIP. rewrite Hr.
  destruct (trustedProxy remoteIP trustedProxies) eqn:Ht; [|left; auto].
  destruct (parseForwardedForChain _) as [hops|] eqn:Hf; [|left; auto]. right.
  destruct (forwarded_loop_spec trustedProxies remoteIP (reverse hops) Ht) as (passed & rest & Heq & Hp & Hstop).
  exists hops, (reverse rest), (reverse passed). unfold forwardedClientIP.
  split_and!; [done|done| |by apply Forall_reverse|].
  { by rewrite <- reverse_app, <- Heq, reverse_involutive. }
  destruct Hstop as [(addr & rest' & -> & Ha & ->)|[Hrest Hlast]].
  - left. exists addr. split_and!; [|done|done]. by rewrite reverse_cons, last_snoc.
  - right. rewrite Hlast, last_reverse, head_reverse. split; [|done].
    destruct Hrest as [->|Hrest]; [by left|by right].
Qed.

(** A peer chain of addresses the gateway cannot verify does not matter: nothing a client
    writes before the hop its proxy reports. *)
Definition demo_proxies : list Prefix := [mkPrefix (IPv4 [10; 0; 0; 0]) 8].

Definition demo_forwarded (remoteAddr chain : string) : Request :=
  mkRequest "GET" "" "" "/" "" "gateway" {[ "X-Forwarded-For" := [chain] ]} BodyNil None 0 remoteAddr None None.

Lemma client_ip_is_nearest_untrusted_witness :
  requestClientIP (demo_forwarded "10.0.0.1:1234" "1.2.3.4, 198.51.100.7, 10.0.0.9") demo_proxies =
    Some (IPv4 [198; 51; 100; 7]) /\
  let req := demo_forwarded "203.0.113.5:1234" "10.0.0.1" in
  let forwarded := parseForwardedForChain (Header_Get (rq_Header req) "X-Forwarded-For") in
  (trustedProxy (IPv4 [203; 0; 113; 5]) demo_proxies = false \/ forwarded = None) /\
    requestClientIP req demo_proxies = Some (IPv4 [203; 0; 113; 5]) \/
  exists hops unverified passed,
    trustedProxy (IPv4 [203; 0; 113; 5]) demo_proxies = true /\ forwarded = Some hops /\
    hops = unverified ++ passed /\ Forall (trusted_hop demo_proxies) passed /\
    ((exists client, last unverified = Some (Some client) /\ trustedProxy client demo_proxies = false /\
        requestClientIP req demo_proxies = Some client) \/
     ((unverified = [] \/ last unverified = Some None) /\
        requestClientIP req demo_proxies = default (Some (IPv4 [203; 0; 113; 5])) (head passed))).
Proof.
  split; [vm_compute; reflexivity|].
  apply (client_ip_is_nearest_untrusted (demo_forwarded "203.0.113.5:1234" "10.0.0.1") demo_proxies (IPv4 [203; 0; 113; 5])).
  reflexivity.
Defined.

(** ** Buckets *)

Lemma sanitize_no_brace s : contains_byte close_brace (sanitizeRedisKeySegment s) = false.
Proof.
  unfold sanitizeRedisKeySegment. generalize (TrimSpace s). clear s. intros s.
  induction s as [|a s IH]; [done|]. cbn [map_bytes contains_byte]. rewrite IH, orb_false_r.
  unfold sanitize_byte. destruct (bool_decide (a = open_brace)) eqn:Ho; [done|].
  destruct (bool_decide (a = close_brace)) eqn:Hc; done.
Qed.

(** Buckets: two requests share one exactly when their routes are the same and their
    clients have the same key, up to surrounding blanks and braces. *)
Lemma rate_buckets_are_separate client1 client2 path1 path2 :
  Key client1 path1 = Key client2 path2 <->
  sanitizeRedisKeySegment client1 = sanitizeRedisKeySegment client2 /\ path1 = path2.
Proof.
  unfold Key. split; [|by intros [-> ->]]. intros Heq.
  apply (f_equal (drop_bytes 12)) in Heq. cbn [drop_bytes] in Heq.
  apply (append_sep_inj close_brace) in Heq as [Hc Hp]; [|apply sanitize_no_brace..|right; by eexists|right; by eexists].
  split; [done|]. by injection Hp.
Qed.

(** Braces do not tell clients apart. *)
Lemma rate_buckets_collide : Key "user:a{b" "/x" = Key "user:a_b" "/x".
Proof. reflexivity. Qed.

(** ** A concrete limited route *)

Definition demo_limited_route : RouteConfig :=
  mkRouteConfig "/api/orders" "/api" "orders" [] false 0 (Some (mkRateLimitConfig 1 (60 * Second) ""))
    (mkRetryConfig 0 0 0 "") [mkTarget "o" 80 1] "round_robin".

Definition demo_limited_request (id : string) : Request :=
  with_route demo_limited_route
    (mkRequest "GET" "" "" "/api/orders/1" "" "gateway" {[ "X-Request-Id" := [id] ]} BodyNil None 0 "192.0.2.1:1234" None None).

(** After one request of the client. *)
Definition demo_limited_server : Server (D := demo_down) :=
  mkServer new_conn []
    (sv_down (snd (RateLimiter true [] demo_handler Connection (demo_limited_request "r1") demo_gateway))).

Lemma demo_limited_tracks : tracks Connection demo_limited_server.
Proof. split; [constructor|]. by intros id ?%elem_of_nil. Qed.

Lemma rate_limiter_follows_store_witness :
  let '(completion, s') := RateLimiter true [] demo_handler Connection (demo_limited_request "r2") demo_limited_server in
  completion = Returned /\ client_status (sv_conn s') = 429 /\
  exists n, cn_sent (sv_conn s') = Some (StatusTooManyRequests,
      Header_Set "Content-Type" "application/json" (Header_Set HeaderRetryAfter (Itoa n)
        (setRateLimitHeaders 1 (mkDecision false 0 (unix_epoch + 1704067260 * Second)) ∅))) /\ 1 <= n.
Proof.
  pose proof (rate_limiter_follows_store [] demo_handler Connection (demo_limited_request "r2") demo_limited_server
    demo_limited_route (mkRateLimitConfig 1 (60 * Second) "") eq_refl eq_refl ltac:(by left) ltac:(done) ltac:(done)
    ltac:(by vm_compute) ltac:(by vm_compute) demo_limited_tracks eq_refl) as H.
  cbv zeta in H.
  replace (dn_Allow (rate_question demo_limited_route (mkRateLimitConfig 1 (60 * Second) "") [] (demo_limited_request "r2")
    (dn_Now (sv_down demo_limited_server))) (sv_down demo_limited_server))
    with ((inr (mkDecision false 0 (unix_epoch + 1704067260 * Second)) : sum error Decision), sv_down demo_limited_server) in H.
  - cbn [dc_Allowed] in H.
    destruct (RateLimiter true [] demo_handler Connection (demo_limited_request "r2") demo_limited_server) as [completion s'].
    destruct H as (Hc & _ & (n & Hn & H1 & _) & _). split; [done|]. split; [|exists n; split; [exact Hn|done]].
    unfold client_status. by rewrite Hn.
  - vm_compute. reflexivity.
Defined.
