(* ===== verification/Observe.v ===== *)
(** * Request metrics: [internal/middleware/metrics.go]

    The deferred function runs when the next handler returns and when it panics. *)

From S2P Require Import Prelude GoStrings GoErrors Config Http Metrics RateStore Handlers Auth.
From stdpp Require Import options.
#[local] Set Default Proof Using "Type*".

Section Observe.
Context {D : Type} {HProm : Prometheus} {HDown : Downstream D}.

(** The trace identifier of the request's span, when it is sampled. *)
Variable sampledTrace : Request -> option string.

(** [Metrics]; [registry]: it is not nil. *)
Definition MetricsMiddleware (registry : bool) : Middleware (D := D) := fun next =>
  if negb registry then next
  else fun w req s =>
    match GetRouteConfig req with
    | None => next w req s
    | Some route =>
        let '(recorder, s) := new_recorder w s in
        let s := on_down (dn_update_metrics (IncInFlight (rc_Service route))) s in
        let start := dn_Now (sv_down s) in
        let '(completion, s) := next recorder req s in
        let s := on_down (dn_update_metrics (DecInFlight (rc_Service route))) s in
        let duration := SubTime (dn_Now (sv_down s)) start in
        let status := recorder_status recorder s in
        let observe :=
          match sampledTrace req with
          | Some traceID => ObserveRequestWithExemplar (rc_Service route) status duration traceID
          | None => ObserveRequest (rc_Service route) status duration
          end in
        (completion, on_down (dn_update_metrics observe) s)
    end.

Lemma MetricsMiddleware_guarantees registry P : guarantees P P (MetricsMiddleware registry).
Proof.
  intros next next' Hnext w req s HP. unfold MetricsMiddleware.
  destruct (negb registry); [by apply Hnext|]. destruct (GetRouteConfig req) as [route|]; [|by apply Hnext].
  cbn [new_recorder]. by rewrite Hnext.
Qed.

(** ** Accounting *)

Definition requests_total (r : MetricsRegistry) (service : string) : Z :=
  CounterVec_value (m_requestsTotal r) (normalizeService service).
Definition request_failures (r : MetricsRegistry) (service : string) : Z :=
  CounterVec_value (m_requestFailuresTotal r) (normalizeService service).
Definition in_flight (r : MetricsRegistry) (service : string) : Z :=
  GaugeVec_value (m_inFlightRequests r) (normalizeService service).

Definition same_service (service service' : string) : Z :=
  if decide (normalizeService service = normalizeService service') then 1 else 0.

(** [next] does not count requests itself, balances the requests in flight, and answers
    through the writer it is given with final statuses. *)
Record well_behaved (next : Handler (D := D)) : Prop := {
  wb_metrics w req s r : dn_metrics (sv_down s) = Some r ->
    exists r', dn_metrics (sv_down (next w req s).2) = Some r' /\
      forall service, requests_total r' service = requests_total r service /\
        request_failures r' service = request_failures r service /\
        in_flight r' service = in_flight r service;
  wb_tracks w req s : tracks w s -> tracks w (next w req s).2;
}.

Context {HLaws : DownstreamLaws D} {HPromLaws : PrometheusLaws}.

Lemma dn_metrics_on_down f (s : Server (D := D)) : dn_metrics (sv_down (on_down (dn_update_metrics f) s)) = f (dn_metrics (sv_down s)).
Proof. apply dn_metrics_update. Qed.

Lemma in_flight_update d r r' service :
  with_inFlight (GaugeVec_Add (normalizeService service) d) (Some r) = Some r' ->
  forall service', in_flight r' service' = in_flight r service' + d * same_service service service' /\
    requests_total r' service' = requests_total r service' /\ request_failures r' service' = request_failures r service'.
Proof.
  intros [= <-] service'. unfold in_flight, same_service. cbn. rewrite GaugeVec_value_Add.
  split; [|done]. destruct (decide _); lia.
Qed.

Lemma observe_counts service status duration r :
  exists r', ObserveRequest service status duration (Some r) = Some r' /\
    forall service', in_flight r' service' = in_flight r service' /\
      requests_total r' service' = requests_total r service' + same_service service service' /\
      request_failures r' service' = request_failures r service' +
        (if isFailureStatus status then same_service service service' else 0).
Proof.
  eexists. split; [reflexivity|]. intros service'. unfold in_flight, requests_total, request_failures, same_service.
  cbn. unfold counter_Inc. rewrite CounterVec_value_Inc.
  destruct (isFailureStatus status); rewrite ?CounterVec_value_Inc; split_and!; try done; lia.
Qed.

(** Request accounting: whatever a handler does, return or abort, the middleware counts
    the request once, under the service of its route, as a failure exactly when the status
    the client gets is 500 or more, and leaves the number of requests in flight as it
    found it. *)
Lemma request_is_counted_once next w req s route r :
  well_behaved next -> GetRouteConfig req = Some route -> dn_metrics (sv_down s) = Some r ->
  tracks w s -> cn_sent (sv_conn s) = None ->
  let '(completion, s') := MetricsMiddleware true next w req s in
  exists r', dn_metrics (sv_down s') = Some r' /\
    forall service,
      requests_total r' service = requests_total r service + same_service (rc_Service route) service /\
      request_failures r' service = request_failures r service +
        (if isFailureStatus (client_status (sv_conn s')) then same_service (rc_Service route) service else 0) /\
      in_flight r' service = in_flight r service.
Proof.
  intros [Hmet Htr] Hroute Hr Ht Hc. unfold MetricsMiddleware. cbn [negb]. rewrite Hroute.
  pose proof (tracks_new_recorder w s Ht Hc) as Hnew. destruct (new_recorder w s) as [recorder s1] eqn:Hrec.
  assert (recorder <> Connection /\ sv_down s1 = sv_down s) as [Hne Hs1] by (injection Hrec as <- <-; done).
  destruct Hnew as [Ht1 Hc1]. set (s2 := on_down _ s1).
  assert (dn_metrics (sv_down s2) = IncInFlight (rc_Service route) (Some r)) as Hr2
    by (unfold s2; by rewrite dn_metrics_on_down, Hs1, Hr).
  assert (exists r2, IncInFlight (rc_Service route) (Some r) = Some r2) as [r2 H2] by (by eexists).
  pose proof (in_flight_update 1 _ _ _ H2) as Hup2.
  destruct (Hmet recorder req s2 r2 ltac:(congruence)) as (r3 & Hr3 & Hsame3).
  pose proof (Htr recorder req s2 (tracks_on_down _ _ _ Ht1)) as Ht3.
  destruct (next recorder req s2) as [completion s3]. cbn [snd] in Hr3, Ht3.
  assert (exists r4, DecInFlight (rc_Service route) (Some r3) = Some r4) as [r4 H4] by (by eexists).
  pose proof (in_flight_update (-1) _ _ _ H4) as Hup4.
  set (s4 := on_down _ s3). assert (dn_metrics (sv_down s4) = Some r4) as Hr4
    by (unfold s4; by rewrite dn_metrics_on_down, Hr3).
  assert (recorder_status recorder s4 = client_status (sv_conn s3)) as Hstatus
    by (apply (tracks_status recorder s4); [by apply tracks_on_down|done]).
  destruct (observe_counts (rc_Service route) (recorder_status recorder s4)
    (SubTime (dn_Now (sv_down s4)) (dn_Now (sv_down s2))) r4) as (r5 & H5 & Hup5).
  exists r5. split.
  - rewrite dn_metrics_on_down, Hr4. destruct (sampledTrace req); [unfold ObserveRequestWithExemplar|]; exact H5.
  - intros service. destruct (Hup2 service) as (F2 & T2 & X2). destruct (Hsame3 service) as (T3 & X3 & F3).
    destruct (Hup4 service) as (F4 & T4 & X4). destruct (Hup5 service) as (F5 & T5 & X5).
    change (sv_conn (on_down (dn_update_metrics _) s4)) with (sv_conn s3). rewrite <- Hstatus.
    split_and!; [lia| |lia]. rewrite X5, X4, X3, X2. done.
Qed.

End Observe.

Lemma demo_handler_well_behaved : well_behaved demo_handler.
Proof.
  split.
  - intros w req s r Hr. exists r. split; [|done].
    cbn [snd demo_handler]. by rewrite Write_down.
  - intros w req s Ht. by apply tracks_Write.
Qed.

Lemma request_is_counted_once_witness :
  let '(completion, s') := MetricsMiddleware (fun _ => None) true demo_handler Connection
    (demo_protected_request "") demo_gateway in
  exists r', dn_metrics (sv_down s') = Some r' /\
    requests_total r' "orders" = 1 /\ request_failures r' "orders" = 0 /\ in_flight r' "orders" = 0.
Proof.
  pose proof (request_is_counted_once (fun _ => None) demo_handler Connection (demo_protected_request "") demo_gateway
    demo_protected_route NewMetricsRegistry demo_handler_well_behaved eq_refl eq_refl
    ltac:(split; [constructor|by intros id ?%elem_of_nil]) eq_refl) as H.
  destruct (MetricsMiddleware _ _ _ _ _ _) as [completion s'] eqn:E. destruct H as (r' & Hr' & Hs).
  exists r'. split; [done|]. destruct (Hs "orders") as (H1 & H2 & H3). rewrite H1, H2, H3.
  replace (client_status (sv_conn s')) with 200; [by vm_compute|].
  change s' with (completion, s').2. rewrite <- E. vm_compute. reflexivity.
Defined.
