(* ===== verification/Proxy.v ===== *)
(** * The proxy: [internal/proxy/proxy.go]

    The handler that sends a request upstream and copies the response.  It configures
    [httputil.ReverseProxy], whose [ServeHTTP] is translated as far as the gateway relies on
    it: the headers it removes and sets, the order of its calls, the informational statuses
    it forwards, the copy of the body and the panic when the copy fails.  The query, the
    trailers and the switch of protocols after a status 101 are left out (the last is a
    parameter). *)

From S2P Require Import Prelude GoStrings GoErrors Config Http Breaker Registry LoadBalancer Retry Metrics Transport RateStore Handlers Auth Netip.
From stdpp Require Import options.
#[local] Set Default Proof Using "Type*".

(** ** What the proxy calls *)

(** The [http.RoundTripper] under the request's context: a round trip answers or panics
    ([None]), after informational responses; a body is read and closed by its number;
    [rt_reads] bounds the reads of a body that succeed. *)
Class RoundTripper (D : Type) := {
  rt_RoundTrip : Request -> D -> option RoundTripResult * list (Z * Header) * D;
  rt_Read : nat -> D -> option error * D;
  rt_Close : nat -> D -> D;
  rt_reads : nat -> D -> nat;
  rt_ctxErr : D -> option error;
  rt_WithTimeout : Duration -> D -> D;
  rt_Cancel : D -> D;
}.

Class RoundTripperLaws (D : Type) `{RoundTripper D} : Prop := {
  rt_Read_ends id d : (rt_Read id d).1 = None -> (rt_reads id (rt_Read id d).2 < rt_reads id d)%nat;
}.

(** ** Header fields of a connection *)

Definition hopHeaders : list string :=
  ["Connection"; "Proxy-Connection"; "Keep-Alive"; "Proxy-Authenticate"; "Proxy-Authorization"; "Te"; "Trailer";
   "Transfer-Encoding"; "Upgrade"].

Definition ascii_blanks : list string := [String (byte 32) ""; String (byte 9) ""; String (byte 10) ""; String (byte 13) ""].

(** [textproto.TrimString] *)
Definition TrimString (s : string) : string :=
  let left := trim_fuel ascii_blanks (String.length s) s in
  String.rev (trim_fuel ascii_blanks (String.length left) (String.rev left)).

(** The tokens of a comma-separated header. *)
Definition header_tokens (values : list string) : list string :=
  TrimString <$> (values ≫= (fun f => Split f comma)).

Definition removeHopByHopHeaders (h : Header) : Header :=
  let h := foldl (fun h sf => if bool_decide (sf = "") then h else Header_Del sf h) h
             (header_tokens (default [] (h !! "Connection"))) in
  foldl (fun h f => Header_Del f h) h hopHeaders.

Definition containsToken (values : list string) (token : string) : bool :=
  existsb (fun v => bool_decide (ToLower v = ToLower token)) (header_tokens values).

Definition upgradeType (h : Header) : string :=
  if containsToken (default [] (h !! "Connection")) "Upgrade" then Header_Get h "Upgrade" else "".

Definition printable (s : string) : bool :=
  all_bytes (fun a => (32 <=? nat_of_ascii a)%nat && (nat_of_ascii a <=? 126)%nat) s.

(** [copyHeader] adds every value. *)
Definition copyHeader (dst src : Header) : Header := union_with (fun vs ws => Some (vs ++ ws)) dst src.

(** ** proxy.go *)

Definition fallbackRouteTimeout : Duration := 30 * Second.

Definition stripPrefix (prefix path : string) : string :=
  let normalizedPrefix := TrimSuffix prefix "/" in
  let normalizedPrefix := if bool_decide (normalizedPrefix = "") then prefix else normalizedPrefix in
  if bool_decide (normalizedPrefix = "") then path
  else if bool_decide (path = normalizedPrefix) then "/"
  else if negb (HasPrefix path (normalizedPrefix +:+ "/")) then path
  else
    let trimmed := TrimPrefix path normalizedPrefix in
    if bool_decide (trimmed = "") then "/"
    else if negb (HasPrefix trimmed "/") then "/" +:+ trimmed
    else trimmed.

Definition noHealthyTargetsMessage (req : Request) : string :=
  match GetRouteConfig req with
  | Some route =>
      if bool_decide (rc_Service route = "") then "no healthy targets available"
      else "no healthy targets for service: " +:+ rc_Service route
  | None => "no healthy targets available"
  end.

(** [proxyReq.SetXForwarded()], whose [Out] headers have no [X-Forwarded-For] left. *)
Definition SetXForwarded (inRequest out : Request) : Request :=
  let h := rq_Header out in
  let h :=
    match SplitHostPort (rq_RemoteAddr inRequest) with
    | Some (clientIP, _) =>
        let prior := default [] (h !! "X-Forwarded-For") in
        Header_Set "X-Forwarded-For"
          (if bool_decide (prior = []) then clientIP else Join prior ", " +:+ ", " +:+ clientIP) h
    | None => Header_Del "X-Forwarded-For" h
    end in
  let h := Header_Set "X-Forwarded-Host" (rq_Host inRequest) h in
  with_header (Header_Set "X-Forwarded-Proto" "http" h) out.

(** [Rewrite] *)
Definition Rewrite (inRequest out : Request) : Request :=
  match GetRouteConfig inRequest with
  | None => out
  | Some route =>
      let rawPath := if bool_decide (rq_RawPath out = "") then "" else stripPrefix (rc_StripPrefix route) (rq_RawPath out) in
      SetXForwarded inRequest (with_path "http" (stripPrefix (rc_StripPrefix route) (rq_Path out)) rawPath out)
  end.

(** [ModifyResponse]: [None] is a panic, on a nil header map. *)
Definition ModifyResponse (resp : Response) : option Response :=
  match rs_Request resp with
  | Some request =>
      if bool_decide (Header_Get (default ∅ (rs_Header resp)) HeaderServedBy = "") then
        h ← rs_Header resp;
        Some (mkResponse (rs_StatusCode resp) (Some (Header_Set HeaderServedBy (rq_URLHost request) h))
                (rs_Body resp) (rs_Request resp))
      else Some resp
  | None => Some resp
  end.

(** The outbound request. *)
Definition outboundRequest (req : Request) : Request :=
  let out := if rq_ContentLength req =? 0 then with_body BodyNil (rq_GetBody req) 0 req else req in
  let reqUpType := upgradeType (rq_Header out) in
  let h := removeHopByHopHeaders (rq_Header out) in
  let h := if containsToken (default [] (rq_Header req !! "Te")) "trailers" then Header_Set "Te" "trailers" h else h in
  let h :=
    if bool_decide (reqUpType = "") then h
    else Header_Set "Upgrade" reqUpType (Header_Set "Connection" "Upgrade" h) in
  let h := Header_Del "X-Forwarded-Proto" (Header_Del "X-Forwarded-Host" (Header_Del "X-Forwarded-For" (Header_Del "Forwarded" h))) in
  let out := Rewrite req (with_header h out) in
  match rq_Header out !! "User-Agent" with
  | None => with_header (Header_Set "User-Agent" "" (rq_Header out)) out
  | Some _ => out
  end.

Section Proxy.
Context {D : Type} {HTransport : RoundTripper D}.
Implicit Types s : Server (D := D).

(** [ErrorHandler] *)
Definition ErrorHandler (w : ResponseWriter) (req : Request) (err : option error) s : Server :=
  let '(statusCode, message) :=
    if Is err DeadlineExceeded || Is (rt_ctxErr (sv_down s)) DeadlineExceeded
    then (StatusGatewayTimeout, "upstream request timed out")
    else if Is err ErrNoHealthyTargets
    then (StatusServiceUnavailable, noHealthyTargetsMessage req)
    else if Is err ErrCircuitOpen
    then (StatusServiceUnavailable, "upstream circuit is open")
    else (StatusBadGateway, "upstream request failed") in
  let s := Writer_SetHeader w (ApplyErrorHeaders err (Writer_Header w s)) s in
  WriteError w req statusCode message s.

(** The callback for an informational response, which clears the headers. *)
Definition Got1xxResponse (w : ResponseWriter) s (early : Z * Header) : Server :=
  let s := Writer_SetHeader w (copyHeader (Writer_Header w s) early.2) s in
  Writer_SetHeader w ∅ (WriteHeader w early.1 s).

(** [copyBuffer]: the error of the reads, [None] at the end of the body.  Its fuel is more
    than the reads that succeed. *)
Fixpoint copyBuffer (fuel : nat) (w : ResponseWriter) (id : nat) s : option error * Server :=
  match fuel with
  | O => (None, s)
  | S fuel =>
      let '(rerr, down) := rt_Read id (sv_down s) in
      let s := Write w (Copied id) (on_down (fun _ => down) s) in
      match rerr with
      | None => copyBuffer fuel w id s
      | Some (ESentinel EOF) => (None, s)
      | Some err => (Some err, s)
      end
  end.

(** [handleUpgradeResponse], for a body that is no [io.ReadWriteCloser]: it is not closed. *)
Definition handleUpgradeResponse (w : ResponseWriter) (outreq : Request) (resp : Response) s : Completion * Server :=
  let reqUpType := upgradeType (rq_Header outreq) in
  let resUpType := upgradeType (default ∅ (rs_Header resp)) in
  let message :=
    if negb (printable resUpType) then "backend tried to switch to invalid protocol"
    else if negb (bool_decide (ToLower reqUpType = ToLower resUpType))
    then "backend tried to switch protocol when another was requested"
    else "internal error: 101 switching protocols response with non-writable body" in
  (Returned, ErrorHandler w outreq (Some (Plain message)) s).

(** The copy of the response's body: a nil body panics, a failed copy does. *)
Definition copyResponse (w : ResponseWriter) (resp : Response) s : Completion * Server :=
  match rs_Body resp with
  | RNil => (Aborted, s)
  | RNoBody => (Returned, s)
  | RReader id =>
      let '(err, s) := copyBuffer (S (rt_reads id (sv_down s))) w id s in
      let s := on_down (rt_Close id) s in
      match err with Some _ => (Aborted, s) | None => (Returned, s) end
  end.

(** [ReverseProxy.ServeHTTP] after the round trip. *)
Definition serveResponse (w : ResponseWriter) (outreq : Request) (resp : Response) s : Completion * Server :=
  if rs_StatusCode resp =? StatusSwitchingProtocols then
    match ModifyResponse resp with
    | None => (Aborted, s)
    | Some resp => handleUpgradeResponse w outreq resp s
    end
  else
    let resp := mkResponse (rs_StatusCode resp) (removeHopByHopHeaders <$> rs_Header resp) (rs_Body resp) (rs_Request resp) in
    match ModifyResponse resp with
    | None => (Aborted, s)
    | Some resp =>
        let s := Writer_SetHeader w (copyHeader (Writer_Header w s) (default ∅ (rs_Header resp))) s in
        copyResponse w resp (WriteHeader w (rs_StatusCode resp) s)
    end.

Definition ReverseProxy_ServeHTTP (w : ResponseWriter) (req : Request) s : Completion * Server :=
  if negb (printable (upgradeType (rq_Header req)))
  then (Returned, ErrorHandler w req (Some (Plain "client tried to switch to invalid protocol")) s)
  else
    let outreq := outboundRequest req in
    let '((result, early), down) := rt_RoundTrip outreq (sv_down s) in
    let s := foldl (Got1xxResponse w) (on_down (fun _ => down) s) early in
    match result with
    | None => (Aborted, s)
    | Some (_, Some err) => (Returned, ErrorHandler w outreq (Some err) s)
    | Some (None, None) => (Aborted, s)
    | Some (Some resp, None) => serveResponse w outreq resp s
    end.

(** [Handler.ServeHTTP] *)
Definition Proxy_ServeHTTP (defaultTimeout : Duration) : Handler (D := D) := fun w req s =>
  match GetRouteConfig req with
  | None => respondError w req StatusInternalServerError "route config missing" s
  | Some route =>
      if bool_decide (rc_Service route = gatewayInternalService)
      then (Returned, WriteJSON w StatusOK (ObjectJSON [("status", "ok"); ("service", "gateway")]) s)
      else if bool_decide (rc_Targets route = [])
      then respondError w req StatusBadGateway "no upstream targets configured" s
      else
        let routeTimeout := if rc_Timeout route <=? 0 then defaultTimeout else rc_Timeout route in
        let '(completion, s) := ReverseProxy_ServeHTTP w req (on_down (rt_WithTimeout routeTimeout) s) in
        (completion, on_down rt_Cancel s)
  end.

(** [New]: the default of a route without a timeout. *)
Definition Proxy_New (defaultTimeout : Duration) : Handler (D := D) :=
  Proxy_ServeHTTP (if defaultTimeout <=? 0 then fallbackRouteTimeout else defaultTimeout).

End Proxy.

(** ** What an answer of the proxy's own leaves alone *)

Section Down.
Context {D : Type} {HTransport : RoundTripper D}.
Implicit Types s : Server (D := D).

Lemma ErrorHandler_down w req err s : sv_down (ErrorHandler w req err s) = sv_down s.
Proof.
  unfold ErrorHandler, WriteError. repeat match goal with |- context [if ?b then _ else _] => destruct b end;
  by rewrite WriteJSON_down, Writer_SetHeader_conn.
Qed.

Lemma Got1xx_down w early s : sv_down (foldl (Got1xxResponse w) s early) = sv_down s.
Proof.
  revert s. induction early as [|e early IH]; intros s; cbn [foldl]; [done|]. rewrite IH. unfold Got1xxResponse.
  by rewrite !Writer_SetHeader_conn; cbn; rewrite WriteHeader_down.
Qed.

End Down.

(** ** Paths *)

Definition normalizedPrefix (prefix : string) : string :=
  if bool_decide (TrimSuffix prefix "/" = "") then prefix else TrimSuffix prefix "/".

(** Path stripping: with the trailing slash of the prefix dropped, the prefix itself
    becomes the root, a path below it keeps what follows the prefix, from its slash on, and
    any other path, one that only shares leading characters with the prefix included, is
    unchanged; a rooted path stays rooted. *)
Lemma stripPrefix_rebases prefix path :
  let p := normalizedPrefix prefix in
  (p = "" /\ stripPrefix prefix path = path \/
   p <> "" /\ path = p /\ stripPrefix prefix path = "/" \/
   (exists rest, p <> "" /\ path = p +:+ "/" +:+ rest /\ stripPrefix prefix path = "/" +:+ rest) \/
   p <> "" /\ path <> p /\ (forall rest, path <> p +:+ "/" +:+ rest) /\ stripPrefix prefix path = path) /\
  (HasPrefix path "/" = true -> HasPrefix (stripPrefix prefix path) "/" = true).
Proof.
  cbv zeta. unfold stripPrefix. fold (normalizedPrefix prefix).
  case_bool_decide as Hempty; [split; [by left|done]|].
  case_bool_decide as Heq; [split; [right; left; done|done]|].
  destruct (HasPrefix path _) eqn:Hp; cbn [negb].
  - apply HasPrefix_spec in Hp as [rest Hrest]. rewrite append_assoc in Hrest.
    assert (TrimPrefix path (normalizedPrefix prefix) = "/" +:+ rest) as -> by (rewrite Hrest; apply TrimPrefix_app).
    split; [right; right; left; by exists rest|done].
  - split; [|done]. right. right. right. split_and!; [done|done| |done].
    intros rest Hrest. enough (HasPrefix path (normalizedPrefix prefix +:+ "/") = true) by congruence.
    apply HasPrefix_spec. exists rest. by rewrite append_assoc.
Qed.

(** ** Answers *)

Section Answers.
Context {D : Type} {HTransport : RoundTripper D} {HLaws : RoundTripperLaws D}.
Implicit Types s : Server (D := D).

(** A body read to its end: the reads, the last of which fails with [err]. *)
Inductive body_reads (id : nat) : D -> nat -> error -> D -> Prop :=
  | last_read d err d' : rt_Read id d = (Some err, d') -> body_reads id d 1 err d'
  | next_read d d' n err d'' :
      rt_Read id d = (None, d') -> body_reads id d' n err d'' -> body_reads id d (S n) err d''.

Definition add_body (chunks : list Chunk) (c : Conn) : Conn :=
  mkConn (cn_Header c) (cn_informational c) (cn_sent c) (cn_body c ++ chunks).

Lemma conn_Write_sent data c x : cn_sent c = Some x -> conn_Write data c = add_body [data] c.
Proof. intros H. unfold conn_Write. by rewrite H. Qed.

Lemma copyBuffer_reads fuel w id s x :
  (rt_reads id (sv_down s) < fuel)%nat -> tracks w s -> cn_sent (sv_conn s) = Some x ->
  exists n err d', body_reads id (sv_down s) n err d' /\
    copyBuffer fuel w id s =
      (if isEOF (Some err) then None else Some err,
       on_conn (add_body (replicate n (Copied id))) (on_down (fun _ => d') s)).
Proof.
  revert s. induction fuel as [|fuel IH]; intros s Hfuel Ht Hx; [lia|]. cbn [copyBuffer].
  pose proof (rt_Read_ends id (sv_down s)) as Hends.
  destruct (rt_Read id (sv_down s)) as [rerr down] eqn:Hread. cbn [fst snd] in Hends.
  destruct x as [code h]. assert (Write w (Copied id) (on_down (fun _ => down) s) =
    on_conn (add_body [Copied id]) (on_down (fun _ => down) s)) as Hw.
  { rewrite (Write_sent _ _ (on_down (fun _ => down) s) code h) by (by apply tracks_on_down || done).
    unfold on_conn. f_equal. by apply (conn_Write_sent _ _ (code, h)). }
  rewrite Hw. destruct rerr as [err|].
  - exists 1%nat, err, down. split; [by constructor|]. cbn [replicate]. by destruct err as [[]| | | | | | | | |].
  - destruct (IH (on_conn (add_body [Copied id]) (on_down (fun _ => down) s))) as (n & err & d' & Hr & ->).
    + cbn. specialize (Hends eq_refl). lia.
    + apply tracks_on_conn; [done|]. by apply tracks_on_down.
    + done.
    + exists (S n), err, d'. split; [by econstructor|]. f_equal. destruct s as [c rs d]. unfold on_conn, on_down, add_body. cbn.
      by rewrite <- app_assoc.
Qed.

Lemma WriteError_unsent w req status message s :
  informational status = false -> tracks w s -> cn_sent (sv_conn s) = None ->
  let s' := WriteError w req status message s in
  (exists h, cn_sent (sv_conn s') = Some (status, h)) /\ sv_down s' = sv_down s /\
  cn_body (sv_conn s') = cn_body (sv_conn s) ++ [ErrorJSON (mkErrorBody message status (RequestID req))].
Proof.
  intros Hst Ht Hc. cbv zeta. unfold WriteError.
  destruct (WriteJSON_unsent w status (ErrorJSON (mkErrorBody message status (RequestID req))) s Hst Ht Hc)
    as (-> & -> & _). cbn. split_and!; [by eexists|done|done].
Qed.

Definition upstream_route (route : RouteConfig) : Prop :=
  rc_Service route <> gatewayInternalService /\ rc_Targets route <> [].

Definition route_timeout (defaultTimeout : Duration) (route : RouteConfig) : Duration :=
  if rc_Timeout route <=? 0 then defaultTimeout else rc_Timeout route.

Lemma Proxy_upstream defaultTimeout w req s route :
  GetRouteConfig req = Some route -> upstream_route route -> printable (upgradeType (rq_Header req)) = true ->
  Proxy_ServeHTTP defaultTimeout w req s =
    let '((result, early), down) := rt_RoundTrip (outboundRequest req) (rt_WithTimeout (route_timeout defaultTimeout route) (sv_down s)) in
    let s := foldl (Got1xxResponse w) (on_down (fun _ => down) s) early in
    let '(completion, s) :=
      match result with
      | None => (Aborted, s)
      | Some (_, Some err) => (Returned, ErrorHandler w (outboundRequest req) (Some err) s)
      | Some (None, None) => (Aborted, s)
      | Some (Some resp, None) => serveResponse w (outboundRequest req) resp s
      end in
    (completion, on_down rt_Cancel s).
Proof.
  intros Hroute [Hs Htg] Hp. unfold Proxy_ServeHTTP, ReverseProxy_ServeHTTP. rewrite Hroute, Hp.
  rewrite !bool_decide_eq_false_2 by done. cbn [negb]. fold (route_timeout defaultTimeout route).
  cbn [sv_down on_down]. destruct (rt_RoundTrip _ _) as [[result early] down]. done.
Qed.

Lemma rq_route_Rewrite inRequest out : rq_route (Rewrite inRequest out) = rq_route out.
Proof. unfold Rewrite. by destruct (GetRouteConfig inRequest). Qed.

Lemma rq_route_outbound req : rq_route (outboundRequest req) = rq_route req.
Proof.
  unfold outboundRequest. cbv zeta.
  match goal with |- rq_route (match ?x with Some _ => _ | None => _ end) = _ => destruct x end.
  all: cbn [rq_route with_header]; rewrite rq_route_Rewrite; by destruct (_ =? _).
Qed.

(** Upstream errors: when the round trip fails, the client gets one JSON error: 504 if
    the error or the request's context is a passed deadline, else 503 if the service has no
    healthy target or its circuit is open, else 502; the body names the service when none of
    its targets is healthy. *)
Lemma proxy_answers_errors defaultTimeout w req s route resp err d :
  GetRouteConfig req = Some route -> upstream_route route -> printable (upgradeType (rq_Header req)) = true ->
  tracks w s -> cn_sent (sv_conn s) = None ->
  rt_RoundTrip (outboundRequest req) (rt_WithTimeout (route_timeout defaultTimeout route) (sv_down s)) =
    (Some (resp, Some err), [], d) ->
  let '(completion, s') := Proxy_ServeHTTP defaultTimeout w req s in
  let late := Is (Some err) DeadlineExceeded = true \/ Is (rt_ctxErr d) DeadlineExceeded = true in
  completion = Returned /\ sv_down s' = rt_Cancel d /\
  exists status message h, cn_sent (sv_conn s') = Some (status, h) /\
    cn_body (sv_conn s') = cn_body (sv_conn s) ++
      [ErrorJSON (mkErrorBody message status (RequestID (outboundRequest req)))] /\
    (late -> status = StatusGatewayTimeout) /\
    (~ late -> Is (Some err) ErrNoHealthyTargets = true ->
       status = StatusServiceUnavailable /\ message = noHealthyTargetsMessage req) /\
    (~ late -> Is (Some err) ErrCircuitOpen = true -> status = StatusServiceUnavailable) /\
    (~ late -> Is (Some err) ErrNoHealthyTargets = false -> Is (Some err) ErrCircuitOpen = false ->
       status = StatusBadGateway).
Proof.
  intros Hroute Hup Hp Ht Hc Hrt. rewrite (Proxy_upstream _ _ _ _ _ Hroute Hup Hp), Hrt.
  cbn [foldl]. cbv zeta. unfold ErrorHandler. rewrite Writer_SetHeader_conn. cbn [sv_down on_down].
  assert (noHealthyTargetsMessage (outboundRequest req) = noHealthyTargetsMessage req) as Hmsg
    by (unfold noHealthyTargetsMessage, GetRouteConfig; by rewrite rq_route_outbound).
  set (s1 := on_conn _ _).
  assert (tracks w s1) as Ht1 by (apply tracks_on_conn; [done|]; by apply tracks_on_down).
  destruct (Is (Some err) DeadlineExceeded) eqn:H1; [|destruct (Is (rt_ctxErr d) DeadlineExceeded) eqn:H2];
    [|..|destruct (Is (Some err) ErrNoHealthyTargets) eqn:H3; [|destruct (Is (Some err) ErrCircuitOpen) eqn:H4]];
    cbn [orb].
  all: match goal with |- context [WriteError ?x ?r ?st ?m ?y] =>
    destruct (WriteError_unsent x r st m y eq_refl ltac:(eassumption) ltac:(assumption)) as ((h & Hsent) & Hdown & Hbody) end.
  all: match goal with Hd : sv_down ?x = _ |- _ => generalize dependent x end.
  all: intros s2 Hsent Hdown Hbody; destruct resp; cbv beta iota zeta; (split; [done|split; [by cbn; rewrite Hdown|]]); eexists _, _, h; (split; [exact Hsent|split; [exact Hbody|]]).
  all: repeat split; intros; try done; try congruence; intuition congruence.
Qed.

(** What the proxy copies of the response's headers. *)
Definition served_headers (resp : Response) (h : Header) : Header :=
  let h := removeHopByHopHeaders h in
  match rs_Request resp with
  | Some request =>
      if bool_decide (Header_Get h HeaderServedBy = "") then Header_Set HeaderServedBy (rq_URLHost request) h else h
  | None => h
  end.

(** C40: delivery: when the round trip answers, with a body and without an informational
    response first, the client gets the status and the headers of the answer, with
    [X-Served-By], added to those the middlewares set, and what the reads of the body
    yield; the body is read until it fails, and then closed; the handler returns if that
    was the end of the body and aborts the connection otherwise. *)
Theorem proxy_delivers_response defaultTimeout w req s route resp h id d :
  GetRouteConfig req = Some route -> upstream_route route -> printable (upgradeType (rq_Header req)) = true ->
  tracks w s -> cn_sent (sv_conn s) = None ->
  rt_RoundTrip (outboundRequest req) (rt_WithTimeout (route_timeout defaultTimeout route) (sv_down s)) =
    (Some (Some resp, None), [], d) ->
  rs_StatusCode resp <> StatusSwitchingProtocols -> informational (rs_StatusCode resp) = false ->
  rs_Header resp = Some h -> rs_Body resp = RReader id ->
  let '(completion, s') := Proxy_ServeHTTP defaultTimeout w req s in
  exists n err d', body_reads id d n err d' /\ sv_down s' = rt_Cancel (rt_Close id d') /\
    completion = (if isEOF (Some err) then Returned else Aborted) /\
    cn_sent (sv_conn s') = Some (rs_StatusCode resp, copyHeader (cn_Header (sv_conn s)) (served_headers resp h)) /\
    cn_body (sv_conn s') = cn_body (sv_conn s) ++ replicate n (Copied id).
Proof.
  intros Hroute Hup Hp Ht Hc Hrt Hcode Hinf Hh Hbody. rewrite (Proxy_upstream _ _ _ _ _ Hroute Hup Hp), Hrt.
  cbn [foldl]. cbv zeta. unfold serveResponse. rewrite (proj2 (Z.eqb_neq _ _)) by done.
  rewrite Hh. cbn [fmap option_fmap option_map].
  assert (ModifyResponse (mkResponse (rs_StatusCode resp) (Some (removeHopByHopHeaders h)) (rs_Body resp) (rs_Request resp)) =
    Some (mkResponse (rs_StatusCode resp) (Some (served_headers resp h)) (rs_Body resp) (rs_Request resp))) as Hm.
  { unfold ModifyResponse, served_headers. cbn. destruct (rs_Request resp) as [request|]; [|done].
    by case_bool_decide. }
  rewrite Hm, Writer_SetHeader_conn, Writer_Header_conn. cbn [rs_Header rs_StatusCode default].
  set (s1 := on_conn _ _). assert (tracks w s1) as Ht1 by (apply tracks_on_conn; [done|]; by apply tracks_on_down).
  assert (cn_sent (sv_conn s1) = None) as Hc1 by done.
  destruct (WriteHeader_fresh w (rs_StatusCode resp) s1 Hinf (tr_nodup _ _ Ht1) Hc1 (tracks_unsent _ _ Ht1 Hc1))
    as (Hconn & Hdown & _).
  pose proof (tracks_WriteHeader w _ s1 Hinf Ht1) as Ht2.
  unfold copyResponse. cbn [rs_Body]. rewrite Hbody, Hdown.
  destruct (copyBuffer_reads (S (rt_reads id d)) w id (WriteHeader w (rs_StatusCode resp) s1)
    (rs_StatusCode resp, cn_Header (sv_conn s1))) as (n & err & d' & Hreads & Hcopy).
  { rewrite Hdown. cbn. lia. } { done. } { by rewrite Hconn. }
  rewrite Hdown in Hreads. cbn [sv_down s1 on_conn on_down] in *. rewrite Hcopy.
  destruct (isEOF (Some err)) eqn:Heof; cbv beta iota zeta; exists n, err, d'; rewrite Heof;
    cbn [sv_conn sv_down on_conn on_down]; rewrite Hconn; by split_and!.
Qed.

End Answers.

(** ** A concrete upstream *)

(** What it answers, and the reads left of its body. *)
Record demo_upstream := mkDemoUpstream {
  du_result : option RoundTripResult;
  du_early : list (Z * Header);
  du_reads : nat;
  du_closed : bool;
}.

#[export] Instance demo_round_tripper : RoundTripper demo_upstream := {
  rt_RoundTrip req d := (du_result d, du_early d, d);
  rt_Read id d :=
    match du_reads d with
    | O => (Some (ESentinel EOF), d)
    | S n => (None, mkDemoUpstream (du_result d) (du_early d) n (du_closed d))
    end;
  rt_Close id d := mkDemoUpstream (du_result d) (du_early d) (du_reads d) true;
  rt_reads id d := du_reads d;
  rt_ctxErr d := None;
  rt_WithTimeout timeout d := d;
  rt_Cancel d := d;
}.

#[export] Instance demo_round_tripper_laws : RoundTripperLaws demo_upstream.
Proof. split. intros id d. cbn. destruct (du_reads d) as [|n] eqn:E; cbn; [done|lia]. Qed.

Definition demo_answer (status : Z) : option RoundTripResult :=
  Some (Some (mkResponse status (Some {[ "Keep-Alive" := ["5"] ]}) (RReader 0) None), None).

Definition demo_proxy_server (result : option RoundTripResult) (early : list (Z * Header)) : Server (D := demo_upstream) :=
  mkServer new_conn [] (mkDemoUpstream result early 2 false).

Lemma demo_proxy_tracks result early : tracks Connection (demo_proxy_server result early).
Proof. split; [constructor|by intros id ?%elem_of_nil]. Qed.

Lemma proxy_answers_errors_witness :
  let '(completion, s') := Proxy_ServeHTTP Second Connection (demo_protected_request "")
    (demo_proxy_server (Some (None, Some (AttemptError (Some (ESentinel ErrCircuitOpen)) 1 "o:80"))) []) in
  completion = Returned /\ exists message h, cn_sent (sv_conn s') = Some (503, h) /\
    cn_body (sv_conn s') = [ErrorJSON (mkErrorBody message 503 "")].
Proof.
  pose proof (proxy_answers_errors Second Connection (demo_protected_request "")
    (demo_proxy_server (Some (None, Some (AttemptError (Some (ESentinel ErrCircuitOpen)) 1 "o:80"))) [])
    demo_protected_route None (AttemptError (Some (ESentinel ErrCircuitOpen)) 1 "o:80") _
    eq_refl ltac:(done) eq_refl (demo_proxy_tracks _ _) eq_refl eq_refl) as H.
  destruct (Proxy_ServeHTTP _ _ _ _) as [completion s'].
  destruct H as (Hc & _ & (status & message & h & Hsent & Hbody & _ & _ & H503 & _)).
  rewrite H503 in * by (vm_compute; intuition discriminate).
  split; [done|]. exists message, h. split; [done|exact Hbody].
Defined.

Lemma proxy_delivers_response_witness :
  let '(completion, s') := Proxy_ServeHTTP Second Connection (demo_protected_request "")
    (demo_proxy_server (demo_answer 503) []) in
  completion = Returned /\ du_closed (sv_down s') = true /\ client_status (sv_conn s') = 503 /\
  cn_body (sv_conn s') = [Copied 0; Copied 0; Copied 0].
Proof.
  pose proof (proxy_delivers_response Second Connection (demo_protected_request "")
    (demo_proxy_server (demo_answer 503) []) demo_protected_route _ {[ "Keep-Alive" := ["5"] ]} 0 _
    eq_refl ltac:(done) eq_refl (demo_proxy_tracks _ _) eq_refl eq_refl ltac:(done) eq_refl eq_refl eq_refl) as H.
  destruct (Proxy_ServeHTTP _ _ _ _) as [completion s'].
  destruct H as (n & err & d' & Hreads & Hdown & Hc & Hsent & Hbody).
  inversion Hreads as [|? d1 n1 ? ? Hr1 Hreads1]; subst; [done|]. injection Hr1 as <-.
  inversion Hreads1 as [|? d2 n2 ? ? Hr2 Hreads2]; subst; [done|]. injection Hr2 as <-.
  inversion Hreads2 as [? ? ? Hr3|? ? ? ? ? Hr3]; subst; [|done]. injection Hr3 as <- <-.
  split_and!; [done|by rewrite Hdown| |exact Hbody]. unfold client_status. by rewrite Hsent.
Defined.

(** ** Two findings *)

(** A client that names the identity headers in [Connection] has them removed, after
    authentication, from the request that is sent upstream. *)
Definition demo_hop_request : Request :=
  authenticated (mkClaims "admin" "u1" (Some 1) (Some 0))
    (with_header {[ "Connection" := ["X-User-ID, X-User-Role, X-Request-ID"]; "X-Request-Id" := ["r1"] ]}
      (demo_protected_request "")).

Lemma connection_header_drops_identity :
  Header_Get (rq_Header demo_hop_request) HeaderUserID = "u1" /\
  let out := outboundRequest demo_hop_request in
  Header_Get (rq_Header out) HeaderUserID = "" /\ Header_Get (rq_Header out) HeaderUserRole = "" /\
  Header_Get (rq_Header out) HeaderRequestID = "".
Proof. vm_compute. done. Qed.

(** An informational response through a recorder makes the client see 200 for an answer
    of 503. *)
Lemma early_response_loses_status :
  let '(w, s) := new_recorder Connection (demo_proxy_server (demo_answer 503) [(103, ∅)]) in
  let '(completion, s') := Proxy_ServeHTTP Second w (demo_protected_request "") s in
  completion = Returned /\ client_status (sv_conn s') = 200 /\ recorder_status w s' = 103.
Proof. vm_compute. done. Qed.
