(* ===== verification/Gateway.v ===== *)
(** * The gateway's state and its handlers together

    The state the middlewares and the proxy work on: the world of the resilient transport,
    the targets of each service, and the Redis servers; with the instances of the interfaces
    [Downstream] and [RoundTripper] over it.  The chain of handlers that
    [internal/runtime/manager.go] builds is in [Runtime].  The theorem here is that a request
    leaves nothing pending in the transports. *)

From stdpp Require Import functions.
From S2P Require Import Prelude GoStrings GoErrors Config Http Breaker Registry LoadBalancer Fairness Retry Metrics Transport TransportTheory RateStore Handlers Proxy.
From stdpp Require Import options.
#[local] Set Default Proof Using "Type*".

(** ** The rest of the environment *)

(** [uuid.NewString], what becomes of the next run of the rate limit script, the
    informational responses the last round trip received, the deadline of the request's
    context, and a bound on the reads of a base body that succeed. *)
Class GatewayEnv (E : Type) := {
  ge_NewUUID : E -> string * E;
  ge_storeFailure : E -> option ScriptFailure * E;
  ge_early : E -> list (Z * Header) * E;
  ge_WithTimeout : Duration -> E -> E;
  ge_Cancel : E -> E;
  ge_reads : nat -> E -> nat;
}.

Class GatewayEnvLaws (E : Type) `{BaseEnv E, GatewayEnv E} : Prop := {
  ge_UUID_nonblank e : TrimSpace (fst (ge_NewUUID e)) <> "";
  ge_reads_end id e : (base_Read id e).1 = None -> (ge_reads id (base_Read id e).2 < ge_reads id e)%nat;
}.

Section Gateway.
Context {E G R : Type} {HBase : BaseEnv E} {HEnv : GatewayEnv E} {HGauge : GaugeVec G} {HProm : Prometheus} {HRedis : Redis R}.

Record Gateway := mkGateway {
  gw_world : World (E := E) (G := G);
  gw_serviceTargets : gmap string (list Target);
  gw_redis : RedisConfig -> R; (* the server of each configuration *)
  gw_store : option RedisConfig; (* the rate limit store's; none is nil *)
}.

Definition on_world (f : World (E := E) (G := G) -> World (E := E) (G := G)) (g : Gateway) : Gateway :=
  mkGateway (f (gw_world g)) (gw_serviceTargets g) (gw_redis g) (gw_store g).

Definition with_redis (cfg : RedisConfig) (r : R) (g : Gateway) : Gateway :=
  mkGateway (gw_world g) (gw_serviceTargets g) (<[cfg := r]> (gw_redis g)) (gw_store g).

(** A call that changes the environment only. *)
Definition from_env {A} (f : E -> A * E) (g : Gateway) : A * Gateway :=
  let '(a, e) := f (w_env (gw_world g)) in (a, on_world (with_env e) g).

#[export] Instance gateway_downstream : Downstream Gateway := {
  dn_Now g := now (gw_world g);
  dn_metrics g := w_metrics (gw_world g);
  dn_update_metrics f := on_world (with_metrics f);
  dn_NewUUID := from_env ge_NewUUID;
  dn_Allow q g :=
    match gw_store g with
    | None => (inl (storeError "no store"), g)
    | Some cfg =>
        let '(failure, g) := from_env ge_storeFailure g in
        let wallClock := now (gw_world g) in
        let '(answer, r) := Store_Allow (NewRedisStore (rd_Address cfg)) failure wallClock q
                              (redis_advance (UnixMilli wallClock) (gw_redis g cfg)) in
        (answer, with_redis cfg r g)
    end;
}.

#[export] Instance gateway_downstream_laws {HEnvLaws : GatewayEnvLaws E} : DownstreamLaws Gateway.
Proof.
  split; [done| | |].
  - intros g. unfold dn_NewUUID, gateway_downstream, from_env. by destruct (ge_NewUUID _).
  - intros q g. unfold dn_Allow, gateway_downstream, from_env.
    destruct (gw_store g); [|done]. destruct (ge_storeFailure _).
    by destruct (Store_Allow _ _ _ _ _).
  - intros g. unfold dn_NewUUID, gateway_downstream, from_env.
    pose proof (ge_UUID_nonblank (w_env (gw_world g))). by destruct (ge_NewUUID _).
Qed.

(** Iterations the retry loop is given: enough, by the theorem that a request ends. *)
Definition roundtrip_fuel (req : Request) : nat :=
  match GetRouteConfig req with
  | Some route =>
      Z.to_nat (rp_maxAttempts (normalizeRetryPolicy (rc_Retry route) (isRetryableMethod (rq_Method req))) *
                (uniqueTargetCount (rc_Targets route) + 1))
  | None => O
  end.

Definition gateway_RoundTrip (req : Request) (g : Gateway) : option RoundTripResult * list (Z * Header) * Gateway :=
  let outcome := Resilient_RoundTrip (gw_serviceTargets g) (roundtrip_fuel req) req (gw_world g) in
  let g := on_world (fun _ => st_world (outcome_state outcome)) g in
  let '(early, g) := from_env ge_early g in
  match outcome with
  | Return result _ => (Some result, early, g)
  | Panic _ | Continue _ => (None, early, g)
  end.

(** The reads left of a body: those of the base body it wraps. *)
Fixpoint reads_left (b : Body) (e : E) : nat :=
  match b with
  | BaseBody id => ge_reads id e
  | NoBody => O
  | breakerOnReadCloser inner _ _ _ _ | releaseOnReadCloser inner _ _ _ => reads_left inner e
  end.

(** A response's reader is a body of the world. *)
Definition gateway_Read (id : nat) (g : Gateway) : option error * Gateway :=
  match w_bodies (gw_world g) !! id with
  | None => (Some (Plain "no such body"), g)
  | Some _ => let '(err, w) := readBody id (gw_world g) in (err, on_world (fun _ => w) g)
  end.

#[export] Instance gateway_round_tripper : RoundTripper Gateway := {
  rt_RoundTrip := gateway_RoundTrip;
  rt_Read := gateway_Read;
  rt_Close id := on_world (fun w => snd (closeBodyObject id w));
  rt_reads id g := match w_bodies (gw_world g) !! id with
                   | Some b => reads_left b (w_env (gw_world g))
                   | None => O
                   end;
  rt_ctxErr g := base_ctxErr (w_env (gw_world g));
  rt_WithTimeout d := on_world (fun w => with_env (ge_WithTimeout d (w_env w)) w);
  rt_Cancel := on_world (fun w => with_env (ge_Cancel (w_env w)) w);
}.

Lemma Body_Read_left {HEnvLaws : GatewayEnvLaws E} b (w : World (E := E) (G := G)) :
  let '(err, b', w') := Body_Read b w in
  err = None -> (reads_left b' (w_env w') < reads_left b (w_env w))%nat.
Proof.
  revert w. induction b as [id| |inner IH once service targets t|inner IH once key dn]; intros w; cbn [Body_Read].
  - pose proof (ge_reads_end id (w_env w)). destruct (base_Read id (w_env w)) as [err e]. by cbn in *.
  - done.
  - specialize (IH w). destruct (Body_Read inner w) as [[[err|] inner'] w1]; [done|exact IH].
  - specialize (IH w). destruct (Body_Read inner w) as [[err inner'] w1]. destruct (isEOF err) eqn:Heof.
    + intros ->. done.
    + exact IH.
Qed.

#[export] Instance gateway_round_tripper_laws {HEnvLaws : GatewayEnvLaws E} : RoundTripperLaws Gateway.
Proof.
  split. intros id g. cbn. unfold gateway_Read, readBody. destruct (w_bodies (gw_world g) !! id) as [b|] eqn:Hb; [|done].
  pose proof (Body_Read_left b (gw_world g)) as Hl. destruct (Body_Read b (gw_world g)) as [[err b'] w'].
  cbn. rewrite lookup_insert_eq. exact Hl.
Qed.

(** ** Nothing is left pending *)

Definition body_settled (b : Body) : Prop := (forall t, pendingReport t b = 0) /\ (forall k, pendingRelease k b = 0).

(** Only the body [open] may still owe a report or a release. *)
Record settled (open : option nat) (w : World (E := E) (G := G)) : Prop := {
  se_bodies id b : w_bodies w !! id = Some b -> Some id <> open -> body_settled b;
  se_fresh id : (w_nextBody w <= id)%nat -> w_bodies w !! id = None;
}.

(** The reader of a response that is returned without an error. *)
Definition result_body (result : RoundTripResult) : option nat :=
  match result with
  | (Some resp, None) => match rs_Body resp with RReader id => Some id | _ => None end
  | _ => None
  end.

(** What the load balancer's transport returns: an error without a response, or a response
    with headers and a body. *)
Definition proper_result (result : RoundTripResult) : Prop :=
  match result with
  | (None, Some _) => True
  | (Some resp, None) => is_Some (rs_Header resp) /\ rs_Body resp <> RNil
  | _ => False
  end.

Definition settles (next : Transport (E := E) (G := G)) : Prop :=
  forall req w, settled None w -> settled (result_body (fst (next req w))) (snd (next req w)).

Lemma settled_same w w' open :
  w_bodies w' = w_bodies w -> w_nextBody w' = w_nextBody w -> settled open w -> settled open w'.
Proof. intros Hb Hn [H1 H2]. split; [by rewrite Hb|by rewrite Hb, Hn]. Qed.

Lemma settled_weaken open w : settled None w -> settled open w.
Proof. intros [H1 H2]. split; [|done]. intros id b Hb _. by apply (H1 id). Qed.

Lemma settled_record report service targets t open w :
  settled open w -> settled open (recordBreaker report service targets t w).
Proof. destruct (recordBreaker_bodies report service targets t w) as (Hb & Hn & _). by apply settled_same. Qed.

Lemma settled_metrics f open w : settled open w -> settled open (with_metrics f w).
Proof. by apply settled_same. Qed.

Lemma settled_release key dn open w : settled open w -> settled open (releaseSelection key dn w).
Proof. by apply settled_same. Qed.

Lemma body_settled_base id : body_settled (BaseBody id).
Proof. done. Qed.

Lemma settled_wrapBody f body open w :
  settled open w -> open = match body with RReader id => Some id | _ => None end -> body <> RNil ->
  let '(body', w') := wrapBody f body w in
  settled (match body' with RReader id => Some id | _ => None end) w' /\ body' <> RNil.
Proof.
  intros [H1 H2] -> Hnil. destruct body as [| |id]; [done|..]; cbn [wrapBody].
  - split; [|done]. split; cbn.
    + intros j b Hj Hne. rewrite lookup_insert_ne in Hj by congruence. by apply (H1 j).
    + intros j Hj. rewrite lookup_insert_ne by lia. apply H2. lia.
  - split; [|done]. split; cbn.
    + intros j b Hj Hne. rewrite lookup_alter_ne in Hj by congruence. by apply (H1 j).
    + intros j Hj. rewrite lookup_alter_None. by apply H2.
Qed.

Lemma upstream_settles : settles UpstreamTransport_RoundTrip.
Proof.
  intros req w Hw. unfold UpstreamTransport_RoundTrip.
  destruct (base_RoundTrip _ (w_env w)) as [[resp [err|]] e].
  { cbn. destruct resp; by apply (settled_same w). }
  destruct resp as [resp|]; [|by apply (settled_same w)].
  destruct (rs_Body resp) as [| |id]; [by apply (settled_same w)..|]. cbn. destruct Hw as [H1 H2]. split; cbn.
  - intros j b Hj Hne. rewrite lookup_insert_ne in Hj by congruence. by apply (H1 j).
  - intros j Hj. rewrite lookup_insert_ne by lia. apply H2. lia.
Qed.

Lemma admitted_settles next service targets t req w :
  settles next -> settled None w ->
  let r := admittedRoundTrip next service targets t req w in settled (result_body (fst r)) (snd r).
Proof.
  intros Hnext Hw. unfold admittedRoundTrip. pose proof (Hnext req w Hw) as Hs.
  destruct (next req w) as [[resp err] w1]. cbn [fst snd] in Hs. cbv zeta.
  match type of Hs with settled ?o _ => set (open := o) in * end.
  assert (settled open (with_metrics (ObserveUpstreamDuration service (SubTime (now w1) (now w))) w1)) as Hs2
    by by apply settled_metrics.
  destruct err as [err|].
  { apply settled_record. by destruct resp. }
  destruct resp as [resp|]; [|by apply settled_record].
  destruct (StatusInternalServerError <=? rs_StatusCode resp); [by apply settled_record|].
  cbn [result_body] in open. destruct (rs_Body resp) as [| |id] eqn:Hb; [by apply settled_record|..].
  all: match goal with |- context [wrapBody ?f ?b ?w] => pose proof (settled_wrapBody f b open w Hs2 eq_refl ltac:(done)) as Hwrap;
    destruct (wrapBody f b w) as [body w3] end; destruct Hwrap as [Hwrap _]; exact Hwrap.
Qed.

Lemma breakerAllow_bodies t w : w_bodies (snd (breakerAllow t w)) = w_bodies w /\ w_nextBody (snd (breakerAllow t w)) = w_nextBody w.
Proof.
  unfold breakerAllow. destruct (r_breakers (w_registry w) !! t) as [b|]; [|done].
  by destruct (Allow (now w) b) as [allowed [b' calls]].
Qed.

Lemma breaker_settles serviceTargets next :
  settles next -> settles (CircuitBreakerTransport_RoundTrip serviceTargets next).
Proof.
  intros Hnext req w Hw. unfold CircuitBreakerTransport_RoundTrip.
  set (t := if bool_decide (md_target (getAttemptMetadata req) = "") then _ else _).
  destruct (bool_decide (t = "")); [done|].
  set (w1 := with_registry _ w). pose proof (breakerAllow_bodies t w1) as [Hb Hn].
  destruct (breakerAllow t w1) as [allowed w2]. cbn [snd] in Hb, Hn.
  match goal with |- context [syncOpenCircuitGauge ?a ?b ?c ?d] =>
    destruct (sync_log a b c d) as (_ & Hb3 & Hn3 & _); set (w3 := syncOpenCircuitGauge a b c d) in * end.
  assert (settled None w3) as Hw3.
  { apply (settled_same w); [by rewrite Hb3, Hb|by rewrite Hn3, Hn|done]. }
  destruct allowed; cbn [negb]; [by apply admitted_settles|done].
Qed.

Lemma selected_settles next key sel req w :
  settles next -> settled None w ->
  let r := selectedRoundTrip next key sel req w in settled (result_body (fst r)) (snd r).
Proof.
  intros Hnext Hw. unfold selectedRoundTrip. set (outbound := withAttemptMetadata _ _).
  pose proof (Hnext outbound w Hw) as Hs. destruct (next outbound w) as [[resp err] w1]. cbn [fst snd] in Hs. cbv zeta.
  destruct err as [err|]; [apply settled_release; by destruct resp|].
  destruct resp as [resp|]; [|by apply settled_release].
  cbn [result_body] in Hs. destruct (rs_Body resp) as [| |id] eqn:Hb; [by apply settled_release|..].
  all: match goal with |- context [wrapBody ?f ?b ?w] => pose proof (settled_wrapBody f b _ w Hs eq_refl ltac:(done)) as Hwrap;
    destruct (wrapBody f b w) as [body w3] end; destruct Hwrap as [Hwrap _]; exact Hwrap.
Qed.

Lemma balancer_settles next : settles next -> settles (LoadBalancerTransport_RoundTrip next).
Proof.
  intros Hnext req w Hw. unfold LoadBalancerTransport_RoundTrip.
  destruct (GetRouteConfig req) as [route|]; [|done].
  destruct (bool_decide (rc_Targets route = [])); [done|].
  assert (forall b w1, balancerFor route w = Some (b, w1) -> settled None w1) as Hfor.
  { intros b w1. unfold balancerFor. destruct (w_balancers w !! _); [by intros [= <- <-]|].
    destruct (NewBalancer _ _); cbn; intros [= <- <-]. by apply (settled_same w). }
  destruct (balancerFor route w) as [[b w1]|]; [|done]. specialize (Hfor _ _ eq_refl).
  destruct (Balancer_Select _ b) as [[sel b']|]; [|done].
  apply selected_settles; [done|]. by apply (settled_same w1).
Qed.

Lemma chain_settles serviceTargets : settles (resilientChain serviceTargets).
Proof. apply balancer_settles, breaker_settles, upstream_settles. Qed.

(** ** Closing *)

Lemma Body_Close_settled b (w : World (E := E) (G := G)) : body_settled (Body_Close b w).1.2.
Proof.
  revert w. induction b as [id| |inner IH once service targets t|inner IH once key dn]; intros w; cbn [Body_Close].
  - by destruct (base_Close id (w_env w)).
  - done.
  - specialize (IH w). destruct (Body_Close inner w) as [[err inner'] w1]. exact IH.
  - specialize (IH w). destruct (Body_Close inner w) as [[err inner'] w1]. exact IH.
Qed.

Lemma settled_closeBody id w : settled (Some id) w -> settled None (snd (closeBodyObject id w)).
Proof.
  intros [H1 H2]. unfold closeBodyObject. destruct (w_bodies w !! id) as [b|] eqn:Hb.
  - pose proof (Body_Close_settled b w) as Hs. pose proof (Body_Close_tables b w) as [Ht Hn].
    destruct (Body_Close b w) as [[err b'] w1]. cbn [fst snd] in *. split; cbn; rewrite ?Ht, ?Hn.
    + intros j x Hj _. destruct (decide (id = j)) as [<-|Hne].
      * rewrite lookup_insert_eq in Hj. by injection Hj as <-.
      * rewrite lookup_insert_ne in Hj by done. apply (H1 j x Hj). congruence.
    + intros j Hj. rewrite lookup_insert_ne; [by apply H2|]. intros <-. by rewrite (H2 _ Hj) in Hb.
  - split; [|done]. intros j x Hj _. apply (H1 j x Hj). cbn in Hj. congruence.
Qed.

Lemma settled_readBody id open w : open = Some id -> settled open w -> settled open (snd (readBody id w)).
Proof.
  intros -> [H1 H2]. unfold readBody. destruct (w_bodies w !! id) as [b|] eqn:Hb; [|done].
  pose proof (Body_Read_tables b w) as [Ht Hn]. destruct (Body_Read b w) as [[err b'] w1].
  cbn [fst snd] in *. split; cbn; rewrite ?Ht, ?Hn.
  - intros j x Hj Hne. rewrite lookup_insert_ne in Hj by congruence. by apply (H1 j x).
  - intros j Hj. rewrite lookup_insert_ne; [by apply H2|]. intros <-. by rewrite (H2 _ Hj) in Hb.
Qed.

(** ** The retry loop closes what it discards *)

Variable serviceTargets : gmap string (list Target).

Lemma settled_env_closeBody body w :
  settled (match body with RReader id => Some id | _ => None end) w ->
  settled None (@env_closeBody _ (chain_env serviceTargets) body w).
Proof. destruct body as [| |id]; cbn; [done|done|]. apply settled_closeBody. Qed.

Lemma chain_proper req (w : World (E := E) (G := G)) : proper_result (fst (resilientChain serviceTargets req w)).
Proof.
  unfold resilientChain, LoadBalancerTransport_RoundTrip.
  destruct (GetRouteConfig req) as [route|]; [|done]. destruct (bool_decide _); [done|].
  destruct (balancerFor route w) as [[b w1]|]; [|done].
  destruct (Balancer_Select _ b) as [[sel b']|]; [|done].
  unfold selectedRoundTrip. destruct (CircuitBreakerTransport_RoundTrip _ _ _ _) as [[resp [err|]] w2]; cbn [fst].
  { unfold wrapAttemptError. by destruct (As as_attempt_error (Some err)). }
  destruct resp as [resp|]; [|by vm_compute].
  destruct (rs_Body resp) as [| |id]; cbn; by eauto.
Qed.

(** After an iteration, an outcome that returns leaves only its own body open. *)
Definition outcome_settled (o : Outcome (W := World (E := E) (G := G))) : Prop :=
  match o with
  | Continue s => settled None (st_world s)
  | Return result s => settled (result_body result) (st_world s) /\ proper_result result
  | Panic s => settled None (st_world s)
  end.

Lemma iteration_settles c s :
  settled None (st_world s) -> outcome_settled (@retryIteration _ (chain_env serviceTargets) c s).
Proof.
  intros Hw. unfold retryIteration. cbn [env_ctxErr chain_env].
  destruct (base_ctxErr (w_env (st_world s))) as [err|]; [by split|].
  cbn [st_world st_logical st_tried]. set (req := cloneAttemptRequest _ _ _ _ _).
  set (w1 := if 0 <? st_logical s then _ else _).
  assert (settled None w1) as Hw1 by (unfold w1; destruct (0 <? st_logical s); [by apply (settled_metrics _ None)|done]).
  pose proof (chain_settles serviceTargets req w1 Hw1) as Hs. pose proof (chain_proper req w1) as Hp.
  cbn [env_RoundTrip chain_env]. destruct (resilientChain serviceTargets req w1) as [result w2]. cbn [fst snd] in Hs, Hp.
  destruct (Is (snd result) ErrCircuitOpen) eqn:Hopen.
  - destruct result as [[resp|] [err|]]; try done. cbn [result_body] in Hs.
    unfold failOver. destruct (_ || _); [by split|]. cbn [env_ctxErr chain_env].
    destruct (base_ctxErr _); [by split|done].
  - destruct (shouldRetry _ _ _); cbn [negb]; [|by split].
    unfold backOff. cbn [st_world].
    assert (settled None (match fst result with
      | Some resp => @env_closeBody _ (chain_env serviceTargets) (rs_Body resp) w2 | None => w2 end)) as Hw3.
    { destruct result as [[resp|] [err|]]; try done. by apply settled_env_closeBody. }
    set (w3 := match fst result with Some _ => _ | None => _ end) in *. clearbody w3.
    unfold nextDelay. cbn [st_logical].
    repeat match goal with |- outcome_settled (match (if ?b then _ else _) with _ => _ end) => destruct b; cbn [negb] end.
    all: try exact Hw3.
    all: cbn [env_Int63n chain_env]; try destruct (base_Int63n _ _) as [delay e]; cbn [env_sleep chain_env];
      match goal with |- context [base_sleep ?d ?e] => destruct (base_sleep d e) as [[err|] e'] end;
      [split; [|done]|]; by apply (settled_same w3).
Qed.

Lemma loop_settles fuel c s :
  settled None (st_world s) -> outcome_settled (@retryLoop _ (chain_env serviceTargets) fuel c s).
Proof.
  revert s. induction fuel as [|fuel IH]; intros s Hw; [done|]. cbn [retryLoop].
  pose proof (iteration_settles c s Hw) as Hi. destruct (retryIteration c s); [|done|done]. by apply IH.
Qed.

Lemma Resilient_settles fuel req w :
  settled None w -> outcome_settled (Resilient_RoundTrip serviceTargets fuel req w).
Proof.
  intros Hw. unfold Resilient_RoundTrip, RetryTransport_RoundTrip.
  destruct (GetRouteConfig req) as [route|]; [|by split].
  destruct (captureRequestBody req _) as [err|[body hasBody]]; [by split|]. by apply loop_settles.
Qed.

(** ** A request leaves nothing pending *)

(** The accounts of the transports are balanced, and no body is open. *)
Definition quiescent (w : World (E := E) (G := G)) : Prop :=
  accounts (fun _ => 0) (fun _ => 0) w /\ settled None w.

Lemma settled_msum w : settled None w ->
  (forall t, msum (pendingReport t) (w_bodies w) = 0) /\ (forall k, msum (pendingRelease k) (w_bodies w) = 0).
Proof.
  intros [Hs _].
  assert (forall f : Body -> Z, (forall b, body_settled b -> f b = 0) -> msum f (w_bodies w) = 0) as Hzero.
  { intros f Hf. assert (forall id b, w_bodies w !! id = Some b -> body_settled b) as Hall by (intros; eapply Hs; eauto; done).
    clear Hs. revert Hall. induction (w_bodies w) as [|id b m Hm IH] using map_ind; intros Hall; [apply msum_empty|].
    rewrite msum_insert_new, (Hf b), IH; [done|..|done].
    - intros i x Hi. apply (Hall i x). rewrite lookup_insert_ne by congruence. done.
    - apply (Hall id). apply lookup_insert_eq. }
  split; intros x; apply Hzero; intros b [H1 H2]; auto.
Qed.

Lemma quiescent_same w w' :
  w_log w' = w_log w -> w_bodies w' = w_bodies w -> w_nextBody w' = w_nextBody w -> quiescent w -> quiescent w'.
Proof. intros Hl Hb Hn [Ha Hs]. split; [by apply (accounts_same _ _ w)|by apply (settled_same w)]. Qed.

(** ** The proxy *)

Definition gateway_quiescent (g : Gateway) : Prop := gw_serviceTargets g = serviceTargets /\ quiescent (gw_world g).

(** While the body [id] is open. *)
Definition reading (id : nat) (g : Gateway) : Prop :=
  gw_serviceTargets g = serviceTargets /\ accounts (fun _ => 0) (fun _ => 0) (gw_world g) /\ settled (Some id) (gw_world g).

Lemma copyBuffer_keeps fuel w id (s : Server (D := Gateway)) :
  reading id (sv_down s) -> reading id (sv_down (copyBuffer fuel w id s).2).
Proof.
  revert s. induction fuel as [|fuel IH]; intros s Hs; [done|]. cbn [copyBuffer].
  destruct (rt_Read id (sv_down s)) as [rerr down] eqn:Hread.
  assert (reading id (sv_down (Write w (Copied id) (on_down (fun _ => down) s)))) as Hs'.
  { rewrite Write_down. cbn [sv_down on_down]. cbn [rt_Read gateway_round_tripper] in Hread. unfold gateway_Read in Hread.
    destruct Hs as (Hst & Ha & Hse).
    destruct (w_bodies (gw_world (sv_down s)) !! id) as [b|]; [|by injection Hread as _ <-].
    apply (accounts_readBody _ _ id) in Ha. apply (settled_readBody id _ _ eq_refl) in Hse.
    destruct (readBody id _) as [err w']. injection Hread as _ <-. done. }
  destruct rerr as [[[]| | | | | | | | |]|]; cbn [snd]; try done. by apply IH.
Qed.

Lemma serveResponse_keeps w outreq resp (s : Server (D := Gateway)) :
  proper_result (Some resp, None) -> rs_StatusCode resp <> StatusSwitchingProtocols ->
  gw_serviceTargets (sv_down s) = serviceTargets -> accounts (fun _ => 0) (fun _ => 0) (gw_world (sv_down s)) ->
  settled (result_body (Some resp, None)) (gw_world (sv_down s)) ->
  gateway_quiescent (sv_down (serveResponse w outreq resp s).2).
Proof.
  intros [[h Hh] Hnil] Hcode Hst Ha Hse. unfold serveResponse. rewrite (proj2 (Z.eqb_neq _ _)) by done.
  rewrite Hh. destruct (ModifyResponse _) as [resp'|] eqn:Hm.
  2: { unfold ModifyResponse in Hm. cbn in Hm. destruct (rs_Request resp); [|done]. by case_bool_decide. }
  assert (rs_Body resp' = rs_Body resp) as Hbody.
  { unfold ModifyResponse in Hm. cbn in Hm. destruct (rs_Request resp); [|by injection Hm as <-].
    case_bool_decide; by injection Hm as <-. }
  set (s1 := WriteHeader w _ _). assert (sv_down s1 = sv_down s) as Hs1
    by (unfold s1; by rewrite WriteHeader_down, Writer_SetHeader_conn).
  unfold copyResponse. rewrite Hbody. cbn [result_body] in Hse. destruct (rs_Body resp) as [| |id]; [done|..].
  - cbn [snd]. rewrite Hs1. by split; [|split].
  - rewrite Hs1. assert (reading id (sv_down s1)) as Hr by (rewrite Hs1; done).
    apply (copyBuffer_keeps (S (rt_reads id (sv_down s))) w) in Hr.
    destruct (copyBuffer _ w id s1) as [err s2]. cbn [snd] in Hr.
    assert (gateway_quiescent (sv_down (on_down (rt_Close id) s2))) as Hq; [|by destruct err].
    destruct Hr as (Hst2 & Ha2 & Hse2). split; [done|]. cbn. split; [by apply accounts_closeBody|by apply settled_closeBody].
Qed.

Lemma request_accounts fuel req w :
  accounts (fun _ => 0) (fun _ => 0) w ->
  accounts (fun _ => 0) (fun _ => 0) (st_world (outcome_state (Resilient_RoundTrip serviceTargets fuel req w))).
Proof. apply (session_step_accounts serviceTargets w (OpRequest fuel req)). Qed.

(** ** Responses that switch protocols *)

(** No upstream answers with status 101. *)
Hypothesis no_switch : forall req (e : E) resp err,
  fst (base_RoundTrip req e) = (Some resp, err) -> rs_StatusCode resp <> StatusSwitchingProtocols.

Definition not_switching (result : RoundTripResult) : Prop :=
  match result with (Some resp, None) => rs_StatusCode resp <> StatusSwitchingProtocols | _ => True end.

Definition never_switches (next : Transport (E := E) (G := G)) : Prop := forall req w, not_switching (fst (next req w)).

Lemma upstream_never_switches : never_switches UpstreamTransport_RoundTrip.
Proof.
  intros req w. unfold UpstreamTransport_RoundTrip.
  pose proof (no_switch (with_header (base_Inject (w_env w) (rq_Header req)) req) (w_env w)) as Hno.
  destruct (base_RoundTrip _ (w_env w)) as [[[resp|] [err|]] e]; try done. cbn [fst] in Hno.
  specialize (Hno _ _ eq_refl). by destruct (rs_Body resp).
Qed.

Lemma breaker_never_switches next : never_switches next -> never_switches (CircuitBreakerTransport_RoundTrip serviceTargets next).
Proof.
  intros Hnext req w. unfold CircuitBreakerTransport_RoundTrip. cbv zeta.
  destruct (bool_decide (_ = "")); [done|]. destruct (breakerAllow _ _) as [allowed w2].
  destruct allowed; cbn [negb]; [|done]. unfold admittedRoundTrip.
  match goal with |- context [next ?r ?x] => pose proof (Hnext r x) as Hn; destruct (next r x) as [[[resp|] [err|]] w3] end;
    try done. cbn [fst not_switching] in Hn. cbv zeta.
  destruct (StatusInternalServerError <=? rs_StatusCode resp); [done|].
  destruct (rs_Body resp) as [| |id]; [done|..]; by destruct (wrapBody _ _ _).
Qed.

Lemma chain_never_switches : never_switches (resilientChain serviceTargets).
Proof.
  intros req w. unfold resilientChain, LoadBalancerTransport_RoundTrip.
  destruct (GetRouteConfig req) as [route|]; [|done]. destruct (bool_decide _); [done|].
  destruct (balancerFor route w) as [[b w1]|]; [|done].
  destruct (Balancer_Select _ b) as [[sel b']|]; [|done]. unfold selectedRoundTrip.
  match goal with |- context [CircuitBreakerTransport_RoundTrip ?a ?b ?r ?x] =>
    pose proof (breaker_never_switches _ upstream_never_switches r x) as Hn;
    destruct (CircuitBreakerTransport_RoundTrip a b r x) as [[[resp|] [err|]] w2] end; try done.
  cbn [fst not_switching] in Hn. destruct (rs_Body resp) as [| |id]; [done|..]; by destruct (wrapBody _ _ _).
Qed.

Lemma Resilient_never_switches fuel req w :
  match Resilient_RoundTrip serviceTargets fuel req w with Return result _ => not_switching result | _ => True end.
Proof.
  unfold Resilient_RoundTrip, RetryTransport_RoundTrip.
  destruct (GetRouteConfig req) as [route|]; [|done].
  destruct (captureRequestBody req _) as [err|[body hasBody]]; [done|].
  generalize (initialState w) as s. generalize (newRetryCall req route body hasBody) as c. clear w.
  induction fuel as [|fuel IH]; intros c s; [done|]. cbn [retryLoop].
  pose proof (@retryIteration_spec _ (chain_env serviceTargets) c s) as Hi. destruct (retryIteration c s) as [s'|result s'|s']; [apply IH| |done].
  inversion Hi as [| | | |? ? ? [_ (w1 & w2 & Hrt)]| | |]; subst; try done.
  pose proof (chain_never_switches (attemptRequest c s) w1) as Hn. cbn [env_RoundTrip chain_env] in Hrt. by rewrite Hrt in Hn.
Qed.

Lemma Proxy_keeps defaultTimeout : keeps gateway_quiescent (Proxy_ServeHTTP (D := Gateway) defaultTimeout).
Proof.
  intros w req s Hq. unfold Proxy_ServeHTTP.
  destruct (GetRouteConfig req) as [route|]; [|cbn; unfold respondError, WriteError; by rewrite WriteJSON_down].
  case_bool_decide; [cbn; by rewrite WriteJSON_down|].
  case_bool_decide; [cbn; unfold WriteError; by rewrite WriteJSON_down|].
  set (s1 := on_down _ s).
  assert (gateway_quiescent (sv_down s1)) as Hq1 by (destruct Hq as [? Hq]; split; [done|by apply (quiescent_same (gw_world (sv_down s)))]).
  clearbody s1. clear Hq s.
  enough (gateway_quiescent (sv_down (ReverseProxy_ServeHTTP w req s1).2)) as Hq2.
  { destruct (ReverseProxy_ServeHTTP w req s1) as [completion s2]. cbn [snd] in *.
    destruct Hq2 as [? Hq2]. split; [done|]. by apply (quiescent_same (gw_world (sv_down s2))). }
  unfold ReverseProxy_ServeHTTP. destruct (negb _); [cbn [snd]; by rewrite ErrorHandler_down|].
  destruct Hq1 as [Hst [Ha Hse]].
  cbn [rt_RoundTrip gateway_round_tripper]. unfold gateway_RoundTrip, from_env. rewrite Hst.
  set (outreq := outboundRequest req).
  pose proof (Resilient_settles (roundtrip_fuel outreq) outreq _ Hse) as Hset.
  pose proof (request_accounts (roundtrip_fuel outreq) outreq _ Ha) as Hacc.
  pose proof (Resilient_never_switches (roundtrip_fuel outreq) outreq (gw_world (sv_down s1))) as Hno.
  destruct (Resilient_RoundTrip serviceTargets (roundtrip_fuel outreq) outreq (gw_world (sv_down s1))) as [st|result st|st];
    cbn [outcome_state outcome_settled gw_world on_world] in *.
  all: destruct (ge_early _) as [early e].
  all: set (s2 := foldl _ _ early); assert (sv_down s2 = on_world (with_env e) (on_world (fun _ => st_world st) (sv_down s1))) as Hs2
    by (unfold s2; by rewrite Got1xx_down).
  - cbn [snd]. rewrite Hs2. split; [done|]. by apply (quiescent_same (st_world st)).
  - destruct Hset as [Hset Hp]. destruct result as [[resp|] [err|]]; try done.
    + apply serveResponse_keeps; rewrite ?Hs2; [done|done|done|by apply (accounts_same _ _ (st_world st))|].
      by apply (settled_same (st_world st)).
    + cbn [snd]. rewrite ErrorHandler_down, Hs2. split; [done|]. by apply (quiescent_same (st_world st)).
  - cbn [snd]. rewrite Hs2. split; [done|]. by apply (quiescent_same (st_world st)).
Qed.

End Gateway.
