(* ===== verification/Runtime.v ===== *)
(** * The runtime manager: [internal/runtime/manager.go]

    The manager serves every request with the snapshot of one configuration: its chain of
    handlers, its rate limit store and its breakers.  A reload builds the next snapshot and
    swaps it in.  A session here has one gateway, whose requests and reloads take turns;
    [Generations] has the requests that outlive the snapshot they loaded.  The registry of
    breakers is the one in the gateway's world; the balancers belong to the snapshot's
    transport and start anew with it. *)

From S2P Require Import Prelude GoStrings GoErrors Config Http Breaker Registry LoadBalancer Fairness Retry Metrics Transport TransportTheory RateStore Handlers Router Auth Netip RateLimiter Observe Proxy Gateway.
From stdpp Require Import options.
#[local] Set Default Proof Using "Type*".

Definition HealthPath : string := "/health".
Definition ReadyPath : string := "/ready".
Definition MetricsInternalOnlyMessage : string := "metrics endpoint is internal only".
Definition gatewayNotReadyMessage : string := "gateway runtime is not ready".
Definition gatewayDrainingMessage : string := "gateway is draining".
Definition StatusForbidden : Z := 403.

(** ** Internal clients *)

Definition parseRemoteAddr (remoteAddr : string) : option Addr :=
  let trimmed := TrimSpace remoteAddr in
  if bool_decide (trimmed = "") then None
  else ParseAddr (match SplitHostPort trimmed with Some (host, _) => host | None => trimmed end).

Definition isInternalMetricsClient (remoteAddr : string) : bool :=
  match parseRemoteAddr remoteAddr with
  | None => false
  | Some addr => IsLoopback addr || IsPrivate addr
  end.

(** ** Parts of a snapshot *)

Definition hasRateLimitedRoutes (routes : list RouteConfig) : bool :=
  existsb (fun route => bool_decide (is_Some (rc_RateLimit route))) routes.

(** The last route that names a target gives it its service. *)
Definition circuitBreakerTargetServices (routes : list RouteConfig) : gmap string string :=
  foldl (fun targetServices route =>
    foldl (fun targetServices target => <[targetAddress target := rc_Service route]> targetServices)
      targetServices (rc_Targets route)) ∅ routes.

(** The fields that changed: [None] is no error. *)
Definition validateStartupOnlyServerConfig (startup next : ServerConfig) : option (list string) :=
  let changed :=
    (if sc_Port startup =? sc_Port next then [] else ["server.port"]) ++
    (if sc_ReadTimeout startup =? sc_ReadTimeout next then [] else ["server.read_timeout"]) ++
    (if sc_WriteTimeout startup =? sc_WriteTimeout next then [] else ["server.write_timeout"]) in
  if bool_decide (changed = []) then None else Some changed.

Inductive RuntimeError :=
  | ConfigMissing
  | ConfigInvalid (errors : list ConfigErr)
  | StartupOnly (changed : list string).

Section Runtime.
Context {E G R : Type} {HBase : BaseEnv E} {HEnv : GatewayEnv E} {HGauge : GaugeVec G} {HProm : Prometheus}
  {HRedis : Redis R} {HJWT : JWTParser}.
Notation Gateway := (Gateway (E := E) (G := G) (R := R)).

(** What OpenTelemetry says of a request's span, and Prometheus's handler of the registry. *)
Variable sampledTrace : Request -> option string.
Variable metricsHandler : Handler (D := Gateway).

(** A [*RedisStore]: two of them are the same when their numbers are. *)
Record StoreHandle := mkStoreHandle { sh_id : nat; sh_config : RedisConfig }.

Record Snapshot := mkSnapshot {
  sn_Config : Config;
  sn_Application : Handler (D := Gateway);
  sn_MetricsEnabled : bool;
  sn_MetricsPath : string;
  sn_RateLimitStore : option StoreHandle;
}.

(** A factory has the number of the next store, and says what comes after it. *)
Definition RateLimitStoreFactory : Type := Config -> option Snapshot -> nat -> option StoreHandle * nat.

Record Manager := mkManager {
  mg_rateLimitStoreFactor : RateLimitStoreFactory;
  mg_startupServer : ServerConfig;
  mg_trustedProxies : list Prefix;
  mg_metricsRegistry : MetricsRegistry; (* while metrics are disabled *)
  mg_nextStore : nat;
  mg_current : option Snapshot;
  mg_ready : bool;
  mg_draining : bool;
}.
Implicit Types (m : Manager) (g : Gateway).

Definition with_current (snapshot : option Snapshot) (ready : bool) m : Manager :=
  mkManager (mg_rateLimitStoreFactor m) (mg_startupServer m) (mg_trustedProxies m) (mg_metricsRegistry m) (mg_nextStore m) snapshot ready (mg_draining m).

Definition with_stores (next : nat) (metrics : MetricsRegistry) m : Manager :=
  mkManager (mg_rateLimitStoreFactor m) (mg_startupServer m) (mg_trustedProxies m) metrics next (mg_current m) (mg_ready m) (mg_draining m).

Definition Current m : option Snapshot := mg_current m.
Definition Ready m : bool := mg_ready m && negb (mg_draining m) && bool_decide (is_Some (Current m)).
Definition BeginShutdown m : Manager :=
  mkManager (mg_rateLimitStoreFactor m) (mg_startupServer m) (mg_trustedProxies m) (mg_metricsRegistry m) (mg_nextStore m) (mg_current m) false true.

Definition defaultRateLimitStoreFactory : RateLimitStoreFactory := fun cfg previous next =>
  if negb (hasRateLimitedRoutes (cfg_Routes cfg)) then (None, next)
  else
    let fresh := (Some (mkStoreHandle next (cfg_Redis cfg)), S next) in
    match previous with
    | Some snapshot =>
        match sn_RateLimitStore snapshot with
        | Some store =>
            if bool_decide (cfg_Redis (sn_Config snapshot) = cfg_Redis cfg) then (Some store, next) else fresh
        | None => fresh
        end
    | None => fresh
    end.

(** [nextCircuitBreakerRegistry]: the registry of the world is [previous]'s. *)
Definition nextCircuitBreakerRegistry (now : Time) (cfg : CBConfig) (targetServices : gmap string string)
    (previous : option Snapshot) (registry : Registry G) : Registry G :=
  match previous with
  | None => ReconcileTargetServices targetServices (NewRegistry cfg false)
  | Some snapshot =>
      if bool_decide (cfg_CircuitBreaker (sn_Config snapshot) = cfg)
      then ReconcileTargetServices targetServices registry
      else ReconcileTargetServices targetServices (fst (CloneWithConfig now cfg false registry))
  end.

(** The middlewares of [buildSnapshot], and the chain over the proxy. *)
Definition applicationMiddlewares (cfg : Config) (trustedProxies : list Prefix) (metricsRegistry rateLimitStore : bool)
    : list (Middleware (D := Gateway)) :=
  [Tracing; Router (cfg_Routes cfg); MetricsMiddleware sampledTrace metricsRegistry; Auth (cfg_Auth cfg);
   RateLimiter rateLimitStore trustedProxies].

Definition applicationHandler (cfg : Config) (trustedProxies : list Prefix) (metricsRegistry rateLimitStore : bool)
    : Handler (D := Gateway) :=
  Chain (Proxy_New (sc_WriteTimeout (cfg_Server cfg)))
    (applicationMiddlewares cfg trustedProxies metricsRegistry rateLimitStore).

(** The transports of a new snapshot: their registry, and no balancer yet. *)
Definition newTransports (cfg : Config) (registry : Registry G) (metrics : option MetricsRegistry)
    (store : option StoreHandle) g : Gateway :=
  mkGateway
    (mkWorld registry ∅ (w_bodies (gw_world g)) (w_nextBody (gw_world g)) metrics (w_env (gw_world g)) (w_log (gw_world g)))
    (serviceTargetSets (cfg_Routes cfg)) (gw_redis g) (sh_config <$> store).

(** The value of the metrics registry, which the world holds while metrics are enabled. *)
Definition currentMetrics m g : MetricsRegistry :=
  default (mg_metricsRegistry m) (w_metrics (gw_world g)).

Definition buildSnapshot (next : option Config) (previous : option Snapshot) m g
    : sum RuntimeError (Snapshot * Manager * Gateway) :=
  match next with
  | None => inl ConfigMissing
  | Some cfg =>
      if negb (bool_decide (length (Validate cfg) = 0%nat)) then inl (ConfigInvalid (Validate cfg))
      else match validateStartupOnlyServerConfig (mg_startupServer m) (cfg_Server cfg) with
      | Some changed => inl (StartupOnly changed)
      | None =>
          let enabled := mc_Enabled (cfg_Metrics cfg) in
          let metricsPath := if enabled then TrimSpace (mc_Path (cfg_Metrics cfg)) else "" in
          let '(rateLimitStore, nextStore) := mg_rateLimitStoreFactor m cfg previous (mg_nextStore m) in
          let breakerRegistry :=
            nextCircuitBreakerRegistry (now (gw_world g)) (cfg_CircuitBreaker cfg)
              (circuitBreakerTargetServices (cfg_Routes cfg)) previous (w_registry (gw_world g)) in
          let metrics := currentMetrics m g in
          inr (mkSnapshot cfg
                 (applicationHandler cfg (mg_trustedProxies m) enabled (bool_decide (is_Some rateLimitStore)))
                 (enabled && negb (bool_decide (metricsPath = ""))) metricsPath rateLimitStore,
               with_stores nextStore metrics m,
               newTransports cfg breakerRegistry (if enabled then Some metrics else None) rateLimitStore g)
      end
  end.

(** [NewManager], over an environment: the gateway's state is built with the snapshot. *)
Definition NewManager (initial : option Config) (trustedProxies : list Prefix) (metrics : MetricsRegistry)
    (factory : option RateLimitStoreFactory) (e : E)
    (redis : RedisConfig -> R) : sum RuntimeError (Manager * Gateway) :=
  match initial with
  | None => inl ConfigMissing
  | Some cfg =>
      let m := mkManager (default defaultRateLimitStoreFactory factory) (cfg_Server cfg) trustedProxies metrics 0 None false false in
      let g := mkGateway (NewResilientTransport (NewRegistry (cfg_CircuitBreaker cfg) false) None e) ∅ redis None in
      match buildSnapshot (Some cfg) None m g with
      | inl err => inl err
      | inr (snapshot, m, g) => inr (with_current (Some snapshot) true m, g)
      end
  end.

(** [Reload]: the error, if there is one, and what the manager and the gateway become. *)
Definition Reload (next : option Config) m g : option RuntimeError * Manager * Gateway :=
  match buildSnapshot next (Current m) m g with
  | inl err => (Some err, m, g)
  | inr (snapshot, m, g) =>
      (None, with_current (Some snapshot) (if mg_draining m then mg_ready m else true) m, g)
  end.

(** [ReloadFromPath], given what [config.Load] makes of the file. *)
Definition ReloadFromPath {Err : Type} (loaded : sum Err Config) m g : option (sum Err RuntimeError) * Manager * Gateway :=
  match loaded with
  | inl err => (Some (inl err), m, g)
  | inr cfg => let '(err, m, g) := Reload (Some cfg) m g in (inr <$> err, m, g)
  end.

(** ** Serving *)

Definition sanitizeGatewayRequest (w : ResponseWriter) (req : Request) (s : Server (D := Gateway))
    : Request * Server (D := Gateway) :=
  let '(requestID, down) := dn_NewUUID (sv_down s) in
  (identified requestID req, Writer_Set w HeaderRequestID requestID (on_down (fun _ => down) s)).

Definition serveHealth : Handler (D := Gateway) := fun w req s =>
  let '(req, s) := sanitizeGatewayRequest w req s in
  (Returned, WriteJSON w StatusOK (ObjectJSON [("status", "ok"); ("service", "gateway")]) s).

Definition serveReady m : Handler (D := Gateway) := fun w req s =>
  let '(req, s) := sanitizeGatewayRequest w req s in
  if negb (Ready m) then
    respondError w req StatusServiceUnavailable
      (if mg_draining m then gatewayDrainingMessage else gatewayNotReadyMessage) s
  else (Returned, WriteJSON w StatusOK (ObjectJSON [("status", "ready"); ("service", "gateway")]) s).

Definition serveMetrics : Handler (D := Gateway) := fun w req s =>
  let '(req, s) := sanitizeGatewayRequest w req s in
  if negb (isInternalMetricsClient (rq_RemoteAddr req))
  then respondError w req StatusForbidden MetricsInternalOnlyMessage s
  else metricsHandler w req s.

(** [Manager.ServeHTTP] *)
Definition Manager_ServeHTTP m : Handler (D := Gateway) := fun w req s =>
  if bool_decide (rq_Path req = HealthPath) then serveHealth w req s
  else if bool_decide (rq_Path req = ReadyPath) then serveReady m w req s
  else match Current m with
  | None =>
      let '(req, s) := sanitizeGatewayRequest w req s in
      respondError w req StatusServiceUnavailable gatewayNotReadyMessage s
  | Some snapshot =>
      if sn_MetricsEnabled snapshot && bool_decide (rq_Path req = sn_MetricsPath snapshot)
      then serveMetrics w req s
      else sn_Application snapshot w req s
  end.

(** ** Sessions of the manager *)

(** Requests, each on a connection of its own, reloads and the shutdown. *)
Inductive manager_op := OpServe (req : Request) | OpReload (next : option Config) | OpShutdown.

Definition manager_step (st : Manager * Gateway) (op : manager_op) : Manager * Gateway :=
  let '(m, g) := st in
  match op with
  | OpServe req => (m, sv_down (snd (Manager_ServeHTTP m Connection req (mkServer new_conn [] g))))
  | OpReload next => let '(_, m, g) := Reload next m g in (m, g)
  | OpShutdown => (BeginShutdown m, g)
  end.

End Runtime.

(** ** What the middlewares preserve *)

Section Keeps.
Context {D : Type} {HProm : Prometheus} {HDown : Downstream D} {HJWT : JWTParser} {HJWTLaws : JWTParserLaws}.
Variable I : D -> Prop.

(** The calls of the middlewares preserve [I]. *)
Record kept_by_downstream : Prop := {
  kd_metrics f d : I d -> I (dn_update_metrics f d);
  kd_UUID d : I d -> I (snd (dn_NewUUID d));
  kd_Allow q d : I d -> I (snd (dn_Allow q d));
}.
Hypothesis Hkept : kept_by_downstream.

Lemma Tracing_keeps next : keeps I next -> keeps I (Tracing next).
Proof.
  intros Hnext w req s Hs. unfold Tracing. pose proof (kd_UUID Hkept _ Hs) as Hu.
  destruct (dn_NewUUID (sv_down s)) as [id d]. cbn [new_recorder]. apply Hnext. by rewrite Writer_Set_down.
Qed.

Lemma Router_keeps routes next : keeps I next -> keeps I (Router routes next).
Proof.
  intros Hnext w req s Hs. unfold Router. destruct (router_match _ _) as [route|]; [|by apply respondError_keeps].
  destruct (negb _); [|by apply Hnext]. apply respondError_keeps. by rewrite Writer_Set_down.
Qed.

Lemma MetricsMiddleware_keeps sampledTrace registry next : keeps I next -> keeps I (MetricsMiddleware sampledTrace registry next).
Proof.
  intros Hnext w req s Hs. unfold MetricsMiddleware. destruct (negb registry); [by apply Hnext|].
  destruct (GetRouteConfig req) as [route|]; [|by apply Hnext]. cbn [new_recorder].
  match goal with |- context [next ?w ?r ?s] => pose proof (Hnext w r s) as Hn; destruct (next w r s) as [completion s'] end.
  cbn [snd] in *. apply (kd_metrics Hkept), (kd_metrics Hkept), Hn, (kd_metrics Hkept), Hs.
Qed.

Lemma Auth_keeps authCfg next : keeps I next -> keeps I (Auth authCfg next).
Proof.
  intros Hnext w req s Hs.
  destruct (Auth_cases authCfg next w req s) as [(r & Hr & Hq & ->)|[(r & claims & Hr & _ & Ha & Hn)|(status & m & Hst & Hn)]].
  - by apply Hnext.
  - rewrite Hn. by apply Hnext.
  - rewrite Hn. by apply respondError_keeps.
Qed.

Lemma RateLimiter_keeps store trustedProxies next : keeps I next -> keeps I (RateLimiter store trustedProxies next).
Proof.
  intros Hnext w req s Hs. unfold RateLimiter.
  destruct (GetRouteConfig req) as [route|]; [|by apply respondError_keeps].
  destruct (rc_RateLimit route) as [limit|]; [|by apply Hnext].
  destruct (negb _); [by apply respondError_keeps|]. destruct (_ || _); [by apply respondError_keeps|].
  destruct (_ || _); [by apply respondError_keeps|]. destruct (negb store); [by apply Hnext|].
  match goal with |- context [dn_Allow ?q ?d] => pose proof (kd_Allow Hkept q d Hs) as Ha; destruct (dn_Allow q d) as [[err|decision] d'] end;
    cbn [snd] in Ha; [by apply Hnext|]. rewrite Writer_SetHeader_conn.
  destruct (negb _); [|by apply Hnext]. apply respondError_keeps. rewrite Writer_Set_down. by apply (kd_metrics Hkept).
Qed.

End Keeps.
