(* ===== verification/Reachable.v ===== *)
(** * The registry of breakers behind the gateway

    Whatever the gateway does, its registry of breakers is one that the operations of
    [Registry] reach: so what is proved of reachable registries, the gauge of the circuits'
    states above all, holds in every state of the gateway.  The proofs follow the program
    from the body wrappers up to the chain of handlers. *)

From S2P Require Import Prelude GoStrings GoErrors Config Http Breaker Registry LoadBalancer Fairness Retry Metrics Transport TransportTheory RateStore Handlers Router Auth Netip RateLimiter Observe Proxy Gateway Runtime.
From stdpp Require Import options.
#[local] Set Default Proof Using "Type*".

(** ** A state the proxy's calls preserve *)

Section Proxy.
Context {D : Type} {HTransport : RoundTripper D}.
Variable I : D -> Prop.

Record kept_by_round_tripper : Prop := {
  kr_RoundTrip req d : I d -> I (rt_RoundTrip req d).2;
  kr_Read id d : I d -> I (rt_Read id d).2;
  kr_Close id d : I d -> I (rt_Close id d);
  kr_WithTimeout timeout d : I d -> I (rt_WithTimeout timeout d);
  kr_Cancel d : I d -> I (rt_Cancel d);
}.
Hypothesis Hkept : kept_by_round_tripper.
Implicit Types s : Server (D := D).

Lemma copyBuffer_kept fuel w id s : I (sv_down s) -> I (sv_down (copyBuffer fuel w id s).2).
Proof.
  revert s. induction fuel as [|fuel IH]; intros s Hs; [done|]. cbn [copyBuffer].
  pose proof (kr_Read Hkept id _ Hs) as Hread. destruct (rt_Read id (sv_down s)) as [rerr down]. cbn [snd] in Hread.
  assert (I (sv_down (Write w (Copied id) (on_down (fun _ => down) s)))) as Hs' by by rewrite Write_down.
  destruct rerr as [[[]| | | | | | | | |]|]; cbn [snd]; try done. by apply IH.
Qed.

Lemma serveResponse_kept w outreq resp s : I (sv_down s) -> I (sv_down (serveResponse w outreq resp s).2).
Proof.
  intros Hs. unfold serveResponse, handleUpgradeResponse, copyResponse.
  destruct (_ =? _); [destruct (ModifyResponse _); [|done]; cbn [snd]; by rewrite ErrorHandler_down|].
  destruct (ModifyResponse _) as [resp'|]; [|done].
  set (s1 := WriteHeader w _ _). assert (I (sv_down s1)) as Hs1 by (unfold s1; by rewrite WriteHeader_down, Writer_SetHeader_conn).
  destruct (rs_Body resp') as [| |id]; [done..|].
  pose proof (copyBuffer_kept (S (rt_reads id (sv_down s1))) w id s1 Hs1) as Hc.
  destruct (copyBuffer _ w id s1) as [[err|] s2]; cbn [snd] in *; by apply (kr_Close Hkept).
Qed.

Lemma Proxy_kept defaultTimeout : keeps I (Proxy_ServeHTTP defaultTimeout).
Proof.
  intros w req s Hs. unfold Proxy_ServeHTTP.
  destruct (GetRouteConfig req) as [route|]; [|by apply respondError_keeps].
  case_bool_decide; [cbn [snd]; by rewrite WriteJSON_down|]. case_bool_decide; [by apply respondError_keeps|].
  cbv zeta. set (s1 := on_down _ s). assert (I (sv_down s1)) as Hs1 by by apply (kr_WithTimeout Hkept).
  enough (I (sv_down (ReverseProxy_ServeHTTP w req s1).2)) as Hs2.
  { destruct (ReverseProxy_ServeHTTP w req s1) as [completion s2]. by apply (kr_Cancel Hkept). }
  unfold ReverseProxy_ServeHTTP. destruct (negb _); [cbn [snd]; by rewrite ErrorHandler_down|].
  cbv zeta. pose proof (kr_RoundTrip Hkept (outboundRequest req) _ Hs1) as Hrt.
  destruct (rt_RoundTrip (outboundRequest req) (sv_down s1)) as [[result early] down]. cbn [snd] in Hrt.
  set (s2 := foldl _ _ early). assert (I (sv_down s2)) as Hs2 by (unfold s2; by rewrite Got1xx_down).
  destruct result as [[[resp|] [err|]]|]; cbn [snd]; try done; try by rewrite ErrorHandler_down.
  by apply serveResponse_kept.
Qed.

End Proxy.

(** ** The transports *)

Section Transports.
Context {E G : Type} {HBase : BaseEnv E} {HGauge : GaugeVec G} {HGaugeLaws : GaugeVecLaws G} {HProm : Prometheus}.
Implicit Types w : World (E := E) (G := G).

Definition registry_ok w : Prop := reg_reachable (w_registry w).

Lemma reg_reachable_step (r r' : Registry G) : reg_reachable r -> reg_step r r' -> reg_reachable r'.
Proof. intros [cfg Hr] Hstep. exists cfg. eapply rtc_r; eauto. Qed.

Lemma reg_reachable_new cfg : reg_reachable (G := G) (NewRegistry cfg false).
Proof. exists cfg. apply rtc_refl. Qed.

Lemma registry_ok_same w w' : w_registry w' = w_registry w -> registry_ok w -> registry_ok w'.
Proof. unfold registry_ok. by intros ->. Qed.

Lemma registry_ok_sync service targets t w : registry_ok w -> registry_ok (syncOpenCircuitGauge service targets t w).
Proof. apply registry_ok_same. unfold syncOpenCircuitGauge. by destruct (w_metrics w). Qed.

Lemma registry_ok_record report service targets t w :
  registry_ok w -> registry_ok (recordBreaker report service targets t w).
Proof.
  intros Hw. destruct report; cbn [recordBreaker]; unfold recordBreakerSuccess, recordBreakerIgnored, recordBreakerFailure;
    cbv zeta; apply registry_ok_sync; [|match goal with |- context [if ?b then _ else _] => destruct b end|].
  all: unfold registry_ok; cbn; eapply reg_reachable_step; [exact Hw|].
  - apply reg_success.
  - apply reg_failure.
  - apply reg_failure.
  - apply reg_ignored.
Qed.

Lemma registry_ok_allow t w : registry_ok w -> registry_ok (snd (breakerAllow t w)).
Proof.
  intros Hw. pose proof (reg_reachable_step _ _ Hw (reg_allow t (now w) (w_registry w))) as Hallow.
  unfold onBreaker in Hallow. unfold breakerAllow. destruct (r_breakers (w_registry w) !! t) as [b|]; [|done].
  by destruct (Allow (now w) b) as [allowed [b' calls]].
Qed.

Lemma registry_ok_Body_Read b w : registry_ok w -> registry_ok (snd (Body_Read b w)).
Proof.
  revert w. induction b as [id| |inner IH once service targets t|inner IH once key dn]; intros w Hw; cbn [Body_Read].
  - by destruct (base_Read id (w_env w)).
  - done.
  - specialize (IH w Hw). destruct (Body_Read inner w) as [[[err|] inner'] w1]; [|done].
    cbn [snd] in *. unfold onceReport. destruct once; [done|by apply registry_ok_record].
  - specialize (IH w Hw). destruct (Body_Read inner w) as [[err inner'] w1].
    destruct (isEOF err); [|done]. by destruct once.
Qed.

Lemma registry_ok_Body_Close b w : registry_ok w -> registry_ok (snd (Body_Close b w)).
Proof.
  revert w. induction b as [id| |inner IH once service targets t|inner IH once key dn]; intros w Hw; cbn [Body_Close].
  - by destruct (base_Close id (w_env w)).
  - done.
  - specialize (IH w Hw). destruct (Body_Close inner w) as [[err inner'] w1].
    cbn [snd] in *. unfold onceReport. destruct once; [done|by apply registry_ok_record].
  - specialize (IH w Hw). destruct (Body_Close inner w) as [[err inner'] w1]. by destruct once.
Qed.

Lemma registry_ok_read id w : registry_ok w -> registry_ok (snd (readBody id w)).
Proof.
  intros Hw. unfold readBody. destruct (w_bodies w !! id) as [b|]; [|done].
  pose proof (registry_ok_Body_Read b w Hw) as Hb. by destruct (Body_Read b w) as [[err b'] w1].
Qed.

Lemma registry_ok_close id w : registry_ok w -> registry_ok (snd (closeBodyObject id w)).
Proof.
  intros Hw. unfold closeBodyObject. destruct (w_bodies w !! id) as [b|]; [|done].
  pose proof (registry_ok_Body_Close b w Hw) as Hb. by destruct (Body_Close b w) as [[err b'] w1].
Qed.

Definition keeps_registry (next : Transport (E := E) (G := G)) : Prop :=
  forall req w, registry_ok w -> registry_ok (snd (next req w)).

Lemma wrapBody_registry f body w : w_registry (snd (wrapBody f body w)) = w_registry w.
Proof. by destruct body. Qed.

Lemma upstream_registry : keeps_registry UpstreamTransport_RoundTrip.
Proof.
  intros req w Hw. unfold UpstreamTransport_RoundTrip.
  destruct (base_RoundTrip _ _) as [[[resp|] [err|]] e]; cbn [snd]; try done. by destruct (rs_Body resp).
Qed.

Lemma breaker_registry serviceTargets next :
  keeps_registry next -> keeps_registry (CircuitBreakerTransport_RoundTrip serviceTargets next).
Proof.
  intros Hnext req w Hw. unfold CircuitBreakerTransport_RoundTrip.
  set (t := if bool_decide (md_target (getAttemptMetadata req) = "") then _ else _).
  destruct (bool_decide (t = "")); [done|]. set (w1 := with_registry _ w).
  assert (registry_ok w1) as Hw1 by (eapply reg_reachable_step; [exact Hw|apply reg_get]).
  apply (registry_ok_allow t) in Hw1. destruct (breakerAllow t w1) as [allowed w2]. cbn [snd] in Hw1.
  match goal with |- context [syncOpenCircuitGauge ?a ?b ?c ?d] =>
    pose proof (registry_ok_sync a b c d Hw1) as Hw3; set (w3 := syncOpenCircuitGauge a b c d) in * end.
  destruct allowed; cbn [negb]; [|done]. unfold admittedRoundTrip.
  pose proof (Hnext req w3 Hw3) as Hn. destruct (next req w3) as [[resp err] w4]. cbn [snd] in Hn. cbv zeta.
  destruct err as [err|]; [by apply registry_ok_record|]. destruct resp as [resp|]; [|by apply registry_ok_record].
  destruct (_ <=? _); [by apply registry_ok_record|].
  destruct (rs_Body resp); [by apply registry_ok_record|done|done].
Qed.

Lemma chain_registry serviceTargets : keeps_registry (resilientChain serviceTargets).
Proof.
  intros req w Hw. unfold resilientChain, LoadBalancerTransport_RoundTrip.
  destruct (GetRouteConfig req) as [route|]; [|done]. destruct (bool_decide _); [done|].
  destruct (balancerFor route w) as [[b w1]|] eqn:Hfor; [|done].
  assert (registry_ok w1) as Hw1.
  { unfold balancerFor in Hfor. destruct (w_balancers w !! _); [by injection Hfor as _ <-|].
    destruct (NewBalancer _ _); [|done]. cbn in Hfor. by injection Hfor as _ <-. }
  destruct (Balancer_Select _ b) as [[sel b']|]; [|done]. unfold selectedRoundTrip. cbv zeta.
  match goal with |- context [CircuitBreakerTransport_RoundTrip ?a ?b ?r ?x] =>
    pose proof (breaker_registry a b upstream_registry r x Hw1) as Hn;
    destruct (CircuitBreakerTransport_RoundTrip a b r x) as [[[resp|] [err|]] w2] end; cbn [snd] in Hn; try done.
  by destruct (rs_Body resp).
Qed.

Lemma request_registry serviceTargets fuel req w :
  registry_ok w -> registry_ok (st_world (outcome_state (Resilient_RoundTrip serviceTargets fuel req w))).
Proof.
  apply (request_keeps serviceTargets registry_ok). apply chain_env_keeps; [|done|done|].
  - intros r w0 _. apply chain_registry.
  - intros id w0. apply registry_ok_close.
Qed.

End Transports.

(** ** The gateway and its manager *)

Section Manager.
Context {E G R : Type} {HBase : BaseEnv E} {HEnv : GatewayEnv E} {HGauge : GaugeVec G} {HGaugeLaws : GaugeVecLaws G}
  {HProm : Prometheus} {HRedis : Redis R} {HJWT : JWTParser} {HJWTLaws : JWTParserLaws}.
Notation Gateway := (Gateway (E := E) (G := G) (R := R)).
Notation Manager := (Manager (E := E) (G := G) (R := R)).
Variable sampledTrace : Request -> option string.
Implicit Types (m : Manager) (g : Gateway).

Definition breakers_ok g : Prop := registry_ok (gw_world g).

Lemma gateway_kept_breakers : kept_by_downstream breakers_ok.
Proof.
  split.
  - done.
  - intros d Hd. cbn. unfold from_env. by destruct (ge_NewUUID _).
  - intros q d Hd. cbn. destruct (gw_store d) as [cfg|]; [|done]. unfold from_env. destruct (ge_storeFailure _).
    by destruct (Store_Allow _ _ _ _ _).
Qed.

Lemma gateway_kept_round_tripper : kept_by_round_tripper breakers_ok.
Proof.
  split; [| | |done|done].
  - intros req d Hd. cbn. unfold gateway_RoundTrip, from_env.
    pose proof (request_registry (gw_serviceTargets d) (roundtrip_fuel req) req _ Hd) as Hr.
    destruct (Resilient_RoundTrip _ _ _ _); destruct (ge_early _); exact Hr.
  - intros id d Hd. cbn. unfold gateway_Read. destruct (w_bodies (gw_world d) !! id); [|done].
    pose proof (registry_ok_read id _ Hd) as Hr. by destruct (readBody id (gw_world d)).
  - intros id d Hd. by apply registry_ok_close.
Qed.

End Manager.
