(* ===== verification/Watcher.v ===== *)
(** * The configuration watcher: [internal/runtime/watcher.go]

    The watcher's loop as a state machine: file events, errors of the file system's watcher,
    the debounce timer and the end of the context are the cases of its [select].  A burst of
    changes ends in one reload, a debounce after the last of them; and a watcher with
    nothing pending has reloaded what is in the file. *)

From S2P Require Import Prelude GoStrings.
From stdpp Require Import options.
#[local] Set Default Proof Using "Type*".

(** ** Paths: [filepath.Clean] and [filepath.Abs] on Unix *)

(** The elements kept so far, the last one first. *)
Definition clean_element (rooted : bool) (kept : list string) (element : string) : list string :=
  if bool_decide (element = "") || bool_decide (element = ".") then kept
  else if bool_decide (element = "..") then
    match kept with
    | [] => if rooted then [] else [".."]
    | last :: rest => if bool_decide (last = "..") then ".." :: kept else rest
    end
  else element :: kept.

Definition Clean (path : string) : string :=
  if bool_decide (path = "") then "."
  else
    let rooted := HasPrefix path "/" in
    let cleaned := Join (rev (foldl (clean_element rooted) [] (Split path slash))) "/" in
    if rooted then "/" +:+ cleaned else if bool_decide (cleaned = "") then "." else cleaned.

(** [Abs] from the working directory; without one it fails. *)
Definition Abs (wd : option string) (path : string) : option string :=
  if HasPrefix path "/" then Some (Clean path)
  else wd ← wd; Some (Clean (wd +:+ "/" +:+ path)).

Lemma Clean_examples :
  Clean "" = "." /\ Clean "a//b/./../c/" = "a/c" /\ Clean "/../x" = "/x" /\ Clean "../../a/.." = "../.." /\
  Clean "/" = "/" /\ Clean "a/.." = "." /\ Clean "./configs/gateway.yaml" = "configs/gateway.yaml".
Proof. vm_compute. done. Qed.

(** ** The watcher *)

Definition defaultReloadDebounce : Duration := 200 * Millisecond.

Definition matchesConfigPath (configPath eventPath : string) : bool := bool_decide (Clean configPath = Clean eventPath).

(** The bits of an event's operation. *)
Class Fsnotify := {
  fs_Create : Z;
  fs_Write : Z;
  fs_Remove : Z;
  fs_Rename : Z;
}.

Record FsEvent := mkFsEvent { ev_Name : string; ev_Op : Z }.

(** A timer: when its channel becomes ready; [None] once it is stopped or received from. *)
Record Timer := mkTimer { tm_when : option Time }.

Definition stopTimer (timer : option Timer) : option Timer :=
  match timer with
  | None => None
  | Some _ => Some (mkTimer None) (* what the channel holds is drained *)
  end.

Definition resetTimer (now : Time) (timer : option Timer) (delay : Duration) : option Timer :=
  match timer with
  | None => Some (mkTimer (Some (now + delay)))
  | Some _ => match stopTimer timer with
              | Some _ => Some (mkTimer (Some (now + delay)))
              | None => None
              end
  end.

Record Watcher := mkWatcher { wt_configPath : string; wt_debounce : Duration }.

Inductive WatcherError := ManagerRequired | PathRequired | ResolveFailed.

Definition NewWatcher (wd : option string) (configPath : string) (manager : bool) (debounce : Duration)
    : sum WatcherError Watcher :=
  if negb manager then inl ManagerRequired
  else if bool_decide (configPath = "") then inl PathRequired
  else match Abs wd configPath with
  | None => inl ResolveFailed
  | Some absolutePath => inr (mkWatcher absolutePath (if debounce <=? 0 then defaultReloadDebounce else debounce))
  end.

Section Watcher.
Context {F X : Type} {HFs : Fsnotify}.

(** [ReloadFromPath], given the file, on the state it changes. *)
Variable reload : F -> X -> X.
Variable w : Watcher.

Inductive WatchLog := Written | Changed (at_ : Time) | Reloaded (at_ : Time).

Record Watching := mkWatching {
  wg_now : Time;
  wg_file : F;
  wg_state : X;
  wg_timer : option Timer;
  wg_timerCh : bool; (* not nil *)
  wg_running : bool;
  wg_log : list WatchLog;
}.
Implicit Types s : Watching.

(** A ready case of the [select]; a channel that is closed gives [None]. *)
Inductive SelectCase := CaseDone | CaseEvent (event : option FsEvent) | CaseError (err : option string) | CaseTimer.

Definition stopped s : Watching :=
  mkWatching (wg_now s) (wg_file s) (wg_state s) (stopTimer (wg_timer s)) (wg_timerCh s) false (wg_log s).

Definition relevant (event : FsEvent) : bool :=
  matchesConfigPath (wt_configPath w) (ev_Name event) &&
  negb (Z.land (ev_Op event) (Z.lor (Z.lor (Z.lor fs_Write fs_Create) fs_Rename) fs_Remove) =? 0).

(** The timer's channel is ready. *)
Definition timer_ready s : bool :=
  wg_timerCh s &&
  match wg_timer s with
  | Some timer => match tm_when timer with Some at_ => at_ <=? wg_now s | None => false end
  | None => false
  end.

(** One iteration of [Run]'s loop, by the case it selects: [None] when that is not ready. *)
Definition select_step (case : SelectCase) s : option Watching :=
  match case with
  | CaseDone => Some (stopped s)
  | CaseEvent None => Some (stopped s)
  | CaseEvent (Some event) =>
      if negb (matchesConfigPath (wt_configPath w) (ev_Name event)) then Some s
      else if Z.land (ev_Op event) (Z.lor (Z.lor (Z.lor fs_Write fs_Create) fs_Rename) fs_Remove) =? 0 then Some s
      else Some (mkWatching (wg_now s) (wg_file s) (wg_state s) (resetTimer (wg_now s) (wg_timer s) (wt_debounce w))
                   true true (wg_log s ++ [Changed (wg_now s)]))
  | CaseError None => Some (stopped s)
  | CaseError (Some _) => Some s
  | CaseTimer =>
      if timer_ready s
      then Some (mkWatching (wg_now s) (wg_file s) (reload (wg_file s) (wg_state s)) (Some (mkTimer None)) false true
                   (wg_log s ++ [Reloaded (wg_now s)]))
      else None
  end.

(** When [Run] has added the directory. *)
Definition watching (now : Time) (file : F) (x : X) : Watching := mkWatching now file x None false true [].

(** [Run] up to its loop: the errors of [fsnotify.NewWatcher] and of adding the directory
    end it; otherwise [signalReady] closes the channel of [Ready]. *)
Definition Run_starts (createErr addErr : option string) (now : Time) (file : F) (x : X) : sum string Watching * bool :=
  match createErr, addErr with
  | Some err, _ => (inl ("create fsnotify watcher: " +:+ err), false)
  | None, Some err => (inl ("watch config directory: " +:+ err), false)
  | None, None => (inr (watching now file x), true)
  end.

(** What happens around the loop: time passes, someone writes the file. *)
Inductive WatchStep := Select (case : SelectCase) | Tick (d : N) | WriteFile (file : F).

Definition watch_step s (step : WatchStep) : option Watching :=
  match step with
  | Select case => if wg_running s then select_step case s else None
  | Tick d => Some (mkWatching (wg_now s + Z.of_N d) (wg_file s) (wg_state s) (wg_timer s) (wg_timerCh s) (wg_running s) (wg_log s))
  | WriteFile file => Some (mkWatching (wg_now s) file (wg_state s) (wg_timer s) (wg_timerCh s) (wg_running s) (wg_log s ++ [Written]))
  end.

Fixpoint watch_run s (steps : list WatchStep) : option Watching :=
  match steps with
  | [] => Some s
  | step :: steps => s ← watch_step s step; watch_run s steps
  end.

(** ** What is pending *)

(** The last change since the last reload. *)
Definition pending (log : list WatchLog) : option Time :=
  foldl (fun p entry => match entry with Written => p | Changed t => Some t | Reloaded _ => None end) None log.

(** The file was written since the last reload. *)
Definition dirty (log : list WatchLog) : bool :=
  foldl (fun d entry => match entry with Written => true | Changed _ => d | Reloaded _ => false end) false log.

(** Every write is followed by a change. *)
Definition announced (log : list WatchLog) : bool :=
  foldl (fun a entry => match entry with Written => false | Changed _ => true | Reloaded _ => a end) true log.

Lemma pending_snoc log entry :
  pending (log ++ [entry]) = match entry with Written => pending log | Changed t => Some t | Reloaded _ => None end.
Proof. unfold pending. rewrite foldl_snoc. by destruct entry. Qed.
Lemma dirty_snoc log entry :
  dirty (log ++ [entry]) = match entry with Written => true | Changed _ => dirty log | Reloaded _ => false end.
Proof. unfold dirty. rewrite foldl_snoc. by destruct entry. Qed.
Lemma announced_snoc log entry :
  announced (log ++ [entry]) = match entry with Written => false | Changed _ => true | Reloaded _ => announced log end.
Proof. unfold announced. rewrite foldl_snoc. by destruct entry. Qed.

(** Each reload comes a debounce, or more, after the last change before it. *)
Definition debounced (log : list WatchLog) : Prop :=
  forall before t after, log = before ++ Reloaded t :: after ->
    exists t', pending before = Some t' /\ t' + wt_debounce w <= t.

Lemma debounced_snoc log entry :
  debounced log -> (forall t, entry = Reloaded t -> exists t', pending log = Some t' /\ t' + wt_debounce w <= t) ->
  debounced (log ++ [entry]).
Proof.
  intros Hlog Hentry before t after Heq. destruct after as [|e after _] using rev_ind.
  - apply app_inj_tail in Heq as [-> ->]. by apply Hentry.
  - rewrite app_comm_cons, app_assoc in Heq. apply app_inj_tail in Heq as [-> _]. by eapply Hlog.
Qed.

Section Run.
Variables (now0 : Time) (file0 : F) (x0 : X).

(** What reloads preserve. *)
Variable P : X -> Prop.
Hypotheses (HP0 : P x0) (HPreload : forall file x, P x -> P (reload file x)).

Record watch_inv s : Prop := {
  wi_timer : wg_running s = true ->
    match pending (wg_log s) with
    | Some t => wg_timerCh s = true /\ wg_timer s = Some (mkTimer (Some (t + wt_debounce w)))
    | None => wg_timerCh s = false
    end;
  wi_debounced : debounced (wg_log s);
  wi_announced : dirty (wg_log s) = true -> announced (wg_log s) = true -> is_Some (pending (wg_log s));
  wi_state : dirty (wg_log s) = false ->
    (wg_state s = x0 /\ wg_file s = file0 /\ (forall t, Reloaded t ∉ wg_log s)) \/
    exists x, P x /\ wg_state s = reload (wg_file s) x;
  wi_kept : P (wg_state s);
}.

Lemma watching_inv : watch_inv (watching now0 file0 x0).
Proof using HP0.
  split; cbn; [done| |done| |done].
  - intros before t after Heq. by destruct before.
  - intros _. left. split_and!; [done|done|]. by intros t ?%elem_of_nil.
Qed.

Lemma resetTimer_spec now timer delay : resetTimer now timer delay = Some (mkTimer (Some (now + delay))).
Proof using Type. by destruct timer. Qed.

Lemma timer_ready_spec s : watch_inv s -> wg_running s = true ->
  timer_ready s = true <-> exists t, pending (wg_log s) = Some t /\ t + wt_debounce w <= wg_now s.
Proof using Type.
  intros Hi Hr. pose proof (wi_timer _ Hi Hr) as Ht. unfold timer_ready. destruct (pending (wg_log s)) as [t|].
  - destruct Ht as [-> ->]. cbn. rewrite Z.leb_le. naive_solver.
  - rewrite Ht. naive_solver.
Qed.

Lemma stopped_inv s : watch_inv s -> watch_inv (stopped s).
Proof using Type. intros [_ H2 H3 H4 H5]. by split. Qed.

Lemma select_inv case s s' : watch_inv s -> wg_running s = true -> select_step case s = Some s' -> watch_inv s'.
Proof using HPreload.
  intros Hi Hr Hs. destruct case as [|[event|]|[err|]|]; cbn [select_step] in Hs.
  - injection Hs as <-. by apply stopped_inv.
  - destruct (negb _); [by injection Hs as <-|]. destruct (_ =? 0); [by injection Hs as <-|]. injection Hs as <-.
    destruct Hi as [_ H2 H3 H4 H5].
    split; cbn [wg_running wg_log wg_timer wg_timerCh wg_state wg_file]; rewrite ?pending_snoc, ?dirty_snoc, ?announced_snoc.
    + intros _. split; [done|apply resetTimer_spec].
    + by apply debounced_snoc.
    + by eexists.
    + intros Hd. destruct (H4 Hd) as [(? & ? & Hno)|?]; [left|by right]. split_and!; [done|done|].
      intros t [Ht|Ht]%elem_of_app; [by eapply Hno|by apply list_elem_of_singleton in Ht].
    + done.
  - injection Hs as <-. by apply stopped_inv.
  - by injection Hs as <-.
  - injection Hs as <-. by apply stopped_inv.
  - destruct (timer_ready s) eqn:Hready; [|done]. injection Hs as <-.
    apply (timer_ready_spec s Hi Hr) in Hready. destruct Hi as [_ H2 H3 H4 H5].
    split; cbn [wg_running wg_log wg_timer wg_timerCh wg_state wg_file]; rewrite ?pending_snoc, ?dirty_snoc, ?announced_snoc.
    + done.
    + apply debounced_snoc; [done|]. by intros t [= <-].
    + done.
    + intros _. right. by exists (wg_state s).
    + by apply HPreload.
Qed.

Lemma watch_step_inv s step s' : watch_inv s -> watch_step s step = Some s' -> watch_inv s'.
Proof using HPreload.
  intros Hi Hs. destruct step as [case|d|file]; cbn [watch_step] in Hs.
  - destruct (wg_running s) eqn:Hr; [|done]. by eapply select_inv.
  - injection Hs as <-. destruct Hi as [H1 H2 H3 H4 H5]. by split.
  - injection Hs as <-. destruct Hi as [H1 H2 H3 H4 H5].
    split; cbn [wg_running wg_log wg_timer wg_timerCh wg_state wg_file]; rewrite ?pending_snoc, ?dirty_snoc, ?announced_snoc; try done.
    by apply debounced_snoc.
Qed.

Lemma watch_run_inv steps s s' : watch_inv s -> watch_run s steps = Some s' -> watch_inv s'.
Proof using HPreload.
  revert s. induction steps as [|step steps IH]; intros s Hi Hs; cbn in Hs; [by injection Hs as <-|].
  destruct (watch_step s step) as [s1|] eqn:Hstep; [|done]. cbn in Hs. eauto using watch_step_inv.
Qed.

(** A watcher with nothing pending, all writes of whose file were announced, has reloaded
    the file as it is, or the file is as it was at the start. *)
Lemma quiet_is_current steps s :
  watch_run (watching now0 file0 x0) steps = Some s -> announced (wg_log s) = true -> pending (wg_log s) = None ->
  (wg_state s = x0 /\ wg_file s = file0) \/ exists x, P x /\ wg_state s = reload (wg_file s) x.
Proof.
  intros Hrun Ha Hp. destruct (watch_run_inv _ _ _ watching_inv Hrun) as [_ _ H3 H4 _].
  destruct (dirty (wg_log s)).
  - destruct (H3 eq_refl Ha) as [t Ht]. congruence.
  - destruct (H4 eq_refl) as [(? & ? & _)|?]; auto.
Qed.

End Run.

End Watcher.

(** C8: debouncing: in any run of the watcher, every reload comes a full debounce, or more,
    after the last change of the configuration file before it, and there is such a change
    since the reload before; while the watcher runs, its timer is ready exactly when the
    last change since the last reload is a debounce old; and then a reload of the file is
    what it does when it selects the timer, after which nothing is pending. *)
Theorem watcher_debounces {F X} {HFs : Fsnotify} (reload : F -> X -> X) w now0 file0 x0 steps s :
  watch_run reload w (watching now0 file0 x0) steps = Some s ->
  (forall before t after, wg_log s = before ++ Reloaded t :: after ->
     exists t', pending before = Some t' /\ t' + wt_debounce w <= t) /\
  (wg_running s = true ->
     (timer_ready s = true <-> exists t, pending (wg_log s) = Some t /\ t + wt_debounce w <= wg_now s) /\
     forall t d, pending (wg_log s) = Some t -> t + wt_debounce w <= wg_now s + Z.of_N d ->
       exists s', watch_run reload w s [Tick d; Select CaseTimer] = Some s' /\
         wg_state s' = reload (wg_file s) (wg_state s) /\ pending (wg_log s') = None).
Proof.
  intros Hrun. set (always := fun _ : X => True).
  assert (watch_inv reload w file0 x0 always s) as Hi
    by by apply (watch_run_inv reload w file0 x0 always ltac:(done) steps (watching now0 file0 x0)); [apply watching_inv|].
  split; [apply Hi|]. intros Hr. split; [by eapply timer_ready_spec|]. intros t d Hp Hd.
  set (s1 := mkWatching (wg_now s + Z.of_N d) (wg_file s) (wg_state s) (wg_timer s) (wg_timerCh s) (wg_running s) (wg_log s)).
  assert (watch_inv reload w file0 x0 always s1) as Hi1
    by by apply (watch_step_inv reload w file0 x0 always ltac:(done) s (Tick d)).
  assert (timer_ready s1 = true) as Hready by (eapply timer_ready_spec; [exact Hi1|done|by exists t]).
  cbn [watch_run watch_step mbind option_bind]. fold s1.
  assert (wg_running s1 = true) as -> by done. cbn [select_step]. rewrite Hready. cbn [mbind option_bind].
  eexists. split; [done|]. cbn [wg_state wg_log]. split; [done|apply pending_snoc].
Qed.

(** A burst of three changes in 60ms, an attribute change and a change of another file:
    one reload, of the last content, 200ms after the last change. *)
#[export] Instance demo_fsnotify : Fsnotify := {| fs_Create := 1; fs_Write := 2; fs_Remove := 4; fs_Rename := 8 |}.

Definition demo_watcher : Watcher := mkWatcher "/etc/irongate/gateway.yaml" defaultReloadDebounce.
Definition demo_event (op : Z) : WatchStep (F := nat) := Select (CaseEvent (Some (mkFsEvent "/etc/irongate/./gateway.yaml" op))).
Definition demo_burst : list (WatchStep (F := nat)) :=
  [WriteFile 1%nat; demo_event 2; Tick 30000000; WriteFile 2%nat; demo_event 2; Tick 30000000; WriteFile 3%nat; demo_event 8;
   Tick 100000000; demo_event 16; Select (CaseEvent (Some (mkFsEvent "/etc/irongate/other" 2))); Tick 100000000].

Lemma watcher_debounces_witness :
  exists s s', watch_run (fun file (loads : list nat) => loads ++ [file]) demo_watcher (watching 0 0%nat []) demo_burst = Some s /\
    wg_state s = [] /\
    watch_run (fun file (loads : list nat) => loads ++ [file]) demo_watcher s [Tick 0; Select CaseTimer] = Some s' /\
    wg_state s' = [3%nat] /\ pending (wg_log s') = None.
Proof.
  set (reload := fun file (loads : list nat) => loads ++ [file]).
  destruct (watch_run reload demo_watcher (watching 0 0%nat []) demo_burst) as [s|] eqn:Hrun; [|vm_compute in Hrun; discriminate].
  destruct (watcher_debounces reload demo_watcher 0 0%nat [] demo_burst s Hrun) as [_ H].
  vm_compute in Hrun. injection Hrun as <-.
  destruct (H eq_refl) as [_ Hstep]. destruct (Hstep 60000000 0%N eq_refl) as (s' & Hs' & Hx & Hp); [vm_compute; discriminate|].
  eexists _, s'. split; [reflexivity|]. split; [reflexivity|]. split; [exact Hs'|]. split; [exact Hx|exact Hp].
Defined.
