(* ===== verification/RuntimeTheory.v ===== *)
(** * The runtime manager: theorems

    Identity: the chain of handlers gives the proxy no identity but a verified token's.
    Leaks: at the end of every session of requests and reloads, what breakers and balancers
    gave out has come back.  Reloads: a configuration takes over as a whole, or not at all. *)

From S2P Require Import Prelude GoStrings GoErrors Config Http Breaker Registry LoadBalancer Fairness Retry Metrics Transport TransportTheory TransportTargets RateStore Handlers Router Auth Netip RateLimiter Observe Proxy Gateway Runtime Reachable.
From stdpp Require Import options.
#[local] Set Default Proof Using "Type*".

Section Theory.
Context {E G R : Type} {HBase : BaseEnv E} {HEnv : GatewayEnv E} {HGauge : GaugeVec G} {HProm : Prometheus}
  {HRedis : Redis R} {HJWT : JWTParser}.
Notation Gateway := (Gateway (E := E) (G := G) (R := R)).
Notation Manager := (Manager (E := E) (G := G) (R := R)).
Variable sampledTrace : Request -> option string.
Implicit Types (m : Manager) (g : Gateway).

(** ** Identity *)

Lemma application_guarantees {HJWTLaws : JWTParserLaws} cfg trustedProxies metrics store :
  guarantees (D := Gateway) (fun _ => True) (identity_ok (cfg_Auth cfg))
    (fun h => Chain h (applicationMiddlewares sampledTrace cfg trustedProxies metrics store)).
Proof.
  intros next next' Hnext w req s HP. rewrite !Chain_foldr.
  pose (routed := fun req : Request => no_identity req /\ exists route, GetRouteConfig req = Some route /\ route ∈ cfg_Routes cfg).
  pose proof (guarantees_foldr (D := Gateway)
    [(fun _ => True, no_identity); (no_identity, routed); (routed, routed); (routed, identity_ok (cfg_Auth cfg));
     (identity_ok (cfg_Auth cfg), identity_ok (cfg_Auth cfg))]
    (applicationMiddlewares sampledTrace cfg trustedProxies metrics store) (fun _ => True)) as Hg.
  cbn [last snd] in Hg. apply Hg; [| | |done|done].
  - unfold applicationMiddlewares. repeat apply List.Forall2_cons; [..|by apply List.Forall2_nil]; cbn [fst snd].
    + apply Tracing_guarantees.
    + apply Router_guarantees.
    + apply MetricsMiddleware_guarantees.
    + apply Auth_guarantees. by intros r [? _].
    + apply RateLimiter_guarantees.
  - intros [|[|[|[|i]]]] PQ PQ' H1 H2 r; cbn in H1, H2; simplify_eq; cbn; tauto.
  - intros PQ H1 r _. cbn in H1. by simplify_eq.
Qed.

(** ** Quiescence *)

Lemma gateway_kept st : kept_by_downstream (gateway_quiescent (E := E) (G := G) (R := R) st).
Proof.
  split.
  - intros f d [? Hq]. split; [done|]. by apply (quiescent_same (gw_world d)).
  - intros d [? Hq]. cbn. unfold from_env. destruct (ge_NewUUID _). split; [done|]. by apply (quiescent_same (gw_world d)).
  - intros q d [? Hq]. cbn. destruct (gw_store d) as [cfg|]; [|done]. unfold from_env. destruct (ge_storeFailure _).
    destruct (Store_Allow _ _ _ _ _). split; [done|]. by apply (quiescent_same (gw_world d)).
Qed.

(** The snapshot's handler is the chain of its configuration. *)
Definition application_built m : Prop :=
  forall snapshot, Current m = Some snapshot -> exists trustedProxies metrics store,
    sn_Application snapshot = applicationHandler sampledTrace (sn_Config snapshot) trustedProxies metrics store.

Lemma sanitize_keeps (I : Gateway -> Prop) w req (s : Server (D := Gateway)) :
  kept_by_downstream I -> I (sv_down s) -> I (sv_down (sanitizeGatewayRequest w req s).2).
Proof.
  intros HI Hs. unfold sanitizeGatewayRequest. pose proof (kd_UUID _ HI _ Hs) as Hu.
  destruct (dn_NewUUID (sv_down s)) as [id d]. cbn [snd]. by rewrite Writer_Set_down.
Qed.

(** A snapshot that is built: the checks it passed, and what it is made of. *)
Lemma buildSnapshot_spec next previous m g :
  match buildSnapshot sampledTrace next previous m g with
  | inl err => match next with
               | None => err = ConfigMissing
               | Some cfg => Validate cfg <> [] /\ err = ConfigInvalid (Validate cfg) \/
                   Validate cfg = [] /\ cfg_Server cfg <> mg_startupServer m /\ exists changed, err = StartupOnly changed
               end
  | inr (snapshot, m', g') => exists cfg store nextStore,
      next = Some cfg /\ Validate cfg = [] /\ cfg_Server cfg = mg_startupServer m /\
      mg_rateLimitStoreFactor m cfg previous (mg_nextStore m) = (store, nextStore) /\
      sn_Config snapshot = cfg /\ sn_RateLimitStore snapshot = store /\
      sn_Application snapshot = applicationHandler sampledTrace cfg (mg_trustedProxies m) (mc_Enabled (cfg_Metrics cfg))
        (bool_decide (is_Some store)) /\
      m' = with_stores nextStore (currentMetrics m g) m /\
      g' = newTransports cfg
        (nextCircuitBreakerRegistry (now (gw_world g)) (cfg_CircuitBreaker cfg)
           (circuitBreakerTargetServices (cfg_Routes cfg)) previous (w_registry (gw_world g)))
        (if mc_Enabled (cfg_Metrics cfg) then Some (currentMetrics m g) else None) store g
  end.
Proof.
  unfold buildSnapshot. destruct next as [cfg|]; [|done].
  case_bool_decide as Hv; cbn [negb]; [apply length_zero_iff_nil in Hv|left; split; [intros Heq; by rewrite Heq in Hv|done]].
  unfold validateStartupOnlyServerConfig.
  destruct (cfg_Server cfg) as [p r wr] eqn:Hs, (mg_startupServer m) as [p' r' wr'] eqn:Hs'. cbn [sc_Port sc_ReadTimeout sc_WriteTimeout].
  destruct (Z.eqb_spec p' p), (Z.eqb_spec r' r), (Z.eqb_spec wr' wr); cbn [app].
  2-8: rewrite bool_decide_eq_false_2 by done; right; split; [done|split; [congruence|by eexists]].
  rewrite bool_decide_eq_true_2 by done. subst.
  destruct (mg_rateLimitStoreFactor _ _ _ _) as [store nextStore] eqn:Hf.
  exists cfg, store, nextStore. by split_and!.
Qed.

(** ** Sessions *)

(** What a session preserves: a predicate of the gateway that the calls of the handlers
    preserve, for the service targets it has, and that a new snapshot establishes. *)
Context {HJWTLaws : JWTParserLaws}.
Variable metricsHandler : Handler (D := Gateway).

(** Prometheus's handler reads the registry only. *)
Hypothesis metricsHandler_reads : forall w req s, sv_down (snd (metricsHandler w req s)) = sv_down s.

Lemma application_keeps (I : Gateway -> Prop) cfg trustedProxies metrics store :
  kept_by_downstream I -> (forall timeout, keeps I (Proxy_ServeHTTP timeout)) ->
  keeps I (applicationHandler sampledTrace cfg trustedProxies metrics store).
Proof.
  intros HI Hproxy. unfold applicationHandler. rewrite Chain_foldr. apply keeps_foldr; [|apply Hproxy].
  unfold applicationMiddlewares. repeat apply Forall_cons_2; [..|apply Forall_nil_2].
  - intros next. by apply Tracing_keeps.
  - intros next. by apply Router_keeps.
  - intros next. by apply MetricsMiddleware_keeps.
  - intros next. by apply Auth_keeps.
  - intros next. by apply RateLimiter_keeps.
Qed.

Lemma Manager_keeps (I : Gateway -> Prop) m :
  kept_by_downstream I -> (forall timeout, keeps I (Proxy_ServeHTTP timeout)) -> application_built m ->
  keeps I (Manager_ServeHTTP metricsHandler m).
Proof.
  intros HI Hproxy Hb w req s Hs. pose proof (sanitize_keeps I w req s HI Hs) as Hsan. unfold Manager_ServeHTTP.
  case_bool_decide.
  { unfold serveHealth. destruct (sanitizeGatewayRequest w req s) as [req' s']. cbn [snd] in *. by rewrite WriteJSON_down. }
  case_bool_decide.
  { unfold serveReady. destruct (sanitizeGatewayRequest w req s) as [req' s']. cbn [snd] in *.
    destruct (negb _); [by apply (respondError_keeps I)|]. cbn [snd]. by rewrite WriteJSON_down. }
  destruct (Current m) as [snapshot|] eqn:Hc.
  - destruct (_ && _).
    + unfold serveMetrics. destruct (sanitizeGatewayRequest w req s) as [req' s']. cbn [snd] in *.
      destruct (negb _); [by apply (respondError_keeps I)|]. by rewrite metricsHandler_reads.
    + destruct (Hb _ Hc) as (tp & me & store & ->). by apply application_keeps.
  - destruct (sanitizeGatewayRequest w req s) as [req' s']. cbn [snd] in *. by apply (respondError_keeps I).
Qed.

(** The factory of rate limit stores is the one that the manager was made with. *)
Lemma session_factory (st : Manager * Gateway) ops :
  mg_rateLimitStoreFactor (foldl (manager_step sampledTrace metricsHandler) st ops).1 = mg_rateLimitStoreFactor st.1.
Proof using Type.
  revert st. induction ops as [|op ops IH]; intros [m g]; [done|]. cbn [foldl]. rewrite IH. destruct op as [req|next|]; cbn [manager_step]; [done| |done].
  unfold Reload. pose proof (buildSnapshot_spec next (Current m) m g) as Hspec.
  destruct (buildSnapshot _ _ _ _ _) as [err|[[snapshot m0] g0]]; [done|].
  by destruct Hspec as (? & ? & ? & _ & _ & _ & _ & _ & _ & _ & -> & _).
Qed.

Lemma NewManager_factory initial trustedProxies metrics factory (e : E) redis m g :
  NewManager sampledTrace initial trustedProxies metrics factory e redis = inr (m, g) ->
  mg_rateLimitStoreFactor m = default defaultRateLimitStoreFactory factory.
Proof using Type.
  unfold NewManager. destruct initial as [cfg|]; [|done].
  match goal with |- match buildSnapshot _ ?a ?b ?c ?d with _ => _ end = _ -> _ => pose proof (buildSnapshot_spec a b c d) as Hspec end.
  destruct (buildSnapshot _ _ _ _ _) as [err|[[snapshot m0] g0]]; [done|]. destruct Hspec as (? & ? & ? & _ & _ & _ & _ & _ & _ & _ & -> & _).
  by intros [= <- _].
Qed.

Section Invariant.
Variable I : Gateway -> Prop.

(** [I] is an invariant: requests preserve it, in the form [J st] of the gateway with the
    service targets [st], and a new snapshot's transports have it. *)
Record session_invariant : Prop := {
  si_serve g : I g -> exists J : Gateway -> Prop,
    kept_by_downstream J /\ (forall timeout, keeps J (Proxy_ServeHTTP timeout)) /\ J g /\ forall g', J g' -> I g';
  si_build (previous : option (Snapshot (E := E) (G := G) (R := R))) cfg metrics store g : I g ->
    I (newTransports cfg (nextCircuitBreakerRegistry (now (gw_world g)) (cfg_CircuitBreaker cfg)
         (circuitBreakerTargetServices (cfg_Routes cfg)) previous (w_registry (gw_world g))) metrics store g);
  si_start cfg (e : E) redis :
    I (mkGateway (NewResilientTransport (NewRegistry (cfg_CircuitBreaker cfg) false) None e) ∅ redis None);
}.
Hypothesis HI : session_invariant.

Definition manager_ok (st : Manager * Gateway) : Prop := application_built st.1 /\ I st.2.

Lemma buildSnapshot_ok next previous m g snapshot m' g' ready :
  buildSnapshot sampledTrace next previous m g = inr (snapshot, m', g') -> I g ->
  manager_ok (with_current (Some snapshot) ready m', g').
Proof.
  intros Hb Hq. pose proof (buildSnapshot_spec next previous m g) as Hspec.
  destruct (buildSnapshot _ _ _ _ _) as [err|[[snapshot0 m0] g0]]; [discriminate Hb|]. injection Hb as -> -> ->.
  destruct Hspec as (cfg & store & nextStore & -> & _ & _ & _ & Hc & _ & Happ & -> & ->). split.
  - intros sn [= <-]. eexists _, _, _. rewrite Hc. exact Happ.
  - by apply si_build.
Qed.

Lemma manager_step_ok st op : manager_ok st -> manager_ok (manager_step sampledTrace metricsHandler st op).
Proof.
  destruct st as [m g]. intros [Hb Hq]. destruct op as [req|next|]; cbn [manager_step].
  - split; [done|]. cbn [snd]. destruct (si_serve HI g Hq) as (J & HJ & Hproxy & Hg & HJI). apply HJI.
    by apply (Manager_keeps J m HJ Hproxy Hb Connection req (mkServer new_conn [] g)).
  - unfold Reload. destruct (buildSnapshot _ _ _ _ _) as [err|[[snapshot m'] g']] eqn:Hbuild; [by split|].
    by eapply buildSnapshot_ok.
  - split; [|done]. done.
Qed.

Lemma session_ok initial trustedProxies metrics factory (e : E) redis m g ops :
  NewManager sampledTrace initial trustedProxies metrics factory e redis = inr (m, g) ->
  manager_ok (foldl (manager_step sampledTrace metricsHandler) (m, g) ops).
Proof.
  intros Hnew. apply (foldl_preserves manager_ok).
  - intros st op. apply manager_step_ok.
  - unfold NewManager in Hnew. destruct initial as [cfg|]; [|done].
    destruct (buildSnapshot _ _ _ _ _) as [err|[[snapshot m'] g']] eqn:Hbuild; [done|]. injection Hnew as <- <-.
    eapply buildSnapshot_ok; [exact Hbuild|]. apply (si_start HI).
Qed.

End Invariant.

Context {HLaws : GatewayEnvLaws E}.

(** No upstream switches protocols. *)
Definition no_switch : Prop :=
  forall req (e : E) resp err, fst (base_RoundTrip req e) = (Some resp, err) -> rs_StatusCode resp <> StatusSwitchingProtocols.

Lemma quiescent_invariant : no_switch -> session_invariant (fun g => quiescent (gw_world g)).
Proof using HLaws.
  intros Hno. split.
  - intros g Hq. exists (gateway_quiescent (gw_serviceTargets g)). split_and!; [apply gateway_kept| |by split|by intros g' []].
    intros timeout. by apply Proxy_keeps.
  - intros previous cfg metrics store g Hq. by apply (quiescent_same (gw_world g)).
  - intros cfg e redis. split; [apply new_accounts|]. split; [|done]. by intros id b Hb.
Qed.

Lemma breakers_invariant {HGaugeLaws : GaugeVecLaws G} : session_invariant breakers_ok.
Proof using Type.
  split.
  - intros g Hg. exists breakers_ok. split_and!; [apply gateway_kept_breakers| |done|done].
    intros timeout. apply Proxy_kept, gateway_kept_round_tripper.
  - intros previous cfg metrics store g Hg. unfold breakers_ok, registry_ok. cbn.
    unfold nextCircuitBreakerRegistry. destruct previous as [previous|]; [case_bool_decide|].
    + eapply reg_reachable_step; [exact Hg|apply reg_reconcile].
    + eapply reg_reachable_step; [eapply reg_reachable_step; [exact Hg|apply reg_clone]|apply reg_reconcile].
    + eapply reg_reachable_step; [apply reg_reachable_new|apply reg_reconcile].
  - intros cfg e redis. apply reg_reachable_new.
Qed.

End Theory.

(** C3: identity: whatever a client sends, the proxy is reached only with requests whose
    identity headers are absent, on a public route, or those of a verified token, on a
    protected one: two handlers that agree on such requests cannot be told apart behind the
    chain of middlewares that the manager builds, for any configuration. *)
Theorem identity_is_verified {E G R} {HBase : BaseEnv E} {HEnv : GatewayEnv E} {HGauge : GaugeVec G} {HProm : Prometheus}
    {HRedis : Redis R} {HJWT : JWTParser} {HJWTLaws : JWTParserLaws} sampledTrace cfg trustedProxies metrics store
    (handler handler' : Handler (D := Gateway (E := E) (G := G) (R := R))) w req s :
  (forall w req s, identity_ok (cfg_Auth cfg) req -> handler w req s = handler' w req s) ->
  Chain handler (applicationMiddlewares sampledTrace cfg trustedProxies metrics store) w req s =
  Chain handler' (applicationMiddlewares sampledTrace cfg trustedProxies metrics store) w req s.
Proof. intros Hagree. by apply application_guarantees. Qed.

(** Nothing leaks: after any session of requests, whatever becomes of them, reloads and
    shutdowns, in which no upstream switches protocols, the results reported to each breaker
    are as many as the requests it admitted, and the releases of each balancer as many as
    its selections: no half-open slot and no connection count is lost. *)
Lemma nothing_leaks {E G R} {HBase : BaseEnv E} {HEnv : GatewayEnv E} {HLaws : GatewayEnvLaws E} {HGauge : GaugeVec G}
    {HProm : Prometheus} {HRedis : Redis R} {HJWT : JWTParser} {HJWTLaws : JWTParserLaws} sampledTrace
    (metricsHandler : Handler (D := Gateway (E := E) (G := G) (R := R))) initial trustedProxies metrics factory (e : E) redis m g ops :
  no_switch (E := E) ->
  (forall w req s, sv_down (snd (metricsHandler w req s)) = sv_down s) ->
  NewManager sampledTrace initial trustedProxies metrics factory e redis = inr (m, g) ->
  let w := gw_world (snd (foldl (manager_step sampledTrace metricsHandler) (m, g) ops)) in
  (forall target, count_log (is_admitted target) (w_log w) = count_log (is_reported target) (w_log w)) /\
  (forall key, count_log (is_selected key) (w_log w) = count_log (is_released key) (w_log w)).
Proof.
  intros Hno Hmh Hnew.
  destruct (session_ok sampledTrace metricsHandler Hmh _ (quiescent_invariant Hno) _ _ _ _ _ _ _ _ ops Hnew) as [_ [[H1 H2 _] Hs]].
  destruct (settled_msum _ Hs) as [Hr Hk]. split.
  - intros target. rewrite H1, Hr. lia.
  - intros key. rewrite H2, Hk. lia.
Qed.

(** ** Reloads *)

(** The targets that have a service are those of the routes. *)
Lemma circuitBreakerTargetServices_names routes address :
  is_Some (circuitBreakerTargetServices routes !! address) <->
  exists route target, route ∈ routes /\ target ∈ rc_Targets route /\ targetAddress target = address.
Proof.
  unfold circuitBreakerTargetServices.
  assert (forall service targets (m : gmap string string),
    is_Some (foldl (fun m target => <[targetAddress target := service]> m) m targets !! address) <->
    is_Some (m !! address) \/ exists target, target ∈ targets /\ targetAddress target = address) as Htargets.
  { intros service targets. induction targets as [|t targets IH]; intros m; cbn [foldl].
    - split; [by left|]. intros [?|(t & ?%elem_of_nil & _)]; done.
    - rewrite IH. destruct (decide (targetAddress t = address)) as [<-|Hne].
      + rewrite lookup_insert_eq. split; [|by left; eexists]. intros _. right. exists t. by split; [left|].
      + rewrite lookup_insert_ne by done. setoid_rewrite elem_of_cons. naive_solver. }
  assert (forall (m : gmap string string), is_Some (foldl (fun targetServices route =>
      foldl (fun targetServices target => <[targetAddress target := rc_Service route]> targetServices)
        targetServices (rc_Targets route)) m routes !! address) <->
    is_Some (m !! address) \/ exists route target, route ∈ routes /\ target ∈ rc_Targets route /\ targetAddress target = address) as H.
  { induction routes as [|route routes IH]; intros m; cbn [foldl].
    - split; [by left|]. intros [?|(r & t & ?%elem_of_nil & _)]; done.
    - rewrite IH, Htargets. setoid_rewrite elem_of_cons. naive_solver. }
  rewrite H, lookup_empty. split; [intros [[? [=]]|?]; done|by right].
Qed.

(** C4: reloads are atomic: after any session, a configuration that is invalid or changes
    what only a restart can change leaves the manager and the gateway as they were; any
    other takes over as a whole.  The manager is then ready unless it is draining; the
    counters of the metrics registry survive, through reloads that disable it too; a target
    that keeps a route keeps its breaker's state, deadline and failures, when the breakers'
    configuration is the same; and the rate limit store is kept when Redis's is. *)
Theorem reload_is_atomic {E G R} {HBase : BaseEnv E} {HEnv : GatewayEnv E} {HGauge : GaugeVec G} {HGaugeLaws : GaugeVecLaws G}
    {HProm : Prometheus} {HRedis : Redis R} {HJWT : JWTParser} {HJWTLaws : JWTParserLaws} sampledTrace
    (metricsHandler : Handler (D := Gateway (E := E) (G := G) (R := R))) initial trustedProxies metrics (e : E) redis mi gi ops next :
  (forall w req s, sv_down (snd (metricsHandler w req s)) = sv_down s) ->
  NewManager sampledTrace initial trustedProxies metrics None e redis = inr (mi, gi) ->
  let '(m, g) := foldl (manager_step sampledTrace metricsHandler) (mi, gi) ops in
  let '(err, m', g') := Reload sampledTrace next m g in
  match err with
  | Some _ => m' = m /\ g' = g /\
      forall cfg, next = Some cfg -> Validate cfg <> [] \/ cfg_Server cfg <> mg_startupServer m
  | None => exists cfg snapshot,
      next = Some cfg /\ Validate cfg = [] /\ cfg_Server cfg = mg_startupServer m /\
      Current m' = Some snapshot /\ sn_Config snapshot = cfg /\ Ready m' = negb (mg_draining m) /\
      mg_draining m' = mg_draining m /\ mg_startupServer m' = mg_startupServer m /\
      currentMetrics m' g' = currentMetrics m g /\
      gw_serviceTargets g' = serviceTargetSets (cfg_Routes cfg) /\
      (forall previous, Current m = Some previous ->
        (cfg_CircuitBreaker (sn_Config previous) = cfg_CircuitBreaker cfg ->
         forall target b route, r_breakers (w_registry (gw_world g)) !! targetAddress target = Some b ->
           route ∈ cfg_Routes cfg -> target ∈ rc_Targets route ->
           exists b', r_breakers (w_registry (gw_world g')) !! targetAddress target = Some b' /\
             b_state b' = b_state b /\ b_openUntil b' = b_openUntil b /\ b_failures b' = b_failures b) /\
        (cfg_Redis (sn_Config previous) = cfg_Redis cfg -> hasRateLimitedRoutes (cfg_Routes cfg) = true ->
         forall store, sn_RateLimitStore previous = Some store -> sn_RateLimitStore snapshot = Some store))
  end.
Proof.
  intros Hmh Hnew.
  destruct (session_ok sampledTrace metricsHandler Hmh _ breakers_invariant _ _ _ _ _ _ _ _ ops Hnew) as [_ Hreach].
  pose proof (session_factory sampledTrace metricsHandler (mi, gi) ops) as Hfactory. cbn [fst] in Hfactory. rewrite (NewManager_factory _ _ _ _ _ _ _ _ _ Hnew) in Hfactory.
  destruct (foldl _ (mi, gi) ops) as [m g]. unfold breakers_ok, registry_ok in Hreach. cbn [fst snd default] in Hreach, Hfactory.
  unfold Reload. pose proof (buildSnapshot_spec sampledTrace next (Current m) m g) as Hspec.
  destruct (buildSnapshot _ _ _ _ _) as [err|[[snapshot m0] g0]].
  - split_and!; [done|done|]. intros cfg ->. destruct Hspec as [[? _]|(_ & ? & _)]; auto.
  - destruct Hspec as (cfg & store & nextStore & -> & Hv & Hs & Hf & Hc & Hst & Happ & -> & ->).
    exists cfg, snapshot. split_and!; try done.
    + unfold Ready. cbn. destruct (mg_draining m); cbn; [by rewrite andb_false_r|done].
    + unfold currentMetrics at 1. cbn. by destruct (mc_Enabled (cfg_Metrics cfg)).
    + intros previous Hprev. split.
      * intros Hcb target b route Hb Hr Ht. cbn. rewrite Hprev. cbn [nextCircuitBreakerRegistry].
        rewrite bool_decide_eq_true_2 by done.
        destruct (reconcile_kept (w_registry (gw_world g)) (circuitBreakerTargetServices (cfg_Routes cfg))
          (targetAddress target) Hreach) as [_ Hk].
        destruct (circuitBreakerTargetServices (cfg_Routes cfg) !! targetAddress target) as [service|] eqn:Hservice.
        -- rewrite Hb in Hk. destruct Hk as (b' & Hb' & _ & H1 & H2 & H3 & _). exists b'. by split_and!.
        -- assert (is_Some (circuitBreakerTargetServices (cfg_Routes cfg) !! targetAddress target)) as [? ?]; [|congruence].
           apply circuitBreakerTargetServices_names. by exists route, target.
      * intros Hredis Hlim store' Hstore'. revert Hf. rewrite Hfactory. unfold defaultRateLimitStoreFactory. rewrite Hlim, Hprev, Hstore'.
        rewrite bool_decide_eq_true_2 by done. cbn. intros [= <- _]. by rewrite Hst.
Qed.

(** ** The circuits' gauge *)

(** In every state of the gateway, after any session of requests and reloads, the
    [gateway_circuit_state] gauge is exact: a service's series is 1 when one of its breakers
    is open, 2 when none is open and one is half-open, 0 when it has breakers and all are
    closed, and there is no series for a service with no breaker. *)
Lemma session_gauge_is_exact {E G R} {HBase : BaseEnv E} {HEnv : GatewayEnv E} {HGauge : GaugeVec G} {HGaugeLaws : GaugeVecLaws G}
    {HProm : Prometheus} {HRedis : Redis R} {HJWT : JWTParser} {HJWTLaws : JWTParserLaws} sampledTrace
    (metricsHandler : Handler (D := Gateway (E := E) (G := G) (R := R))) initial trustedProxies metrics factory (e : E) redis m g ops :
  (forall w req s, sv_down (snd (metricsHandler w req s)) = sv_down s) ->
  NewManager sampledTrace initial trustedProxies metrics factory e redis = inr (m, g) ->
  let registry := w_registry (gw_world (foldl (manager_step sampledTrace metricsHandler) (m, g) ops).2) in
  exists gauge, r_circuitStateGauge registry = Some gauge /\ forall service,
    let shown := gauge_view gauge !! service in
    (shown = Some 1 <-> service_breaker registry service StateOpen) /\
    (shown = Some 2 <-> ~ service_breaker registry service StateOpen /\ service_breaker registry service StateHalfOpen) /\
    (shown = None <-> forall st, ~ service_breaker registry service st) /\
    (shown = Some 1 \/ shown = Some 2 \/ shown = Some 0 \/ shown = None).
Proof.
  intros Hmh Hnew.
  destruct (session_ok sampledTrace metricsHandler Hmh _ breakers_invariant _ _ _ _ _ _ _ _ ops Hnew) as [_ Hreach].
  by apply gauge_shows_worst_state.
Qed.

(** ** Readiness *)

Definition is_shutdown (op : manager_op) : bool := match op with OpShutdown => true | _ => false end.

Lemma manager_step_ready {E G R} {HBase : BaseEnv E} {HEnv : GatewayEnv E} {HGauge : GaugeVec G} {HProm : Prometheus}
    {HRedis : Redis R} {HJWT : JWTParser} sampledTrace metricsHandler (st : Manager (E := E) (G := G) (R := R) * Gateway) op :
  Ready st.1 = negb (mg_draining st.1) ->
  let st' := manager_step sampledTrace metricsHandler st op in
  mg_draining st'.1 = (mg_draining st.1 || is_shutdown op) /\ Ready st'.1 = negb (mg_draining st'.1).
Proof.
  destruct st as [m g]. cbn [fst]. intros Hr. destruct op as [req|next|]; cbn [manager_step is_shutdown].
  - by rewrite orb_false_r.
  - rewrite orb_false_r. unfold Reload. pose proof (buildSnapshot_spec sampledTrace next (Current m) m g) as Hspec.
    destruct (buildSnapshot _ _ _ _ _) as [err|[[snapshot m0] g0]]; [done|].
    destruct Hspec as (cfg & store & nextStore & -> & _ & _ & _ & _ & _ & _ & -> & _). cbn.
    split; [done|]. unfold Ready. cbn. destruct (mg_draining m); cbn; [by rewrite andb_false_r|done].
  - split; [by rewrite orb_true_r|]. done.
Qed.

(** C5: readiness: from its start on, through requests and reloads, good or bad, the manager
    is ready until the shutdown begins, and never after, and [/ready] tells so: 200, and then
    503 for ever. *)
Theorem ready_until_shutdown {E G R} {HBase : BaseEnv E} {HEnv : GatewayEnv E} {HGauge : GaugeVec G} {HProm : Prometheus}
    {HRedis : Redis R} {HJWT : JWTParser} sampledTrace
    (metricsHandler : Handler (D := Gateway (E := E) (G := G) (R := R))) initial trustedProxies metrics factory (e : E) redis m g ops req :
  NewManager sampledTrace initial trustedProxies metrics factory e redis = inr (m, g) -> rq_Path req = ReadyPath ->
  let '(m', g') := foldl (manager_step sampledTrace metricsHandler) (m, g) ops in
  let '(_, s) := Manager_ServeHTTP metricsHandler m' Connection req (mkServer new_conn [] g') in
  Ready m' = negb (existsb is_shutdown ops) /\
  client_status (sv_conn s) = (if existsb is_shutdown ops then StatusServiceUnavailable else StatusOK).
Proof.
  intros Hnew Hpath.
  assert (Ready m = negb (mg_draining m) /\ mg_draining m = false) as [Hr Hd].
  { unfold NewManager in Hnew. destruct initial as [cfg|]; [|done].
    match type of Hnew with match buildSnapshot _ ?a ?b ?c ?d with _ => _ end = _ =>
      pose proof (buildSnapshot_spec sampledTrace a b c d) as Hspec end.
    destruct (buildSnapshot _ _ _ _ _) as [err|[[snapshot m0] g0]]; [discriminate Hnew|].
    destruct Hspec as (cfg' & store & nextStore & _ & _ & _ & _ & _ & _ & _ & -> & _). by injection Hnew as <- <-. }
  assert (forall ops (st : Manager * Gateway), Ready st.1 = negb (mg_draining st.1) ->
    let st' := foldl (manager_step sampledTrace metricsHandler) st ops in
    mg_draining st'.1 = (mg_draining st.1 || existsb is_shutdown ops) /\ Ready st'.1 = negb (mg_draining st'.1)) as Hrun.
  { clear. induction ops as [|op ops IH]; intros st Hr; cbn [foldl existsb]; [by rewrite orb_false_r|].
    destruct (manager_step_ready sampledTrace metricsHandler st op Hr) as [Hd Hr'].
    destruct (IH _ Hr') as [Hd2 Hr2]. split; [by rewrite Hd2, Hd, orb_assoc|done]. }
  destruct (Hrun ops (m, g) Hr) as [Hd' Hr']. cbn [fst] in Hd'. rewrite Hd in Hd'. cbn [orb] in Hd'.
  destruct (foldl _ (m, g) ops) as [m' g']. cbn [fst] in Hd', Hr'.
  unfold Manager_ServeHTTP. rewrite Hpath, bool_decide_eq_false_2, bool_decide_eq_true_2 by done.
  unfold serveReady, sanitizeGatewayRequest. destruct (dn_NewUUID _) as [id down].
  rewrite Hr', Hd'. destruct (existsb is_shutdown ops); cbn [negb]; by split.
Qed.

(** ** A concrete gateway

    A network whose upstreams answer 200 or 503, or refuse the connection, as a script says:
    they never switch protocols. *)
Record demo_net := mkDemoNet { dn_script : list (option bool); dn_clock : Time; dn_even : bool }.

#[export] Instance demo_net_env : BaseEnv demo_net := {
  base_RoundTrip req e :=
    let '(result, e') := demo_base_RoundTrip req
      (mkDemoBase (map (option_map (fun ok : bool => if ok then 200 else 503)) (dn_script e)) (dn_clock e)) in
    (result, mkDemoNet (tail (dn_script e)) (db_now e') (dn_even e));
  base_Read _ e := (Some (ESentinel EOF), e);
  base_Close _ e := (None, e);
  base_ctxErr _ := None;
  base_Now := dn_clock;
  base_sleep d e := (None, mkDemoNet (dn_script e) (dn_clock e + d) (dn_even e));
  base_Int63n n e := (n / 2, e);
  base_Inject _ h := h;
}.

Lemma demo_net_no_switch req (e : demo_net) resp err :
  fst (base_RoundTrip req e) = (Some resp, err) -> rs_StatusCode resp <> StatusSwitchingProtocols.
Proof. destruct e as [[|[[]|] l] t u]; cbn; by intros [= <- _]. Qed.

Definition demo_gateway_env {E : Type} (NewUUID : E -> string * E) : GatewayEnv E := {|
  ge_NewUUID := NewUUID;
  ge_storeFailure e := (None, e);
  ge_early e := ([], e);
  ge_WithTimeout _ e := e;
  ge_Cancel e := e;
  ge_reads _ _ := O;
|}.

#[export] Instance demo_net_gateway : GatewayEnv demo_net :=
  demo_gateway_env (fun e : demo_net =>
    (if dn_even e then "uuid-0" else "uuid-1", mkDemoNet (dn_script e) (dn_clock e) (negb (dn_even e)))).
#[export] Instance demo_base_gateway : GatewayEnv demo_base := demo_gateway_env (fun e : demo_base => ("uuid", e)).

#[export] Instance demo_net_laws : GatewayEnvLaws demo_net.
Proof. split; [|done]. intros e. cbn. by destruct (dn_even e). Qed.

Definition demo_config : Config :=
  mkConfig (mkServerConfig 8080 Second Second)
    [demo_protected_route;
     mkRouteConfig "/api/users" "" "users" ["GET"] false 0 (Some (mkRateLimitConfig 2 Minute ""))
       (mkRetryConfig 2 1 1 "") [mkTarget "a" 80 1; mkTarget "b" 80 1] "round_robin"]
    (mkCBConfig 1 1 Minute Minute 1) demo_auth (mkRedisConfig "redis:6379" "" 0) (mkMetricsConfig true "/metrics")
    (mkLoggingConfig "info" "json").

(** Prometheus's handler, and a trace no span of which is sampled. *)
Definition demo_metricsHandler {D} : Handler (D := D) := fun w req s =>
  (Returned, WriteJSON w StatusOK (Text "metrics") s).
Definition demo_trace (req : Request) : option string := None.

Notation DemoGateway := (Gateway (E := demo_net) (G := gmap string Z) (R := map_redis)).

Definition demo_start (script : list (option bool)) : sum RuntimeError (Manager * DemoGateway) :=
  NewManager demo_trace (Some demo_config) [] NewMetricsRegistry None (mkDemoNet script Minute true) (fun _ => mkMapRedis 0 ∅ ∅).

Definition demo_manager (script : list (option bool)) : Manager * DemoGateway :=
  match demo_start script with
  | inr st => st
  | inl _ => (mkManager defaultRateLimitStoreFactory (cfg_Server demo_config) [] NewMetricsRegistry 0 None false false,
              mkGateway (NewResilientTransport (NewRegistry (cfg_CircuitBreaker demo_config) false) None (mkDemoNet [] 0 true))
                ∅ (fun _ => mkMapRedis 0 ∅ ∅) None)
  end.

Lemma demo_starts script :
  NewManager demo_trace (Some demo_config) [] NewMetricsRegistry None (mkDemoNet script Minute true) (fun _ => mkMapRedis 0 ∅ ∅) =
  inr ((demo_manager script).1, (demo_manager script).2).
Proof. rewrite <- surjective_pairing. unfold demo_manager, demo_start. reflexivity. Qed.

(** A request for the users' service, and one for the orders'. *)
Definition demo_users (remote : string) : Request :=
  mkRequest "GET" "" "" "/api/users/1" "" "gateway" ∅ BodyNil None 0 remote None None.
Definition demo_orders (token : string) : Request :=
  mkRequest "GET" "" "" "/api/orders/1" "" "gateway"
    {[ "Authorization" := [token]; "X-User-Id" := ["forged"] ]} BodyNil None 0 "192.0.2.1:1" None None.

Definition demo_reply (req : Request) (st : Manager * DemoGateway) : Z :=
  client_status (sv_conn (Manager_ServeHTTP demo_metricsHandler st.1 Connection req (mkServer new_conn [] st.2)).2).

(** One session: a retry over a refused connection; the open circuit is avoided; the third
    request of the window is refused; a forged identity is not accepted; an unknown path has
    no route; the client's metrics request is forbidden, the loopback's is not. *)
Lemma demo_session :
  let st := demo_manager [None; Some true; Some true; Some false] in
  let step st req := manager_step demo_trace demo_metricsHandler st (OpServe req) in
  let st1 := step st (demo_users "192.0.2.1:1") in
  let st2 := step st1 (demo_users "192.0.2.1:2") in
  demo_reply (demo_users "192.0.2.1:1") st = 200 /\ demo_reply (demo_users "192.0.2.1:2") st1 = 200 /\
  demo_reply (demo_users "192.0.2.1:3") st2 = 429 /\
  demo_reply (demo_orders "Bearer HS256.u1.admin.guess") st2 = 401 /\
  demo_reply (demo_orders "Bearer HS256.u1.admin.s3cret") st2 = 503 /\
  demo_reply (with_path "" "/none" "" (demo_users "")) st2 = 404 /\
  demo_reply (with_path "" "/metrics" "" (demo_users "192.0.2.1:3")) st2 = 403 /\
  demo_reply (with_path "" "/metrics" "" (demo_users "127.0.0.1:3")) st2 = 200.
Proof. vm_compute. split_and!; reflexivity. Qed.

(** A service that tells who asks, and one that lets in, besides, whoever does not say. *)
Definition whoami : Handler (D := DemoGateway) := fun w req s =>
  (Returned, WriteJSON w StatusOK (Text (Header_Get (rq_Header req) HeaderUserID)) s).
Definition whoami_open : Handler (D := DemoGateway) := fun w req s =>
  match GetRouteConfig req with
  | Some route =>
      if rc_AuthRequired route && isBlank (Header_Get (rq_Header req) HeaderUserID)
      then (Returned, WriteJSON w StatusOK (Text "root") s) else whoami w req s
  | None => whoami w req s
  end.

Lemma identity_is_verified_witness :
  let demo_chain h := Chain h (applicationMiddlewares demo_trace demo_config [] true false) in
  let server := mkServer new_conn [] (demo_manager []).2 in
  (forall req, demo_chain whoami Connection req server = demo_chain whoami_open Connection req server) /\
  cn_body (sv_conn (demo_chain whoami_open Connection (demo_orders "Bearer HS256.u1.admin.s3cret") server).2) = [Text "u1"].
Proof.
  split; [|vm_compute; reflexivity]. intros req. apply identity_is_verified.
  intros w r s (route & Hr & Hid). unfold whoami_open. rewrite Hr.
  destruct Hid as [[-> _]|(-> & _ & now & req0 & claims & Ha & -> & _)]; [done|].
  destruct Ha as (_ & _ & _ & _ & _ & Hs & _). unfold isBlank. by rewrite bool_decide_eq_false_2.
Defined.

Definition demo_ops : list manager_op :=
  [OpServe (demo_users "192.0.2.1:1"); OpReload (Some demo_config); OpServe (demo_orders "Bearer HS256.u1.admin.s3cret");
   OpShutdown; OpServe (demo_users "192.0.2.1:2")].

Lemma nothing_leaks_witness :
  let w := gw_world (foldl (manager_step demo_trace demo_metricsHandler) (demo_manager [None; Some true; Some false; None]) demo_ops).2 in
  count_log (is_admitted "a:80") (w_log w) = count_log (is_reported "a:80") (w_log w) /\
  0 < count_log (is_admitted "a:80") (w_log w).
Proof.
  split; [|vm_compute; reflexivity].
  pose proof (nothing_leaks demo_trace demo_metricsHandler (Some demo_config) [] NewMetricsRegistry None
    (mkDemoNet [None; Some true; Some false; None] Minute true) (fun _ => mkMapRedis 0 ∅ ∅)
    (demo_manager [None; Some true; Some false; None]).1 (demo_manager [None; Some true; Some false; None]).2 demo_ops) as [H _].
  - exact demo_net_no_switch.
  - intros w req s. apply WriteJSON_down.
  - exact (demo_starts _).
  - exact (H "a:80"%string).
Defined.

(** After a request that opened a circuit, the same configuration is taken, and the open
    circuit stays; another port is refused. *)
Definition demo_tripped : Manager * DemoGateway :=
  foldl (manager_step demo_trace demo_metricsHandler) (demo_manager [None]) [OpServe (demo_users "192.0.2.1:1")].
Definition demo_other_port : Config :=
  mkConfig (mkServerConfig 9090 Second Second) (cfg_Routes demo_config) (cfg_CircuitBreaker demo_config)
    demo_auth (cfg_Redis demo_config) (cfg_Metrics demo_config) (cfg_Logging demo_config).

Lemma demo_reloads :
  (let '(err, m, g) := Reload demo_trace (Some demo_config) demo_tripped.1 demo_tripped.2 in
   err = None /\ b_state <$> r_breakers (w_registry (gw_world g)) !! "a:80"%string = Some StateOpen) /\
  (Reload demo_trace (Some demo_other_port) demo_tripped.1 demo_tripped.2).1.1 = Some (StartupOnly ["server.port"%string]).
Proof. vm_compute. repeat split. Qed.

Lemma reload_is_atomic_witness :
  let '(err, m', g') := Reload demo_trace (Some demo_config) demo_tripped.1 demo_tripped.2 in
  exists snapshot, Current m' = Some snapshot /\ sn_Config snapshot = demo_config /\
    b_state <$> r_breakers (w_registry (gw_world g')) !! "a:80"%string = Some StateOpen.
Proof.
  pose proof (reload_is_atomic demo_trace demo_metricsHandler (Some demo_config) [] NewMetricsRegistry
    (mkDemoNet [None] Minute true) (fun _ => mkMapRedis 0 ∅ ∅) (demo_manager [None]).1 (demo_manager [None]).2
    [OpServe (demo_users "192.0.2.1:1")] (Some demo_config)
    ltac:(intros w req s; apply WriteJSON_down) (demo_starts _)) as H.
  rewrite <- (surjective_pairing (demo_manager [None])) in H. fold demo_tripped in H.
  destruct demo_reloads as [Hr _]. destruct demo_tripped as [m g]. cbn [fst snd] in Hr |- *.
  destruct (Reload demo_trace (Some demo_config) m g) as [[err m'] g']. destruct Hr as [-> Hb].
  destruct H as (cfg & snapshot & [= <-] & _ & _ & Hc & Hs & _). exists snapshot. split; [exact Hc|]. split; [exact Hs|exact Hb].
Defined.

Lemma session_gauge_is_exact_witness :
  let registry := w_registry (gw_world (foldl (manager_step demo_trace demo_metricsHandler)
    (demo_manager [None]) [OpServe (demo_users "192.0.2.1:1")]).2) in
  exists gauge, r_circuitStateGauge registry = Some gauge /\ gauge_view gauge !! "users" = Some 1 /\
    service_breaker registry "users" StateOpen.
Proof.
  pose proof (session_gauge_is_exact demo_trace demo_metricsHandler (Some demo_config) [] NewMetricsRegistry None
    (mkDemoNet [None] Minute true) (fun _ => mkMapRedis 0 ∅ ∅) (demo_manager [None]).1 (demo_manager [None]).2
    [OpServe (demo_users "192.0.2.1:1")] ltac:(intros w req s; apply WriteJSON_down) (demo_starts _)) as (gauge & Hg & H).
  rewrite <- (surjective_pairing (demo_manager [None])) in Hg, H.
  exists gauge. split; [exact Hg|]. assert (gauge_view gauge !! "users" = Some 1) as H1.
  { revert Hg. generalize gauge. clear. intros gauge Hg. enough (Some gauge = Some {[ "users"%string := 1 ]}) as [= ->] by reflexivity.
    rewrite <- Hg. vm_compute. reflexivity. }
  split; [exact H1|]. by apply (H "users"%string).
Defined.

Lemma ready_until_shutdown_witness :
  let '(m', g') := foldl (manager_step demo_trace demo_metricsHandler) (demo_manager []) demo_ops in
  let '(_, s) := Manager_ServeHTTP demo_metricsHandler m' Connection (with_path "" ReadyPath "" (demo_users "")) (mkServer new_conn [] g') in
  Ready m' = false /\ client_status (sv_conn s) = 503.
Proof.
  pose proof (ready_until_shutdown demo_trace demo_metricsHandler (Some demo_config) [] NewMetricsRegistry None
    (mkDemoNet [] Minute true) (fun _ => mkMapRedis 0 ∅ ∅) (demo_manager []).1 (demo_manager []).2 demo_ops
    (with_path "" ReadyPath "" (demo_users "")) (demo_starts _) eq_refl) as H.
  rewrite <- (surjective_pairing (demo_manager [])) in H.
  destruct (foldl _ (demo_manager []) demo_ops) as [m' g']. destruct (Manager_ServeHTTP _ _ _ _ _) as [completion s].
  exact H.
Defined.

(** ** A finding: upgrades fail and leak

    An upstream that switches protocols: the client gets 502, and neither the breaker nor
    the balancer hears of the request again. *)
Definition upgrade_manager : sum RuntimeError (Manager * Gateway (E := demo_base) (G := gmap string Z) (R := map_redis)) :=
  NewManager demo_trace (Some demo_config) [] NewMetricsRegistry None (mkDemoBase [Some 101] Minute) (fun _ => mkMapRedis 0 ∅ ∅).

Lemma upgrade_leaks :
  match upgrade_manager with
  | inr (m, g) =>
      let s := (Manager_ServeHTTP demo_metricsHandler m Connection (demo_users "192.0.2.1:1") (mkServer new_conn [] g)).2 in
      let w := gw_world (sv_down s) in
      client_status (sv_conn s) = 502 /\
      count_log (is_admitted "a:80") (w_log w) = 1 /\ count_log (is_reported "a:80") (w_log w) = 0 /\
      w_log w = [Selected "users|round_robin|a:80@1|b:80@1" "a:80"; Granted "a:80"]
  | inl _ => False
  end.
Proof. vm_compute. split_and!; reflexivity. Qed.
