(* ===== verification/Generations.v ===== *)
(** * Requests that outlive reloads: [internal/runtime/manager.go]

    [ServeHTTP] loads the current snapshot once and serves the request with it, however many
    reloads swap in others until then.  A snapshot and its transport are a generation here:
    its balancers, its targets and what they were asked for are its own; its registry of
    breakers is one that the generations of the same circuit breaker settings share; and the
    network, the open bodies, the metrics and Redis are everybody's.  A request that is
    served runs to its end.  The theorems: in each generation what breakers and balancers gave
    out comes back; and the gauge of the circuits is exact for the registry in use. *)

From stdpp Require Import list.
From S2P Require Import Prelude GoStrings GoErrors Config Http Breaker Registry LoadBalancer Fairness Retry Metrics Transport TransportTheory RateStore Handlers Router Auth RateLimiter Observe Proxy Gateway Runtime Reachable RuntimeTheory.
From stdpp Require Import options.
#[local] Set Default Proof Using "Type*".

Section Generations.
Context {E G R : Type} {HBase : BaseEnv E} {HEnv : GatewayEnv E} {HGauge : GaugeVec G} {HProm : Prometheus}
  {HRedis : Redis R} {HJWT : JWTParser}.
Notation Gateway := (Gateway (E := E) (G := G) (R := R)).
Notation Manager := (Manager (E := E) (G := G) (R := R)).
Notation Snapshot := (Snapshot (E := E) (G := G) (R := R)).
Variable sampledTrace : Request -> option string.
Variable metricsHandler : Handler (D := Gateway).

(** ** The state *)

Record Generation := mkGeneration {
  gn_snapshot : Snapshot;
  gn_registry : nat; (* its place among the registries *)
  gn_balancers : gmap string Balancer;
  gn_serviceTargets : gmap string (list Target);
  gn_log : list TransportEvent;
}.

Record Shared := mkShared {
  sh_bodies : gmap nat Body;
  sh_nextBody : nat;
  sh_metrics : MetricsRegistry;
  sh_env : E;
  sh_redis : RedisConfig -> R;
}.

Record Site := mkSite {
  st_manager : Manager;
  st_registries : list (Registry G);
  st_generations : list Generation; (* the last is the current one *)
  st_shared : Shared;
  st_pending : list (Request * nat); (* requests, and the generations they loaded *)
}.
Implicit Types (gen : Generation) (sh : Shared) (s : Site).

Definition metrics_enabled gen : bool := mc_Enabled (cfg_Metrics (sn_Config (gn_snapshot gen))).

(** The gateway as a request of a generation sees it. *)
Definition view gen (registry : Registry G) sh : Gateway :=
  mkGateway
    (mkWorld registry (gn_balancers gen) (sh_bodies sh) (sh_nextBody sh)
       (if metrics_enabled gen then Some (sh_metrics sh) else None) (sh_env sh) (gn_log gen))
    (gn_serviceTargets gen) (sh_redis sh) (sh_config <$> sn_RateLimitStore (gn_snapshot gen)).

(** What of a gateway is everybody's. *)
Definition shared_of (g : Gateway) sh : Shared :=
  let w := gw_world g in
  mkShared (w_bodies w) (w_nextBody w) (default (sh_metrics sh) (w_metrics w)) (w_env w) (gw_redis g).

(** The [k]th generation works on the state: [f] is what it does to the gateway it sees. *)
Definition on_generation (k : nat) (f : Gateway -> Gateway) s : Site :=
  match st_generations s !! k with
  | None => s
  | Some gen =>
      match st_registries s !! gn_registry gen with
      | None => s
      | Some registry =>
          let g := f (view gen registry (st_shared s)) in
          let gen := mkGeneration (gn_snapshot gen) (gn_registry gen) (w_balancers (gw_world g)) (gn_serviceTargets gen) (w_log (gw_world g)) in
          mkSite (st_manager s) (<[gn_registry gen := w_registry (gw_world g)]> (st_registries s))
            (<[k := gen]> (st_generations s)) (shared_of g (st_shared s)) (st_pending s)
      end
  end.

Definition current s : nat := pred (length (st_generations s)).

(** ** The operations *)

(** [ServeHTTP], after it loaded the snapshot. *)
Definition serve_loaded (snapshot : Snapshot) : Handler (D := Gateway) := fun w req server =>
  if sn_MetricsEnabled snapshot && bool_decide (rq_Path req = sn_MetricsPath snapshot)
  then serveMetrics metricsHandler w req server
  else sn_Application snapshot w req server.

Definition is_probe_path (req : Request) : bool := bool_decide (rq_Path req = HealthPath) || bool_decide (rq_Path req = ReadyPath).

Definition served (handler : Handler (D := Gateway)) (req : Request) (g : Gateway) : Gateway :=
  sv_down (snd (handler Connection req (mkServer new_conn [] g))).

Definition with_pending (pending : list (Request * nat)) s : Site :=
  mkSite (st_manager s) (st_registries s) (st_generations s) (st_shared s) pending.
Definition with_manager (m : Manager) s : Site :=
  mkSite m (st_registries s) (st_generations s) (st_shared s) (st_pending s).

(** A probe is answered without a snapshot; another request loads the current one. *)
Definition arrive (req : Request) s : Site :=
  if is_probe_path req then on_generation (current s) (served (Manager_ServeHTTP metricsHandler (st_manager s)) req) s
  else with_pending (st_pending s ++ [(req, current s)]) s.

(** The [i]th request that waits is served. *)
Definition serve (i : nat) s : Site :=
  match st_pending s !! i with
  | None => s
  | Some (req, k) =>
      match st_generations s !! k with
      | None => s
      | Some gen => with_pending (delete i (st_pending s)) (on_generation k (served (serve_loaded (gn_snapshot gen)) req) s)
      end
  end.

(** A reload: the next generation has the registry of the current one, or a clone of it,
    whose original the requests that are still under way keep. *)
Definition reload (next : option Config) s : Site :=
  match st_generations s !! current s with
  | None => s
  | Some gen =>
      match st_registries s !! gn_registry gen with
      | None => s
      | Some registry =>
          let g := view gen registry (st_shared s) in
          let m := with_stores (mg_nextStore (st_manager s)) (sh_metrics (st_shared s)) (st_manager s) in
          match Reload sampledTrace next m g with
          | (None, m', g') =>
              match Current m' with
              | None => s
              | Some snapshot =>
                  let cfg := cfg_CircuitBreaker (sn_Config snapshot) in
                  let registry' := w_registry (gw_world g') in
                  let '(registries, index) :=
                    if bool_decide (cfg_CircuitBreaker (sn_Config (gn_snapshot gen)) = cfg)
                    then (<[gn_registry gen := registry']> (st_registries s), gn_registry gen)
                    else (<[gn_registry gen := snd (CloneWithConfig (now (gw_world g)) cfg false registry)]> (st_registries s) ++ [registry'],
                          length (st_registries s)) in
                  mkSite m' registries
                    (st_generations s ++ [mkGeneration snapshot index (w_balancers (gw_world g')) (gw_serviceTargets g') []])
                    (st_shared s) (st_pending s)
              end
          | (Some _, m', _) => with_manager m' s
          end
      end
  end.

Inductive site_op := SiteArrive (req : Request) | SiteServe (i : nat) | SiteReload (next : option Config) | SiteShutdown.

Definition site_step s (op : site_op) : Site :=
  match op with
  | SiteArrive req => arrive req s
  | SiteServe i => serve i s
  | SiteReload next => reload next s
  | SiteShutdown => with_manager (BeginShutdown (st_manager s)) s
  end.

(** The site of a new manager, whose gateway has no request behind it. *)
Definition new_site (m : Manager) (g : Gateway) : option Site :=
  snapshot ← Current m;
  Some (mkSite m [w_registry (gw_world g)]
    [mkGeneration snapshot 0 (w_balancers (gw_world g)) (gw_serviceTargets g) []]
    (mkShared (w_bodies (gw_world g)) (w_nextBody (gw_world g)) (currentMetrics m g) (w_env (gw_world g)) (gw_redis g)) []).

(** [ServeHTTP] loads the snapshot that it serves the request with. *)
Lemma ServeHTTP_loads m snapshot w req server :
  is_probe_path req = false -> Current m = Some snapshot ->
  Manager_ServeHTTP metricsHandler m w req server = serve_loaded snapshot w req server.
Proof using Type.
  intros [H1 H2]%orb_false_iff Hc. unfold Manager_ServeHTTP. by rewrite H1, H2, Hc.
Qed.

(** ** The invariant *)

(** What was asked of breakers and balancers has been given back. *)
Definition balanced (log : list TransportEvent) : Prop :=
  (forall target, count_log (is_admitted target) log = count_log (is_reported target) log) /\
  (forall key, count_log (is_selected key) log = count_log (is_released key) log).

Definition shared_settled sh : Prop :=
  (forall id b, sh_bodies sh !! id = Some b -> body_settled b) /\
  (forall id, (sh_nextBody sh <= id)%nat -> sh_bodies sh !! id = None).

Lemma quiescent_view gen registry sh : quiescent (gw_world (view gen registry sh)) <-> shared_settled sh /\ balanced (gn_log gen).
Proof using HBase HEnv HGauge.
  split.
  - intros [[H1 H2 _] Hs]. destruct (settled_msum _ Hs) as [Hr Hk]. split.
    + destruct Hs as [Hb Hn]. split; [intros id b Hid; by eapply Hb|exact Hn].
    + cbn in H1, H2, Hr, Hk. split; intros x; rewrite ?H1, ?H2, ?Hr, ?Hk; lia.
  - intros [[Hb Hn] [H1 H2]].
    assert (settled None (gw_world (view gen registry sh))) as Hs by (split; [intros id b Hid _; by eapply Hb|exact Hn]).
    destruct (settled_msum _ Hs) as [Hr Hk]. split; [|done]. cbn in Hr, Hk. split; cbn.
    + intros t. rewrite H1, Hr. lia.
    + intros k. rewrite H2, Hk. lia.
    + exact Hn.
Qed.

Definition built gen : Prop := exists trustedProxies metrics store,
  sn_Application (gn_snapshot gen) = applicationHandler sampledTrace (sn_Config (gn_snapshot gen)) trustedProxies metrics store.

(** A generation's registry is there. *)
Definition housed s gen : Prop := is_Some (st_registries s !! gn_registry gen).

(** The current snapshot is the last generation's; each generation's handler is the chain of
    its configuration, and its registry is there. *)
Record site_ok s : Prop := {
  sv_current : gn_snapshot <$> st_generations s !! current s = Current (st_manager s);
  sv_some : is_Some (Current (st_manager s));
  sv_generations gen : gen ∈ st_generations s -> built gen /\ housed s gen;
}.

(** Nothing is out that was not given back. *)
Record site_quiet s : Prop := {
  sq_balanced gen : gen ∈ st_generations s -> balanced (gn_log gen);
  sq_settled : shared_settled (st_shared s);
}.

(** What a generation does to the gateway that it sees. *)
Lemma on_generation_ok k f s : site_ok s -> site_ok (on_generation k f s).
Proof using HBase HEnv HGauge.
  intros Hinv. pose proof Hinv as [Hc Hs Hg]. unfold on_generation. destruct (st_generations s !! k) as [gen|] eqn:Hk; [|done].
  destruct (st_registries s !! gn_registry gen) as [registry|] eqn:Hr; [|done].
  destruct (Hg gen) as (Hbuilt & _); [by eapply list_elem_of_lookup_2|].
  set (gen' := mkGeneration _ _ _ _ _). split; cbn.
  - rewrite <- Hc. unfold current. cbn. rewrite length_insert. destruct (decide (pred (length (st_generations s)) = k)) as [->|Hne].
    + rewrite list_lookup_insert_eq by (eapply lookup_lt_Some; exact Hk). by rewrite Hk.
    + by rewrite list_lookup_insert_ne.
  - done.
  - intros x Hx. unfold housed. cbn. assert (built x /\ housed s x) as (H1 & H2).
    { apply list_elem_of_lookup_1 in Hx as [j Hj]. apply list_lookup_insert_Some in Hj as [(-> & <- & _)|[_ Hj]].
      - split; [exact Hbuilt|by eexists].
      - by apply Hg, (list_elem_of_lookup_2 _ j). }
    split; [done|]. apply lookup_lt_is_Some_2. rewrite length_insert. by apply lookup_lt_is_Some_1.
Qed.

Lemma on_generation_quiet k f s :
  (forall g, quiescent (gw_world g) -> quiescent (gw_world (f g))) -> site_quiet s -> site_quiet (on_generation k f s).
Proof using HBase HEnv HGauge.
  intros Hf Hinv. pose proof Hinv as [Hg Hsh]. unfold on_generation. destruct (st_generations s !! k) as [gen|] eqn:Hk; [|done].
  destruct (st_registries s !! gn_registry gen) as [registry|] eqn:Hr; [|done].
  pose proof (proj2 (quiescent_view gen registry (st_shared s)) (conj Hsh (Hg gen (list_elem_of_lookup_2 _ _ _ Hk)))) as Hq. apply Hf in Hq.
  set (g := f (view gen registry (st_shared s))) in *.
  set (gen' := mkGeneration _ _ _ _ _).
  assert (shared_settled (shared_of g (st_shared s)) /\ balanced (gn_log gen')) as [Hsh' Hbal'].
  { apply (quiescent_view gen' registry). by apply (quiescent_same (gw_world g)). }
  split; cbn; [|exact Hsh'].
  intros x Hx. apply list_elem_of_lookup_1 in Hx as [j Hj]. apply list_lookup_insert_Some in Hj as [(-> & <- & _)|[_ Hj]]; [exact Hbal'|].
  by apply Hg, (list_elem_of_lookup_2 _ j).
Qed.

Context {HJWTLaws : JWTParserLaws}.

(** Prometheus's handler reads the registry only. *)
Hypothesis metricsHandler_reads : forall w req server, sv_down (snd (metricsHandler w req server)) = sv_down server.

Lemma serve_loaded_keeps (I : Gateway -> Prop) gen :
  kept_by_downstream I -> (forall timeout, keeps I (Proxy_ServeHTTP timeout)) -> built gen -> keeps I (serve_loaded (gn_snapshot gen)).
Proof using HJWTLaws metricsHandler_reads.
  intros HI Hproxy (tp & me & store & Happ) w req server Hs. unfold serve_loaded. destruct (_ && _).
  - unfold serveMetrics. pose proof (sanitize_keeps I w req server HI Hs) as Hsan.
    destruct (sanitizeGatewayRequest w req server) as [req' server']. cbn [snd] in Hsan.
    destruct (negb _); [by apply (respondError_keeps I)|]. by rewrite metricsHandler_reads.
  - rewrite Happ. by apply (application_keeps sampledTrace metricsHandler metricsHandler_reads I).
Qed.

Lemma current_built s : site_ok s -> application_built sampledTrace (st_manager s).
Proof using Type.
  intros [Hc _ Hg] snapshot Hs. rewrite Hs in Hc. apply fmap_Some in Hc as (gen & Hk & ->).
  apply (Hg gen). by eapply list_elem_of_lookup_2.
Qed.

(** A predicate that requests preserve, whatever the targets of the services. *)
Lemma arrive_serves (P : Gateway -> Prop) req s :
  (forall g, P g -> exists J : Gateway -> Prop,
     kept_by_downstream J /\ (forall timeout, keeps J (Proxy_ServeHTTP timeout)) /\ J g /\ forall g', J g' -> P g') ->
  site_ok s -> forall g, P g -> P (served (Manager_ServeHTTP metricsHandler (st_manager s)) req g).
Proof using HJWTLaws metricsHandler_reads.
  intros HP Hinv g Hg. destruct (HP g Hg) as (J & HJ & Hproxy & Hg' & HJP). apply HJP.
  by apply (Manager_keeps sampledTrace metricsHandler metricsHandler_reads J _ HJ Hproxy (current_built s Hinv) Connection req (mkServer new_conn [] g)).
Qed.

Lemma loaded_serves (P : Gateway -> Prop) req gen :
  (forall g, P g -> exists J : Gateway -> Prop,
     kept_by_downstream J /\ (forall timeout, keeps J (Proxy_ServeHTTP timeout)) /\ J g /\ forall g', J g' -> P g') ->
  built gen -> forall g, P g -> P (served (serve_loaded (gn_snapshot gen)) req g).
Proof using HJWTLaws metricsHandler_reads.
  intros HP Hb g Hg. destruct (HP g Hg) as (J & HJ & Hproxy & Hg' & HJP). apply HJP.
  by apply (serve_loaded_keeps J gen HJ Hproxy Hb Connection req (mkServer new_conn [] g)).
Qed.

(** A reload adds a generation, if it is accepted. *)
Lemma Reload_builds next m g :
  match Reload sampledTrace next m g with
  | (Some _, m', g') => m' = m /\ g' = g
  | (None, m', g') => exists cfg store nextStore snapshot, next = Some cfg /\ Current m' = Some snapshot /\ sn_Config snapshot = cfg /\
      (exists trustedProxies metrics store, sn_Application snapshot = applicationHandler sampledTrace (sn_Config snapshot) trustedProxies metrics store) /\
      g' = newTransports cfg (nextCircuitBreakerRegistry (now (gw_world g)) (cfg_CircuitBreaker cfg)
             (circuitBreakerTargetServices (cfg_Routes cfg)) (Current m) (w_registry (gw_world g)))
             (if mc_Enabled (cfg_Metrics cfg) then Some (currentMetrics m g) else None) store g /\
      m' = with_current (Some snapshot) (if mg_draining m then mg_ready m else true) (with_stores nextStore (currentMetrics m g) m)
  end.
Proof using Type.
  unfold Reload. pose proof (buildSnapshot_spec sampledTrace next (Current m) m g) as Hspec.
  destruct (buildSnapshot _ _ _ _ _) as [err|[[snapshot m0] g0]]; [done|].
  destruct Hspec as (cfg & store & nextStore & -> & _ & _ & _ & Hc & _ & Happ & -> & ->).
  exists cfg, store, nextStore, snapshot. split_and!; [done|done|done| |done|done]. eexists _, _, _. rewrite Hc. exact Happ.
Qed.

Lemma reload_ok next s : site_ok s -> site_ok (reload next s).
Proof using HBase HEnv HGauge.
  intros Hinv. pose proof Hinv as [Hc Hs Hg]. unfold reload. destruct (st_generations s !! current s) as [gen|] eqn:Hk; [|done].
  destruct (st_registries s !! gn_registry gen) as [registry|] eqn:Hr; [|done].
  set (g := view _ _ _). set (m := with_stores _ _ _). pose proof (Reload_builds next m g) as Hb.
  destruct (Reload sampledTrace next m g) as [[[err|] m'] g'].
  - destruct Hb as [-> _]. split; [|exact Hs|exact Hg]. change (gn_snapshot <$> st_generations s !! current s = Current (st_manager s)). by rewrite Hk.
  - destruct Hb as (cfg & store & nextStore & snapshot & -> & Hm' & Hcfg & Hbuilt & _ & _). rewrite Hm'.
    assert (exists registries index, (if bool_decide (cfg_CircuitBreaker (sn_Config (gn_snapshot gen)) = cfg_CircuitBreaker (sn_Config snapshot))
      then (<[gn_registry gen := w_registry (gw_world g')]> (st_registries s), gn_registry gen)
      else (<[gn_registry gen := snd (CloneWithConfig (now (gw_world g)) (cfg_CircuitBreaker (sn_Config snapshot)) false registry)]> (st_registries s)
              ++ [w_registry (gw_world g')], length (st_registries s))) = (registries, index) /\
      (index < length registries)%nat /\ (length (st_registries s) <= length registries)%nat) as (registries & index & -> & Hi & Hle).
    { destruct (bool_decide _); eexists _, _; split; try reflexivity; rewrite ?length_app, ?length_insert; cbn; split; try lia.
      apply lookup_lt_Some in Hr. lia. }
    split; cbn.
    + unfold current. cbn. rewrite length_app, Nat.add_comm. cbn. rewrite lookup_app_r, Nat.sub_diag by done. cbn. by rewrite Hm'.
    + by rewrite Hm'.
    + intros x [Hx| ->%list_elem_of_singleton]%elem_of_app.
      * destruct (Hg x Hx) as (H1 & [r H2]). split; [done|]. apply lookup_lt_is_Some_2. cbn.
        apply lookup_lt_Some in H2. lia.
      * split; [exact Hbuilt|by apply lookup_lt_is_Some_2].
Qed.

(** A reload asks nothing of breakers and balancers. *)
Lemma reload_quiet next s : site_quiet s -> site_quiet (reload next s).
Proof using Type.
  intros Hinv. pose proof Hinv as [Hg Hsh]. unfold reload. destruct (st_generations s !! current s) as [gen|]; [|done].
  destruct (st_registries s !! gn_registry gen) as [registry|]; [|done].
  destruct (Reload _ _ _ _) as [[[err|] m'] g']; [split; [exact Hg|exact Hsh]|]. destruct (Current m') as [snapshot|]; [|done].
  destruct (bool_decide _); (split; cbn; [|done]); intros x [Hx| ->%list_elem_of_singleton]%elem_of_app; [by apply Hg| |by apply Hg| ]; by split.
Qed.

Context {HLaws : GatewayEnvLaws E}.

Lemma quiescent_serves : no_switch (E := E) -> forall g : Gateway, quiescent (gw_world g) -> exists J : Gateway -> Prop,
  kept_by_downstream J /\ (forall timeout, keeps J (Proxy_ServeHTTP timeout)) /\ J g /\ forall g', J g' -> quiescent (gw_world g').
Proof using HLaws HJWTLaws metricsHandler_reads. intros Hno g Hq. by apply (si_serve _ (quiescent_invariant Hno)). Qed.

Lemma site_step_ok s op : site_ok s -> site_ok (site_step s op).
Proof using HBase HEnv HGauge.
  intros Hinv. destruct op as [req|i|next|]; cbn [site_step].
  - unfold arrive. destruct (is_probe_path req); [by apply on_generation_ok|]. destruct Hinv as [Hc Hs Hg]. split; [exact Hc|exact Hs|exact Hg].
  - unfold serve. destruct (st_pending s !! i) as [[req k]|]; [|done]. destruct (st_generations s !! k) as [gen|]; [|done].
    assert (site_ok (on_generation k (served (serve_loaded (gn_snapshot gen)) req) s)) as [Hc Hs Hg]; [by apply on_generation_ok|split; [exact Hc|exact Hs|exact Hg]].
  - by apply reload_ok.
  - destruct Hinv as [Hc Hs Hg]. split; [exact Hc|exact Hs|exact Hg].
Qed.

(** A predicate of sites that requests preserve, in whichever generation they are served,
    and reloads do. *)
Lemma site_step_preserves (P : Gateway -> Prop) (Q : Site -> Prop) s op :
  (forall g, P g -> exists J : Gateway -> Prop,
     kept_by_downstream J /\ (forall timeout, keeps J (Proxy_ServeHTTP timeout)) /\ J g /\ forall g', J g' -> P g') ->
  (forall k f s, (forall g, P g -> P (f g)) -> Q s -> Q (on_generation k f s)) ->
  (forall next s, Q s -> Q (reload next s)) -> (forall pending s, Q s -> Q (with_pending pending s)) -> (forall m s, Q s -> Q (with_manager m s)) ->
  site_ok s -> Q s -> Q (site_step s op).
Proof using HJWTLaws metricsHandler_reads.
  intros HP Hon Hreload Hpending Hmanager Hok Hs. destruct op as [req|i|next|]; cbn [site_step]; [| |by apply Hreload|by apply Hmanager].
  - unfold arrive. destruct (is_probe_path req); [|by apply Hpending]. apply Hon; [|done]. by apply arrive_serves.
  - unfold serve. destruct (st_pending s !! i) as [[req k]|]; [|done]. destruct (st_generations s !! k) as [gen|] eqn:Hk; [|done].
    apply Hpending, Hon; [|done]. apply loaded_serves; [done|]. apply (sv_generations _ Hok). by eapply list_elem_of_lookup_2.
Qed.

Lemma site_run_preserves (P : Gateway -> Prop) (Q : Site -> Prop) ops s :
  (forall g, P g -> exists J : Gateway -> Prop,
     kept_by_downstream J /\ (forall timeout, keeps J (Proxy_ServeHTTP timeout)) /\ J g /\ forall g', J g' -> P g') ->
  (forall k f s, (forall g, P g -> P (f g)) -> Q s -> Q (on_generation k f s)) ->
  (forall next s, Q s -> Q (reload next s)) -> (forall pending s, Q s -> Q (with_pending pending s)) -> (forall m s, Q s -> Q (with_manager m s)) ->
  site_ok s -> Q s -> Q (foldl site_step s ops).
Proof using HJWTLaws metricsHandler_reads.
  intros HP Hon Hreload Hpending Hmanager Hok Hs. apply (foldl_preserves (fun s => site_ok s /\ Q s)); [|done].
  intros s' op [Hok' Hs']. split; [by apply site_step_ok|]. by apply (site_step_preserves P).
Qed.

Lemma run_quiet ops s : no_switch (E := E) -> site_ok s -> site_quiet s -> site_quiet (foldl site_step s ops).
Proof using HLaws HJWTLaws metricsHandler_reads.
  intros Hno. apply (site_run_preserves (fun g => quiescent (gw_world g))).
  - by apply quiescent_serves.
  - intros k f s'. apply on_generation_quiet.
  - intros next s'. apply reload_quiet.
  - intros pending s' [Hg Hsh]. split; [exact Hg|exact Hsh].
  - intros m s' [Hg Hsh]. split; [exact Hg|exact Hsh].
Qed.

Lemma new_site_starts initial trustedProxies metrics factory (e : E) redis m g s :
  NewManager sampledTrace initial trustedProxies metrics factory e redis = inr (m, g) -> new_site m g = Some s ->
  site_ok s /\ site_quiet s /\ st_registries s = [w_registry (gw_world g)] /\ (gn_registry <$> st_generations s) = [0%nat].
Proof using HBase HEnv HGauge.
  intros Hnew Hs. unfold NewManager in Hnew. destruct initial as [cfg|]; [|done].
  match type of Hnew with match buildSnapshot _ ?a ?b ?c ?d with _ => _ end = _ => pose proof (buildSnapshot_spec sampledTrace a b c d) as Hspec end.
  destruct (buildSnapshot _ _ _ _ _) as [err|[[snapshot m0] g0]]; [done|].
  destruct Hspec as (cfg' & store & nextStore & _ & _ & _ & _ & Hc & _ & Happ & -> & ->). injection Hnew as <- <-.
  cbn in Hs. injection Hs as <-. split_and!; [split; cbn; [done|by eexists|]|split; cbn; [|by split]|done|done].
  - intros gen ->%list_elem_of_singleton. split; [|by eexists]. eexists _, _, _. cbn. rewrite Hc. exact Happ.
  - intros gen ->%list_elem_of_singleton. by split.
Qed.

(** ** The gauge of the registry in use *)

(** The current generation's registry. *)
Definition current_registry s : option (Registry G) :=
  gen ← st_generations s !! current s; st_registries s !! gn_registry gen.

Definition site_gauge s : Prop := exists registry, current_registry s = Some registry /\ reg_reachable registry.

Lemma on_generation_gauge k f s :
  (forall g, breakers_ok g -> breakers_ok (f g)) -> site_gauge s -> site_gauge (on_generation k f s).
Proof using HBase HEnv HGauge.
  intros Hf (registry & Hreg & Hreach). unfold on_generation. destruct (st_generations s !! k) as [gen|] eqn:Hk; [|by eexists].
  destruct (st_registries s !! gn_registry gen) as [registry'|] eqn:Hr; [|by eexists].
  apply bind_Some in Hreg as (cur & Hcur & Hreg). set (g := f (view gen registry' (st_shared s))) in *.
  set (gen' := mkGeneration _ _ _ _ _).
  assert (exists cur', (<[k := gen']> (st_generations s)) !! current s = Some cur' /\ gn_registry cur' = gn_registry cur) as (cur' & Hcur' & Hi).
  { destruct (decide (current s = k)) as [Heq|Hne].
    - rewrite Heq in Hcur |- *. rewrite list_lookup_insert_eq by (eapply lookup_lt_Some; exact Hk). eexists. split; [done|]. unfold gen'. cbn. congruence.
    - rewrite list_lookup_insert_ne by done. by eexists. }
  unfold site_gauge, current_registry, current. cbn [st_generations st_registries]. rewrite length_insert.
  fold (current s). rewrite Hcur'. change (gn_registry gen') with (gn_registry gen). cbn [mbind option_bind]. rewrite Hi.
  destruct (decide (gn_registry gen = gn_registry cur)) as [Heq|Hne].
  - rewrite Heq, list_lookup_insert_eq by (eapply lookup_lt_Some; exact Hreg). eexists. split; [done|].
    apply (Hf (view gen registry' (st_shared s))). unfold breakers_ok, registry_ok. cbn. congruence.
  - rewrite list_lookup_insert_ne by done. by exists registry.
Qed.

Lemma reload_gauge {HGaugeLaws : GaugeVecLaws G} next s : site_gauge s -> site_gauge (reload next s).
Proof using Type.
  intros Hinv. pose proof Hinv as (registry & Hreg & Hreach). apply bind_Some in Hreg as (gen & Hk & Hr).
  unfold reload. rewrite Hk, Hr. set (g := view _ _ _). set (m := with_stores _ _ _). pose proof (Reload_builds next m g) as Hb.
  destruct (Reload sampledTrace next m g) as [[[err|] m'] g']; [exact Hinv|].
  destruct Hb as (cfg & store & nextStore & snapshot & -> & Hm' & Hcfg & Hbuilt & Hg' & _). rewrite Hm'.
  assert (breakers_ok g') as Hok by (subst g'; by apply (si_build _ breakers_invariant)).
  exists (w_registry (gw_world g')). split; [|exact Hok].
  unfold current_registry, current.
  case_bool_decide; cbn [st_generations st_registries]; rewrite <- last_lookup, last_snoc; cbn [mbind option_bind gn_registry].
  - apply list_lookup_insert_eq. by eapply lookup_lt_Some.
  - rewrite lookup_app_r by (by rewrite length_insert). by rewrite length_insert, Nat.sub_diag.
Qed.

Lemma run_gauge {HGaugeLaws : GaugeVecLaws G} ops s : site_ok s -> site_gauge s -> site_gauge (foldl site_step s ops).
Proof using HJWTLaws metricsHandler_reads.
  apply (site_run_preserves breakers_ok).
  - intros g Hg. by apply (si_serve _ breakers_invariant).
  - intros k f s'. apply on_generation_gauge.
  - intros next s'. apply reload_gauge.
  - done.
  - done.
Qed.
End Generations.

(** C2: nothing leaks, across reloads too: after any sequence of requests, which are served
    with the snapshot that they loaded however many reloads took place since, of reloads and
    of shutdowns, in which no upstream switches protocols, the results reported to each
    breaker of each generation are as many as the requests it admitted, and the releases of
    each balancer as many as its selections. *)
Theorem nothing_leaks_across_reloads {E G R} {HBase : BaseEnv E} {HEnv : GatewayEnv E} {HLaws : GatewayEnvLaws E} {HGauge : GaugeVec G}
    {HProm : Prometheus} {HRedis : Redis R} {HJWT : JWTParser} {HJWTLaws : JWTParserLaws} sampledTrace
    (metricsHandler : Handler (D := Gateway (E := E) (G := G) (R := R))) initial trustedProxies metrics factory (e : E) redis m g s ops :
  no_switch (E := E) -> (forall w req server, sv_down (snd (metricsHandler w req server)) = sv_down server) ->
  NewManager sampledTrace initial trustedProxies metrics factory e redis = inr (m, g) -> new_site m g = Some s ->
  forall gen, gen ∈ st_generations (foldl (site_step sampledTrace metricsHandler) s ops) ->
  (forall target, count_log (is_admitted target) (gn_log gen) = count_log (is_reported target) (gn_log gen)) /\
  (forall key, count_log (is_selected key) (gn_log gen) = count_log (is_released key) (gn_log gen)).
Proof.
  intros Hno Hmh Hnew Hs gen Hgen. destruct (new_site_starts sampledTrace _ _ _ _ _ _ _ _ _ Hnew Hs) as (Hok & Hq & _).
  by apply (sq_balanced _ (run_quiet sampledTrace metricsHandler Hmh ops s Hno Hok Hq)).
Qed.

(** C12: at all times, whichever requests of earlier snapshots are still served and whatever
    was reloaded, the [gateway_circuit_state] gauge of the registry in use is exact: a
    service's series is 1 when one of its breakers is open, 2 when none is open and one is
    half-open, 0 when it has breakers and all are closed, and there is no series for a
    service with no breaker. *)
Theorem gauge_is_exact_across_reloads {E G R} {HBase : BaseEnv E} {HEnv : GatewayEnv E} {HGauge : GaugeVec G} {HGaugeLaws : GaugeVecLaws G}
    {HProm : Prometheus} {HRedis : Redis R} {HJWT : JWTParser} {HJWTLaws : JWTParserLaws} sampledTrace
    (metricsHandler : Handler (D := Gateway (E := E) (G := G) (R := R))) initial trustedProxies metrics factory (e : E) redis m g s ops :
  (forall w req server, sv_down (snd (metricsHandler w req server)) = sv_down server) ->
  NewManager sampledTrace initial trustedProxies metrics factory e redis = inr (m, g) -> new_site m g = Some s ->
  exists registry gauge, current_registry (foldl (site_step sampledTrace metricsHandler) s ops) = Some registry /\
  r_circuitStateGauge registry = Some gauge /\ forall service,
    let shown := gauge_view gauge !! service in
    (shown = Some 1 <-> service_breaker registry service StateOpen) /\
    (shown = Some 2 <-> ~ service_breaker registry service StateOpen /\ service_breaker registry service StateHalfOpen) /\
    (shown = None <-> forall st, ~ service_breaker registry service st) /\
    (shown = Some 1 \/ shown = Some 2 \/ shown = Some 0 \/ shown = None).
Proof.
  intros Hmh Hnew Hs. destruct (new_site_starts sampledTrace _ _ _ _ _ _ _ _ _ Hnew Hs) as (Hok & _ & Hregs & Hgens).
  destruct (run_gauge sampledTrace metricsHandler Hmh ops s Hok) as (registry & Hreg & Hreach).
  { destruct (session_ok sampledTrace metricsHandler Hmh _ breakers_invariant _ _ _ _ _ _ _ _ [] Hnew) as [_ Hr].
    exists (w_registry (gw_world g)). split; [|exact Hr]. unfold current_registry, current. rewrite <- last_lookup, Hregs.
    destruct (st_generations s) as [|gen []]; [done| |done]. injection Hgens as Hi. cbn. by rewrite Hi. }
  destruct (gauge_shows_worst_state registry Hreach) as (gauge & Hgauge & Hexact). by exists registry, gauge.
Qed.

(** ** Instances *)

Notation DemoSite := (Site (E := demo_net) (G := gmap string Z) (R := map_redis)).

Definition demo_site (script : list (option bool)) : DemoSite :=
  default (mkSite (demo_manager script).1 [] [] (mkShared ∅ 0 NewMetricsRegistry (mkDemoNet [] 0 true) (fun _ => mkMapRedis 0 ∅ ∅)) [])
    (new_site (demo_manager script).1 (demo_manager script).2).

Lemma demo_site_starts script : new_site (demo_manager script).1 (demo_manager script).2 = Some (demo_site script).
Proof. reflexivity. Qed.

(** Other settings of the breakers; and the users' service without its first target. *)
Definition demo_patient : Config :=
  mkConfig (cfg_Server demo_config) (cfg_Routes demo_config) (mkCBConfig 5 1 Minute Minute 1)
    demo_auth (cfg_Redis demo_config) (cfg_Metrics demo_config) (cfg_Logging demo_config).
Definition demo_shrunk : Config :=
  mkConfig (cfg_Server demo_config)
    [demo_protected_route;
     mkRouteConfig "/api/users" "" "users" ["GET"] false 0 (Some (mkRateLimitConfig 2 Minute ""))
       (mkRetryConfig 2 1 1 "") [mkTarget "b" 80 1] "round_robin"]
    (cfg_CircuitBreaker demo_config) demo_auth (cfg_Redis demo_config) (cfg_Metrics demo_config) (cfg_Logging demo_config).

Definition demo_run (script : list (option bool)) (ops : list site_op) : DemoSite :=
  foldl (site_step demo_trace demo_metricsHandler) (demo_site script) ops.

(** A request that arrived before a reload is served after it, and one after. *)
Definition demo_late : list site_op :=
  [SiteArrive (demo_users "192.0.2.1:1"); SiteReload (Some demo_patient); SiteArrive (demo_users "192.0.2.1:1"); SiteServe 0; SiteServe 0].
Definition demo_log (generation : nat) (s : DemoSite) : list TransportEvent :=
  from_option gn_log [] (st_generations s !! generation).

Lemma nothing_leaks_across_reloads_witness :
  let s := demo_run [None; Some true; Some true] demo_late in
  length (st_generations s) = 2%nat /\
  count_log (is_admitted "b:80") (demo_log 0 s) = 1 /\ count_log (is_reported "b:80") (demo_log 0 s) = 1 /\
  count_log (is_admitted "a:80") (demo_log 1 s) = count_log (is_reported "a:80") (demo_log 1 s).
Proof.
  pose proof (nothing_leaks_across_reloads demo_trace demo_metricsHandler (Some demo_config) [] NewMetricsRegistry None
    (mkDemoNet [None; Some true; Some true] Minute true) (fun _ => mkMapRedis 0 ∅ ∅)
    (demo_manager [None; Some true; Some true]).1 (demo_manager [None; Some true; Some true]).2 (demo_site [None; Some true; Some true])
    demo_late demo_net_no_switch ltac:(intros w req server; apply WriteJSON_down) (demo_starts _) (demo_site_starts _) : forall gen,
    gen ∈ st_generations (demo_run [None; Some true; Some true] demo_late) -> _) as H.
  split_and!; [vm_compute; reflexivity|vm_compute; reflexivity|vm_compute; reflexivity|].
  destruct (lookup_lt_is_Some_2 (st_generations (demo_run [None; Some true; Some true] demo_late)) 1) as [gen Hgen];
    [apply Nat.ltb_lt; vm_compute; reflexivity|].
  unfold demo_log. rewrite Hgen. by apply (H gen (list_elem_of_lookup_2 _ _ _ Hgen)).
Defined.

Lemma gauge_is_exact_across_reloads_witness :
  exists registry, current_registry (demo_run [None] [SiteArrive (demo_users "192.0.2.1:1"); SiteReload (Some demo_config); SiteServe 0]) = Some registry /\
    service_breaker registry "users" StateOpen.
Proof.
  destruct (gauge_is_exact_across_reloads demo_trace demo_metricsHandler (Some demo_config) [] NewMetricsRegistry None
    (mkDemoNet [None] Minute true) (fun _ => mkMapRedis 0 ∅ ∅) (demo_manager [None]).1 (demo_manager [None]).2 (demo_site [None])
    [SiteArrive (demo_users "192.0.2.1:1"); SiteReload (Some demo_config); SiteServe 0]
    ltac:(intros w req server; apply WriteJSON_down) (demo_starts _) (demo_site_starts _)) as (registry & gauge & Hreg & Hg & H).
  exists registry. split; [exact Hreg|]. apply (H "users"%string).
  enough (Some gauge = Some {[ "users"%string := 1 ]}) as [= ->] by reflexivity. rewrite <- Hg.
  transitivity (current_registry (demo_run [None] [SiteArrive (demo_users "192.0.2.1:1"); SiteReload (Some demo_config); SiteServe 0]) ≫= r_circuitStateGauge);
    [unfold demo_run; rewrite Hreg; reflexivity|vm_compute; reflexivity].
Defined.

(** ** A finding: a target that was removed comes back

    A reload removes a target, its breaker and its circuit from the gauge; a request that
    loaded the snapshot before attaches them to the registry again, and the gauge shows the
    service's circuit open, though its one target's never was. *)
Lemma late_request_brings_target_back :
  let before := demo_run [None] [SiteArrive (demo_users "192.0.2.1:1"); SiteReload (Some demo_shrunk)] in
  let after := site_step demo_trace demo_metricsHandler before (SiteServe 0) in
  (r ← current_registry before; b_state <$> r_breakers r !! "a:80"%string) = None /\
  (r ← current_registry after; b_state <$> r_breakers r !! "a:80"%string) = Some StateOpen /\
  (r ← current_registry after; b_state <$> r_breakers r !! "b:80"%string) <> Some StateOpen /\
  (r ← current_registry after; gauge ← r_circuitStateGauge r; gauge_view gauge !! "users") = Some 1.
Proof. vm_compute. split_and!; done. Qed.
