(* ===== verification/Lifecycle.v ===== *)
(** * Reloads, shutdowns and probes at the same time

    First the manager's atomic variables: the watcher's goroutine reloads, the main one begins
    the shutdown, and requests ask [Ready], each load and store a step of its own.  Then the
    watcher over the manager: with nothing pending, the gateway runs what its file says. *)

From S2P Require Import Prelude GoStrings GoErrors Config Http Breaker Registry LoadBalancer Fairness Retry Metrics Transport RateStore Handlers Router Auth Netip RateLimiter Observe Proxy Gateway Runtime Reachable Watcher RuntimeTheory.
From stdpp Require Import options.
#[local] Set Default Proof Using "Type*".

(** ** The manager's atomics *)

Section Atomics.
Context {S : Type}. (* snapshots *)

Record Atomics := mkAtomics { at_current : option S; at_ready : bool; at_draining : bool }.
Implicit Types a : Atomics.

(** Where a goroutine is.  [late] says that the shutdown had begun when the probe started. *)
Inductive Thread :=
  | ReloadStoring (snapshot : S) (* m.current.Store(snapshot) is next *)
  | ReloadLoading (* m.draining.Load() *)
  | ReloadReadying (* m.ready.Store(true) *)
  | ShutdownDraining (* m.draining.Store(true) *)
  | ShutdownUnreadying (* m.ready.Store(false) *)
  | ProbeReady (late : bool) (* m.ready.Load() *)
  | ProbeDraining (late : bool) (* m.draining.Load() *)
  | ProbeCurrent (late : bool) (* m.Current() *)
  | ProbeDone (late result : bool)
  | Finished.

Definition thread_step (t : Thread) a : Thread * Atomics :=
  match t with
  | ReloadStoring snapshot => (ReloadLoading, mkAtomics (Some snapshot) (at_ready a) (at_draining a))
  | ReloadLoading => (if negb (at_draining a) then ReloadReadying else Finished, a)
  | ReloadReadying => (Finished, mkAtomics (at_current a) true (at_draining a))
  | ShutdownDraining => (ShutdownUnreadying, mkAtomics (at_current a) (at_ready a) true)
  | ShutdownUnreadying => (Finished, mkAtomics (at_current a) false (at_draining a))
  | ProbeReady late => (if at_ready a then ProbeDraining late else ProbeDone late false, a)
  | ProbeDraining late => (if negb (at_draining a) then ProbeCurrent late else ProbeDone late false, a)
  | ProbeCurrent late => (ProbeDone late (bool_decide (is_Some (at_current a))), a)
  | ProbeDone late result => (ProbeDone late result, a)
  | Finished => (Finished, a)
  end.

(** A goroutine starts one of the three operations, or one takes a step. *)
Inductive race : list Thread * Atomics -> list Thread * Atomics -> Prop :=
  | race_reload ts a snapshot : race (ts, a) (ts ++ [ReloadStoring snapshot], a)
  | race_shutdown ts a : race (ts, a) (ts ++ [ShutdownDraining], a)
  | race_probe ts a : race (ts, a) (ts ++ [ProbeReady (at_draining a)], a)
  | race_step ts a i t : ts !! i = Some t ->
      race (ts, a) (<[i := fst (thread_step t a)]> ts, snd (thread_step t a)).

(** What is known of a goroutine. *)
Definition thread_ok a (t : Thread) : Prop :=
  match t with
  | ShutdownUnreadying => at_draining a = true
  | ProbeReady late | ProbeDraining late => late = true -> at_draining a = true
  | ProbeCurrent late => late = false
  | ProbeDone late result => result = true -> late = false /\ is_Some (at_current a)
  | _ => True
  end.

Lemma thread_step_grows t a :
  (at_draining a = true -> at_draining (snd (thread_step t a)) = true) /\
  (is_Some (at_current a) -> is_Some (at_current (snd (thread_step t a)))).
Proof. destruct t; cbn; split; eauto. Qed.

Lemma thread_ok_mono a a' t :
  (at_draining a = true -> at_draining a' = true) -> (is_Some (at_current a) -> is_Some (at_current a')) ->
  thread_ok a t -> thread_ok a' t.
Proof. intros H1 H2. destruct t; cbn; naive_solver. Qed.

Lemma thread_step_ok t a : thread_ok a t -> thread_ok (snd (thread_step t a)) (fst (thread_step t a)).
Proof.
  destruct t; cbn; intros Ht; try done.
  - by destruct (at_draining a).
  - by destruct (at_ready a).
  - destruct (at_draining a); cbn; [done|]. destruct late; [|done]. by specialize (Ht eq_refl).
  - intros Hb%bool_decide_eq_true. done.
Qed.

Lemma race_ok ts a ts' a' : race (ts, a) (ts', a') -> Forall (thread_ok a) ts -> Forall (thread_ok a') ts'.
Proof.
  intros Hstep Hall. inversion Hstep as [? ? snapshot|? ?|? ?|? ? i t Hi]; subst.
  - apply Forall_app. by repeat constructor.
  - apply Forall_app. by repeat constructor.
  - apply Forall_app. split; [done|]. constructor; [by cbn|constructor].
  - destruct (thread_step_grows t a) as [Hd Hc].
    apply Forall_insert; [|by apply thread_step_ok; eapply Forall_lookup_1].
    eapply Forall_impl; [exact Hall|]. intros t'. by apply thread_ok_mono.
Qed.

Lemma races_ok st st' :
  rtc race st st' -> Forall (thread_ok st.2) st.1 -> Forall (thread_ok st'.2) st'.1.
Proof.
  induction 1 as [|[ts a] [ts1 a1] [ts2 a2] Hstep _ IH]; [done|]. intros Hall. apply IH. by eapply race_ok.
Qed.

Lemma races_drain st st' : rtc race st st' -> at_draining st.2 = true -> at_draining st'.2 = true.
Proof.
  induction 1 as [|[ts a] [ts1 a1] [ts2 a2] Hstep _ IH]; [done|]. intros Hd. apply IH.
  inversion Hstep; subst; try done. by apply thread_step_grows.
Qed.

(** Probes that start once the shutdown has begun are late. *)
Definition is_late (t : Thread) : Prop :=
  match t with
  | ProbeReady late | ProbeDraining late | ProbeCurrent late | ProbeDone late _ => late = true
  | _ => True
  end.

Lemma thread_step_late t a : is_late t -> is_late (fst (thread_step t a)).
Proof. destruct t; cbn; try done; by case_match. Qed.

Lemma races_late n st st' :
  rtc race st st' -> at_draining st.2 = true ->
  (forall i t, (n <= i)%nat -> st.1 !! i = Some t -> is_late t) ->
  forall i t, (n <= i)%nat -> st'.1 !! i = Some t -> is_late t.
Proof.
  induction 1 as [|[ts a] [ts1 a1] [ts2 a2] Hstep _ IH]; [done|]. intros Hd Hlate. cbn [fst snd] in *. apply IH.
  { apply (races_drain (ts, a) (ts1, a1)); [by eapply rtc_once|done]. }
  intros i t Hi Ht. inversion Hstep as [? ? snapshot|? ?|? ?|? ? j u Hj]; subst.
  1-3: apply lookup_app_Some in Ht as [Ht|[_ Ht]]; [by eapply Hlate|];
    apply list_lookup_singleton_Some in Ht as [_ <-]; done.
  apply list_lookup_insert_Some in Ht as [(<- & <- & _)|[_ Ht]]; [|by eapply Hlate].
  apply thread_step_late. by eapply Hlate.
Qed.

End Atomics.
Arguments Atomics : clear implicits.
Arguments Thread : clear implicits.

(** C9: probes are not fooled: however the atomic steps of reloads, shutdowns and probes
    interleave, a probe that answers true started before the shutdown began, and there is a
    snapshot; so a probe that starts after [BeginShutdown]'s first store answers false, even
    when a reload that runs at the same time sets the ready flag again, and once begun, the
    shutdown stays. *)
Theorem probes_see_shutdown {S} (current : option S) (ts : list (Thread S)) (a : Atomics S) :
  rtc race ([], mkAtomics current true false) (ts, a) ->
  (forall late, ProbeDone late true ∈ ts -> late = false /\ is_Some (at_current a)) /\
  (at_draining a = true -> forall ts' a', rtc race (ts, a) (ts', a') ->
     at_draining a' = true /\
     forall i late result, (length ts <= i)%nat -> ts' !! i = Some (ProbeDone late result) -> result = false).
Proof.
  intros Hrun. split.
  - intros late Hin. assert (Forall (thread_ok a) ts) as Hall by by apply (races_ok _ _ Hrun).
    rewrite Forall_forall in Hall. by apply (Hall _ Hin).
  - intros Hd ts' a' Hrun'. split; [by apply (races_drain _ _ Hrun')|]. intros i late result Hi Ht.
    assert (late = true) as ->.
    { apply (races_late (length ts) _ _ Hrun' Hd) in Ht; [done| |done]. intros j t Hj Hjt.
      cbn in Hjt. apply lookup_lt_Some in Hjt. lia. }
    assert (Forall (thread_ok a') ts') as Hall.
    { refine (races_ok ([], _) (ts', a') _ _); [by etrans|by constructor]. }
    destruct result; [|done]. pose proof (Forall_lookup_1 _ _ _ _ Hall Ht) as Hok. cbn in Hok.
    by destruct (Hok eq_refl).
Qed.

(** A reload that runs into the shutdown: the reload read [draining] before the shutdown set
    it, and sets the ready flag last; the probe that starts then answers false. *)
Lemma race_steps {S} (ts : list (Thread S)) a i t ts' a' :
  ts !! i = Some t -> <[i := fst (thread_step t a)]> ts = ts' -> snd (thread_step t a) = a' -> race (ts, a) (ts', a').
Proof. intros Ht <- <-. by constructor. Qed.

Lemma demo_race :
  rtc race ([], mkAtomics (Some 1%nat) true false)
    ([Finished; ShutdownUnreadying], mkAtomics (Some 2%nat) true true) /\
  rtc race ([Finished; ShutdownUnreadying], mkAtomics (Some 2%nat) true true)
    ([Finished; ShutdownUnreadying; ProbeDone true false], mkAtomics (Some 2%nat) true true).
Proof.
  split.
  - eapply rtc_l; [apply (race_reload [] _ 2%nat)|]. eapply rtc_l; [apply race_shutdown|]. cbn [app].
    eapply rtc_l; [eapply (race_steps _ _ 0); reflexivity|]. eapply rtc_l; [eapply (race_steps _ _ 0); reflexivity|].
    eapply rtc_l; [eapply (race_steps _ _ 1); reflexivity|]. eapply rtc_l; [eapply (race_steps _ _ 0); reflexivity|]. apply rtc_refl.
  - eapply rtc_l; [apply race_probe|]. cbn [app at_draining].
    eapply rtc_l; [eapply (race_steps _ _ 2); reflexivity|]. eapply rtc_l; [eapply (race_steps _ _ 2); reflexivity|]. apply rtc_refl.
Qed.

Lemma probes_see_shutdown_witness :
  exists ts' a', rtc race ([], mkAtomics (Some 1%nat) true false) (ts', a') /\ at_ready a' = true /\
    (ts' !! 2%nat = Some (ProbeDone true false)) /\ forall late result, ts' !! 2%nat = Some (ProbeDone late result) -> result = false.
Proof.
  destruct demo_race as [H1 H2]. eexists _, _. split; [etrans; [exact H1|exact H2]|]. split; [reflexivity|]. split; [reflexivity|].
  intros late result Ht. destruct (probes_see_shutdown _ _ _ H1) as [_ Hlate].
  destruct (Hlate eq_refl _ _ H2) as [_ H]. apply (H 2%nat late result); [cbn; lia|exact Ht].
Defined.

(** ** The watcher over the manager *)

Section Watched.
Context {E G R Err : Type} {HBase : BaseEnv E} {HEnv : GatewayEnv E} {HGauge : GaugeVec G} {HProm : Prometheus}
  {HRedis : Redis R} {HJWT : JWTParser}.
Notation Gateway := (Gateway (E := E) (G := G) (R := R)).
Notation Manager := (Manager (E := E) (G := G) (R := R)).
Variable sampledTrace : Request -> option string.

(** What the watcher does when its timer fires: it reports the error and goes on. *)
Definition watched_reload (loaded : sum Err Config) (st : Manager * Gateway) : Manager * Gateway :=
  let '(_, m, g) := ReloadFromPath sampledTrace loaded st.1 st.2 in (m, g).

(** A configuration that a gateway started with [server] takes. *)
Definition acceptable (server : ServerConfig) (cfg : Config) : Prop := Validate cfg = [] /\ cfg_Server cfg = server.

Definition runs (server : ServerConfig) (st : Manager * Gateway) : Prop := mg_startupServer st.1 = server.

Lemma watched_reload_runs server loaded st : runs server st -> runs server (watched_reload loaded st).
Proof.
  unfold runs, watched_reload, ReloadFromPath, Reload. intros Hr. destruct loaded as [err|cfg]; [done|].
  pose proof (buildSnapshot_spec sampledTrace (Some cfg) (Current st.1) st.1 st.2) as Hspec.
  destruct (buildSnapshot _ _ _ _ _) as [err|[[snapshot m0] g0]]; [done|].
  by destruct Hspec as (cfg' & store & nextStore & _ & _ & _ & _ & _ & _ & _ & -> & _).
Qed.

Lemma watched_reload_takes server cfg st :
  runs server st -> acceptable server cfg ->
  exists snapshot, Current (watched_reload (inr cfg) st).1 = Some snapshot /\ sn_Config snapshot = cfg.
Proof.
  unfold runs, watched_reload, ReloadFromPath, Reload. intros Hr [Hv Hs].
  pose proof (buildSnapshot_spec sampledTrace (Some cfg) (Current st.1) st.1 st.2) as Hspec.
  destruct (buildSnapshot _ _ _ _ _) as [err|[[snapshot m0] g0]]; [destruct Hspec as [[? _]|(_ & ? & _)]; congruence|].
  destruct Hspec as (cfg' & store & nextStore & [= <-] & _ & _ & _ & Hc & _). by exists snapshot.
Qed.

Lemma watched_reload_refuses server loaded st :
  runs server st -> (forall cfg, loaded = inr cfg -> ~ acceptable server cfg) -> watched_reload loaded st = st.
Proof.
  unfold runs, watched_reload, ReloadFromPath, Reload. intros Hr Hno. destruct loaded as [err|cfg]; [by destruct st|].
  pose proof (buildSnapshot_spec sampledTrace (Some cfg) (Current st.1) st.1 st.2) as Hspec.
  destruct (buildSnapshot _ _ _ _ _) as [err|[[snapshot m0] g0]]; [by destruct st|].
  destruct Hspec as (cfg' & store & nextStore & [= <-] & Hv & Hs & _). exfalso. apply (Hno cfg eq_refl).
  split; [done|congruence].
Qed.

End Watched.

(** C6: the gateway follows its file: a manager is started with the configuration of the
    file, and a watcher runs over it, through any writes, events, errors and delays.
    Whenever nothing is pending and every write was announced by an event, the gateway runs
    the configuration in the file, if that is one it can take; and if it is not, the last
    reload left it as it was. *)
Theorem gateway_follows_file {E G R Err} {HBase : BaseEnv E} {HEnv : GatewayEnv E} {HGauge : GaugeVec G} {HProm : Prometheus}
    {HRedis : Redis R} {HJWT : JWTParser} {HFs : Fsnotify} sampledTrace w now initial trustedProxies metrics factory (e : E)
    (redis : RedisConfig -> R) (m : Manager (G := G)) g steps s :
  NewManager sampledTrace (Some initial) trustedProxies metrics factory e redis = inr (m, g) ->
  watch_run (watched_reload (Err := Err) sampledTrace) w (watching now (inr initial) (m, g)) steps = Some s ->
  announced (wg_log s) = true -> pending (wg_log s) = None ->
  (forall cfg, wg_file s = inr cfg -> acceptable (cfg_Server initial) cfg ->
     exists snapshot, Current (wg_state s).1 = Some snapshot /\ sn_Config snapshot = cfg) /\
  ((forall cfg, wg_file s = inr cfg -> ~ acceptable (cfg_Server initial) cfg) ->
     exists st, wg_state s = watched_reload sampledTrace (wg_file s) st /\ wg_state s = st).
Proof.
  intros Hnew Hrun Ha Hp.
  assert (runs (cfg_Server initial) (m, g) /\ acceptable (cfg_Server initial) initial /\
    exists snapshot, Current m = Some snapshot /\ sn_Config snapshot = initial) as (Hruns & Hacc & Hcur).
  { unfold NewManager in Hnew.
    match type of Hnew with match buildSnapshot _ ?a ?b ?c ?d with _ => _ end = _ =>
      pose proof (buildSnapshot_spec sampledTrace a b c d) as Hspec end.
    destruct (buildSnapshot _ _ _ _ _) as [err|[[snapshot m0] g0]]; [discriminate Hnew|]. injection Hnew as <- <-.
    destruct Hspec as (cfg' & store & nextStore & [= <-] & Hv & _ & _ & Hc & _ & _ & -> & _).
    split_and!; [done|done|]. by exists snapshot. }
  destruct (quiet_is_current (watched_reload sampledTrace) w now (inr initial) (m, g) (runs (cfg_Server initial)) Hruns
    (watched_reload_runs sampledTrace _) steps s Hrun Ha Hp) as [[Hx Hf]|(st & Hst & Hx)].
  - rewrite Hx, Hf. split; [by intros cfg [= <-]|]. intros Hno. by destruct (Hno initial).
  - rewrite Hx. split.
    + intros cfg -> Hok. by eapply watched_reload_takes.
    + intros Hno. exists st. split; [done|]. by eapply watched_reload_refuses.
Qed.

(** The file loses a route, and a moment later it is no longer YAML: the gateway runs the
    first of the two. *)
Definition demo_fewer : Config :=
  mkConfig (cfg_Server demo_config) [demo_protected_route] (cfg_CircuitBreaker demo_config) demo_auth
    (cfg_Redis demo_config) (cfg_Metrics demo_config) (cfg_Logging demo_config).
Definition demo_change : WatchStep (F := sum string Config) :=
  Select (CaseEvent (Some (mkFsEvent "/etc/irongate/gateway.yaml" 2))).
Definition demo_edit : list (WatchStep (F := sum string Config)) :=
  [WriteFile (inr demo_fewer); demo_change; Tick 200000000; Select CaseTimer].
Definition demo_break : list (WatchStep (F := sum string Config)) :=
  [WriteFile (inl "yaml: line 3"%string); demo_change; Tick 200000000; Select CaseTimer].

Definition demo_watched (steps : list (WatchStep (F := sum string Config))) :=
  watch_run (watched_reload demo_trace) demo_watcher
    (watching 0 (inr demo_config) ((demo_manager []).1, (demo_manager []).2)) steps.

Lemma demo_edited :
  (fun s => (announced (wg_log s), pending (wg_log s), wg_file s)) <$> demo_watched demo_edit = Some (true, None, inr demo_fewer) /\
  (fun s => (wg_file s, sn_Config <$> Current (wg_state s).1)) <$> demo_watched (demo_edit ++ demo_break) =
    Some (inl "yaml: line 3"%string, Some demo_fewer).
Proof. vm_compute. split; reflexivity. Qed.

Lemma gateway_follows_file_witness :
  exists s, demo_watched demo_edit = Some s /\
    exists snapshot, Current (wg_state s).1 = Some snapshot /\ sn_Config snapshot = demo_fewer.
Proof.
  destruct demo_edited as [He _]. destruct (demo_watched demo_edit) as [s|] eqn:Hrun; [|discriminate He].
  cbn in He. injection He as Ha Hp Hf. exists s. split; [reflexivity|].
  destruct (gateway_follows_file demo_trace demo_watcher 0 demo_config [] NewMetricsRegistry None (mkDemoNet [] Minute true)
    (fun _ => mkMapRedis 0 ∅ ∅) _ _ demo_edit s (demo_starts []) Hrun Ha Hp) as [H _].
  apply (H demo_fewer Hf). split; [vm_compute; reflexivity|reflexivity].
Defined.
