(* ===== verification/Program.v ===== *)
(** * The gateway program: [cmd/gateway/main.go]

    What the program reads from its environment, the handler of its admin server, which
    closes the circuits, and its life: what is started, in which order, and how it ends.
    [flag], [os/signal] and the servers' sockets are outside: the program is the list of
    what it does, given what becomes of the servers. *)

From S2P Require Import Prelude GoStrings GoErrors Config Http Breaker Registry LoadBalancer Fairness Retry Metrics Transport RateStore Handlers Router Auth Netip RateLimiter Observe Proxy Gateway Runtime Reachable Watcher RuntimeTheory.
From stdpp Require Import options.
#[local] Set Default Proof Using "Type*".

(** ** Settings *)

Definition fallbackShutdownTimeout : Duration := 10 * Second.
Definition trustedProxiesEnvVar : string := "IRONGATE_TRUSTED_PROXIES".
Definition adminAddrEnvVar : string := "ADMIN_ADDR".
Definition defaultAdminAddr : string := "127.0.0.1:9090".

Definition shutdownTimeout (writeTimeout : Duration) : Duration :=
  if 0 <? writeTimeout then writeTimeout else fallbackShutdownTimeout.

Section Settings.
Variable Getenv : string -> string.

(** The loop of [resolveTrustedProxies]; the error names the entry. *)
Fixpoint addProxies (prefixes : list Prefix) (seen : gset string) (parts : list string) : sum string (list Prefix) :=
  match parts with
  | [] => inr prefixes
  | part :: parts =>
      let value := TrimSpace part in
      if bool_decide (value = "") then addProxies prefixes seen parts
      else match ParsePrefix value with
      | None => inl value
      | Some prefix =>
          let masked := Masked prefix in
          let key := Prefix_String masked in
          if bool_decide (key ∈ seen) then addProxies prefixes seen parts
          else addProxies (prefixes ++ [masked]) ({[ key ]} ∪ seen) parts
      end
  end.

Definition resolveTrustedProxies : sum string (list Prefix) :=
  let rawValue := TrimSpace (Getenv trustedProxiesEnvVar) in
  if bool_decide (rawValue = "") then inr [] else addProxies [] ∅ (Split rawValue comma).

Definition resolveConfigPath (flagValue : string) : string :=
  if negb (bool_decide (flagValue = "")) then flagValue
  else if negb (bool_decide (Getenv "IRONGATE_CONFIG" = "")) then Getenv "IRONGATE_CONFIG"
  else if negb (bool_decide (Getenv "GATEWAY_CONFIG" = "")) then Getenv "GATEWAY_CONFIG"
  else "configs/gateway.yaml".

Definition resolveAdminAddr : string :=
  let value := TrimSpace (Getenv adminAddrEnvVar) in
  if negb (bool_decide (value = "")) then value else defaultAdminAddr.

End Settings.

(** ** Trusted proxies *)

(** The nonblank entries. *)
Definition proxy_entries (raw : string) : list string := filter (fun v => v <> "") (TrimSpace <$> Split raw comma).

Definition keys (prefixes : list Prefix) : gset string := list_to_set (Prefix_String <$> prefixes).

Lemma addProxies_spec prefixes parts :
  NoDup (Prefix_String <$> prefixes) ->
  match addProxies prefixes (keys prefixes) parts with
  | inl value => value <> "" /\ value ∈ TrimSpace <$> parts /\ ParsePrefix value = None
  | inr result =>
      NoDup (Prefix_String <$> result) /\
      (forall p, p ∈ result -> p ∈ prefixes \/
         exists v q, v ∈ TrimSpace <$> parts /\ v <> "" /\ ParsePrefix v = Some q /\ p = Masked q) /\
      (forall p, p ∈ prefixes -> p ∈ result) /\
      (forall v, v ∈ TrimSpace <$> parts -> v <> "" ->
         exists q, ParsePrefix v = Some q /\ Prefix_String (Masked q) ∈ Prefix_String <$> result)
  end.
Proof.
  revert prefixes. induction parts as [|part parts IH]; intros prefixes Hnd; cbn [addProxies].
  { split_and!; [done|by left|done|]. by intros v ?%elem_of_nil. }
  case_bool_decide as Hblank.
  { specialize (IH prefixes Hnd). destruct (addProxies _ _ parts) as [value|result].
    - destruct IH as (? & ? & ?). split_and!; [done|by right|done].
    - destruct IH as (? & H2 & ? & H4). split_and!; [done| |done|].
      + intros p Hp. destruct (H2 p Hp) as [?|(v & q & ? & ?)]; [by left|]. right. exists v, q. split; [by right|done].
      + intros v [->|Hv]%elem_of_cons Hne; [done|]. by apply H4. }
  destruct (ParsePrefix (TrimSpace part)) as [q|] eqn:Hq; [|by split_and!; [|left|]].
  case_bool_decide as Hseen.
  - specialize (IH prefixes Hnd). destruct (addProxies _ _ parts) as [value|result].
    { destruct IH as (? & ? & ?). split_and!; [done|by right|done]. }
    destruct IH as (? & H2 & H3 & H4). split_and!; [done| |done|].
    + intros p Hp. destruct (H2 p Hp) as [?|(v & q' & ? & ?)]; [by left|]. right. exists v, q'. split; [by right|done].
    + intros v [->|Hv]%elem_of_cons Hne; [|by apply H4]. exists q. split; [done|].
      unfold keys in Hseen. rewrite elem_of_list_to_set in Hseen. apply list_elem_of_fmap in Hseen as (p & -> & Hp).
      apply list_elem_of_fmap_2. by apply H3.
  - assert ({[ Prefix_String (Masked q) ]} ∪ keys prefixes = keys (prefixes ++ [Masked q])) as ->
      by (unfold keys; rewrite fmap_app, list_to_set_app_L; set_solver).
    unfold keys in Hseen. rewrite elem_of_list_to_set in Hseen.
    assert (NoDup (Prefix_String <$> (prefixes ++ [Masked q]))) as Hnd'.
    { rewrite fmap_app. apply NoDup_app. split_and!; [done| |apply NoDup_singleton].
      intros x Hx Hin. apply list_elem_of_singleton in Hin as ->. done. }
    specialize (IH _ Hnd'). destruct (addProxies _ _ parts) as [value|result].
    { destruct IH as (? & ? & ?). split_and!; [done|by right|done]. }
    destruct IH as (? & H2 & H3 & H4). split_and!; [done| | |].
    + intros p Hp. destruct (H2 p Hp) as [Hin|(v & q' & ? & ?)].
      * apply elem_of_app in Hin as [?|Heq%list_elem_of_singleton]; [by left|subst p]. right. exists (TrimSpace part), q. split; [by left|done].
      * right. exists v, q'. split; [by right|done].
    + intros p Hp. apply H3. set_solver.
    + intros v [->|Hv]%elem_of_cons Hne; [|by apply H4]. exists q. split; [done|]. apply list_elem_of_fmap_2, H3. set_solver.
Qed.

(** Trusted proxies: an environment with an entry that is no prefix is refused; otherwise
    the list has every entry's prefix, masked, once, and an address is trusted only when one
    of the entries, as it was written, contains it. *)
Lemma trusted_proxies_are_entries Getenv :
  let raw := TrimSpace (Getenv trustedProxiesEnvVar) in
  match resolveTrustedProxies Getenv with
  | inl value => value ∈ proxy_entries raw /\ ParsePrefix value = None
  | inr prefixes =>
      NoDup (Prefix_String <$> prefixes) /\
      (forall v, v ∈ proxy_entries raw -> exists q, ParsePrefix v = Some q /\ Prefix_String (Masked q) ∈ Prefix_String <$> prefixes) /\
      forall ip, existsb (fun p => Contains p ip) prefixes = true ->
        exists v q, v ∈ proxy_entries raw /\ ParsePrefix v = Some q /\ Contains q ip = true
  end.
Proof.
  cbv zeta. unfold resolveTrustedProxies. case_bool_decide as Hraw.
  { split_and!; [by apply NoDup_nil| |done]. intros v. unfold proxy_entries. rewrite Hraw. cbn. set_solver. }
  set (raw := TrimSpace _) in *. pose proof (addProxies_spec [] (Split raw comma) ltac:(apply NoDup_nil_2)) as H.
  change (keys []) with (∅ : gset string) in H. unfold proxy_entries.
  destruct (addProxies [] ∅ (Split raw comma)) as [value|prefixes].
  - destruct H as (? & ? & ?). split; [|done]. by apply list_elem_of_filter.
  - destruct H as (Hnd & Hsrc & _ & Hall). split_and!; [done| |].
    + intros v [Hne Hv]%list_elem_of_filter. by apply Hall.
    + intros ip (p & Hp & Hc)%existsb_exists. apply list_elem_of_In in Hp.
      destruct (Hsrc p Hp) as [?%elem_of_nil|(v & q & Hv & Hne & Hq & ->)]; [done|].
      exists v, q. split_and!; [by apply list_elem_of_filter|done|].
      destruct (ParsePrefix_spec v q Hq) as (? & ? & ?). by rewrite <- Masked_Contains.
Qed.

(** ** The admin server *)

Definition adminBearerToken (header : string) : option string :=
  match Cut (TrimSpace header) space with
  | None => None
  | Some (scheme, token) =>
      if negb (bool_decide (scheme = "Bearer")) then None
      else let token := TrimSpace token in if bool_decide (token = "") then None else Some token
  end.

Definition adminResetPath : string := "/admin/circuit-breakers/reset".

(** The response of a reset, which [Fprintf] writes. *)
Definition resetResponse (n : nat) : string :=
  let quote := bytes [34%nat] in
  "{" +:+ quote +:+ "reset" +:+ quote +:+ ":true," +:+ quote +:+ "targets_cleared" +:+ quote +:+ ":" +:+ Itoa (Z.of_nat n) +:+ "}".

Definition StatusNotFound : Z := 404.
Definition StatusMethodNotAllowed : Z := 405.

Section Admin.
Context {E G R : Type} {HBase : BaseEnv E} {HEnv : GatewayEnv E} {HGauge : GaugeVec G} {HProm : Prometheus}
  {HRedis : Redis R} {HJWT : JWTParser}.
Notation Gateway := (Gateway (E := E) (G := G) (R := R)).
Notation Manager := (Manager (E := E) (G := G) (R := R)).

(** [sha256.Sum256] *)
Variable Sum256 : string -> list Z.
Implicit Types s : Server (D := Gateway).

Definition adminTokenMatches (provided expected : string) : bool :=
  let expected := TrimSpace expected in
  if bool_decide (expected = "") then false else bool_decide (Sum256 provided = Sum256 expected).

Definition stampAdminRequest (w : ResponseWriter) (r : Request) s : Request * Server :=
  let h := Header_Del HeaderUserRole (Header_Del HeaderUserID (Header_Del HeaderRequestID (rq_Header r))) in
  let '(requestID, down) := dn_NewUUID (sv_down s) in
  (with_header (Header_Set HeaderRequestID requestID h) r,
   Writer_Set w HeaderRequestID requestID (on_down (fun _ => down) s)).

(** The registry that [cbGetter] finds is the current snapshot's. *)
Definition newAdminHandler (adminToken : string) (m : Manager) : Handler (D := Gateway) := fun w r s =>
  let '(r, s) := stampAdminRequest w r s in
  if negb (bool_decide (rq_Path r = adminResetPath)) then respondError w r StatusNotFound "not found" s
  else if negb (bool_decide (rq_Method r = "POST")) then respondError w r StatusMethodNotAllowed "method not allowed" s
  else match adminBearerToken (Header_Get (rq_Header r) "Authorization") with
  | None => respondError w r StatusUnauthorized "unauthorized" s
  | Some auth =>
      if negb (adminTokenMatches auth adminToken) then respondError w r StatusUnauthorized "unauthorized" s
      else
        let '(n, s) :=
          match Current m with
          | None => (O, s)
          | Some _ =>
              let '(n, registry) := Reset (w_registry (gw_world (sv_down s))) in
              (n, on_down (on_world (with_registry registry)) s)
          end in
        (Returned, Write w (Text (resetResponse n)) (Writer_Set w "Content-Type" "application/json" s))
  end.

(** A request the admin server accepts. *)
Definition admin_authorized (adminToken : string) (r : Request) : Prop :=
  rq_Path r = adminResetPath /\ rq_Method r = "POST" /\
  exists token, adminBearerToken (Header_Get (rq_Header r) "Authorization") = Some token /\
    TrimSpace adminToken <> "" /\ Sum256 token = Sum256 (TrimSpace adminToken).

Lemma stamped_keeps w r s :
  let '(r', s') := stampAdminRequest w r s in
  rq_Path r' = rq_Path r /\ rq_Method r' = rq_Method r /\
  Header_Get (rq_Header r') "Authorization" = Header_Get (rq_Header r) "Authorization" /\
  w_registry (gw_world (sv_down s')) = w_registry (gw_world (sv_down s)) /\
  w_log (gw_world (sv_down s')) = w_log (gw_world (sv_down s)) /\
  (tracks w s -> tracks w s') /\ cn_sent (sv_conn s') = cn_sent (sv_conn s) /\ cn_body (sv_conn s') = cn_body (sv_conn s).
Proof.
  unfold stampAdminRequest. cbn. unfold from_env. destruct (ge_NewUUID _) as [id e].
  split_and!; try done.
  - cbn. rewrite Header_Get_Set_ne by done. by rewrite !Header_Get_Del_ne.
  - by rewrite Writer_Set_down.
  - by rewrite Writer_Set_down.
  - intros Ht. by apply tracks_Set, tracks_on_down.
  - unfold Writer_Set. by rewrite Writer_SetHeader_conn.
  - unfold Writer_Set. by rewrite Writer_SetHeader_conn.
Qed.

(** An error answers and leaves the registry. *)
Lemma respondError_answers w r status message s :
  informational status = false -> tracks w s -> cn_sent (sv_conn s) = None ->
  let '(completion, s') := respondError w r status message s in
  client_status (sv_conn s') = status /\ sv_down s' = sv_down s.
Proof.
  intros Hst Ht Hc. unfold respondError, WriteError.
  destruct (WriteJSON_unsent w status (ErrorJSON (mkErrorBody message status (RequestID r))) s Hst Ht Hc) as (Hconn & Hdown & _).
  unfold client_status. by rewrite Hconn, Hdown.
Qed.

Lemma Write_answers w chunk s :
  tracks w s -> cn_sent (sv_conn s) = None ->
  let s' := Write w chunk s in
  client_status (sv_conn s') = StatusOK /\ cn_body (sv_conn s') = cn_body (sv_conn s) ++ [chunk] /\ sv_down s' = sv_down s.
Proof.
  intros Ht Hc. cbv zeta. rewrite Write_down, (Write_fresh w chunk s Ht Hc).
  destruct (WriteHeader_fresh w StatusOK s eq_refl (tr_nodup _ _ Ht) Hc (tracks_unsent _ _ Ht Hc)) as (Hconn & _).
  cbn [sv_conn on_conn]. unfold conn_Write. by rewrite Hconn.
Qed.

End Admin.

(** C11: the administrative reset: only a POST to its path with a bearer token whose digest is
    the configured token's closes circuits: then every breaker is closed, and the answer
    tells how many there are; any other request is answered 404, 405 or 401, by its path,
    its method and its token, and touches no breaker. *)
Theorem admin_reset_is_guarded {E G R} {HBase : BaseEnv E} {HEnv : GatewayEnv E} {HGauge : GaugeVec G} {HGaugeLaws : GaugeVecLaws G}
    {HProm : Prometheus} {HRedis : Redis R} {HJWT : JWTParser} Sum256 adminToken (m : Manager) w r (s : Server (D := Gateway (E := E) (G := G) (R := R))) :
  tracks w s -> cn_sent (sv_conn s) = None -> is_Some (Current m) ->
  let '(completion, s') := newAdminHandler Sum256 adminToken m w r s in
  let registry := w_registry (gw_world (sv_down s)) in
  let registry' := w_registry (gw_world (sv_down s')) in
  (admin_authorized Sum256 adminToken r ->
     client_status (sv_conn s') = StatusOK /\
     cn_body (sv_conn s') = cn_body (sv_conn s) ++ [Text (resetResponse (size (r_breakers registry)))] /\
     forall target, b_state <$> r_breakers registry' !! target = const StateClosed <$> r_breakers registry !! target) /\
  (~ admin_authorized Sum256 adminToken r ->
     registry' = registry /\
     client_status (sv_conn s') =
       if negb (bool_decide (rq_Path r = adminResetPath)) then StatusNotFound
       else if negb (bool_decide (rq_Method r = "POST")) then StatusMethodNotAllowed else StatusUnauthorized).
Proof.
  intros Ht Hc [snapshot Hsnap]. unfold newAdminHandler. pose proof (stamped_keeps w r s) as Hst.
  destruct (stampAdminRequest w r s) as [r1 s1]. destruct Hst as (Hp & Hm & Ha & Hreg & _ & Ht1 & Hc1 & Hb1).
  specialize (Ht1 Ht). rewrite Hp, Hm, Ha. rewrite Hc in Hc1. cbv zeta. rewrite <- Hreg, <- Hb1.
  assert (forall status message, informational status = false ->
    let '(completion, s') := respondError w r1 status message s1 in
    w_registry (gw_world (sv_down s')) = w_registry (gw_world (sv_down s1)) /\ client_status (sv_conn s') = status) as Herr.
  { intros status message Hstatus. pose proof (respondError_answers w r1 status message s1 Hstatus Ht1 Hc1) as H.
    destruct (respondError w r1 status message s1) as [completion s']. by destruct H as [-> ->]. }
  case_bool_decide as Hpath; cbn [negb]; [case_bool_decide as Hmethod; cbn [negb]|].
  2: { specialize (Herr StatusMethodNotAllowed "method not allowed" eq_refl). destruct (respondError _ _ _ _ _) as [completion s'].
       split; [by intros (? & ? & _)|by intros _]. }
  2: { specialize (Herr StatusNotFound "not found" eq_refl). destruct (respondError _ _ _ _ _) as [completion s'].
       split; [by intros (? & ? & _)|by intros _]. }
  destruct (adminBearerToken _) as [auth|] eqn:Hauth; [unfold adminTokenMatches; case_bool_decide as Hempty; [|case_bool_decide as Hsum]; cbn [negb]|].
  2: { rewrite Hsnap. destruct (Reset_spec (w_registry (gw_world (sv_down s1)))) as [Hn Hbs].
       destruct (Reset (w_registry (gw_world (sv_down s1)))) as [n registry]. cbn [fst snd] in Hn, Hbs.
       split; [|intros Hno; exfalso; apply Hno; split_and!; [done..|]; exists auth; by split_and!].
       intros _. set (s2 := Writer_Set w "Content-Type" "application/json" _).
       assert (sv_down s2 = on_world (with_registry registry) (sv_down s1)) as Hs2 by (unfold s2; by rewrite Writer_Set_down).
       destruct (Write_answers w (Text (resetResponse n)) s2) as (H1 & H2 & H3).
       { by apply tracks_Set, tracks_on_down. } { unfold s2, Writer_Set. by rewrite Writer_SetHeader_conn. }
       rewrite H1, H2, H3, Hs2, Hn. cbn [gw_world on_world with_registry w_registry].
       split_and!; [done|unfold s2, Writer_Set; by rewrite Writer_SetHeader_conn|].
       intros target. rewrite Hbs. by destruct (r_breakers (w_registry (gw_world (sv_down s1))) !! target). }
  all: specialize (Herr StatusUnauthorized "unauthorized" eq_refl); destruct (respondError _ _ _ _ _) as [completion s'];
    (split; [|by intros _]); intros (_ & _ & token & Htoken & Hne & Heq); congruence.
Qed.

Fixpoint demo_digest (s : string) : list Z :=
  match s with EmptyString => [] | String a s => Z.of_nat (nat_of_ascii a) :: demo_digest s end.

Definition demo_reset (authorization : string) : Request :=
  mkRequest "POST" "" "" adminResetPath "" "gateway" {[ "Authorization" := [authorization] ]} BodyNil None 0 "127.0.0.1:1" None None.

Lemma demo_breakers : size (r_breakers (w_registry (gw_world demo_tripped.2))) = 2%nat.
Proof. vm_compute. reflexivity. Qed.

Lemma admin_reset_is_guarded_witness :
  let '(_, s') := newAdminHandler demo_digest " t0ken " demo_tripped.1 Connection (demo_reset "Bearer t0ken") (mkServer new_conn [] demo_tripped.2) in
  client_status (sv_conn s') = StatusOK /\ cn_body (sv_conn s') = [Text (resetResponse 2)] /\
  b_state <$> r_breakers (w_registry (gw_world (sv_down s'))) !! "a:80"%string =
    const StateClosed <$> r_breakers (w_registry (gw_world demo_tripped.2)) !! "a:80"%string.
Proof.
  pose proof demo_breakers as Hn. assert (bool_decide (is_Some (Current demo_tripped.1)) = true) as Hcur%bool_decide_eq_true
    by (vm_compute; reflexivity).
  destruct demo_tripped as [m g]. cbn [fst snd] in *.
  pose proof (admin_reset_is_guarded demo_digest " t0ken " m Connection (demo_reset "Bearer t0ken") (mkServer new_conn [] g)) as H.
  destruct (newAdminHandler _ _ _ _ _ _) as [completion s'].
  destruct H as [H _]; [split; [constructor|by intros id ?%elem_of_nil]|reflexivity|exact Hcur|]. cbn [sv_down sv_conn cn_body new_conn app] in H.
  rewrite Hn in H. destruct H as (H1 & H2 & H3).
  - split; [reflexivity|]. split; [reflexivity|]. exists "t0ken"%string. split; [vm_compute; reflexivity|]. split; [done|reflexivity].
  - split; [exact H1|]. split; [exact H2|apply H3].
Defined.

(** ** The program's life *)

Inductive Action :=
  | InitTracing
  | StartWatcher
  | ServeAdmin (addr token : string)
  | ServeGateway (port : Z)
  | BeginDraining
  | CancelWatcher
  | ShutdownAdmin (timeout : Duration)
  | ShutdownGateway (timeout : Duration)
  | ShutdownTracing
  | Exit (code : Z).

(** What [ListenAndServe] ends with. *)
Inductive ServeError := ErrServerClosed | ServeFailed (message : string).

Record serverError := mkServerError { se_name : string; se_err : ServeError }.

(** What a server's goroutine sends to [main], given what its [ListenAndServe] returns. *)
Definition serveAsync (name : string) (result : option ServeError) : option serverError :=
  match result with
  | None | Some ErrServerClosed => None
  | Some err => Some (mkServerError name err)
  end.

(** How the select of [main] ends: a server fails, or a signal comes. *)
Inductive Ending := ServerFailed (name : string) | Signalled.

Section Main.
Context {E G R Err : Type} {HBase : BaseEnv E} {HEnv : GatewayEnv E} {HGauge : GaugeVec G} {HProm : Prometheus}
  {HRedis : Redis R} {HJWT : JWTParser}.
Variables (sampledTrace : Request -> option string) (metrics : MetricsRegistry) (e : E) (redis : RedisConfig -> R).

(** [buildHandlerOptions]: a store to be used whatever the configuration says. *)
Record buildHandlerOptions := mkOptions { bo_rateLimitStore : option StoreHandle; bo_trustedProxies : list Prefix }.

Definition hasRateLimitedRoutes (routes : list RouteConfig) : bool :=
  existsb (fun route => bool_decide (is_Some (rc_RateLimit route))) routes.

(** With a store of its own a gateway needs no address of Redis, which [Validate] asks for. *)
Definition managerConfig (cfg : Config) (options : buildHandlerOptions) : Config :=
  if bool_decide (is_Some (bo_rateLimitStore options)) && bool_decide (TrimSpace (rd_Address (cfg_Redis cfg)) = "") &&
     hasRateLimitedRoutes (cfg_Routes cfg)
  then
    let redis := cfg_Redis cfg in
    mkConfig (cfg_Server cfg) (cfg_Routes cfg) (cfg_CircuitBreaker cfg) (cfg_Auth cfg)
      (mkRedisConfig "runtime-store-injected" (rd_Password redis) (rd_DB redis)) (cfg_Metrics cfg) (cfg_Logging cfg)
  else cfg.

(** The closure that [newRuntimeManager] hands on. *)
Definition storeFactory (options : buildHandlerOptions) : RateLimitStoreFactory (E := E) (G := G) (R := R) := fun next previous number =>
  match bo_rateLimitStore options with
  | Some store => (Some store, number)
  | None =>
      if negb (hasRateLimitedRoutes (cfg_Routes next)) then (None, number)
      else
        let fresh := (Some (mkStoreHandle number (cfg_Redis next)), S number) in
        match previous with
        | Some snapshot =>
            match sn_RateLimitStore snapshot with
            | Some store => if bool_decide (cfg_Redis (sn_Config snapshot) = cfg_Redis next) then (Some store, number) else fresh
            | None => fresh
            end
        | None => fresh
        end
  end.

Definition newRuntimeManager (cfg : Config) (options : buildHandlerOptions) :
    sum RuntimeError (Manager (E := E) (G := G) (R := R) * Gateway (E := E) (G := G) (R := R)) :=
  NewManager sampledTrace (Some (managerConfig cfg options)) (bo_trustedProxies options) metrics (Some (storeFactory options)) e redis.

(** [buildHandlerWithOptions]; [None] is a panic. *)
Definition buildHandlerWithOptions (cfg : Config) (options : buildHandlerOptions) :
    option (Manager (E := E) (G := G) (R := R) * Gateway (E := E) (G := G) (R := R)) :=
  match newRuntimeManager cfg options with inl _ => None | inr st => Some st end.

Definition buildHandler (cfg : Config) := buildHandlerWithOptions cfg (mkOptions None []).

(** Without an injected store the factory is the manager's own. *)
Lemma storeFactory_default trustedProxies cfg previous number :
  storeFactory (mkOptions None trustedProxies) cfg previous number = defaultRateLimitStoreFactory cfg previous number.
Proof. reflexivity. Qed.

(** The end of [main], once the servers run. *)
Definition main_end (admin : bool) (writeTimeout : Duration) (ending : Ending) (adminFails gatewayFails : bool) : list Action :=
  let timeout := shutdownTimeout writeTimeout in
  let shutdownAdmin := if admin then [ShutdownAdmin timeout] else [] in
  match ending with
  | ServerFailed _ => [CancelWatcher; BeginDraining] ++ shutdownAdmin ++ [ShutdownGateway timeout; Exit 1]
  | Signalled =>
      [BeginDraining; CancelWatcher] ++ shutdownAdmin ++
      if admin && adminFails then [Exit 1]
      else ShutdownGateway timeout :: if gatewayFails then [Exit 1] else [ShutdownTracing; Exit 0]
  end.

(** [main]: what it does, and the manager that serves. *)
Definition main (Getenv : string -> string) (wd : option string) (flagValue : string) (Load : string -> sum Err Config)
    (ending : Ending) (adminFails gatewayFails : bool) : list Action * option (Manager * Gateway) :=
  let configPath := resolveConfigPath Getenv flagValue in
  match Load configPath with
  | inl _ => ([Exit 1], None)
  | inr cfg =>
      if negb (bool_decide (length (Validate cfg) = 0%nat)) then ([Exit 1], None)
      else match resolveTrustedProxies Getenv with
      | inl _ => ([Exit 1], None)
      | inr trustedProxies =>
          match newRuntimeManager cfg (mkOptions None trustedProxies) with
          | inl _ => ([InitTracing; Exit 1], None)
          | inr st =>
              let adminToken := TrimSpace (Getenv "ADMIN_TOKEN") in
              let admin := negb (bool_decide (adminToken = "")) in
              match NewWatcher wd configPath true 0 with
              | inl _ => ([InitTracing; Exit 1], None)
              | inr _ =>
                  ([InitTracing; StartWatcher] ++
                   (if admin then [ServeAdmin (resolveAdminAddr Getenv) adminToken] else []) ++
                   [ServeGateway (sc_Port (cfg_Server cfg))] ++
                   main_end admin (sc_WriteTimeout (cfg_Server cfg)) ending adminFails gatewayFails,
                   Some st)
              end
          end
      end
  end.

(** Servers are shut down only while the manager drains. *)
Fixpoint drains_first (draining : bool) (actions : list Action) : bool :=
  match actions with
  | [] => true
  | BeginDraining :: actions => drains_first true actions
  | (ShutdownAdmin _ | ShutdownGateway _) :: actions => draining && drains_first draining actions
  | _ :: actions => drains_first draining actions
  end.

(** What [main_end] does in every case. *)
Lemma main_end_spec admin writeTimeout ending adminFails gatewayFails :
  let actions := main_end admin writeTimeout ending adminFails gatewayFails in
  (forall port, ServeGateway port ∉ actions) /\ (forall addr token, ServeAdmin addr token ∉ actions) /\
  drains_first false actions = true /\
  (forall timeout, ShutdownGateway timeout ∈ actions \/ ShutdownAdmin timeout ∈ actions -> timeout = shutdownTimeout writeTimeout) /\
  exists init code, actions = init ++ [Exit code] /\ (forall c, Exit c ∉ init) /\
    (code = 0 <-> ending = Signalled /\ (admin && adminFails) = false /\ gatewayFails = false).
Proof.
  cbv zeta. unfold main_end. set (t := shutdownTimeout writeTimeout).
  destruct ending as [name|], admin, adminFails, gatewayFails; cbn [andb app].
  all: split_and!; [set_solver|set_solver|reflexivity|set_solver|].
  all: match goal with |- context [?l = _ ++ [_]] =>
    let rec go acc l := lazymatch l with [Exit ?c] => exists (rev acc), c | ?a :: ?l => go (a :: acc) l end in go (@nil Action) l end.
  all: cbn [rev app]; split_and!; [reflexivity|set_solver|naive_solver].
Qed.

(** When the admin server is not shut down in time, the gateway's is not shut down at all. *)
Lemma failed_admin_abandons_requests writeTimeout gatewayFails timeout :
  ShutdownGateway timeout ∉ main_end true writeTimeout Signalled true gatewayFails.
Proof. unfold main_end. cbn. set_solver. Qed.

Lemma shutdownTimeout_pos writeTimeout : 0 < shutdownTimeout writeTimeout.
Proof. unfold shutdownTimeout. destruct (Z.ltb_spec 0 writeTimeout); [done|by vm_compute]. Qed.

End Main.

(** C10: the program's life: it serves exactly when it has a manager, and then the
    configuration of its file is valid, the trusted proxies parse, the manager is ready
    and runs that configuration, and the gateway listens on its port; the admin server runs
    when and only when a token is set.  Whatever ends it, servers are shut down only after
    the manager drains, within a positive time; its last action is its exit, with 0 exactly
    when a signal ended it and every shutdown was in time. *)
Theorem main_life {E G R Err} {HBase : BaseEnv E} {HEnv : GatewayEnv E} {HGauge : GaugeVec G} {HProm : Prometheus}
    {HRedis : Redis R} {HJWT : JWTParser} sampledTrace metrics (e : E) (redis : RedisConfig -> R)
    Getenv wd flagValue (Load : string -> sum Err Config) ending adminFails gatewayFails :
  let '(actions, served) := main (G := G) sampledTrace metrics e redis Getenv wd flagValue Load ending adminFails gatewayFails in
  let admin := negb (bool_decide (TrimSpace (Getenv "ADMIN_TOKEN") = "")) in
  (forall port, ServeGateway port ∈ actions <-> exists m g cfg snapshot prefixes, served = Some (m, g) /\
     Load (resolveConfigPath Getenv flagValue) = inr cfg /\ Validate cfg = [] /\
     resolveTrustedProxies Getenv = inr prefixes /\ mg_trustedProxies m = prefixes /\
     Ready m = true /\ Current m = Some snapshot /\ sn_Config snapshot = cfg /\ port = sc_Port (cfg_Server cfg)) /\
  (forall addr token, ServeAdmin addr token ∈ actions -> admin = true /\ token = TrimSpace (Getenv "ADMIN_TOKEN")) /\
  (is_Some served -> admin = true -> exists addr token, ServeAdmin addr token ∈ actions) /\
  drains_first false actions = true /\
  (forall timeout, ShutdownGateway timeout ∈ actions \/ ShutdownAdmin timeout ∈ actions -> 0 < timeout) /\
  exists init code, actions = init ++ [Exit code] /\ (forall c, Exit c ∉ init) /\
    (code = 0 <-> is_Some served /\ ending = Signalled /\ (admin && adminFails) = false /\ gatewayFails = false).
Proof.
  unfold main.
  destruct (Load _) as [err|cfg] eqn:Hload; [|destruct (negb _) eqn:Hv; [|destruct (resolveTrustedProxies Getenv) as [value|prefixes] eqn:Hprefixes;
    [|destruct (newRuntimeManager _ _ _ _ _ _) as [err|[m g]] eqn:Hnew; [|destruct (NewWatcher _ _ _ _) as [err|watcher]]]]].
  1-5: cbv beta iota zeta; split_and!; [|set_solver|by intros [? ?]|reflexivity|set_solver|].
  1, 3, 5, 7, 9: intros port; split; [set_solver|by intros (? & ? & ? & ? & ? & ? & _)].
  1-5: first [exists [], 1; split_and!; [reflexivity|set_solver|] | exists [InitTracing], 1; split_and!; [reflexivity|set_solver|]].
  1-5: by split; [|intros ([? ?] & _)].
  apply negb_false_iff, bool_decide_eq_true, length_zero_iff_nil in Hv.
  cbv beta iota zeta. set (admin := negb _). destruct (main_end_spec admin (sc_WriteTimeout (cfg_Server cfg)) ending adminFails gatewayFails)
    as (H1 & H2 & H3 & H4 & (init & code & Heq & H5 & H6)).
  set (ending' := main_end _ _ _ _ _) in *. clearbody ending'. subst ending'.
  assert (exists snapshot, mg_trustedProxies m = prefixes /\ Ready m = true /\ Current m = Some snapshot /\ sn_Config snapshot = cfg)
    as (snapshot & Htp & Hready & Hcur & Hcfg).
  { unfold newRuntimeManager, NewManager in Hnew.
    match type of Hnew with match buildSnapshot _ ?a ?b ?c ?d with _ => _ end = _ =>
      pose proof (buildSnapshot_spec sampledTrace a b c d) as Hspec end.
    destruct (buildSnapshot _ _ _ _ _) as [err|[[snapshot m0] g0]]; [discriminate Hnew|].
    destruct Hspec as (cfg' & store & nextStore & [= <-] & _ & _ & _ & Hc & _ & _ & -> & _). injection Hnew as <- <-.
    by exists snapshot. }
  set (servers := [InitTracing; StartWatcher] ++
    (if admin then [ServeAdmin (resolveAdminAddr Getenv) (TrimSpace (Getenv "ADMIN_TOKEN"))] else []) ++
    [ServeGateway (sc_Port (cfg_Server cfg))]).
  replace ([InitTracing; StartWatcher] ++ _) with (servers ++ init ++ [Exit code])
    by (unfold servers; by rewrite <- !app_assoc).
  assert (forall t, ShutdownGateway t ∉ servers /\ ShutdownAdmin t ∉ servers) as Hs1 by (intros t; unfold servers; destruct admin; set_solver).
  assert (forall c, Exit c ∉ servers) as Hs2 by (intros c; unfold servers; destruct admin; set_solver).
  assert (forall port, ServeGateway port ∈ servers <-> port = sc_Port (cfg_Server cfg)) as Hs3
    by (intros port; unfold servers; destruct admin; set_solver).
  split_and!.
  - intros port. rewrite elem_of_app, Hs3. split.
    + intros [->|?%H1]; [|done]. by exists m, g, cfg, snapshot, prefixes.
    + intros (m' & g' & cfg' & sn & ps & _ & [= <-] & _ & _ & _ & _ & _ & _ & ->). by left.
  - intros addr token [Hin|?%H2]%elem_of_app; [|done]. unfold servers in Hin. destruct admin; set_solver.
  - intros _ Ha. exists (resolveAdminAddr Getenv), (TrimSpace (Getenv "ADMIN_TOKEN")).
    apply elem_of_app. left. unfold servers. rewrite Ha. set_solver.
  - unfold servers. destruct admin; exact H3.
  - intros t Hin. rewrite (H4 t); [apply shutdownTimeout_pos|]. destruct (Hs1 t). clearbody servers. set_solver.
  - clearbody servers. exists (servers ++ init), code. split_and!; [by rewrite app_assoc|set_solver|]. rewrite H6. naive_solver.
Qed.

(** An injected store is the one that is used, whatever is reloaded. *)
Lemma injected_store_stays {E G R} {HBase : BaseEnv E} {HEnv : GatewayEnv E} {HGauge : GaugeVec G} {HProm : Prometheus}
    {HRedis : Redis R} {HJWT : JWTParser} sampledTrace metrics (e : E) (redis : RedisConfig -> R) metricsHandler cfg store trustedProxies m g ops snapshot :
  newRuntimeManager (G := G) sampledTrace metrics e redis cfg (mkOptions (Some store) trustedProxies) = inr (m, g) ->
  Current (foldl (manager_step sampledTrace metricsHandler) (m, g) ops).1 = Some snapshot -> sn_RateLimitStore snapshot = Some store.
Proof.
  intros Hnew. set (injected := storeFactory (E := E) (G := G) (R := R) (mkOptions (Some store) trustedProxies)).
  assert (forall next previous (m : Manager (E := E) (G := G) (R := R)) g, mg_rateLimitStoreFactor m = injected ->
    match buildSnapshot sampledTrace next previous m g with inr (snapshot, _, _) => sn_RateLimitStore snapshot = Some store | inl _ => True end) as Hbuild.
  { intros next previous m0 g0 Hf. pose proof (buildSnapshot_spec sampledTrace next previous m0 g0) as Hspec.
    destruct (buildSnapshot _ _ _ _ _) as [err|[[sn m1] g1]]; [done|]. destruct Hspec as (cfg' & st & n & _ & _ & _ & Hs & _ & -> & _).
    rewrite Hf in Hs. by injection Hs as <- _. }
  pose (ok := fun st : Manager (E := E) (G := G) (R := R) * Gateway (E := E) (G := G) (R := R) =>
    mg_rateLimitStoreFactor st.1 = injected /\ forall snapshot, Current st.1 = Some snapshot -> sn_RateLimitStore snapshot = Some store).
  assert (ok (foldl (manager_step sampledTrace metricsHandler) (m, g) ops)) as [_ Hok]; [|by apply Hok].
  apply (foldl_preserves ok).
  - intros [m0 g0] op [Hf Hc]. destruct op as [req|next|]; cbn [manager_step]; [by split| |by split].
    unfold Reload. pose proof (Hbuild next (Current m0) m0 g0 Hf) as Hb. pose proof (buildSnapshot_spec sampledTrace next (Current m0) m0 g0) as Hspec.
    destruct (buildSnapshot _ _ _ _ _) as [err|[[sn m1] g1]]; [by split|]. destruct Hspec as (? & ? & ? & _ & _ & _ & _ & _ & _ & _ & -> & _).
    split; [exact Hf|]. by intros ? [= <-].
  - split; [exact (NewManager_factory _ _ _ _ _ _ _ _ _ Hnew)|]. unfold newRuntimeManager, NewManager in Hnew. cbn [default] in Hnew.
    match type of Hnew with match buildSnapshot _ ?a ?b ?c ?d with _ => _ end = _ => pose proof (Hbuild a b c d eq_refl) as Hb end.
    destruct (buildSnapshot _ _ _ _ _) as [err|[[sn m1] g1]]; [discriminate Hnew|]. injection Hnew as <- <-. by intros ? [= <-].
Qed.
