(* ===== verification/Redact.v ===== *)
(** * Redaction: [internal/telemetry/events.go], [cmd/observatory/events.go]

    The gateway logs its events with their attributes cleared of tokens, and the observatory
    clears what it reads of them again.  The lemmas: the JWT pattern is what its regular
    expression says; of a value, those strings are replaced that are, up to surrounding
    space, a JWT or a secret, and nothing else changes; and on what JSON can hold the two
    programs clear alike.  Keys, messages and what surrounds a token in a longer string are
    not cleared; the last lemma shows it. *)

From S2P Require Import Prelude GoStrings.
From stdpp Require Import options.

(** ** Attributes *)

(** An [any]: strings, what holds strings, and anything else.  A map is the list of its
    entries. *)
Inductive Value :=
  | VString (s : string)
  | VStrings (l : list string)
  | VList (l : list Value)
  | VMap (m : list (string * Value))
  | VOther (description : string).

Section ValueInd.
Variable P : Value -> Prop.
Hypotheses (HString : forall s, P (VString s)) (HStrings : forall l, P (VStrings l))
  (HList : forall l, Forall P l -> P (VList l)) (HMap : forall m, Forall (fun kv => P kv.2) m -> P (VMap m))
  (HOther : forall d, P (VOther d)).

Fixpoint Value_ind' (v : Value) : P v :=
  match v with
  | VString s => HString s
  | VStrings l => HStrings l
  | VList l => HList l ((fix go l : Forall P l :=
      match l with [] => Forall_nil_2 P | v :: l => Forall_cons_2 P v l (Value_ind' v) (go l) end) l)
  | VMap m => HMap m ((fix go m : Forall (fun kv => P kv.2) m :=
      match m with
      | [] => Forall_nil_2 (fun kv => P kv.2)
      | kv :: m => Forall_cons_2 (fun kv => P kv.2) kv m (Value_ind' kv.2) (go m)
      end) m)
  | VOther d => HOther d
  end.
End ValueInd.

(** What decoding JSON gives: no [[]string]. *)
Fixpoint json_value (v : Value) : bool :=
  match v with
  | VStrings _ => false
  | VList l => forallb json_value l
  | VMap m => forallb (fun kv => json_value kv.2) m
  | VString _ | VOther _ => true
  end.

(** ** The JWT pattern *)

Definition dot : ascii := byte 46.

(** [[A-Za-z0-9_+=/-]] *)
Definition jwt_byte (a : ascii) : bool :=
  let n := nat_of_ascii a in
  ((65 <=? n) && (n <=? 90) || (97 <=? n) && (n <=? 122) || (48 <=? n) && (n <=? 57) ||
   (n =? 95) || (n =? 43) || (n =? 61) || (n =? 47) || (n =? 45))%nat.

Fixpoint all_in (f : ascii -> bool) (s : string) : bool :=
  match s with EmptyString => true | String a s => f a && all_in f s end.

(** [jwtLikePattern.MatchString] *)
Definition jwtLike (value : string) : bool :=
  match Split value dot with
  | [header; payload; signature] =>
      HasPrefix header "eyJ" && all_in jwt_byte (drop_bytes 3 header) && all_in jwt_byte payload && all_in jwt_byte signature
  | _ => false
  end.

(** The regular expression, as a language. *)
Definition jwt_language (s : string) : Prop :=
  exists a b c, all_in jwt_byte a = true /\ all_in jwt_byte b = true /\ all_in jwt_byte c = true /\
    s = "eyJ" +:+ a +:+ "." +:+ b +:+ "." +:+ c.

Lemma jwt_byte_no_dot s : all_in jwt_byte s = true -> contains_byte dot s = false.
Proof.
  induction s as [|a s IH]; cbn; [done|]. intros [Ha Hs]%andb_true_iff. rewrite IH by done.
  rewrite orb_false_r. apply bool_decide_eq_false_2. intros ->. by vm_compute in Ha.
Qed.

Lemma HasPrefix_split s p : HasPrefix s p = true -> s = p +:+ drop_bytes (String.length p) s.
Proof. intros [t ->]%HasPrefix_spec. by rewrite drop_bytes_app. Qed.

Lemma jwtLike_spec s : jwtLike s = true <-> jwt_language s.
Proof.
  unfold jwtLike. split.
  - destruct (Split_spec s dot) as [Hs _]. destruct (Split s dot) as [|h [|p [|g [|? ?]]]]; try done.
    intros [[[Hh Ha]%andb_true_iff Hb]%andb_true_iff Hc]%andb_true_iff.
    exists (drop_bytes 3 h), p, g. split_and!; [done..|]. rewrite Hs. cbn [Join].
    rewrite (HasPrefix_split h "eyJ" Hh) at 1. by rewrite append_assoc.
  - intros (a & b & c & Ha & Hb & Hc & ->).
    assert (contains_byte dot ("eyJ" +:+ a) = false) as Hna by (rewrite contains_byte_append; by rewrite (jwt_byte_no_dot a)).
    replace ("eyJ" +:+ a +:+ "." +:+ b +:+ "." +:+ c) with (("eyJ" +:+ a) +:+ String dot (b +:+ String dot c)) by by rewrite append_assoc.
    rewrite Split_cons, Split_cons, Split_no_sep by (done || by apply jwt_byte_no_dot).
    rewrite HasPrefix_app. change 3%nat with (String.length "eyJ"). rewrite drop_bytes_app, Ha, Hb, Hc. done.
Qed.

(** ** The gateway's events *)

Section Events.
(** [DEMO_TOKEN] and [ADMIN_TOKEN], trimmed. *)
Variables demoToken adminToken : string.

Definition subtleStringMatch (left right : string) : bool := bool_decide (left = right).

Definition eventSecretMatch (value : string) : bool :=
  if negb (bool_decide (demoToken = "")) && subtleStringMatch value demoToken then true
  else negb (bool_decide (adminToken = "")) && subtleStringMatch value adminToken.

Definition sanitizeEventString (value : string) : string :=
  let trimmed := TrimSpace value in
  if bool_decide (trimmed = "") then value
  else if jwtLike trimmed then "[redacted-jwt]"
  else if eventSecretMatch trimmed then "[redacted-secret]"
  else value.

Fixpoint sanitizeEventValue (value : Value) : Value :=
  match value with
  | VString typed => VString (sanitizeEventString typed)
  | VStrings typed => VStrings (map sanitizeEventString typed)
  | VList typed => VList (map sanitizeEventValue typed)
  | VMap typed => VMap (map (fun kv => (kv.1, sanitizeEventValue kv.2)) typed)
  | VOther _ => value
  end.

Definition sanitizeEventAttrs (attrs : list (string * Value)) : list (string * Value) :=
  map (fun kv => (kv.1, sanitizeEventValue kv.2)) attrs.

(** A record of the log, but for its time. *)
Record LogRecord := mkLogRecord { lr_Level : Z; lr_Message : string; lr_Type : string; lr_Attrs : list (string * Value) }.

Definition LogGatewayEvent (level : Z) (typ message : string) (attrs : list (string * Value)) : option LogRecord :=
  if bool_decide (TrimSpace typ = "") then None
  else Some (mkLogRecord level message (TrimSpace typ) (sanitizeEventAttrs attrs)).

(** ** The observatory's *)

(** Lengths first, then [ConstantTimeCompare]. *)
Definition observatorySecretMatch (value secret : string) : bool :=
  if bool_decide (value = "") || bool_decide (secret = "") || negb (String.length value =? String.length secret)%nat then false
  else bool_decide (value = secret).

Definition sanitizeParsedString (value : string) : string :=
  let trimmed := TrimSpace value in
  if bool_decide (trimmed = "") then value
  else if jwtLike trimmed then "[redacted-jwt]"
  else if observatorySecretMatch trimmed demoToken then "[redacted-secret]"
  else if observatorySecretMatch trimmed adminToken then "[redacted-secret]"
  else value.

Fixpoint sanitizeParsedValue (value : Value) : Value :=
  match value with
  | VString typed => VString (sanitizeParsedString typed)
  | VList typed => VList (map sanitizeParsedValue typed)
  | VMap typed => VMap (map (fun kv => (kv.1, sanitizeParsedValue kv.2)) typed)
  | VStrings _ | VOther _ => value
  end.

Definition sanitizeParsedAttrs (attrs : list (string * Value)) : list (string * Value) :=
  map (fun kv => (kv.1, sanitizeParsedValue kv.2)) attrs.

(** ** What is left *)

(** A string that gives nothing away: no JWT, no secret, up to surrounding space. *)
Definition revealing (s : string) : Prop :=
  jwt_language (TrimSpace s) \/
  demoToken <> "" /\ TrimSpace s = demoToken \/ adminToken <> "" /\ TrimSpace s = adminToken.

(** What a string becomes: the marker of what it is, or itself. *)
Inductive redacted_string (s : string) : string -> Prop :=
  | red_jwt : jwt_language (TrimSpace s) -> redacted_string s "[redacted-jwt]"
  | red_secret : ~ jwt_language (TrimSpace s) -> revealing s -> redacted_string s "[redacted-secret]"
  | red_kept : ~ revealing s -> redacted_string s s.

(** And a value: the strings in it, however deep; keys, lengths and all else stay. *)
Inductive redacted : Value -> Value -> Prop :=
  | red_String s t : redacted_string s t -> redacted (VString s) (VString t)
  | red_Strings l l' : Forall2 redacted_string l l' -> redacted (VStrings l) (VStrings l')
  | red_List l l' : Forall2 redacted l l' -> redacted (VList l) (VList l')
  | red_Map m m' : Forall2 (fun kv kv' => kv.1 = kv'.1 /\ redacted kv.2 kv'.2) m m' -> redacted (VMap m) (VMap m')
  | red_Other d : redacted (VOther d) (VOther d).

Lemma jwt_language_nonempty s : jwt_language s -> s <> "".
Proof. by intros (a & b & c & _ & _ & _ & ->). Qed.

Lemma eventSecretMatch_spec s :
  eventSecretMatch s = true <-> demoToken <> "" /\ s = demoToken \/ adminToken <> "" /\ s = adminToken.
Proof. unfold eventSecretMatch, subtleStringMatch. repeat case_bool_decide; cbn; naive_solver. Qed.

Lemma sanitizeEventString_spec s : redacted_string s (sanitizeEventString s).
Proof.
  unfold sanitizeEventString. pose proof (jwtLike_spec (TrimSpace s)) as Hj.
  pose proof (eventSecretMatch_spec (TrimSpace s)) as Hm.
  case_bool_decide as Hblank.
  - apply red_kept. rewrite <- (jwtLike_spec (TrimSpace s)) in Hj. unfold revealing. rewrite Hblank.
    intros [?%jwt_language_nonempty|[[? <-]|[? <-]]]; done.
  - destruct (jwtLike _); [apply red_jwt; by apply Hj|]. assert (~ jwt_language (TrimSpace s)) as Hno by (intros ?%Hj; done).
    destruct (eventSecretMatch _); [apply red_secret; [done|right; by apply Hm]|apply red_kept].
    intros [?|?%Hm]; done.
Qed.

Lemma sanitizeParsedString_agrees s : sanitizeParsedString s = sanitizeEventString s.
Proof.
  unfold sanitizeParsedString, sanitizeEventString. case_bool_decide as Hblank; [done|]. destruct (jwtLike _); [done|].
  assert (forall secret, observatorySecretMatch (TrimSpace s) secret = negb (bool_decide (secret = "")) && subtleStringMatch (TrimSpace s) secret) as Hm.
  { intros secret. unfold observatorySecretMatch, subtleStringMatch. rewrite (bool_decide_eq_false_2 (TrimSpace s = "")) by done.
    destruct (bool_decide (secret = "")); cbn; [done|]. case_bool_decide as Heq.
    - subst. by rewrite Nat.eqb_refl.
    - by destruct (_ =? _)%nat. }
  rewrite !Hm. unfold eventSecretMatch. by destruct (negb (bool_decide (demoToken = "")) && _).
Qed.

Lemma sanitizeEventValue_spec v : redacted v (sanitizeEventValue v).
Proof.
  induction v as [s|l|l IH|m IH|d] using Value_ind'; cbn; constructor.
  - apply sanitizeEventString_spec.
  - induction l; constructor; auto using sanitizeEventString_spec.
  - induction IH; constructor; auto.
  - induction IH; constructor; auto.
Qed.

Lemma sanitizeEventAttrs_spec attrs : redacted (VMap attrs) (VMap (sanitizeEventAttrs attrs)).
Proof. exact (sanitizeEventValue_spec (VMap attrs)). Qed.

Lemma sanitizeParsedValue_agrees v : json_value v = true -> sanitizeParsedValue v = sanitizeEventValue v.
Proof.
  induction v as [s|l|l IH|m IH|d] using Value_ind'; cbn; intros Hj; [by rewrite sanitizeParsedString_agrees|done| | |done].
  - f_equal. apply map_ext_in. intros v Hv. rewrite forallb_forall in Hj. rewrite Forall_forall in IH.
    apply IH; [by apply list_elem_of_In|by apply Hj].
  - f_equal. apply map_ext_in. intros kv Hv. rewrite forallb_forall in Hj. rewrite Forall_forall in IH.
    f_equal. apply IH; [by apply list_elem_of_In|by apply (Hj kv)].
Qed.

Lemma sanitizeParsedAttrs_spec attrs : json_value (VMap attrs) = true -> redacted (VMap attrs) (VMap (sanitizeParsedAttrs attrs)).
Proof.
  intros Hj. pose proof (sanitizeParsedValue_agrees (VMap attrs) Hj) as H. change (VMap (sanitizeParsedAttrs attrs)) with (sanitizeParsedValue (VMap attrs)).
  rewrite H. apply sanitizeEventValue_spec.
Qed.
End Events.

(** What is not cleared: a token in a longer string, in the message, and in a key. *)
Lemma embedded_token_is_logged :
  let jwt := "eyJhbGciOi.eyJzdWIi.c2ln"%string in
  LogGatewayEvent "demo" "adm1n" 4 "auth_failed" ("rejected " +:+ jwt) [("header", VString ("Bearer " +:+ jwt)); (jwt, VString "admin: adm1n")]%string =
  Some (mkLogRecord 4 ("rejected " +:+ jwt) "auth_failed" [("header", VString ("Bearer " +:+ jwt)); (jwt, VString "admin: adm1n")]%string).
Proof. vm_compute. reflexivity. Qed.
