(* ===== verification/CircuitEvents.v ===== *)
(** * The events of a circuit: [internal/transport/resilient.go]

    What the transport logs when it asks a breaker and when it reports to it, by the place in
    [CircuitBreakerTransport.RoundTrip] and in the closures of the body.  The lemmas: who
    replays the events of a target knows its circuit's state, but for two places that log
    nothing, and the state one of them hides. *)

From S2P Require Import Prelude GoStrings Config Breaker Redact.
From stdpp Require Import options.
#[local] Set Default Proof Using "Type*".
#[local] Open Scope string_scope.
#[local] Open Scope Z_scope.

Inductive Level := LevelInfo | LevelWarn | LevelError.

(** What [LogGatewayEvent] is given. *)
Record GatewayEvent := mkGatewayEvent { ge_Level : Level; ge_Type : string; ge_Message : string; ge_Attrs : list (string * Value) }.

Definition circuitStateAttribute (state : State) : string :=
  match state with StateOpen => "open" | StateHalfOpen => "half_open" | StateClosed => "closed" end.

(** The keys of [attrs] are not among the two. *)
Definition logCircuitEvent (level : Level) (typ message service target : string) (attrs : list (string * Value)) : GatewayEvent :=
  mkGatewayEvent level typ message ([("service", VString service); ("target", VString target)] ++ attrs)%list.

Section CircuitEvents.
Context {C : Type}.
Variables service target requestID traceID route : string.
Implicit Types b : Breaker C.

Definition circuitAttrs (state : string) : list (string * Value) :=
  [("cb.state", VString state); ("request_id", VString requestID); ("trace_id", VString traceID); ("route", VString route)].

(** Around [breaker.Allow()]. *)
Definition askEvents (before : State) (allowed : bool) (after : State) : list GatewayEvent :=
  ((if allowed && bool_decide (after = StateHalfOpen)
    then [logCircuitEvent LevelWarn "circuit_half_open" ("half-open probe sent to " +:+ target) service target
            (circuitAttrs (circuitStateAttribute after) ++ [("previous", VString (circuitStateAttribute before))])%list]
    else []) ++
   (if allowed then []
    else [logCircuitEvent LevelWarn "circuit_rejected" ("circuit rejected request for " +:+ target) service target
            (circuitAttrs (circuitStateAttribute after))]))%list.

(** Where a result is reported: for an error of the round trip, for an answer that is nil, of
    a status of 500 or more, or without a body, and by the body. *)
Inductive Site := OnError | OnNilResponse | OnServerError (status : Z) | OnNilBody | OnBody.

Inductive Result := Succeeded | Failed | Ignored.

Definition openEvent (attrs : list (string * Value)) (before after : State) : list GatewayEvent :=
  if bool_decide (after = StateOpen) && negb (bool_decide (before = StateOpen))
  then [logCircuitEvent LevelError "circuit_open" ("circuit OPEN on " +:+ target) service target (circuitAttrs "open" ++ attrs)%list]
  else [].

Definition closedEvent (before after : State) : list GatewayEvent :=
  if bool_decide (before = StateHalfOpen) && bool_decide (after = StateClosed)
  then [logCircuitEvent LevelInfo "circuit_closed" ("circuit CLOSED on " +:+ target) service target (circuitAttrs "closed")]
  else [].

(** The results that a site reports, and what it logs. *)
Definition recordEvents (site : Site) (result : Result) (before after : State) : list GatewayEvent :=
  match site, result with
  | OnError, Failed | OnBody, Failed => openEvent [] before after
  | OnServerError status, Failed => openEvent [("status", VOther (Itoa status))] before after
  | OnNilBody, Succeeded | OnBody, Succeeded | OnBody, Ignored => closedEvent before after
  | _, _ => []
  end.

Definition reports_at (site : Site) (result : Result) : bool :=
  match site, result with
  | OnError, (Failed | Ignored) | (OnNilResponse | OnServerError _), Failed | OnNilBody, Succeeded | OnBody, _ => true
  | _, _ => false
  end.

(** The places that log nothing. *)
Definition silent (site : Site) (result : Result) : bool :=
  match site, result with OnError, Ignored | OnNilResponse, _ => true | _, _ => false end.

Definition record (result : Result) (now : Time) b : Breaker C :=
  fst match result with Succeeded => RecordSuccess now b | Failed => RecordFailure now b | Ignored => RecordIgnored b end.

(** ** Histories *)

Inductive Exchange := Ask | Report (site : Site) (result : Result).

(** One exchange with the breaker, and its events. *)
Definition exchange (now : Time) (x : Exchange) b : Breaker C * list GatewayEvent :=
  let before := State_ now b in
  match x with
  | Ask => let '(allowed, (b, _)) := Allow now b in (b, askEvents before allowed (State_ now b))
  | Report site result => let b := record result now b in (b, recordEvents site result before (State_ now b))
  end.

Fixpoint exchanges (history : list (Time * Exchange)) b : Breaker C * list GatewayEvent :=
  match history with
  | [] => (b, [])
  | (now, x) :: history =>
      let '(b, events) := exchange now x b in
      let '(b, later) := exchanges history b in (b, events ++ later)%list
  end.

(** The state that an event shows. *)
Definition shows (state : State) (event : GatewayEvent) : State :=
  if bool_decide (ge_Type event = "circuit_open") then StateOpen
  else if bool_decide (ge_Type event = "circuit_half_open") then StateHalfOpen
  else if bool_decide (ge_Type event = "circuit_closed") then StateClosed
  else state.

Definition loud (x : Exchange) : bool := match x with Ask => true | Report site result => reports_at site result && negb (silent site result) end.

Lemma State_not_open now b : b_state b <> StateOpen -> State_ now b = b_state b.
Proof using Type. intros H. unfold State_, timeoutElapsed. by rewrite bool_decide_eq_false_2. Qed.

Lemma exchange_wf now x b : wf b -> wf (fst (exchange now x b)).
Proof using Type.
  intros Hwf. destruct x as [|site []]; cbn.
  - pose proof (wf_Allow now b Hwf) as H. by destruct (Allow now b) as [? [? ?]].
  - by apply wf_RecordSuccess.
  - by apply wf_RecordFailure.
  - by apply wf_RecordIgnored.
Qed.

Lemma shows_open attrs before after s :
  foldl shows s (openEvent attrs before after) = if bool_decide (after = StateOpen) && negb (bool_decide (before = StateOpen)) then StateOpen else s.
Proof using Type. unfold openEvent. by destruct (_ && _). Qed.

Lemma shows_closed before after s :
  foldl shows s (closedEvent before after) = if bool_decide (before = StateHalfOpen) && bool_decide (after = StateClosed) then StateClosed else s.
Proof using Type. unfold closedEvent. by destruct (_ && _). Qed.

Lemma shows_ask before allowed after s :
  foldl shows s (askEvents before allowed after) = if allowed && bool_decide (after = StateHalfOpen) then StateHalfOpen else s.
Proof using Type. unfold askEvents. by destruct allowed; cbn [andb]; [destruct (bool_decide _)|]. Qed.

Lemma ask_shown now b : wf b -> let '(b', events) := exchange now Ask b in foldl shows (b_state b) events = b_state b'.
Proof using Type.
  intros Hwf. pose proof (pc_half_open _ (wf_config _ Hwf)). unfold exchange, Allow. destruct (timeoutElapsed now b) eqn:Ht.
  - cbn. destruct (Z.leb_spec (cb_HalfOpenMaxRequests (b_config b)) 0); [lia|]. by rewrite shows_ask.
  - destruct (b_state b) eqn:Hs; [| |destruct (_ <=? _)]; rewrite shows_ask; cbn [andb];
      rewrite ?State_not_open by (cbn; congruence); cbn; by rewrite ?Hs.
Qed.

Lemma closeIfRecovered_state b : b_state b = StateHalfOpen ->
  b_state (fst (closeIfRecovered b)) = StateHalfOpen \/ b_state (fst (closeIfRecovered b)) = StateClosed.
Proof using Type. intros Hs. unfold closeIfRecovered. destruct (_ && _); [by right|by left]. Qed.

(** A result that is no failure leaves the state or closes a half-open circuit. *)
Lemma recovery_shown result now b :
  result <> Failed -> foldl shows (b_state b) (closedEvent (State_ now b) (State_ now (record result now b))) = b_state (record result now b).
Proof using Type.
  intros Hr. rewrite shows_closed.
  assert (b_state (record result now b) = b_state b /\ State_ now (record result now b) = State_ now b \/
          b_state b = StateHalfOpen /\ b_state (record result now b) = StateClosed) as [[H1 H2]|[H1 H2]].
  { assert (forall s i, b_state b = StateHalfOpen ->
      let b' := fst (closeIfRecovered (with_halfOpen s i b)) in
      b_state b' = b_state b /\ State_ now b' = State_ now b \/ b_state b = StateHalfOpen /\ b_state b' = StateClosed) as Hclose.
    { intros s i Hs. cbv zeta. destruct (closeIfRecovered_state (with_halfOpen s i b) Hs) as [H|H]; [left|by right].
      split; [by rewrite H, Hs|]. by rewrite !State_not_open, H, Hs by (rewrite ?H; congruence). }
    destruct result; [|done|]; unfold record, RecordSuccess, RecordIgnored.
    - destruct (b_state b) eqn:Hs; cbn [fst]; [|by left|by apply Hclose].
      left. rewrite !State_not_open by (rewrite ?prune_state; congruence). by rewrite prune_state.
    - case_bool_decide as Hs; cbn [andb fst]; [|by left]. destruct (_ <? _); cbn [fst]; [by apply Hclose|by left]. }
  - rewrite H1, H2. destruct (bool_decide (State_ now b = StateHalfOpen)) eqn:Hd; [|done].
    apply bool_decide_eq_true in Hd. rewrite Hd. by rewrite bool_decide_eq_false_2.
  - rewrite !State_not_open, H1, H2 by (rewrite ?H1, ?H2; congruence). done.
Qed.

Lemma failure_shown attrs now b :
  wf b -> foldl shows (b_state b) (openEvent attrs (State_ now b) (State_ now (record Failed now b))) = b_state (record Failed now b).
Proof using Type.
  intros Hwf. pose proof (pc_timeout _ (wf_config _ Hwf)) as Ht. rewrite shows_open. unfold record, RecordFailure.
  assert (forall b0, cb_Timeout (b_config b0) = cb_Timeout (b_config b) -> State_ now (fst (openLocked now b0)) = StateOpen) as Hopen.
  { intros b0 Hb0. unfold State_, timeoutElapsed, Before. cbn. rewrite Hb0. unfold AddDuration. by destruct (Z.ltb_spec now (now + cb_Timeout (b_config b))); [|lia]. }
  destruct (b_state b) eqn:Hs; cbn [fst].
  - unfold tripIfThreshold. destruct (_ <=? _).
    + rewrite Hopen by (by rewrite prune_config). by rewrite State_not_open, Hs by congruence.
    + cbn [fst]. rewrite !State_not_open by (rewrite ?prune_state; cbn; congruence). rewrite prune_state. cbn. by rewrite Hs.
  - rewrite Hs. destruct (bool_decide (State_ now b = StateOpen)); done.
  - rewrite Hopen by done. by rewrite State_not_open, Hs by congruence.
Qed.

(** The events of a target tell its circuit's state, however requests ask and report, as long
    as none reports at a silent place. *)
Lemma circuit_events_tell_state history b :
  wf b -> Forall (fun x => loud x.2 = true) history ->
  let '(b', events) := exchanges history b in foldl shows (b_state b) events = b_state b'.
Proof using Type.
  intros Hwf Hl. revert b Hwf. induction Hl as [|[now x] history Hx _ IH]; intros b Hwf; cbn [exchanges]; [done|].
  assert (let '(b', events) := exchange now x b in foldl shows (b_state b) events = b_state b') as Hone.
  { destruct x as [|site result]; [by apply ask_shown|]. cbn in Hx. unfold exchange.
    destruct site, result; try discriminate Hx; cbn [recordEvents];
      first [by apply failure_shown | by apply recovery_shown]. }
  pose proof (exchange_wf now x b Hwf) as Hwf'. destruct (exchange now x b) as [b' events]. specialize (IH b' Hwf').
  destruct (exchanges history b') as [b'' later]. by rewrite foldl_app, Hone.
Qed.
End CircuitEvents.

(** A probe that its client cancels can be the one that closes the circuit; the place where it
    is reported logs nothing, and the last that was shown is half-open. *)
Lemma cancelled_probe_closes_silently :
  let '(b, events) := exchanges "users" "a:80" "r-1" "" "/users"
    [(0, Ask); (0, Report OnError Failed); (10, Ask); (10, Ask); (11, Report OnBody Succeeded); (12, Report OnError Ignored)]
    (New (C := unit) (mkCBConfig 1 1 10 60 2)) in
  b_state b = StateClosed /\ foldl shows StateClosed events = StateHalfOpen.
Proof. by vm_compute. Qed.
