(* ===== verification/EventHub.v ===== *)
(** * The observatory's event hub: [cmd/observatory/events.go]

    Publishers append to the buffer and take the clients' channels under the mutex, and send
    outside it; subscribers take the buffer and register under the mutex.  The hub is a
    transition system whose steps are those critical sections and each channel operation of
    a send.  Whatever the interleaving, a subscriber's snapshot and its channel together
    miss no event and repeat none, but for those that a full channel drops.  An event is
    taken with its time, which [Publish] sets where it is zero. *)

From S2P Require Import Prelude.
From stdpp Require Import options.
#[local] Set Default Proof Using "Type*".

Definition client_capacity : nat := 256.
Definition retention : Duration := 5 * Minute.

Section Hub.
Context {Event : Type} {HEvent : EqDecision Event}.
Variable TS : Event -> Time.

(** A client: its channel, and what has become of the events since it subscribed. *)
Record Client := mkClient {
  cl_queue : list Event; (* the channel *)
  cl_snapshot : list Event; (* history: what [Subscribe] returned *)
  cl_published : list Event; (* history: appended to the buffer while it is registered *)
  cl_received : list Event; (* history *)
  cl_dropped : list Event; (* history *)
  cl_since : nat; (* history: how many events had been published *)
}.

(** The next channel operation of a send. *)
Inductive SendPhase := Trying | Dropping | Retrying.

(** A [Publish] that has released the mutex: the clients left. *)
Record Publisher := mkPublisher { pb_event : Event; pb_clients : list nat; pb_phase : SendPhase }.

Record EventHub := mkHub {
  hb_nextID : nat;
  hb_buffer : list Event;
  hb_registered : gset nat; (* the keys of [clients] *)
  hb_clients : gmap nat Client; (* every channel that was made *)
  hb_publishers : list Publisher;
  hb_log : list Event; (* history: all that was published *)
  hb_latest : Time; (* history: the latest time the buffer was pruned at *)
}.
Implicit Types h : EventHub.

Definition NewEventHub : EventHub := mkHub 0 [] ∅ ∅ [] [] 0.

Definition pruneLocked (now : Time) (buffer : list Event) : list Event :=
  let cutoff := now - retention in
  foldl (fun trimmed event => if Before (TS event) cutoff then trimmed else trimmed ++ [event]) [] buffer.

Definition push (e : Event) (c : Client) : Client :=
  mkClient (cl_queue c ++ [e]) (cl_snapshot c) (cl_published c) (cl_received c) (cl_dropped c) (cl_since c).
Definition announce (e : Event) (c : Client) : Client :=
  mkClient (cl_queue c) (cl_snapshot c) (cl_published c ++ [e]) (cl_received c) (cl_dropped c) (cl_since c).
Definition lose (e : Event) (c : Client) : Client :=
  mkClient (cl_queue c) (cl_snapshot c) (cl_published c) (cl_received c) (cl_dropped c ++ [e]) (cl_since c).

(** [case <-client: default:] *)
Definition drop_oldest (c : Client) : Client :=
  match cl_queue c with
  | [] => c
  | e :: queue => mkClient queue (cl_snapshot c) (cl_published c) (cl_received c) (cl_dropped c ++ [e]) (cl_since c)
  end.
Definition receive (c : Client) : Client :=
  match cl_queue c with
  | [] => c
  | e :: queue => mkClient queue (cl_snapshot c) (cl_published c) (cl_received c ++ [e]) (cl_dropped c) (cl_since c)
  end.

Definition has_room (c : Client) : bool := (length (cl_queue c) <? client_capacity)%nat.

Definition with_clients (f : gmap nat Client -> gmap nat Client) h : EventHub :=
  mkHub (hb_nextID h) (hb_buffer h) (hb_registered h) (f (hb_clients h)) (hb_publishers h) (hb_log h) (hb_latest h).
Definition with_publishers (ps : list Publisher) h : EventHub :=
  mkHub (hb_nextID h) (hb_buffer h) (hb_registered h) (hb_clients h) ps (hb_log h) (hb_latest h).

(** [Publish] up to the end of its critical section. *)
Definition publish_begin (event : Event) h : EventHub :=
  mkHub (hb_nextID h) (pruneLocked (TS event) (hb_buffer h) ++ [event]) (hb_registered h)
    (map_imap (fun id c => Some (if bool_decide (id ∈ hb_registered h) then announce event c else c)) (hb_clients h))
    (hb_publishers h ++ [mkPublisher event (elements (hb_registered h)) Trying])
    (hb_log h ++ [event]) (Z.max (hb_latest h) (TS event)).

(** The next channel operation of a publisher, on the first client it has left. *)
Definition send_step (p : Publisher) (c : Client) : Publisher * Client :=
  let event := pb_event p in
  let next := mkPublisher event (tail (pb_clients p)) Trying in
  match pb_phase p with
  | Trying => if has_room c then (next, push event c) else (mkPublisher event (pb_clients p) Dropping, c)
  | Dropping => (mkPublisher event (pb_clients p) Retrying, drop_oldest c)
  | Retrying => if has_room c then (next, push event c) else (next, lose event c)
  end.

(** [Subscribe]: the snapshot and the channel are the new client's. *)
Definition Subscribe (now : Time) h : EventHub :=
  let buffer := pruneLocked now (hb_buffer h) in
  mkHub (S (hb_nextID h)) buffer ({[ hb_nextID h ]} ∪ hb_registered h)
    (<[hb_nextID h := mkClient [] buffer [] [] [] (length (hb_log h))]> (hb_clients h)) (hb_publishers h) (hb_log h) (Z.max (hb_latest h) now).

Definition unsubscribe (id : nat) h : EventHub :=
  mkHub (hb_nextID h) (hb_buffer h) (hb_registered h ∖ {[ id ]}) (hb_clients h) (hb_publishers h) (hb_log h) (hb_latest h).

Inductive hub_step : EventHub -> EventHub -> Prop :=
  | hub_publish event h : hub_step h (publish_begin event h)
  | hub_send i p id c h : hb_publishers h !! i = Some p -> head (pb_clients p) = Some id -> hb_clients h !! id = Some c ->
      hub_step h (with_publishers (<[i := fst (send_step p c)]> (hb_publishers h))
                   (with_clients <[id := snd (send_step p c)]> h))
  | hub_receive id h : hub_step h (with_clients (alter receive id) h)
  | hub_subscribe now h : hub_step h (Subscribe now h)
  | hub_unsubscribe id h : hub_step h (unsubscribe id h).

(** ** Accounting *)

Definition occ (e : Event) (l : list Event) : nat := count_occ (fun x y => decide (x = y)) l e.

Lemma occ_app e l k : occ e (l ++ k) = (occ e l + occ e k)%nat.
Proof. apply count_occ_app. Qed.

Lemma occ_cons e x l : occ e (x :: l) = (occ e [x] + occ e l)%nat.
Proof. apply (occ_app e [x] l). Qed.

(** The sends of [e] to [id] that publishers still have to make. *)
Definition owed (id : nat) (e : Event) (p : Publisher) : nat :=
  if decide (pb_event p = e) then count_occ Nat.eq_dec (pb_clients p) id else 0%nat.
Definition pending (id : nat) (e : Event) (ps : list Publisher) : nat := sum_list_with (owed id e) ps.

#[local] Arguments owed : simpl never.
#[local] Arguments occ : simpl never.
#[local] Arguments has_room : simpl never.

Lemma pending_insert id e ps i p q :
  ps !! i = Some p -> (pending id e (<[i := q]> ps) + owed id e p = pending id e ps + owed id e q)%nat.
Proof.
  unfold pending. revert i. induction ps as [|x ps IH]; intros [|i] Hp; [done|done| |].
  - apply (inj Some) in Hp as ->. change (<[0%nat := q]> (p :: ps)) with (q :: ps). cbn [sum_list_with]. lia.
  - specialize (IH i Hp). change (<[S i := q]> (x :: ps)) with (x :: <[i := q]> ps). cbn [sum_list_with]. lia.
Qed.

Definition accounted (h : EventHub) (id : nat) (c : Client) : Prop :=
  forall e, occ e (cl_published c) =
    (occ e (cl_received c) + occ e (cl_queue c) + occ e (cl_dropped c) + pending id e (hb_publishers h))%nat.

Record hub_ok h : Prop := {
  ho_accounted id c : hb_clients h !! id = Some c -> accounted h id c;
  ho_capacity id c : hb_clients h !! id = Some c -> (length (cl_queue c) <= client_capacity)%nat;
  ho_fresh id : (hb_nextID h <= id)%nat -> hb_clients h !! id = None;
  ho_registered id : id ∈ hb_registered h -> is_Some (hb_clients h !! id);
  ho_publishers p id : p ∈ hb_publishers h -> id ∈ pb_clients p -> (id < hb_nextID h)%nat;
}.

Lemma NewEventHub_ok : hub_ok NewEventHub.
Proof. split; cbn; try done; set_solver. Qed.

Lemma count_occ_elements (s : gset nat) id :
  count_occ Nat.eq_dec (elements s) id = if bool_decide (id ∈ s) then 1%nat else 0%nat.
Proof.
  case_bool_decide as Hin.
  - apply (NoDup_count_occ' Nat.eq_dec); [apply NoDup_ListNoDup, NoDup_elements|]. by apply list_elem_of_In, elem_of_elements.
  - apply count_occ_not_In. intros ?%list_elem_of_In%elem_of_elements. done.
Qed.

Lemma occ_one e x : occ e [x] = if decide (x = e) then 1%nat else 0%nat.
Proof. unfold occ. cbn. by destruct (decide (x = e)). Qed.

Lemma publish_ok event h : hub_ok h -> hub_ok (publish_begin event h).
Proof.
  intros [H1 H2 H3 H4 H5].
  assert (forall id c', hb_clients (publish_begin event h) !! id = Some c' -> exists c, hb_clients h !! id = Some c /\
    c' = if bool_decide (id ∈ hb_registered h) then announce event c else c) as Hl.
  { intros id c'. cbn. rewrite map_lookup_imap. destruct (hb_clients h !! id) as [c|]; cbn; [|done]. intros [= <-]. by exists c. }
  split.
  - intros id c' (c & Hc & ->)%Hl e. specialize (H1 id c Hc e). cbn [publish_begin hb_publishers].
    unfold pending in *. rewrite sum_list_with_app. cbn [sum_list_with].
    assert (owed id e (mkPublisher event (elements (hb_registered h)) Trying) =
      if decide (event = e) then if bool_decide (id ∈ hb_registered h) then 1%nat else 0%nat else 0%nat) as ->
      by (unfold owed; cbn [pb_event pb_clients]; by rewrite count_occ_elements).
    case_bool_decide; cbn [announce cl_published cl_received cl_queue cl_dropped]; rewrite ?occ_app, ?occ_one;
      destruct (decide (event = e)); lia.
  - intros id c' (c & Hc & ->)%Hl. specialize (H2 id c Hc). by case_bool_decide.
  - intros id Hid. cbn. rewrite map_lookup_imap. by rewrite (H3 id Hid).
  - intros id Hid. cbn. rewrite map_lookup_imap. destruct (H4 id Hid) as [c ->]. by eexists.
  - intros p id Hp Hid. cbn in Hp. apply elem_of_app in Hp as [Hp|Hp%list_elem_of_singleton]; [by eapply H5|].
    subst p. cbn in Hid. apply elem_of_elements, H4 in Hid as [c Hc]. cbn.
    destruct (decide (id < hb_nextID h)%nat); [done|]. rewrite H3 in Hc by lia. done.
Qed.

Lemma send_ok i p id c h :
  hb_publishers h !! i = Some p -> head (pb_clients p) = Some id -> hb_clients h !! id = Some c -> hub_ok h ->
  hub_ok (with_publishers (<[i := fst (send_step p c)]> (hb_publishers h)) (with_clients <[id := snd (send_step p c)]> h)).
Proof.
  intros Hp Hhead Hc [H1 H2 H3 H4 H5]. destruct p as [event [|id0 ids] phase]; [done|]. cbn in Hhead. injection Hhead as ->.
  pose proof (H2 _ _ Hc) as Hcap.
  assert (forall e id', (pending id' e (<[i := fst (send_step (mkPublisher event (id :: ids) phase) c)]> (hb_publishers h)) +
    owed id' e (mkPublisher event (id :: ids) phase) = pending id' e (hb_publishers h) +
    owed id' e (fst (send_step (mkPublisher event (id :: ids) phase) c)))%nat) as Hpend by (intros; by apply pending_insert).
  split; cbn [hb_clients hb_publishers hb_nextID hb_registered with_clients with_publishers].
  - intros id' c' Hc' e. specialize (Hpend e id'). destruct (decide (id = id')) as [<-|Hne].
    + rewrite lookup_insert_eq in Hc'. injection Hc' as <-. specialize (H1 id c Hc e). cbn [hb_publishers with_publishers].
      unfold send_step in *. cbn [pb_phase pb_event pb_clients tail] in *. unfold owed in Hpend.
      destruct phase; [destruct (has_room c)|unfold drop_oldest; destruct (cl_queue c) as [|x q] eqn:Hq|destruct (has_room c)];
        cbn in *; rewrite ?occ_app, ?occ_one, ?(occ_cons e x q) in *;
        destruct (decide (event = e)); destruct (Nat.eq_dec id id); try congruence; rewrite ?Hq; rewrite ?occ_one in *; lia.
    + rewrite lookup_insert_ne in Hc' by done. specialize (H1 id' c' Hc' e). cbn [hb_publishers with_publishers].
      unfold owed in Hpend. unfold send_step in *. cbn [pb_phase pb_event pb_clients tail] in *.
      destruct phase; [destruct (has_room c)| |destruct (has_room c)]; cbn in *;
        destruct (decide (event = e)); try destruct (Nat.eq_dec id id'); try congruence; lia.
  - intros id' c' Hc'. destruct (decide (id = id')) as [<-|Hne]; [|rewrite lookup_insert_ne in Hc' by done; by eapply H2].
    rewrite lookup_insert_eq in Hc'. injection Hc' as <-. unfold send_step, has_room. cbn [pb_phase].
    destruct phase; [destruct (Nat.ltb_spec (length (cl_queue c)) client_capacity)|
      unfold drop_oldest; destruct (cl_queue c) as [|x q] eqn:Hq|destruct (Nat.ltb_spec (length (cl_queue c)) client_capacity)];
      cbn in *; rewrite ?length_app; cbn; rewrite ?Hq in *; cbn in *; lia.
  - intros id' Hid'. rewrite lookup_insert_ne; [by apply H3|]. intros ->. by rewrite (H3 id' Hid') in Hc.
  - intros id' Hid'. destruct (decide (id = id')) as [<-|Hne]; [rewrite lookup_insert_eq; by eexists|].
    rewrite lookup_insert_ne by done. by apply H4.
  - intros q id' Hq Hid'. apply list_elem_of_lookup in Hq as [j Hj]. apply list_lookup_insert_Some in Hj as [(<- & <- & _)|[_ Hj]].
    + apply (H5 (mkPublisher event (id :: ids) phase)); [by eapply list_elem_of_lookup_2|]. unfold send_step in Hid'. cbn in Hid' |- *.
      destruct phase; [destruct (has_room c)| |destruct (has_room c)]; cbn in Hid'; set_solver.
    + eapply H5; [by eapply list_elem_of_lookup_2|done].
Qed.

Lemma hub_step_ok h h' : hub_step h h' -> hub_ok h -> hub_ok h'.
Proof.
  destruct 1 as [event h|i p id c h Hp Hhead Hc|id h|now h|id h]; intros Hok; [by apply publish_ok|by eapply send_ok|..].
  all: destruct Hok as [H1 H2 H3 H4 H5].
  - split; cbn [hb_clients hb_publishers hb_nextID hb_registered with_clients].
    + intros id' c' Hc' e. destruct (decide (id = id')) as [<-|Hne]; [|rewrite lookup_alter_ne in Hc' by done; by apply H1].
      rewrite lookup_alter_eq in Hc'. apply fmap_Some in Hc' as (c & Hc & ->). specialize (H1 id c Hc e).
      unfold receive. destruct (cl_queue c) as [|x q] eqn:Hq; [by rewrite Hq|]. cbn. rewrite occ_app. rewrite occ_cons in H1. fold (pending id e (hb_publishers h)). lia.
    + intros id' c' Hc'. destruct (decide (id = id')) as [<-|Hne]; [|rewrite lookup_alter_ne in Hc' by done; by eapply H2].
      rewrite lookup_alter_eq in Hc'. apply fmap_Some in Hc' as (c & Hc & ->). specialize (H2 id c Hc).
      unfold receive. destruct (cl_queue c) as [|x q] eqn:Hq; [by rewrite Hq|]. cbn in *. lia.
    + intros id' Hid'. destruct (decide (id = id')) as [<-|Hne]; [rewrite lookup_alter_eq; by rewrite H3|by rewrite lookup_alter_ne; [apply H3|]].
    + intros id' Hid'. destruct (decide (id = id')) as [<-|Hne]; [rewrite lookup_alter_eq; by apply fmap_is_Some, H4|rewrite lookup_alter_ne by done; by apply H4].
    + apply H5.
  - split; cbn [hb_clients hb_publishers hb_nextID hb_registered Subscribe].
    + intros id' c' Hc' e. destruct (decide (hb_nextID h = id')) as [<-|Hne]; [|rewrite lookup_insert_ne in Hc' by done; by apply H1].
      rewrite lookup_insert_eq in Hc'. injection Hc' as <-. cbn. symmetry. unfold pending.
      assert (forall ps, (forall p id, p ∈ ps -> id ∈ pb_clients p -> (id < hb_nextID h)%nat) -> sum_list_with (owed (hb_nextID h) e) ps = 0%nat) as Hz; [|by apply Hz].
      intros ps. induction ps as [|p ps IH]; intros Hps; [done|]. cbn. rewrite IH by (intros; eapply Hps; [by right|done]).
      unfold owed. destruct (decide _); [|done]. rewrite (proj1 (count_occ_not_In Nat.eq_dec _ _)); [done|].
      intros Hin%list_elem_of_In. specialize (Hps p _ ltac:(by left) Hin). lia.
    + intros id' c' Hc'. destruct (decide (hb_nextID h = id')) as [<-|Hne]; [|rewrite lookup_insert_ne in Hc' by done; by eapply H2].
      rewrite lookup_insert_eq in Hc'. injection Hc' as <-. cbn. lia.
    + intros id' Hid'. rewrite lookup_insert_ne by lia. apply H3. lia.
    + intros id' Hid'. destruct (decide (hb_nextID h = id')) as [<-|Hne]; [rewrite lookup_insert_eq; by eexists|].
      rewrite lookup_insert_ne by done. apply H4. set_solver.
    + intros p id' Hp Hid'. specialize (H5 p id' Hp Hid'). lia.
  - split; cbn; [exact H1|exact H2|exact H3| |exact H5]. intros id' Hid'. apply H4. set_solver.
Qed.

(** ** What is in the buffer, and what a client was promised *)

Lemma pruneLocked_spec now buffer e : e ∈ pruneLocked now buffer <-> e ∈ buffer /\ now - retention <= TS e.
Proof.
  unfold pruneLocked. assert (forall acc, e ∈ foldl (fun trimmed event => if Before (TS event) (now - retention) then trimmed else trimmed ++ [event]) acc buffer <->
    e ∈ acc \/ e ∈ buffer /\ now - retention <= TS e) as H; [|rewrite H; set_solver].
  induction buffer as [|x buffer IH]; intros acc; cbn [foldl]; [set_solver|]. rewrite IH. unfold Before.
  destruct (Z.ltb_spec (TS x) (now - retention)) as [Hlt|Hge]; set_unfold.
  - split; [tauto|]. intros [?|[[->|?] ?]]; [by left|lia|by right].
  - split; [|tauto]. intros [[?|[->|[]]]|?]; tauto.
Qed.

Record hub_history h : Prop := {
  hh_buffer e : e ∈ hb_buffer h -> e ∈ hb_log h;
  hh_recent e : e ∈ hb_log h -> hb_latest h - retention <= TS e -> e ∈ hb_buffer h;
  hh_client id c : hb_clients h !! id = Some c ->
    (forall e, e ∈ cl_snapshot c -> e ∈ take (cl_since c) (hb_log h)) /\
    (forall e, e ∈ take (cl_since c) (hb_log h) -> hb_latest h - retention <= TS e -> e ∈ cl_snapshot c) /\
    (cl_since c <= length (hb_log h))%nat /\
    (exists more, drop (cl_since c) (hb_log h) = cl_published c ++ more) /\
    (id ∈ hb_registered h -> cl_published c = drop (cl_since c) (hb_log h));
}.

Lemma send_step_history p c :
  cl_snapshot (snd (send_step p c)) = cl_snapshot c /\ cl_published (snd (send_step p c)) = cl_published c /\
  cl_since (snd (send_step p c)) = cl_since c.
Proof. unfold send_step, drop_oldest. destruct (pb_phase p), (has_room c), (cl_queue c); done. Qed.

Lemma receive_history c :
  cl_snapshot (receive c) = cl_snapshot c /\ cl_published (receive c) = cl_published c /\ cl_since (receive c) = cl_since c.
Proof. unfold receive. by destruct (cl_queue c). Qed.

Lemma hub_step_history h h' : hub_step h h' -> hub_ok h -> hub_history h -> hub_history h'.
Proof.
  destruct 1 as [event h|i p id c h Hp Hhead Hc|id h|now h|id h]; intros Hok [H1 H2 H3].
  - split; cbn [publish_begin hb_buffer hb_log hb_latest hb_clients hb_registered].
    + intros e [[He _]%pruneLocked_spec|He]%elem_of_app; apply elem_of_app; [left; by apply H1|by right].
    + intros e [He|He]%elem_of_app Hr; apply elem_of_app; [left|by right]. apply pruneLocked_spec. split; [apply H2; [done|lia]|lia].
    + intros id c'. rewrite map_lookup_imap. destruct (hb_clients h !! id) as [c|] eqn:Hc; cbn; [|done]. intros [= <-].
      destruct (H3 id c Hc) as (S1 & S2 & S3 & [more S4] & S5).
      assert (forall c', c' = announce event c \/ c' = c -> cl_snapshot c' = cl_snapshot c /\ cl_since c' = cl_since c) as Hsame by (by intros c' [->| ->]).
      set (c' := if bool_decide _ then _ else _). destruct (Hsame c') as [-> ->]; [unfold c'; case_bool_decide; auto|].
      rewrite take_app_le, drop_app_le by done. split_and!.
      * done.
      * intros e He Hr. apply S2; [done|lia].
      * rewrite length_app. lia.
      * unfold c'. case_bool_decide as Hreg; cbn; [exists []; by rewrite S5, app_nil_r|]. exists (more ++ [event]). by rewrite S4, app_assoc.
      * intros Hreg. unfold c'. rewrite bool_decide_eq_true_2 by done. cbn. by rewrite S5.
  - split; cbn [with_publishers with_clients hb_buffer hb_log hb_latest hb_clients hb_registered]; [exact H1|exact H2|].
    intros id' c' Hc'. destruct (decide (id = id')) as [<-|Hne]; [|rewrite lookup_insert_ne in Hc' by done; by apply H3].
    rewrite lookup_insert_eq in Hc'. injection Hc' as <-. destruct (send_step_history p c) as (-> & -> & ->). by apply H3.
  - split; cbn [with_clients hb_buffer hb_log hb_latest hb_clients hb_registered]; [exact H1|exact H2|].
    intros id' c' Hc'. destruct (decide (id = id')) as [<-|Hne]; [|rewrite lookup_alter_ne in Hc' by done; by apply H3].
    rewrite lookup_alter_eq in Hc'. apply fmap_Some in Hc' as (c & Hc & ->). destruct (receive_history c) as (-> & -> & ->). by apply H3.
  - split; cbn [Subscribe hb_buffer hb_log hb_latest hb_clients hb_registered].
    + intros e [He _]%pruneLocked_spec. by apply H1.
    + intros e He Hr. apply pruneLocked_spec. split; [apply H2; [done|lia]|lia].
    + intros id' c' Hc'. destruct (decide (hb_nextID h = id')) as [<-|Hne].
      * rewrite lookup_insert_eq in Hc'. injection Hc' as <-. cbn [cl_snapshot cl_since cl_published]. rewrite take_ge, drop_ge by done.
        split_and!; [intros e [He _]%pruneLocked_spec; by apply H1| |done|by exists []|done].
        intros e He Hr. apply pruneLocked_spec. split; [apply H2; [done|lia]|lia].
      * rewrite lookup_insert_ne in Hc' by done. destruct (H3 id' c' Hc') as (S1 & S2 & S3 & S4 & S5).
        split_and!; [done| |done|done|]; [intros e He Hr; apply S2; [done|lia]|]. intros Hreg. apply S5. set_solver.
  - split; cbn [unsubscribe hb_buffer hb_log hb_latest hb_clients hb_registered]; [exact H1|exact H2|].
    intros id' c' Hc'. destruct (H3 id' c' Hc') as (S1 & S2 & S3 & S4 & S5). split_and!; [done..|]. intros Hreg. apply S5. set_solver.
Qed.

Lemma hub_reachable h : rtc hub_step NewEventHub h -> hub_ok h /\ hub_history h.
Proof.
  assert (forall h0, rtc hub_step h0 h -> hub_ok h0 -> hub_history h0 -> hub_ok h /\ hub_history h) as Hgen.
  { intros h0 Hrun. induction Hrun; [done|]. intros Hok Hh. eauto using hub_step_ok, hub_step_history. }
  intros Hrun. apply (Hgen _ Hrun NewEventHub_ok). split; cbn; set_solver.
Qed.

End Hub.
Arguments Client : clear implicits.
Arguments EventHub : clear implicits.

(** C27: subscribers miss nothing: however publishers, channel operations, subscriptions and
    receivers interleave, a client's snapshot holds only events published before it
    subscribed, and every one of them that is not five minutes older than the latest event;
    what was published after that, while it was registered, is each received, in its
    channel, about to be sent to it, or dropped, exactly once; and its channel holds 256 at
    most. *)
Theorem subscribers_miss_nothing {Event} `{EqDecision Event} (TS : Event -> Time) (h : EventHub Event) id c :
  rtc (hub_step TS) NewEventHub h -> hb_clients h !! id = Some c ->
  let before := take (cl_since c) (hb_log h) in
  let after := drop (cl_since c) (hb_log h) in
  (forall e, e ∈ cl_snapshot c -> e ∈ before) /\
  (forall e, e ∈ before -> hb_latest h - retention <= TS e -> e ∈ cl_snapshot c) /\
  (exists more, after = cl_published c ++ more /\ (id ∈ hb_registered h -> more = [])) /\
  (forall e, occ e (cl_published c) =
     (occ e (cl_received c) + occ e (cl_queue c) + occ e (cl_dropped c) + pending id e (hb_publishers h))%nat) /\
  (length (cl_queue c) <= client_capacity)%nat.
Proof.
  intros Hrun Hc. destruct (hub_reachable TS h Hrun) as [Hok Hh].
  destruct (hh_client _ _ Hh id c Hc) as (S1 & S2 & S3 & [more S4] & S5). cbv zeta.
  split_and!; [done|done| |by apply (ho_accounted _ Hok)|by eapply (ho_capacity _ Hok)].
  exists more. split; [done|]. intros Hreg. rewrite <- (S5 Hreg), <- (app_nil_r (cl_published c)) in S4 at 1.
  by apply app_inv_head in S4.
Qed.

(** A client that subscribed after one event, and has received one of the two after it. *)
Definition demo_TS (e : nat) : Time := Z.of_nat e.
Definition demo_hub_1 : EventHub nat := Subscribe demo_TS 1 (publish_begin demo_TS 1%nat NewEventHub).
Definition demo_hub_2 : EventHub nat := publish_begin demo_TS 3%nat (publish_begin demo_TS 2%nat demo_hub_1).
Definition demo_sending : Publisher := mkPublisher 2%nat [0%nat] Trying.
Definition demo_client : Client nat := mkClient [] [1%nat] [2; 3]%nat [] [] 1.
Definition demo_hub : EventHub nat :=
  with_clients (alter receive 0%nat)
    (with_publishers (<[1%nat := fst (send_step demo_sending demo_client)]> (hb_publishers demo_hub_2))
       (with_clients <[0%nat := snd (send_step demo_sending demo_client)]> demo_hub_2)).

Lemma demo_hub_reached : rtc (hub_step demo_TS) NewEventHub demo_hub.
Proof.
  eapply rtc_l; [apply (hub_publish demo_TS 1%nat)|]. eapply rtc_l; [apply (hub_subscribe demo_TS 1)|]. fold demo_hub_1.
  eapply rtc_l; [apply (hub_publish demo_TS 2%nat)|]. eapply rtc_l; [apply (hub_publish demo_TS 3%nat)|]. fold demo_hub_2.
  eapply rtc_l; [by apply (hub_send demo_TS 1 demo_sending 0 demo_client)|].
  eapply rtc_l; [apply (hub_receive demo_TS 0)|]. done.
Qed.

Lemma subscribers_miss_nothing_witness :
  (exists more, [2; 3]%nat = [2; 3]%nat ++ more /\ (0%nat ∈ hb_registered demo_hub -> more = [])) /\
  pending 0 3%nat (hb_publishers demo_hub) = 1%nat.
Proof.
  destruct (subscribers_miss_nothing demo_TS demo_hub 0 (mkClient [] [1%nat] [2; 3]%nat [2%nat] [] 1) demo_hub_reached ltac:(by vm_compute))
    as (_ & _ & H & Hcount & _).
  split; [exact H|by vm_compute].
Defined.
