(* ===== verification/Mux.v ===== *)
(** * The mux: what the programs use of [net/http]'s [ServeMux]

    The patterns registered by the observatory and by the demo services have a method, and
    wildcards of one segment.  A path that is not clean is redirected; a wildcard does not
    match an empty segment; a [GET] pattern also takes [HEAD]; and a path that is registered
    for other methods only is answered 405.  Paths are taken without percent escapes. *)

From stdpp Require Import strings.
From S2P Require Import Prelude GoStrings Watcher.
From stdpp Require Import options.
#[local] Open Scope string_scope.
#[local] Open Scope Z_scope.

Definition StatusMovedPermanently : Z := 301.

(** [cleanPath]: the trailing slash stays. *)
Definition cleanPath (path : string) : string :=
  if bool_decide (path = "") then "/"
  else
    let p := if HasPrefix path "/" then path else "/" +:+ path in
    let np := Clean p in
    if HasSuffix p "/" && negb (bool_decide (np = "/")) then np +:+ "/" else np.

(** The patterns that match a path's segments, with their methods. *)
Abbreviation Patterns A := (list string -> list (string * A)).

Definition takes (registered method : string) : bool :=
  bool_decide (registered = method) || bool_decide (registered = "GET") && bool_decide (method = "HEAD").

(** The handler, or the status of the mux's own answer. *)
Definition route {A} (patterns : Patterns A) (method path : string) : sum Z A :=
  if negb (bool_decide (method = "CONNECT")) && negb (bool_decide (cleanPath path = path)) then inl StatusMovedPermanently
  else
    let matching := patterns (Split path slash) in
    match List.find (fun p => takes p.1 method) matching, matching with
    | Some p, _ => inr p.2
    | None, [] => inl 404
    | None, _ => inl 405
    end.

(** The pattern of what is served takes the method. *)
Lemma route_matches {A} (patterns : Patterns A) method path endpoint :
  route patterns method path = inr endpoint ->
  exists registered, (registered, endpoint) ∈ patterns (Split path slash) /\ takes registered method = true.
Proof.
  unfold route. destruct (_ && _); [done|]. destruct (List.find _ _) as [[m e]|] eqn:Hf.
  - intros [= <-]. apply find_some in Hf as [Hin Ht]. exists m. by rewrite list_elem_of_In.
  - by destruct (patterns _).
Qed.

Lemma takes_post method : takes "POST" method = true -> method = "POST".
Proof.
  unfold takes. rewrite (bool_decide_eq_false_2 ("POST" = "GET")) by done. cbn. rewrite orb_false_r. by intros <-%bool_decide_eq_true.
Qed.

Lemma cleanPath_examples :
  cleanPath "/users/" = "/users/" /\ cleanPath "/users//u-1" = "/users/u-1" /\ cleanPath "/a/../chaos/reset" = "/chaos/reset" /\ cleanPath "" = "/" /\ cleanPath "/" = "/".
Proof. by vm_compute. Qed.
