(* ===== verification/EventStream.v ===== *)
(** * The observatory's reading of the gateway's events: [cmd/observatory/events.go]

    The gateway's log arrives in chunks, is cut into lines, each line is parsed, sampled and
    published, and every subscriber gets the events as server-sent events.  The theorems:
    the lines do not depend on the chunks, an event stream reads back as what was written to
    it, and what is published has its attributes redacted, whatever the log holds.  Docker's
    demultiplexer and the JSON decoder are parameters. *)

From Stdlib Require Import SpecFloat.
From S2P Require Import Prelude GoStrings Redact.
From stdpp Require Import options.
#[local] Set Default Proof Using "Type*".
#[local] Open Scope string_scope.
#[local] Open Scope Z_scope.

Definition newline : ascii := byte 10.
Definition nl : string := String newline "".

(** ** Lines *)

Section LineWriter.
Context {X Err : Type}.
(** [handleLine], over the state it works on. *)
Variable handleLine : string -> X -> option Err * X.

Record eventLineWriter := mkLineWriter { lw_buffer : string; lw_state : X }.

(** The loop of [Write], with what is left of [p]; the fuel is its length, and every round
    takes a newline from it. *)
Fixpoint Write_lines (fuel : nat) (p : string) (w : eventLineWriter) : option Err * eventLineWriter :=
  match fuel with
  | O => (None, w)
  | S fuel =>
      match Cut p newline with
      | None => (None, mkLineWriter (lw_buffer w +:+ p) (lw_state w))
      | Some (before, rest) =>
          let line := TrimSpace (lw_buffer w +:+ before) in
          if bool_decide (line = "") then Write_lines fuel rest (mkLineWriter "" (lw_state w))
          else
            let '(err, x) := handleLine line (lw_state w) in
            match err with
            | Some err => (Some err, mkLineWriter "" x)
            | None => Write_lines fuel rest (mkLineWriter "" x)
            end
      end
  end.

(** [Write]: how many bytes it took, or the error of a line. *)
Definition LineWriter_Write (p : string) (w : eventLineWriter) : sum Err nat * eventLineWriter :=
  let '(err, w) := Write_lines (S (String.length p)) p w in
  (match err with Some err => inl err | None => inr (String.length p) end, w).

Definition LineWriter_Flush (w : eventLineWriter) : option Err * eventLineWriter :=
  if bool_decide (lw_buffer w = "") then (None, w)
  else
    let line := TrimSpace (lw_buffer w) in
    if bool_decide (line = "") then (None, mkLineWriter "" (lw_state w))
    else let '(err, x) := handleLine line (lw_state w) in (err, mkLineWriter "" x).

(** The demultiplexed log, by the chunks [StdCopy] writes, up to the first error. *)
Fixpoint write_chunks (chunks : list string) (w : eventLineWriter) : option Err * eventLineWriter :=
  match chunks with
  | [] => (None, w)
  | p :: chunks =>
      match LineWriter_Write p w with
      | (inl err, w) => (Some err, w)
      | (inr _, w) => write_chunks chunks w
      end
  end.
End LineWriter.

(** ** Events *)

Record Event := mkEvent {
  ev_TS : Time; ev_Level : string; ev_Type : string; ev_Message : string; ev_Attrs : list (string * Value);
}.

(** What is decoded of a line. *)
Record RawEvent := mkRawEvent {
  raw_Time : string; raw_Level : string; raw_Msg : string; raw_Type : string; raw_Attrs : list (string * Value);
}.

Section Parsing.
(** [json.Unmarshal] into a [RawEvent], [time.Parse] for RFC 3339, [time.Now], and the two tokens. *)
Variable Unmarshal : string -> option RawEvent.
Variable ParseTime : string -> option Time.
Variable Now : Time.
Variables demoToken adminToken : string.

Definition parseEventLine (line : string) : option Event :=
  match Unmarshal line with
  | None => None
  | Some raw =>
      if bool_decide (TrimSpace (raw_Type raw) = "") then None
      else Some (mkEvent (from_option id Now (ParseTime (raw_Time raw)))
                   (TrimSpace (raw_Level raw)) (TrimSpace (raw_Type raw)) (TrimSpace (raw_Msg raw))
                   (sanitizeParsedAttrs demoToken adminToken (raw_Attrs raw)))
  end.

End Parsing.

(** [parseEvents]: the line handler never fails, and emits what the line holds; [copyErr] is
    an error of [StdCopy] other than the end of the log. *)
Definition parseEvents {X Err} (parse : string -> option Event) (chunks : list string) (copyErr : option Err) (emit : Event -> X -> X) (x : X) : option Err * X :=
  let handleLine line x := (None, match parse line with Some event => emit event x | None => x end) in
  match write_chunks handleLine chunks (mkLineWriter "" x) with
  | (Some err, w) => (Some err, lw_state w)
  | (None, w) =>
      match copyErr with
      | Some err => (Some err, lw_state w)
      | None => let '(err, w) := LineWriter_Flush handleLine w in (err, lw_state w)
      end
  end.

(** ** Sampling and backoff *)

(** The double nearest to 0.01, and the one nearest to 0.05. *)
Definition rate_1_percent : spec_float := S754_finite false 5764607523034235 (-59).
Definition rate_5_percent : spec_float := S754_finite false 7205759403792794 (-57).

Section Sampling.
Context {R : Type}.
(** [rng.Float64]. *)
Variable Float64 : R -> spec_float * R.

Definition one : spec_float := binary_normalize 53 1024 1 0 false.
Definition zero : spec_float := S754_zero false.

Definition samplePercent (rate : spec_float) (rng : R) : bool * R :=
  if SFleb one rate then (true, rng)
  else if SFleb rate zero then (false, rng)
  else let '(f, rng) := Float64 rng in (SFltb f rate, rng).

Definition shouldSampleEvent (eventType : string) (rng : R) : bool * R :=
  if bool_decide (eventType = "request_success" \/ eventType = "request_routed") then samplePercent rate_1_percent rng
  else if bool_decide (eventType = "circuit_rejected" \/ eventType = "upstream_5xx") then samplePercent rate_5_percent rng
  else (true, rng).
End Sampling.

Definition nextBackoff (current : Duration) : Duration :=
  if current =? Second then 2 * Second else if current =? 2 * Second then 5 * Second else 30 * Second.

(** ** The stream of the gateway's log *)

(** What a round of [streamGatewayEvents] meets: no container or no log; or the log's chunks
    and how it ended. *)
Inductive LogsOutcome (Err : Type) :=
  | NoLogs
  | Logs (chunks : list string) (copyErr : option Err).
Arguments NoLogs {Err}.
Arguments Logs {Err} chunks copyErr.

Section Stream.
Context {R Err : Type}.
Variable Float64 : R -> spec_float * R.
Variable parse : string -> option Event. (* [parseEventLine] *)

Record Stream := mkStream {
  st_backoff : Duration; st_since : Time; st_rng : R; st_published : list Event; st_slept : list Duration;
}.

(** The callback given to [parseEvents]. *)
Definition emit (event : Event) (s : Stream) : Stream :=
  let '(sampled, rng) := shouldSampleEvent Float64 (ev_Type event) (st_rng s) in
  mkStream (st_backoff s) (ev_TS event) rng (if sampled then st_published s ++ [event] else st_published s)%list (st_slept s).

Definition sleep_backoff (s : Stream) : Stream :=
  mkStream (nextBackoff (st_backoff s)) (st_since s) (st_rng s) (st_published s) (st_slept s ++ [st_backoff s])%list.

(** The rounds until the context is cancelled: what each meets, and whether the context is
    done after the log and during the sleep. *)
Fixpoint streamGatewayEvents (rounds : list (LogsOutcome Err * bool * bool)) (s : Stream) : Stream :=
  match rounds with
  | [] => s
  | (outcome, doneAfter, doneAsleep) :: rounds =>
      let s := match outcome with NoLogs => s | Logs chunks copyErr => snd (parseEvents parse chunks copyErr emit s) end in
      if match outcome with NoLogs => false | Logs _ _ => doneAfter end then s
      else if doneAsleep then s
      else streamGatewayEvents rounds (sleep_backoff s)
  end.
End Stream.

(** ** Server-sent events *)

(** [writeSSEEvent], given the event's JSON. *)
Definition writeSSEEvent (raw : string) : string := "data: " +:+ raw +:+ nl +:+ nl.

Definition keepalive : string := ": keepalive" +:+ nl +:+ nl.

(** What the loop of [handleEvents] selects, until the client is gone. *)
Inductive StreamCase := StreamKeepAlive | StreamEvent (raw : string).

(** [handleEvents]: the snapshot, then what the loop writes. *)
Definition handleEvents (snapshot : list string) (cases : list StreamCase) : string :=
  String.concat "" (map writeSSEEvent snapshot) +:+
  String.concat "" (map (fun c => match c with StreamKeepAlive => keepalive | StreamEvent raw => writeSSEEvent raw end) cases).

(** ** The lines do not depend on the chunks *)

Lemma Cut_None_Split s c : Cut s c = None -> Split s c = [s].
Proof.
  induction s as [|a s IH]; cbn; [done|]. case_bool_decide; [done|]. destruct (Cut s c) as [[x y]|]; cbn; [done|]. by intros _; rewrite IH.
Qed.

Lemma Cut_Some_Split s c x y : Cut s c = Some (x, y) -> Split s c = x :: Split y c /\ (String.length y < String.length s)%nat.
Proof.
  revert x. induction s as [|a s IH]; cbn; intros x; [done|]. case_bool_decide; [intros [= <- <-]; split; [done|lia]|].
  destruct (Cut s c) as [[x' y']|]; cbn; [|done]. intros [= <- <-]. destruct (IH x' eq_refl) as [-> Hl]. split; [done|lia].
Qed.

Section Chunks.
Context {X Err : Type}.
Variable f : string -> X -> X.
Let handleLine (line : string) (x : X) : option Err * X := (None, f line x).

(** A line, cut off: blank ones are not handled. *)
Definition handle_trimmed (x : X) (line : string) : X :=
  let line := TrimSpace line in if bool_decide (line = "") then x else f line x.

(** The byte of a chunk. *)
Definition feed (w : string * X) (a : ascii) : string * X :=
  if bool_decide (a = newline) then ("", handle_trimmed (snd w) (fst w)) else (fst w +:+ String a "", snd w).

Fixpoint feed_all (w : string * X) (s : string) : string * X :=
  match s with EmptyString => w | String a s => feed_all (feed w a) s end.

Lemma feed_all_app w s t : feed_all w (s +:+ t) = feed_all (feed_all w s) t.
Proof. revert w. induction s as [|a s IH]; intros w; [done|]. apply IH. Qed.

Lemma feed_all_lines w s :
  let lines := (fst w +:+ default "" (head (Split s newline))) :: tail (Split s newline) in
  feed_all w s = (List.last lines "", foldl handle_trimmed (snd w) (removelast lines)).
Proof.
  revert w. induction s as [|a s IH]; intros [buf x]; cbn [feed_all Split].
  - cbn. by rewrite append_nil_r.
  - rewrite IH. unfold feed. destruct (Split s newline) as [|l ls] eqn:Hs.
    { destruct s; cbn in Hs; [done|]. case_bool_decide; [done|]. by destruct (Split s newline). }
    case_bool_decide; cbn [fst snd head tail default from_option].
    + cbn. by rewrite append_nil_r.
    + cbn [id]. by rewrite append_assoc.
Qed.

Lemma feed_all_no_newline buf x s : contains_byte newline s = false -> feed_all (buf, x) s = (buf +:+ s, x).
Proof.
  revert buf. induction s as [|a s IH]; cbn; intros buf; [by rewrite append_nil_r|]. case_bool_decide as Ha; cbn; [done|].
  intros Hs. unfold feed. rewrite bool_decide_eq_false_2 by done. cbn. rewrite IH by done. by rewrite append_assoc.
Qed.

Lemma Write_lines_feeds fuel p (w : eventLineWriter) : (String.length p < fuel)%nat ->
  exists w', Write_lines handleLine fuel p w = (None, w') /\
    (lw_buffer w', lw_state w') = feed_all (lw_buffer w, lw_state w) p.
Proof.
  revert p w. induction fuel as [|fuel IH]; intros p w Hf; [lia|]. cbn [Write_lines].
  destruct (Cut p newline) as [[before rest]|] eqn:Hc.
  - destruct (Cut_Some_app _ _ _ _ Hc) as [Hp Hn]. destruct (Cut_Some_Split _ _ _ _ Hc) as [_ Hl].
    assert (feed_all (lw_buffer w, lw_state w) p = feed_all ("", handle_trimmed (lw_state w) (lw_buffer w +:+ before)) rest) as ->.
    { rewrite Hp at 1. rewrite feed_all_app, feed_all_no_newline by done. cbn [feed_all]. unfold feed. rewrite bool_decide_eq_true_2 by done. done. }
    unfold handle_trimmed. case_bool_decide; [destruct (IH rest (mkLineWriter "" (lw_state w)) ltac:(lia)) as (w' & -> & Hw)|
      cbn [handleLine]; destruct (IH rest (mkLineWriter "" (f (TrimSpace (lw_buffer w +:+ before)) (lw_state w))) ltac:(lia)) as (w' & -> & Hw)];
      by exists w'.
  - eexists. split; [done|]. cbn. by rewrite feed_all_no_newline by (by apply Cut_None_contains).
Qed.

Lemma write_chunks_feeds chunks (w : eventLineWriter) :
  exists w', write_chunks handleLine chunks w = (None, w') /\
    (lw_buffer w', lw_state w') = feed_all (lw_buffer w, lw_state w) (String.concat "" chunks).
Proof.
  revert w. induction chunks as [|p chunks IH]; intros w; cbn [write_chunks]; [by exists w|].
  unfold LineWriter_Write. destruct (Write_lines_feeds (S (String.length p)) p w ltac:(lia)) as (w1 & -> & H1).
  destruct (IH w1) as (w' & -> & Hw). exists w'. split; [done|]. rewrite Hw, H1. rewrite <- feed_all_app. f_equal.
  destruct chunks; cbn; [by rewrite append_nil_r|done].
Qed.

Lemma last_removelast {A} (d : A) l : l <> [] -> (removelast l ++ [List.last l d])%list = l.
Proof. intros Hl. symmetry. by apply app_removelast_last. Qed.

(** The whole log: its lines, in order, whatever the chunks. *)
Lemma lines_of_chunks chunks x :
  exists w, write_chunks handleLine chunks (mkLineWriter "" x) = (None, w) /\
    LineWriter_Flush handleLine w = (None, mkLineWriter "" (foldl handle_trimmed x (Split (String.concat "" chunks) newline))).
Proof.
  destruct (write_chunks_feeds chunks (mkLineWriter "" x)) as (w & -> & Hw). exists w. split; [done|].
  rewrite feed_all_lines in Hw. cbn [lw_buffer lw_state fst snd] in Hw.
  set (s := String.concat "" chunks) in *.
  assert (("" +:+ default "" (head (Split s newline))) :: tail (Split s newline) = Split s newline) as Hs.
  { clear. destruct s as [|a s]; cbn; [done|]. case_bool_decide; [done|]. by destruct (Split s newline). }
  rewrite Hs in Hw. injection Hw as Hb Hx.
  assert (foldl handle_trimmed x (Split s newline) = handle_trimmed (lw_state w) (lw_buffer w)) as ->.
  { rewrite Hb, Hx. rewrite <- (last_removelast "" (Split s newline)) at 1; [by rewrite foldl_app|].
    rewrite <- Hs. done. }
  unfold LineWriter_Flush, handle_trimmed. case_bool_decide as He; [|by case_bool_decide].
  rewrite He. change (TrimSpace "") with "". rewrite bool_decide_eq_true_2 by done. rewrite <- He. by destruct w.
Qed.
End Chunks.

(** Lines, each ended by a newline. *)
Definition printed (lines : list string) : string := String.concat "" (map (fun l => l +:+ nl) lines).

Definition log_line (l : string) : Prop := l <> "" /\ TrimSpace l = l /\ contains_byte newline l = false.

Lemma Split_line l s : contains_byte newline l = false -> Split (l +:+ nl +:+ s) newline = l :: Split s newline.
Proof. exact (Split_cons l s newline). Qed.

Lemma Split_printed lines : Forall log_line lines -> Split (printed lines) newline = (lines ++ [""])%list.
Proof.
  induction 1 as [|l lines (_ & _ & Hl) _ IH]; [done|]. unfold printed in *. cbn [map].
  destruct lines as [|l' lines]; [exact (Split_line l "" Hl)|].
  change (Split ((l +:+ nl) +:+ String.concat "" (map (fun l => l +:+ nl) (l' :: lines))) newline = l :: ((l' :: lines) ++ [""])%list).
  by rewrite append_assoc, Split_line, IH.
Qed.

(** C39: the log round trips: lines that are printed one after the other, cut into chunks
    anywhere, are handled as those lines, in order, each once, without an error. *)
Theorem log_lines_round_trip {X Err} (f : string -> X -> X) lines chunks (x : X) :
  Forall log_line lines -> String.concat "" chunks = printed lines ->
  let handleLine (line : string) (x : X) : option Err * X := (None, f line x) in
  exists w, write_chunks handleLine chunks (mkLineWriter "" x) = (None, w) /\
    LineWriter_Flush handleLine w = (None, mkLineWriter "" (foldl (fun x line => f line x) x lines)).
Proof.
  intros Hlines Hchunks. destruct (lines_of_chunks (Err := Err) f chunks x) as (w & Hw & Hf). exists w. split; [done|].
  rewrite Hf, Hchunks, Split_printed by done. rewrite foldl_app. cbn. do 2 f_equal. clear -Hlines.
  revert x. induction Hlines as [|l lines (Hne & Ht & _) _ IH]; intros x; cbn; [done|]. rewrite IH.
  unfold handle_trimmed. by rewrite Ht, bool_decide_eq_false_2.
Qed.

Lemma log_lines_round_trip_witness :
  exists w, write_chunks (Err := unit) (fun line seen => (None, (seen ++ [line])%list)) ["{a}" +:+ nl +:+ "{"; ""; "b}"; nl] (mkLineWriter "" []) = (None, w) /\
    LineWriter_Flush (Err := unit) (fun line seen => (None, (seen ++ [line])%list)) w = (None, mkLineWriter "" ["{a}"; "{b}"]).
Proof.
  apply (log_lines_round_trip (fun line seen => (seen ++ [line])%list) ["{a}"; "{b}"] ["{a}" +:+ nl +:+ "{"; ""; "b}"; nl] []).
  - repeat constructor; by vm_compute.
  - reflexivity.
Defined.

(** ** The event stream

    How a browser reads it: a blank line dispatches the data gathered, if any, a line that
    starts with a colon is a comment, and one space after [data:] is not part of the data.
    Lines end with a newline, since the stream holds no carriage return. *)

Definition sse_data (data : option string) (value : string) : option string :=
  let value := TrimPrefix value " " in
  Some (match data with None => value | Some d => d +:+ nl +:+ value end).

Fixpoint sse_lines (data : option string) (lines : list string) : list string :=
  match lines with
  | [] => []
  | line :: lines =>
      if bool_decide (line = "") then (match data with Some d => if bool_decide (d = "") then [] else [d] | None => [] end ++ sse_lines None lines)%list
      else if HasPrefix line ":" then sse_lines data lines
      else if HasPrefix line "data:" then sse_lines (sse_data data (TrimPrefix line "data:")) lines
      else sse_lines data lines
  end.

Definition sse_read (stream : string) : list string := sse_lines None (Split stream newline).

(** What the cases carry. *)
Definition streamed (cases : list StreamCase) : list string :=
  omap (fun c => match c with StreamKeepAlive => None | StreamEvent raw => Some raw end) cases.

Definition stream_case (c : StreamCase) : string :=
  match c with StreamKeepAlive => keepalive | StreamEvent raw => writeSSEEvent raw end.

Lemma concat_cons s ss : String.concat "" (s :: ss) = s +:+ String.concat "" ss.
Proof. destruct ss; cbn; [by rewrite append_nil_r|done]. Qed.

Definition sse_payload (raw : string) : Prop := raw <> "" /\ contains_byte newline raw = false.

Lemma sse_event raw s : sse_payload raw -> sse_read (writeSSEEvent raw +:+ s) = raw :: sse_read s.
Proof.
  intros [Hne Hraw]. unfold sse_read, writeSSEEvent. replace (("data: " +:+ raw +:+ nl +:+ nl) +:+ s) with (("data: " +:+ raw) +:+ nl +:+ "" +:+ nl +:+ s)
    by (by rewrite !append_assoc).
  rewrite Split_line by (rewrite contains_byte_append; by vm_compute).
  rewrite (Split_line "" s) by done.
  transitivity ((if bool_decide (raw = "") then [] else [raw]) ++ sse_lines None (Split s newline))%list; [reflexivity|].
  by rewrite bool_decide_eq_false_2.
Qed.

Lemma sse_keepalive s : sse_read (keepalive +:+ s) = sse_read s.
Proof. unfold keepalive. destruct s; reflexivity. Qed.

(** The event stream round trips: a browser that reads what [handleEvents] writes gets the
    snapshot's events and then those the loop wrote, in order, each once, and nothing of the
    keep-alives between them. *)
Lemma event_stream_round_trips snapshot cases :
  Forall sse_payload (snapshot ++ streamed cases) ->
  sse_read (handleEvents snapshot cases) = (snapshot ++ streamed cases)%list.
Proof.
  intros [Hs Hc]%Forall_app. unfold handleEvents. induction Hs as [|raw snapshot Hraw _ IH]; cbn [map].
  - change (String.concat "" []) with "". rewrite append_nil_l. revert Hc. clear. unfold streamed.
    induction cases as [|[|raw] cases IH]; intros Hc; cbn [map omap list_omap]; [done|..]; rewrite concat_cons.
    + rewrite sse_keepalive. by apply IH.
    + inversion_clear Hc. by rewrite sse_event, IH.
  - rewrite concat_cons, append_assoc, sse_event by done. cbn. by rewrite IH.
Qed.

Lemma event_stream_round_trips_witness :
  sse_read (handleEvents ["{1}"] [StreamKeepAlive; StreamEvent "{2}"; StreamKeepAlive; StreamEvent "{3}"]) = ["{1}"; "{2}"; "{3}"].
Proof.
  apply (event_stream_round_trips ["{1}"] [StreamKeepAlive; StreamEvent "{2}"; StreamKeepAlive; StreamEvent "{3}"]).
  by repeat constructor.
Defined.

(** ** The gateway's log, as events *)

(** The events of a log, in order. *)
Lemma parseEvents_log {X Err} parse lines chunks (e : Event -> X -> X) x :
  Forall log_line lines -> String.concat "" chunks = printed lines ->
  parseEvents (Err := Err) parse chunks None e x = (None, foldl (fun x event => e event x) x (omap parse lines)).
Proof.
  intros Hlines Hchunks. unfold parseEvents.
  destruct (lines_of_chunks (Err := Err) (fun line x => match parse line with Some event => e event x | None => x end) chunks x) as (w & -> & Hw).
  rewrite Hw. cbn [lw_state]. f_equal. rewrite Hchunks, Split_printed by done. rewrite foldl_app. cbn. clear -Hlines.
  revert x. induction Hlines as [|l lines (Hne & Ht & _) _ IH]; intros x; cbn; [done|]. rewrite IH.
  unfold handle_trimmed. rewrite Ht, bool_decide_eq_false_2 by done. by destruct (parse l).
Qed.

(** Only four types of events are sampled; all others reach the hub. *)
Lemma emit_unsampled {R} (Float64 : R -> spec_float * R) event s :
  ev_Type event ∉ ["request_success"; "request_routed"; "circuit_rejected"; "upstream_5xx"] ->
  st_published (emit Float64 event s) = (st_published s ++ [event])%list /\ st_since (emit Float64 event s) = ev_TS event.
Proof.
  intros Hty. unfold emit, shouldSampleEvent. rewrite !bool_decide_eq_false_2 by set_solver. done.
Qed.

(** What emitting keeps, reading the log keeps, errors included. *)
Lemma parseEvents_keeps {X Err} (P : X -> Prop) parse chunks (copyErr : option Err) (e : Event -> X -> X) x :
  (forall line event x, parse line = Some event -> P x -> P (e event x)) -> P x -> P (snd (parseEvents parse chunks copyErr e x)).
Proof.
  intros He Hx. unfold parseEvents.
  destruct (write_chunks_feeds (Err := Err) (fun line x => match parse line with Some event => e event x | None => x end)
    chunks (mkLineWriter "" x)) as (w & -> & Hw). cbn [lw_buffer lw_state] in Hw.
  assert (forall line x, P x -> P (match parse line with Some event => e event x | None => x end)) as Hline
    by (intros line x0 H0; destruct (parse line) eqn:Hp; eauto).
  assert (P (lw_state w)) as HPw.
  { assert (forall s (b : string * X), P b.2 -> P (feed_all (fun line x => match parse line with Some event => e event x | None => x end) b s).2) as Hf.
    { intros s. induction s as [|a s IH]; intros b Hb; cbn [feed_all]; [done|]. apply IH. unfold feed, handle_trimmed.
      case_bool_decide; [|done]. cbn [snd]. case_bool_decide; auto. }
    specialize (Hf (String.concat "" chunks) ("", x) Hx). by rewrite <- Hw in Hf. }
  destruct copyErr; [done|]. unfold LineWriter_Flush. case_bool_decide; [done|]. case_bool_decide; [done|]. cbn. by apply Hline.
Qed.

(** The waits: 1, 2, 5 and then 30 seconds, and no success shortens them. *)
Lemma streamGatewayEvents_waits {R Err} (Float64 : R -> spec_float * R) parse (rounds : list (LogsOutcome Err * bool * bool)) s :
  Forall (fun x => x.1.2 = false /\ x.2 = false) rounds ->
  st_slept (streamGatewayEvents Float64 parse rounds s) =
    (st_slept s ++ map (fun n => Nat.iter n nextBackoff (st_backoff s)) (seq 0 (length rounds)))%list.
Proof.
  intros Hr. revert s. induction Hr as [|[[outcome after] asleep] rounds [Ha Hs] _ IH]; intros s; [cbn; by rewrite app_nil_r|].
  cbn in Ha, Hs. subst. cbn [streamGatewayEvents].
  set (s' := match outcome with NoLogs => s | Logs chunks copyErr => _ end).
  assert (st_backoff s' = st_backoff s /\ st_slept s' = st_slept s) as [Hb Hl].
  { unfold s'. destruct outcome as [|chunks copyErr]; [done|].
    apply (parseEvents_keeps (fun x => st_backoff x = st_backoff s /\ st_slept x = st_slept s)); [|done].
    intros line event x _ Hx. unfold emit. by destruct (shouldSampleEvent _ _ _). }
  replace (match outcome with NoLogs => false | Logs _ _ => false end) with false by (by destruct outcome).
  rewrite IH. cbn [sleep_backoff st_slept st_backoff length seq map]. rewrite Hb, Hl, <- app_assoc. f_equal. cbn. f_equal.
  rewrite <- seq_shift, map_map. apply map_ext. intros n. by rewrite Nat.iter_succ_r.
Qed.

Example nextBackoff_sequence : map (fun n => Nat.iter n nextBackoff Second) (seq 0 5) = [Second; 2 * Second; 5 * Second; 30 * Second; 30 * Second].
Proof. reflexivity. Qed.

(** ** What is published of the gateway's log *)

Lemma parseEvents_published {R Err} (Float64 : R -> spec_float * R) (P : Event -> Prop) parse chunks (copyErr : option Err) s :
  (forall line event, parse line = Some event -> P event) -> Forall P (st_published s) ->
  Forall P (st_published (snd (parseEvents parse chunks copyErr (emit Float64) s))).
Proof.
  intros Hparse. apply (parseEvents_keeps (fun s => Forall P (st_published s))). intros line event x Hline Hx. unfold emit.
  destruct (shouldSampleEvent _ _ _) as [[] rng]; cbn; [|done]. apply Forall_app_2; [done|]. constructor; [by eapply Hparse|done].
Qed.

Lemma streamGatewayEvents_published {R Err} (Float64 : R -> spec_float * R) (P : Event -> Prop) parse
    (rounds : list (LogsOutcome Err * bool * bool)) s :
  (forall line event, parse line = Some event -> P event) -> Forall P (st_published s) ->
  Forall P (st_published (streamGatewayEvents Float64 parse rounds s)).
Proof.
  intros Hparse. revert s. induction rounds as [|[[outcome after] asleep] rounds IH]; intros s Hs; cbn [streamGatewayEvents]; [done|].
  set (s' := match outcome with NoLogs => s | Logs chunks copyErr => _ end).
  assert (Forall P (st_published s')) as Hs' by (unfold s'; destruct outcome; [done|by apply parseEvents_published]).
  destruct (match outcome with NoLogs => false | Logs _ _ => after end); [done|]. destruct asleep; [done|]. by apply IH.
Qed.

(** An event that holds what a line of the log says, its attributes cleared. *)
Definition told_by (Unmarshal : string -> option RawEvent) (demoToken adminToken line : string) (event : Event) : Prop :=
  exists raw, Unmarshal line = Some raw /\ TrimSpace (raw_Type raw) <> "" /\
    ev_Type event = TrimSpace (raw_Type raw) /\ ev_Level event = TrimSpace (raw_Level raw) /\ ev_Message event = TrimSpace (raw_Msg raw) /\
    redacted demoToken adminToken (VMap (raw_Attrs raw)) (VMap (ev_Attrs event)).

(** C26: the attributes of events are redacted, on both sides.  What the gateway logs of an
    event, if it has a type, is its level, message and type, and its attributes with each
    string, however deep in lists and maps, replaced by a marker if it is, up to surrounding
    space, a JWT or one of the two tokens, and all else as it was.  And whatever the log
    holds, in whatever chunks it comes, however often the stream breaks and whatever is
    sampled, each event that the observatory publishes is that of a line of the log, its
    attributes redacted the same way.  (Messages, keys and longer strings that hold a token
    are not redacted.) *)
Theorem event_attributes_are_redacted {R Err} (Float64 : R -> spec_float * R) Unmarshal ParseTime now demoToken adminToken :
  (forall line raw, Unmarshal line = Some raw -> json_value (VMap (raw_Attrs raw)) = true) ->
  (forall level typ message attrs,
     match LogGatewayEvent demoToken adminToken level typ message attrs with
     | None => TrimSpace typ = ""
     | Some record => TrimSpace typ <> "" /\ lr_Level record = level /\ lr_Message record = message /\ lr_Type record = TrimSpace typ /\
         redacted demoToken adminToken (VMap attrs) (VMap (lr_Attrs record))
     end) /\
  forall (rounds : list (LogsOutcome Err * bool * bool)) since rng,
    Forall (fun event => exists line, told_by Unmarshal demoToken adminToken line event)
      (st_published (streamGatewayEvents Float64 (parseEventLine Unmarshal ParseTime now demoToken adminToken) rounds
         (mkStream Second since rng [] []))).
Proof.
  intros Hjson. split.
  - intros level typ message attrs. unfold LogGatewayEvent. case_bool_decide; [done|]. split_and!; [done..|]. apply sanitizeEventAttrs_spec.
  - intros rounds since rng. apply streamGatewayEvents_published; [|constructor]. intros line event Hline. exists line.
    unfold parseEventLine in Hline. destruct (Unmarshal line) as [raw|] eqn:Hraw; [|done]. case_bool_decide; [done|]. injection Hline as <-.
    exists raw. split_and!; [done..|]. apply sanitizeParsedAttrs_spec. by eapply Hjson.
Qed.

(** A log of one line, whose attribute is the admin's token. *)
Definition demo_unmarshal (line : string) : option RawEvent :=
  if bool_decide (line = "{b}") then Some (mkRawEvent "" "INFO" "m" "auth_failed" [("token", VList [VString " adm1n"; VString "path"])]) else None.

Lemma event_attributes_are_redacted_witness :
  let published := st_published (streamGatewayEvents (Err := unit) (fun r : unit => (one, r))
    (parseEventLine demo_unmarshal (fun _ => None) 7 "demo" "adm1n") [(Logs ["{a}" +:+ nl +:+ "{"; "b}"] None, true, true)] (mkStream Second 0 tt [] [])) in
  exists event, published = [event] /\ exists line, told_by demo_unmarshal "demo" "adm1n" line event.
Proof.
  destruct (event_attributes_are_redacted (Err := unit) (fun r : unit => (one, r)) demo_unmarshal (fun _ => None) 7 "demo" "adm1n") as [_ H].
  - intros line raw. unfold demo_unmarshal. case_bool_decide; [|done]. by intros [= <-].
  - specialize (H [(Logs ["{a}" +:+ nl +:+ "{"; "b}"] None, true, true)] 0 tt). cbv zeta.
    set (published := st_published _) in *. assert (exists event, published = [event]) as [event Hp] by (eexists; vm_compute; reflexivity).
    exists event. split; [done|]. rewrite Hp in H. by inversion H.
Defined.
