(* ===== verification/Scenarios.v ===== *)
(** * The observatory's scenarios: [cmd/observatory/scenarios.go]

    Scenario files, their validation, and the parameters of a run.  The theorems: what
    [Validate] accepts and what it makes of it, that a run it lets through is within bounds,
    and that the steps of a validated scenario can be carried out.  The YAML decoder is a
    parameter, and so are the orders that Go leaves open: that of ranging over a map, and
    that in which [sort.Slice] puts equal elements. *)

From Stdlib Require Import SpecFloat.
From stdpp Require Import gmap strings sorting.
From S2P Require Import Prelude GoStrings.
From stdpp Require Import options.
#[local] Set Default Proof Using "Type*".
#[local] Open Scope string_scope.
#[local] Open Scope Z_scope.

Definition maxScenarioRPS : Z := 500.
Definition maxScenarioDuration : Z := 300.

(** ** Data *)

(** A decoded parameter: [float64] and [float32], [int] and [int64], [map[string]any]. *)
Inductive Param :=
  | ParamString (s : string)
  | ParamFloat (f : spec_float)
  | ParamInt (z : Z)
  | ParamMap (entries : list (string * Param))
  | ParamOther.

Record ChaosStep := mkStep {
  cs_AtSeconds : Z; cs_Action : string; cs_Target : string; cs_Params : gmap string Param;
}.

(** Without what is only shown: description, signals and the like. *)
Record Scenario := mkScenario {
  sn_Name : string; sn_DisplayName : string; sn_Category : string;
  sn_DurationOptions : list Z;
  sn_IntensityOptions : gmap string Z; (* the RPS *)
  sn_ChaosSequence : list ChaosStep;
  sn_K6Script : string;
}.

Definition serviceEndpoints : list (string * string) := [
  ("user-service-1", "http://user-service-1:8081");
  ("user-service-2", "http://user-service-2:8091");
  ("order-service-1", "http://order-service-1:8082");
  ("order-service-2", "http://order-service-2:8092");
  ("payment-service-1", "http://payment-service-1:8083")].

Definition serviceURL (name : string) : sum string string :=
  match List.find (fun endpoint => bool_decide (endpoint.1 = name)) serviceEndpoints with
  | Some endpoint => inr endpoint.2
  | None => inl "unknown service target"
  end.

(** ** Parameters of a step *)

Definition float64_of_int (z : Z) : spec_float := binary_normalize 53 1024 z 0 false.

(** The integer part of a finite float. *)
Definition integer_part (s : bool) (m : positive) (e : Z) : Z :=
  let n := if 0 <=? e then Z.pos m * 2 ^ e else Z.pos m / 2 ^ (- e) in if s then - n else n.

(** [math.Trunc] *)
Definition Trunc (f : spec_float) : spec_float :=
  match f with
  | S754_finite s m e => if 0 <=? e then f else binary_normalize 53 1024 (integer_part s m e) 0 s
  | _ => f
  end.

(** [int(f)], and what amd64 makes of a value out of range. *)
Definition int_of_float64 (f : spec_float) : Z :=
  match f with
  | S754_zero _ => 0
  | S754_finite s m e => let z := integer_part s m e in if bool_decide (in_int64 z) then z else int64_min
  | _ => int64_min
  end.

#[export] Instance in_int64_dec z : Decision (in_int64 z).
Proof. unfold in_int64. apply _. Defined.

Definition lookupParam (params : gmap string Param) (key : string) : sum string Param :=
  match params !! key with None => inl (key +:+ " is required") | Some value => inr value end.

Definition chaosStringParam (params : gmap string Param) (key : string) : sum string string :=
  match lookupParam params key with
  | inl err => inl err
  | inr (ParamString text) =>
      if bool_decide (TrimSpace text = "") then inl (key +:+ " must be a non-empty string") else inr (TrimSpace text)
  | inr _ => inl (key +:+ " must be a non-empty string")
  end.

Definition chaosFloatParam (params : gmap string Param) (key : string) : sum string spec_float :=
  match lookupParam params key with
  | inl err => inl err
  | inr (ParamFloat f) => inr f
  | inr (ParamInt z) => inr (float64_of_int z)
  | inr _ => inl (key +:+ " must be a number")
  end.

Definition chaosIntParam (params : gmap string Param) (key : string) : sum string Z :=
  match chaosFloatParam params key with
  | inl err => inl err
  | inr value => if negb (SFeqb (Trunc value) value) then inl (key +:+ " must be an integer") else inr (int_of_float64 value)
  end.

Definition chaosAttributesParam (params : gmap string Param) (key : string) : sum string (list (string * Param)) :=
  match lookupParam params key with
  | inl err => inl err
  | inr (ParamMap attrs) => inr attrs
  | inr _ => inl (key +:+ " must be a map")
  end.

(** ** Validation *)

Definition errorOf {A} (r : sum string A) : option string := match r with inl err => Some err | inr _ => None end.

Definition float_one : spec_float := float64_of_int 1.
Definition float_zero : spec_float := S754_zero false.

(** Its error, if any. *)
Definition validateChaosStep (step : ChaosStep) : option string :=
  let action := cs_Action step in
  if bool_decide (action = "service_down" \/ action = "service_up") then errorOf (serviceURL (cs_Target step))
  else if bool_decide (action = "error_inject") then
    match serviceURL (cs_Target step) with
    | inl err => Some err
    | inr _ =>
        match chaosFloatParam (cs_Params step) "rate" with
        | inl err => Some err
        | inr rate => if SFltb rate float_zero || SFltb float_one rate then Some "rate must be between 0 and 1" else None
        end
    end
  else if bool_decide (action = "latency_inject") then
    match serviceURL (cs_Target step) with
    | inl err => Some err
    | inr _ =>
        match chaosIntParam (cs_Params step) "delay_ms" with
        | inl err => Some err
        | inr delayMS => if delayMS <=? 0 then Some "delay_ms must be greater than 0" else None
        end
    end
  else if bool_decide (action = "add_toxic") then
    match chaosStringParam (cs_Params step) "type" with
    | inl err => Some err
    | inr _ => errorOf (chaosAttributesParam (cs_Params step) "attributes")
    end
  else if bool_decide (action = "remove_toxic") then errorOf (chaosStringParam (cs_Params step) "type")
  else Some "has unsupported action".

(** [strings.Contains] *)
Fixpoint Contains (s sub : string) : bool :=
  HasPrefix s sub || match s with EmptyString => false | String _ s => Contains s sub end.

(** The first error of a loop over a slice, or the elements it leaves. *)
Fixpoint validateAll {A} (f : A -> sum string A) (l : list A) : sum string (list A) :=
  match l with
  | [] => inr []
  | x :: l =>
      match f x with
      | inl err => inl err
      | inr x => match validateAll f l with inl err => inl err | inr l => inr (x :: l) end
      end
  end.

Definition validateDuration (duration : Z) : sum string Z :=
  if duration <=? 0 then inl "duration_options must be positive"
  else inr (if maxScenarioDuration <? duration then maxScenarioDuration else duration).

Definition validateIntensity (entry : string * Z) : sum string (string * Z) :=
  if bool_decide (TrimSpace entry.1 = "") then inl "intensity option name is required"
  else if entry.2 <=? 0 then inl "intensity option must have positive rps"
  else inr (entry.1, if maxScenarioRPS <? entry.2 then maxScenarioRPS else entry.2).

Definition validateStep (step : ChaosStep) : sum string ChaosStep :=
  if cs_AtSeconds step <? 0 then inl "at_seconds must be non-negative"
  else
    let step := mkStep (cs_AtSeconds step) (TrimSpace (cs_Action step)) (TrimSpace (cs_Target step)) (cs_Params step) in
    match validateChaosStep step with Some err => inl err | None => inr step end.

(** The orders Go leaves open. *)
Class GoOrders := {
  rangeMap : gmap string Z -> list (string * Z);
  sortSlice : list ChaosStep -> list ChaosStep;
}.
Class GoOrdersLaws `{GoOrders} : Prop := {
  rangeMap_permutation m : rangeMap m ≡ₚ map_to_list m;
  sortSlice_permutation l : sortSlice l ≡ₚ l;
  sortSlice_sorted l : StronglySorted (fun a b => cs_AtSeconds a <= cs_AtSeconds b) (sortSlice l);
}.

Section Validation.
Context {HO : GoOrders}.

(** [Validate]: the scenario as it leaves it, or the error. *)
Definition Scenario_Validate (s : Scenario) : sum string Scenario :=
  if bool_decide (TrimSpace (sn_Name s) = "") then inl "scenario name is required"
  else if bool_decide (TrimSpace (sn_DisplayName s) = "") then inl "display_name is required"
  else if bool_decide (TrimSpace (sn_Category s) = "") then inl "category is required"
  else if bool_decide (sn_DurationOptions s = []) then inl "duration_options is required"
  else if bool_decide (sn_IntensityOptions s = ∅) then inl "intensity_options is required"
  else if bool_decide (TrimSpace (sn_K6Script s) = "") then inl "k6_script is required"
  else if Contains (sn_K6Script s) ".." then inl "k6_script must not escape scenarios/k6"
  else match validateAll validateDuration (sn_DurationOptions s) with
  | inl err => inl err
  | inr durations =>
      match validateAll validateIntensity (rangeMap (sn_IntensityOptions s)) with
      | inl err => inl err
      | inr intensities =>
          match validateAll validateStep (sn_ChaosSequence s) with
          | inl err => inl err
          | inr steps =>
              inr (mkScenario (sn_Name s) (sn_DisplayName s) (sn_Category s) (merge_sort Z.le durations)
                     (list_to_map intensities) (sortSlice steps) (sn_K6Script s))
          end
      end
  end.

(** ** Loading *)

(** [loadScenarioFile], given the decoded file. *)
Definition loadScenarioFile (decoded : sum string Scenario) : sum string Scenario :=
  match decoded with inl err => inl err | inr scenario => Scenario_Validate scenario end.

(** [loadScenarios]: the files that match, in order; what is invalid, or has a name that is
    taken, is left out. *)
Definition loadScenario (scenarios : gmap string Scenario) (decoded : sum string Scenario) : gmap string Scenario :=
  match loadScenarioFile decoded with
  | inl _ => scenarios
  | inr scenario =>
      if bool_decide (is_Some (scenarios !! sn_Name scenario)) then scenarios
      else <[sn_Name scenario := scenario]> scenarios
  end.

Definition loadScenarios (files : list (sum string Scenario)) : sum string (gmap string Scenario) :=
  if bool_decide (files = []) then inl "no scenario yaml files found"
  else
    let scenarios := foldl loadScenario ∅ files in
    if bool_decide (scenarios = ∅) then inl "all scenarios invalid" else inr scenarios.
End Validation.

(** ** Runs *)

Record runParams := mkParams { rp_Intensity : string; rp_Duration : Z }.

Definition containsDuration (options : list Z) (value : Z) : bool := existsb (fun option => option =? value) options.

(** The RPS and the duration; every error is [errInvalidRunParams]. *)
Definition ResolveRun (s : Scenario) (params : runParams) : sum string (Z * Z) :=
  match sn_IntensityOptions s !! TrimSpace (rp_Intensity params) with
  | None => inl "unknown intensity"
  | Some intensity =>
      let duration := if maxScenarioDuration <? rp_Duration params then maxScenarioDuration else rp_Duration params in
      if (duration <=? 0) || negb (containsDuration (sn_DurationOptions s) duration) then inl "unsupported duration"
      else inr (intensity, duration)
  end.

Definition sortedScenarios (scenarios : gmap string Scenario) : list Scenario :=
  omap (fun name => scenarios !! name) (merge_sort String.le (elements (dom scenarios))).

(** ** What validation accepts *)

Lemma Contains_spec s sub : Contains s sub = true <-> exists a b, s = a +:+ sub +:+ b.
Proof.
  induction s as [|c s IH]; cbn [Contains]; rewrite orb_true_iff.
  - rewrite HasPrefix_spec. split; [intros [[t Ht]|]; [by exists "", t|done]|].
    intros (a & b & Hab). left. exists "". destruct a; [|done]. destruct sub; [done|done].
  - rewrite HasPrefix_spec, IH. split.
    + intros [[t ->]|(a & b & ->)]; [by exists "", t|by exists (String c a), b].
    + intros (a & b & Hab). destruct a as [|c' a]; [left; by exists b|]. right. rewrite append_cons in Hab. injection Hab as _ ->. by exists a, b.
Qed.

Lemma validateAll_inr {A} (f : A -> sum string A) l l' :
  validateAll f l = inr l' <-> Forall2 (fun x y => f x = inr y) l l'.
Proof.
  revert l'. induction l as [|x l IH]; intros l'; cbn.
  - split; [intros [= <-]; constructor|by inversion 1].
  - destruct (f x) as [err|y] eqn:Hx; [split; [done|]; inversion 1; congruence|].
    destruct (validateAll f l) as [err|k].
    + split; [done|]. inversion 1 as [|? ? ? k Hy Hk]; subst. by apply IH in Hk.
    + split; [intros [= <-]; constructor; [done|by apply IH]|]. inversion 1 as [|? ? ? k' Hy Hk]; subst. apply IH in Hk. congruence.
Qed.

Lemma validateDuration_inr d d' : validateDuration d = inr d' <-> 0 < d /\ d' = Z.min maxScenarioDuration d.
Proof.
  unfold validateDuration. destruct (Z.leb_spec d 0); [split; [done|lia]|]. destruct (Z.ltb_spec maxScenarioDuration d);
    (split; [intros [= <-]; split; lia|intros [_ ->]; f_equal; lia]).
Qed.

Lemma validateIntensity_inr e e' :
  validateIntensity e = inr e' <-> (TrimSpace e.1 <> "" /\ 0 < e.2) /\ e' = (e.1, Z.min maxScenarioRPS e.2).
Proof.
  unfold validateIntensity. case_bool_decide; [naive_solver|]. destruct (Z.leb_spec e.2 0); [split; [done|lia]|].
  destruct (Z.ltb_spec maxScenarioRPS e.2); (split; [intros [= <-]; split; [auto with lia|f_equal; lia]|intros [_ ->]; do 2 f_equal; lia]).
Qed.

(** A step without the space around its action and target. *)
Definition trimStep (step : ChaosStep) : ChaosStep :=
  mkStep (cs_AtSeconds step) (TrimSpace (cs_Action step)) (TrimSpace (cs_Target step)) (cs_Params step).

Definition valid_step (step : ChaosStep) : Prop := 0 <= cs_AtSeconds step /\ validateChaosStep (trimStep step) = None.

Lemma validateStep_inr st st' : validateStep st = inr st' <-> valid_step st /\ st' = trimStep st.
Proof.
  unfold validateStep, valid_step. destruct (Z.ltb_spec (cs_AtSeconds st) 0); [split; [done|lia]|]. cbv zeta.
  fold (trimStep st). destruct (validateChaosStep (trimStep st)); naive_solver.
Qed.

Lemma validateAll_normalizes {A} (f : A -> sum string A) (P : A -> Prop) (g : A -> A) l l' :
  (forall x y, f x = inr y <-> P x /\ y = g x) ->
  validateAll f l = inr l' <-> Forall P l /\ l' = g <$> l.
Proof.
  intros Hf. rewrite validateAll_inr. split.
  - induction 1 as [|x y l l' [Hx ->]%Hf _ [IH ->]]; [done|]. by split; [constructor|].
  - intros [Hl ->]. induction Hl; constructor; [by apply Hf|done].
Qed.

(** What a scenario must be. *)
Record well_formed (s : Scenario) : Prop := {
  wf_name : TrimSpace (sn_Name s) <> "";
  wf_display : TrimSpace (sn_DisplayName s) <> "";
  wf_category : TrimSpace (sn_Category s) <> "";
  wf_script : TrimSpace (sn_K6Script s) <> "";
  wf_confined : ~ exists a b, sn_K6Script s = a +:+ ".." +:+ b;
  wf_some_duration : sn_DurationOptions s <> [];
  wf_durations : Forall (fun d => 0 < d) (sn_DurationOptions s);
  wf_some_intensity : sn_IntensityOptions s <> ∅;
  wf_intensities : map_Forall (fun name rps => TrimSpace name <> "" /\ 0 < rps) (sn_IntensityOptions s);
  wf_steps : Forall valid_step (sn_ChaosSequence s);
}.

Section Accepts.
Context {HO : GoOrders} {HL : GoOrdersLaws}.

(** What it becomes. *)
Definition normalized (s : Scenario) : Scenario :=
  mkScenario (sn_Name s) (sn_DisplayName s) (sn_Category s)
    (merge_sort Z.le (Z.min maxScenarioDuration <$> sn_DurationOptions s))
    (Z.min maxScenarioRPS <$> sn_IntensityOptions s)
    (sortSlice (trimStep <$> sn_ChaosSequence s)) (sn_K6Script s).

Lemma intensities_inr m l :
  validateAll validateIntensity (rangeMap m) = inr l <->
  map_Forall (fun name rps => TrimSpace name <> "" /\ 0 < rps) m /\ l = (fun e => (e.1, Z.min maxScenarioRPS e.2)) <$> rangeMap m.
Proof.
  rewrite (validateAll_normalizes _ _ _ _ _ validateIntensity_inr).
  apply and_iff_compat_r. rewrite rangeMap_permutation, map_Forall_to_list. apply Forall_iff. by intros [].
Qed.

Lemma list_to_map_rangeMap m : list_to_map ((fun e => (e.1, Z.min maxScenarioRPS e.2)) <$> rangeMap m) = Z.min maxScenarioRPS <$> m.
Proof.
  transitivity (list_to_map (M := gmap string Z) (prod_map id (Z.min maxScenarioRPS) <$> map_to_list m)).
  - apply list_to_map_proper; [|by rewrite rangeMap_permutation].
    rewrite <- list_fmap_compose. cbn. rewrite rangeMap_permutation. apply NoDup_fst_map_to_list.
  - by rewrite list_to_map_fmap, list_to_map_to_list.
Qed.

Lemma Validate_inr s s' : Scenario_Validate s = inr s' <-> well_formed s /\ s' = normalized s.
Proof.
  unfold Scenario_Validate. assert (forall (b : bool) (x : sum string Scenario) (y : string), (if b then inl y else x) = inr s' <-> b = false /\ x = inr s') as Hif by (intros []; naive_solver).
  rewrite !Hif, !bool_decide_eq_false, <- not_true_iff_false, Contains_spec.
  transitivity ((TrimSpace (sn_Name s) <> "" /\ TrimSpace (sn_DisplayName s) <> "" /\ TrimSpace (sn_Category s) <> "" /\
    sn_DurationOptions s <> [] /\ sn_IntensityOptions s <> ∅ /\ TrimSpace (sn_K6Script s) <> "" /\
    ~ exists a b, sn_K6Script s = a +:+ ".." +:+ b) /\
    exists ds ints ss, validateAll validateDuration (sn_DurationOptions s) = inr ds /\
      validateAll validateIntensity (rangeMap (sn_IntensityOptions s)) = inr ints /\
      validateAll validateStep (sn_ChaosSequence s) = inr ss /\
      s' = mkScenario (sn_Name s) (sn_DisplayName s) (sn_Category s) (merge_sort Z.le ds) (list_to_map ints) (sortSlice ss) (sn_K6Script s)).
  { destruct (validateAll validateDuration _), (validateAll validateIntensity _), (validateAll validateStep _); naive_solver. }
  setoid_rewrite (validateAll_normalizes _ _ _ _ _ validateDuration_inr). setoid_rewrite intensities_inr.
  setoid_rewrite (validateAll_normalizes _ _ _ _ _ validateStep_inr).
  unfold normalized. split.
  - intros ((?&?&?&?&?&?&?) & ds & ints & ss & [? ->] & [? ->] & [? ->] & ->). split; [by split|]. by rewrite list_to_map_rangeMap.
  - intros [[] ->]. split; [done|]. do 3 eexists. split_and!; [done|done|done|done|done|done|]. by rewrite list_to_map_rangeMap.
Qed.
End Accepts.

(** ** Runs of a validated scenario *)

Lemma containsDuration_spec options d : containsDuration options d = true <-> d ∈ options.
Proof.
  unfold containsDuration. rewrite existsb_exists. setoid_rewrite Z.eqb_eq. setoid_rewrite <- list_elem_of_In. naive_solver.
Qed.

(** C37: scenarios are validated: [Validate] accepts exactly the well-formed scenarios; what it
    makes of one keeps its steps, trimmed and in the order of their times; and a run is let
    through exactly for an intensity of the file and a duration that, cut to 300 seconds, is
    one of its durations, with at most 500 requests per second for at most 300 seconds. *)
Theorem scenarios_are_validated `{GoOrdersLaws} (s : Scenario) :
  ((exists s', Scenario_Validate s = inr s') <-> well_formed s) /\
  forall s', Scenario_Validate s = inr s' ->
    sn_Name s' = sn_Name s /\
    sn_ChaosSequence s' ≡ₚ trimStep <$> sn_ChaosSequence s /\
    StronglySorted (fun a b => cs_AtSeconds a <= cs_AtSeconds b) (sn_ChaosSequence s') /\
    forall params rps d, ResolveRun s' params = inr (rps, d) <->
      exists requested option, sn_IntensityOptions s !! TrimSpace (rp_Intensity params) = Some requested /\
        option ∈ sn_DurationOptions s /\ Z.min maxScenarioDuration option = Z.min maxScenarioDuration (rp_Duration params) /\
        rps = Z.min maxScenarioRPS requested /\ d = Z.min maxScenarioDuration option /\ 0 < rps <= 500 /\ 0 < d <= 300.
Proof.
  split; [setoid_rewrite Validate_inr; naive_solver|]. intros s' [Hwf ->]%Validate_inr. split_and!; [done|apply sortSlice_permutation|apply sortSlice_sorted|].
  intros params rps d. unfold ResolveRun, normalized. cbn [sn_IntensityOptions sn_DurationOptions]. rewrite lookup_fmap.
  destruct (sn_IntensityOptions s !! _) as [requested|] eqn:Hi; cbn [fmap option_fmap option_map]; [|naive_solver].
  pose proof (wf_intensities s Hwf _ _ Hi) as [_ Hr]. pose proof (wf_durations s Hwf) as Hd. rewrite Forall_forall in Hd.
  assert (forall d, containsDuration (merge_sort Z.le (Z.min maxScenarioDuration <$> sn_DurationOptions s)) d = true <->
    exists option, d = Z.min maxScenarioDuration option /\ option ∈ sn_DurationOptions s) as Hc
    by (intros d0; rewrite containsDuration_spec, merge_sort_Permutation; apply list_elem_of_fmap).
  replace (if maxScenarioDuration <? rp_Duration params then maxScenarioDuration else rp_Duration params)
    with (Z.min maxScenarioDuration (rp_Duration params)) by (destruct (Z.ltb_spec maxScenarioDuration (rp_Duration params)); lia).
  set (asked := Z.min maxScenarioDuration (rp_Duration params)) in *. specialize (Hc asked). unfold maxScenarioDuration, maxScenarioRPS in *.
  destruct (containsDuration _ asked).
  - destruct (proj1 Hc eq_refl) as (option & Hasked & Hin). specialize (Hd _ Hin).
    destruct (Z.leb_spec asked 0); [lia|]. cbn. split.
    + intros [= <- <-]. exists requested, option. split_and!; [done|done|lia..].
    + intros (r' & o' & [= <-] & _ & Ho & -> & -> & _). do 2 f_equal. lia.
  - rewrite orb_true_r. split; [done|]. intros (r' & o' & _ & Hin & Ho & _). destruct Hc as [_ Hc]. discriminate Hc. by exists o'.
Qed.

(** Insertion sort, and the order of [map_to_list]. *)
#[local] Instance step_le_dec (a b : ChaosStep) : Decision (cs_AtSeconds a <= cs_AtSeconds b).
Proof. apply _. Defined.
Definition demo_orders : GoOrders := {|
  rangeMap := map_to_list;
  sortSlice := merge_sort (fun a b => cs_AtSeconds a <= cs_AtSeconds b);
|}.
Lemma demo_orders_laws : GoOrdersLaws (H := demo_orders).
Proof.
  split; [done|intros; apply merge_sort_Permutation|]. intros l. apply StronglySorted_merge_sort.
  - intros a b c Hab Hbc. lia.
  - intros a b. lia.
Qed.

Definition demo_scenario : Scenario :=
  mkScenario "retry" "Retry" "resilience" [120; 600] {[ "mild" := 50; "wild" := 9000 ]}
    [mkStep 20 "service_up" "user-service-1" ∅; mkStep 5 " service_down" "user-service-1 " ∅] "k6/retry.js".

Lemma scenarios_are_validated_witness : exists s', Scenario_Validate (HO := demo_orders) demo_scenario = inr s' /\
  ResolveRun s' (mkParams " wild " 1000) = inr (500, 300).
Proof.
  destruct (scenarios_are_validated (H := demo_orders) (H0 := demo_orders_laws) demo_scenario) as [_ Hs].
  eexists. split; [by vm_compute|]. apply Hs; [by vm_compute|]. exists 9000, 600.
  split_and!; [by vm_compute|apply list_elem_of_In; by right; left|by vm_compute|by vm_compute|by vm_compute|lia..].
Defined.

(** An intensity whose name has space around it validates, and no run can choose it. *)
Lemma padded_intensity_is_unreachable : exists s',
  Scenario_Validate (HO := demo_orders) (mkScenario "s" "S" "c" [60] {[ " mild" := 50 ]} [] "k6/s.js") = inr s' /\
  forall intensity, exists err, ResolveRun s' (mkParams intensity 60) = inl err.
Proof.
  exists (mkScenario "s" "S" "c" [60] {[ " mild" := 50 ]} [] "k6/s.js"). split; [by vm_compute|].
  intros intensity. unfold ResolveRun. cbn [sn_IntensityOptions rp_Intensity].
  assert (({[ " mild" := 50 ]} : gmap string Z) !! TrimSpace intensity = None) as ->; [|by eexists].
  apply lookup_singleton_None. intros H. pose proof (TrimSpace_idemp intensity) as Hi. rewrite <- H in Hi. by vm_compute in Hi.
Qed.

(** A rate that is not a number validates. *)
Lemma nan_rate_validates : validateChaosStep (mkStep 0 "error_inject" "user-service-1" {[ "rate" := ParamFloat S754_nan ]}) = None.
Proof. by vm_compute. Qed.

(** The scenarios served are those of the files, each valid and under its own name. *)
Lemma loadScenarios_spec `{GoOrdersLaws} files scenarios :
  loadScenarios files = inr scenarios ->
  scenarios <> ∅ /\
  (forall name s, scenarios !! name = Some s -> sn_Name s = name /\ exists decoded, inr decoded ∈ files /\ Scenario_Validate decoded = inr s) /\
  (forall decoded s, inr decoded ∈ files -> Scenario_Validate decoded = inr s -> is_Some (scenarios !! sn_Name s)).
Proof.
  unfold loadScenarios. case_bool_decide; [done|]. case_bool_decide as Hne; [done|]. intros [= <-]. split; [done|]. clear -H0.
  assert (forall files m, (forall name s, m !! name = Some s -> sn_Name s = name) ->
    let m' := foldl loadScenario m files in
    (forall name s, m' !! name = Some s -> sn_Name s = name /\ (m !! name = Some s \/ exists decoded, inr decoded ∈ files /\ Scenario_Validate decoded = inr s)) /\
    (forall name, is_Some (m !! name) -> is_Some (m' !! name)) /\
    (forall decoded s, inr decoded ∈ files -> Scenario_Validate decoded = inr s -> is_Some (m' !! sn_Name s))) as Hgen.
  { clear files. intros files. induction files as [|file files IH]; intros m Hm; cbn [foldl]; [split_and!; [naive_solver|done|set_solver]|].
    set (m1 := loadScenario m file).
    assert ((forall name s, m1 !! name = Some s -> sn_Name s = name /\ (m !! name = Some s \/ exists decoded, file = inr decoded /\ Scenario_Validate decoded = inr s)) /\
      (forall name, is_Some (m !! name) -> is_Some (m1 !! name)) /\
      (forall decoded s, file = inr decoded -> Scenario_Validate decoded = inr s -> is_Some (m1 !! sn_Name s))) as (S1 & S2 & S3).
    { unfold m1, loadScenario, loadScenarioFile. destruct file as [err|decoded]; [split_and!; auto; done|].
      destruct (Scenario_Validate decoded) as [err|s] eqn:Hv; [split_and!; [auto|auto|intros ? ? [= <-]; congruence]|].
      case_bool_decide as Hin; [split_and!; [auto|auto|intros d s' [= <-] Hv'; congruence]|]. split_and!.
      - intros name s'. destruct (decide (sn_Name s = name)) as [<-|Hn]; [rewrite lookup_insert_eq; intros [= <-]; eauto|rewrite lookup_insert_ne by done; intros Hm'; eauto].
      - intros name Hs. destruct (decide (sn_Name s = name)) as [<-|Hn]; [by rewrite lookup_insert_eq|by rewrite lookup_insert_ne].
      - intros decoded' s' [= <-] Hv'. rewrite Hv in Hv'. injection Hv' as <-. by rewrite lookup_insert_eq. }
    destruct (IH m1) as (T1 & T2 & T3); [intros name s Hs; by apply S1|]. split_and!.
    - intros name s Hs. destruct (T1 name s Hs) as [Hn [Hm1|(d & Hd & Hv)]]; (split; [done|]).
      + destruct (S1 name s Hm1) as [_ [?|(d & -> & Hv)]]; [by left|]. right. exists d. split; [by left|done].
      + right. exists d. split; [by right|done].
    - auto.
    - intros d s [<-|Hd]%elem_of_cons Hv; [|by eapply T3]. apply T2. by eapply S3. }
  destruct (Hgen files ∅) as (G1 & _ & G3); [done|]. split; [|done]. intros name s Hs. destruct (G1 name s Hs) as [Hn [Hm|?]]; [|done].
  by rewrite lookup_empty in Hm.
Qed.
