(* ===== verification/Json.v ===== *)
(** * JSON: what the programs use of [encoding/json]

    Documents, a body as the decoder reads it, and decoding into the programs' structs.  The
    scanner is not modelled: a body is the documents that its bytes hold one after the other,
    and whether anything follows them that is no document. *)

From Stdlib Require Import SpecFloat.
From stdpp Require Import strings.
From S2P Require Import Prelude GoStrings Scenarios.
From stdpp Require Import options.
#[local] Open Scope string_scope.
#[local] Open Scope Z_scope.

(** A number without fraction and exponent is an integer; of any other the decoder uses what
    [strconv.ParseFloat] makes of it, infinite where it is out of range. *)
Inductive JSON :=
  | JNull
  | JBool (b : bool)
  | JInt (z : Z)
  | JFloat (f : spec_float)
  | JString (s : string)
  | JArray (l : list JSON)
  | JObject (entries : list (string * JSON)).

Record Body := mkBody { bd_documents : list JSON; bd_complete : bool }.

Inductive DecodeError := DecodeEOF | DecodeInvalid.

(** The next document of a [json.Decoder]. *)
Definition nextDocument (body : Body) : sum DecodeError (JSON * Body) :=
  match bd_documents body with
  | [] => inl (if bd_complete body then DecodeEOF else DecodeInvalid)
  | document :: rest => inr (document, mkBody rest (bd_complete body))
  end.

(** Values of basic types: [null] leaves what is there, and a document of another type is a
    mistake. *)
Definition decodeInt (j : JSON) (current : Z) : option Z :=
  match j with
  | JNull => Some current
  | JInt z => if bool_decide (in_int64 z) then Some z else None
  | _ => None
  end.

Definition is_finite (f : spec_float) : bool := match f with S754_infinity _ | S754_nan => false | _ => true end.

Definition decodeFloat (j : JSON) (current : spec_float) : option spec_float :=
  match j with
  | JNull => Some current
  | JInt z => let f := float64_of_int z in if is_finite f then Some f else None
  | JFloat f => if is_finite f then Some f else None
  | _ => None
  end.

Definition decodeString (j : JSON) (current : string) : option string :=
  match j with
  | JNull => Some current
  | JString s => Some s
  | _ => None
  end.

(** A field is found by its name, or else regardless of case. *)
Definition names_field (name key : string) : bool := bool_decide (key = name) || EqualFold key name.

(** An object into a struct with [DisallowUnknownFields]: [set] stores one entry, and fails on
    an unknown field or a mistake of type.  The decoder goes on after a mistake, which it
    reports in the end; nothing uses what it stored by then. *)
Fixpoint decodeEntries {T} (set : string -> JSON -> T -> option T) (entries : list (string * JSON)) (x : T) : option T :=
  match entries with
  | [] => Some x
  | (key, j) :: entries => x ← set key j x; decodeEntries set entries x
  end.

Definition decodeStruct {T} (set : string -> JSON -> T -> option T) (j : JSON) (x : T) : option T :=
  match j with
  | JNull => Some x
  | JObject entries => decodeEntries set entries x
  | _ => None
  end.

(** [decoder.Decode(&x)] *)
Definition Decode {T} (set : string -> JSON -> T -> option T) (body : Body) (x : T) : sum DecodeError T * Body :=
  match nextDocument body with
  | inl err => (inl err, body)
  | inr (document, rest) =>
      (match decodeStruct set document x with Some x => inr x | None => inl DecodeInvalid end, rest)
  end.

(** A struct with one field, by the decoder of its type. *)
Definition oneField {T} (name : string) (decode : JSON -> T -> option T) (key : string) (j : JSON) (x : T) : option T :=
  if names_field name key then decode j x else None.
