(* ===== verification/Services.v ===== *)
(** * The demo services: [services/common], [services/order-service], [services/payment-service]

    The services behind the gateway: collections in memory, a health check, and the chaos that
    the observatory injects.  A handler runs here as it does when no other request comes
    between its start and its end; [Crowd] lets them.  The lemmas: what chaos does to a request,
    that a reset is always answered and undoes all of it, and that a collection finds what it
    lists. *)

From Stdlib Require Import SpecFloat.
From stdpp Require Import gmap strings.
From S2P Require Import Prelude GoStrings Mux Scenarios Json.
From stdpp Require Import options.
#[local] Set Default Proof Using "Type*".
#[local] Open Scope string_scope.
#[local] Open Scope Z_scope.

Definition StatusOK : Z := 200.
Definition StatusCreated : Z := 201.
Definition StatusBadRequest : Z := 400.
Definition StatusNotFound : Z := 404.
Definition StatusInternalServerError : Z := 500.

(** ** Requests and answers *)

(** [sq_Gone] is when the client goes away, counted from the request's arrival: its context is
    done then.  [sq_TimerFirst] is which case [select] takes when both are ready. *)
Record SRequest := mkSRequest {
  sq_Method : string; sq_Path : string; sq_RequestID : string; sq_Body : option Body;
  sq_Gone : option Duration; sq_TimerFirst : bool;
}.

Inductive Content := ContentJSON (j : JSON) | ContentMux.

Record SResponse := mkSResponse { sp_Status : Z; sp_Content : Content }.

(** [WriteJSON]; the entries of a map are written in the order of their keys. *)
Definition WriteJSON (status : Z) (payload : JSON) : SResponse := mkSResponse status (ContentJSON payload).

(** What comes of a request, and after how long; a handler that waits for a client that stays
    never returns. *)
Inductive Outcome :=
  | Answered (after : Duration) (resp : SResponse)
  | Abandoned (after : Duration) (* the handler returned without writing, its client gone *)
  | Waiting.

(** ** Chaos *)

(** [rand.Rand]: [Float64] is in [[0, 1)]. *)
Class RandSource (G : Type) := { Float64 : G -> spec_float * G }.

Class RandSourceLaws (G : Type) {HR : RandSource G} : Prop := {
  Float64_below_one g : SFltb (fst (Float64 g)) float_one = true;
}.

Record ChaosState (G : Type) := mkChaos { ch_delay : Duration; ch_errorRate : spec_float; ch_down : bool; ch_rng : G }.
Arguments mkChaos {G}.
Arguments ch_delay {G}.
Arguments ch_errorRate {G}.
Arguments ch_down {G}.
Arguments ch_rng {G}.

Section Chaos.
Context {G : Type} {HR : RandSource G}.
Implicit Types (c : ChaosState G) (req : SRequest).

Definition NewChaosState (rng : G) : ChaosState G := mkChaos 0 float_zero false rng.

Definition decodeJSON {T} (set : string -> JSON -> T -> option T) (req : SRequest) (x : T) : option T :=
  match sq_Body req with
  | None => None
  | Some body => match fst (Decode set body x) with inr x => Some x | inl _ => None end
  end.

Definition chaosError (message : string) : SResponse := WriteJSON StatusBadRequest (JObject [("error", JString message)]).

Definition handleLatency req c : SResponse * ChaosState G :=
  match decodeJSON (oneField "delay_ms" decodeInt) req 0 with
  | None => (chaosError "invalid delay_ms", c)
  | Some delayMS =>
      if delayMS <? 0 then (chaosError "invalid delay_ms", c)
      else (WriteJSON StatusOK (JObject [("delay_ms", JInt delayMS)]),
            mkChaos (wrap64 (delayMS * Millisecond)) (ch_errorRate c) (ch_down c) (ch_rng c))
  end.

Definition handleErrors req c : SResponse * ChaosState G :=
  match decodeJSON (oneField "rate" decodeFloat) req float_zero with
  | None => (chaosError "invalid rate", c)
  | Some rate =>
      if SFltb rate float_zero || SFltb float_one rate then (chaosError "invalid rate", c)
      else (WriteJSON StatusOK (JObject [("rate", JFloat rate)]), mkChaos (ch_delay c) rate (ch_down c) (ch_rng c))
  end.

Definition handleDown (_ : SRequest) c : SResponse * ChaosState G :=
  (WriteJSON StatusOK (JObject [("status", JString "down")]), mkChaos (ch_delay c) (ch_errorRate c) true (ch_rng c)).

Definition handleReset (_ : SRequest) c : SResponse * ChaosState G :=
  (WriteJSON StatusOK (JObject [("status", JString "reset")]), mkChaos 0 float_zero false (ch_rng c)).

Inductive ChaosEndpoint := ChaosLatency | ChaosErrors | ChaosDown | ChaosReset.

(** [RegisterChaosHandlers] *)
Definition chaos_patterns : Patterns ChaosEndpoint := fun segments =>
  match segments with
  | [""; "chaos"; "latency"] => [("POST", ChaosLatency)]
  | [""; "chaos"; "errors"] => [("POST", ChaosErrors)]
  | [""; "chaos"; "down"] => [("POST", ChaosDown)]
  | [""; "chaos"; "reset"] => [("POST", ChaosReset)]
  | _ => []
  end.

Definition serveChaos (endpoint : ChaosEndpoint) : SRequest -> ChaosState G -> SResponse * ChaosState G :=
  match endpoint with
  | ChaosLatency => handleLatency
  | ChaosErrors => handleErrors
  | ChaosDown => handleDown
  | ChaosReset => handleReset
  end.

Definition snapshot c : Duration * spec_float * bool := (ch_delay c, ch_errorRate c, ch_down c).

Definition shouldFail (rate : spec_float) c : bool * ChaosState G :=
  let '(x, rng) := Float64 (ch_rng c) in (SFltb x rate, mkChaos (ch_delay c) (ch_errorRate c) (ch_down c) rng).

(** The timer, against the client. *)
Definition timerFires (delay : Duration) req : bool :=
  match sq_Gone req with
  | None => true
  | Some gone => if delay <? gone then true else if gone <? delay then false else sq_TimerFirst req
  end.

Definition chaosFailure : SResponse := WriteJSON StatusInternalServerError (JObject [("error", JString "chaos injected error")]).

(** [Middleware], around a handler that answers at once on a state of which the chaos is a
    part. *)
Section Middleware.
Context {S : Type} (chaosOf : S -> ChaosState G) (withChaos : ChaosState G -> S -> S).
Context (next : SRequest -> S -> SResponse * S).

Definition forward (after : Duration) (req : SRequest) (s : S) : Outcome * S :=
  let '(resp, s) := next req s in (Answered after resp, s).

Definition Middleware (req : SRequest) (s : S) : Outcome * S :=
  if HasPrefix (sq_Path req) "/chaos/" then forward 0 req s
  else
    let '(delay, errorRate, down) := snapshot (chaosOf s) in
    if down : bool then (match sq_Gone req with Some gone => Abandoned gone | None => Waiting end, s)
    else if (0 <? delay) && negb (timerFires delay req)
    then (Abandoned (from_option id 0 (sq_Gone req)), s)
    else
      let after := Z.max 0 delay in
      if SFltb float_zero errorRate then
        let '(fails, chaos) := shouldFail errorRate (chaosOf s) in
        let s := withChaos chaos s in
        if fails : bool then (Answered after chaosFailure, s) else forward after req s
      else forward after req s.
End Middleware.
End Chaos.

(** ** Collections *)

Section Collections.
Context {T : Type} (idFn : T -> string) (createStatus : Z) (createFn : T) (toJSON : T -> JSON).

Record Collection := mkCollection { co_items : list T; co_index : gmap string T }.

Definition NewCollectionHandlers (items : list T) : Collection :=
  mkCollection items (foldl (fun index item => <[idFn item := item]> index) ∅ items).

Definition List_ (col : Collection) : SResponse * Collection := (WriteJSON StatusOK (JArray (map toJSON (co_items col))), col).

Definition Get (id : string) (col : Collection) : SResponse * Collection :=
  (match co_index col !! id with
   | None => WriteJSON StatusNotFound (JObject [("error", JString "resource not found")])
   | Some item => WriteJSON StatusOK (toJSON item)
   end, col).

Definition Create (col : Collection) : SResponse * Collection :=
  let created := createFn in
  (WriteJSON createStatus (toJSON created), mkCollection (co_items col ++ [created])%list (<[idFn created := created]> (co_index col))).
End Collections.

(** [HealthHandler] *)
Definition HealthHandler (service : string) : SResponse :=
  WriteJSON StatusOK (JObject [("service", JString service); ("status", JString "ok")]).

(** [ServicePortFromEnv], given [PORT]; [strconv.Atoi]. *)
Definition ServicePortFromEnv (portValue : string) (defaultPort : Z) : Z :=
  if bool_decide (portValue = "") then defaultPort
  else match ParseInt portValue with
  | None => defaultPort
  | Some port => if (port <=? 0) || (65535 <? port) then defaultPort else port
  end.

(** ** Services *)

(** A [map[string]any]: its entries in the order of their keys. *)
Notation Item := (list (string * JSON)).

(** [item["id"].(string)]; the items of the services have one. *)
Definition item_id (item : Item) : string :=
  match List.find (fun kv => bool_decide (kv.1 = "id")) item with Some (_, JString id) => id | _ => "" end.

Record Service (G : Type) := mkService { sv_chaos : ChaosState G; sv_items : @Collection Item }.
Arguments mkService {G}.
Arguments sv_chaos {G}.
Arguments sv_items {G}.

Section Services.
Context {G : Type} {HR : RandSource G}.
Implicit Types (s : Service G) (req : SRequest).

Definition with_sv_chaos (chaos : ChaosState G) s : Service G := mkService chaos (sv_items s).

(** What a mux serves: a handler of the service's own, or chaos. *)
Inductive Endpoint (A : Type) := OwnEndpoint (endpoint : A) | ToChaos (endpoint : ChaosEndpoint).
Arguments OwnEndpoint {A}.
Arguments ToChaos {A}.

Definition service_patterns {A} (own : Patterns A) : Patterns (Endpoint A) := fun segments =>
  (map (fun p => (p.1, OwnEndpoint p.2)) (own segments) ++ map (fun p => (p.1, ToChaos p.2)) (chaos_patterns segments))%list.

Definition serveMux {A} (own : Patterns A) (serve : A -> SRequest -> Service G -> SResponse * Service G) req s : SResponse * Service G :=
  match route (service_patterns own) (sq_Method req) (sq_Path req) with
  | inl status => (mkSResponse status ContentMux, s)
  | inr (OwnEndpoint endpoint) => serve endpoint req s
  | inr (ToChaos endpoint) =>
      let '(resp, chaos) := serveChaos endpoint req (sv_chaos s) in (resp, with_sv_chaos chaos s)
  end.

(** The handler of the service's server. *)
Definition serveService {A} (own : Patterns A) (serve : A -> SRequest -> Service G -> SResponse * Service G) : SRequest -> Service G -> Outcome * Service G :=
  Middleware sv_chaos with_sv_chaos (serveMux own serve).

(** *** Orders and payments *)

Inductive ItemsEndpoint := ListItems | GetItem (id : string) | CreateItem | CheckHealth.

Section Items.
Variables (service : string) (createStatus : Z) (created : Item).

Definition serveItems (endpoint : ItemsEndpoint) (_ : SRequest) s : SResponse * Service G :=
  match endpoint with
  | CheckHealth => (HealthHandler service, s)
  | ListItems => let '(resp, items) := List_ JObject (sv_items s) in (resp, mkService (sv_chaos s) items)
  | GetItem id => let '(resp, items) := Get JObject id (sv_items s) in (resp, mkService (sv_chaos s) items)
  | CreateItem => let '(resp, items) := Create item_id createStatus created JObject (sv_items s) in (resp, mkService (sv_chaos s) items)
  end.
End Items.

Definition orders : list Item := [
  [("id", JString "o-1"); ("status", JString "created"); ("total", JInt 1299); ("user_id", JString "u-1")];
  [("id", JString "o-2"); ("status", JString "shipped"); ("total", JInt 2599); ("user_id", JString "u-2")];
  [("id", JString "o-3"); ("status", JString "delivered"); ("total", JInt 499); ("user_id", JString "u-3")]].

Definition new_order : Item := [("id", JString "o-4"); ("status", JString "created"); ("total", JInt 1899); ("user_id", JString "u-1")].

Definition order_patterns : Patterns ItemsEndpoint := fun segments =>
  match segments with
  | [""; "orders"] => [("GET", ListItems); ("POST", CreateItem)]
  | [""; "orders"; id] => if bool_decide (id = "") then [] else [("GET", GetItem id)]
  | [""; "health"] => [("GET", CheckHealth)]
  | _ => []
  end.

Definition order_service : SRequest -> Service G -> Outcome * Service G :=
  serveService order_patterns (serveItems "order-service" StatusCreated new_order).

Definition new_order_service (rng : G) : Service G := mkService (NewChaosState rng) (NewCollectionHandlers item_id orders).

Definition payments : list Item := [
  [("amount", JInt 1299); ("id", JString "p-1"); ("order_id", JString "o-1"); ("status", JString "confirmed")];
  [("amount", JInt 2599); ("id", JString "p-2"); ("order_id", JString "o-2"); ("status", JString "pending")]].

Definition new_payment : Item := [("amount", JInt 499); ("id", JString "p-3"); ("order_id", JString "o-3"); ("status", JString "confirmed")].

Definition payment_patterns : Patterns ItemsEndpoint := fun segments =>
  match segments with
  | [""; "payments"] => [("POST", CreateItem)]
  | [""; "payments"; id] => if bool_decide (id = "") then [] else [("GET", GetItem id)]
  | [""; "health"] => [("GET", CheckHealth)]
  | _ => []
  end.

Definition payment_service : SRequest -> Service G -> Outcome * Service G :=
  serveService payment_patterns (serveItems "payment-service" StatusOK new_payment).

Definition new_payment_service (rng : G) : Service G := mkService (NewChaosState rng) (NewCollectionHandlers item_id payments).
End Services.
Arguments OwnEndpoint {A}.
Arguments ToChaos {A}.

(** ** Collections find what they list *)

Section CollectionTheory.
Context {T : Type} (idFn : T -> string) (createStatus : Z) (createFn : T) (toJSON : T -> JSON).

(** What is listed under an identifier: the last one. *)
Definition listed (id : string) (items : list T) : option T := List.find (fun item => bool_decide (idFn item = id)) (rev items).

Lemma listed_snoc id items item : listed id (items ++ [item])%list = if bool_decide (idFn item = id) then Some item else listed id items.
Proof. unfold listed. rewrite rev_app_distr. cbn. by case_bool_decide. Qed.

Definition collection_ok (col : @Collection T) : Prop := forall id, co_index col !! id = listed id (co_items col).

Lemma NewCollection_ok items : collection_ok (NewCollectionHandlers idFn items).
Proof.
  unfold collection_ok, NewCollectionHandlers. cbn [co_index co_items]. intros id. induction items as [|item items IH] using rev_ind; [done|].
  rewrite foldl_app, listed_snoc. cbn [foldl]. case_bool_decide as Hid; [subst; by rewrite lookup_insert_eq|by rewrite lookup_insert_ne].
Qed.

Lemma Create_ok col : collection_ok col -> collection_ok (snd (Create idFn createStatus createFn toJSON col)).
Proof.
  intros Hok id. unfold Create. cbn [snd co_index co_items]. rewrite listed_snoc. case_bool_decide as Hid; [subst; by rewrite lookup_insert_eq|by rewrite lookup_insert_ne].
Qed.

(** The state after some creations. *)
Definition after_creates (n : nat) (items : list T) : @Collection T :=
  Nat.iter n (fun col => snd (Create idFn createStatus createFn toJSON col)) (NewCollectionHandlers idFn items).

Lemma after_creates_items n items : co_items (after_creates n items) = (items ++ replicate n createFn)%list.
Proof.
  induction n as [|n IH]; [by rewrite app_nil_r|]. change (after_creates (S n) items) with (snd (Create idFn createStatus createFn toJSON (after_creates n items))).
  unfold Create. cbn [snd co_items]. by rewrite IH, <- app_assoc, <- replicate_S_end.
Qed.

(** Whatever was created, the list is what there was with the creations after it, and an item
    is found by its identifier exactly if it is the last one listed under it. *)
Lemma collections_find_what_they_list n items id :
  let col := after_creates n items in
  List_ toJSON col = (WriteJSON StatusOK (JArray (map toJSON (items ++ replicate n createFn)%list)), col) /\
  Get toJSON id col =
    (match listed id (items ++ replicate n createFn)%list with
     | Some item => WriteJSON StatusOK (toJSON item)
     | None => WriteJSON StatusNotFound (JObject [("error", JString "resource not found")])
     end, col).
Proof.
  intros col. unfold List_, Get. assert (collection_ok col) as Hok.
  { unfold col, after_creates. induction n as [|n IH]; [apply NewCollection_ok|]. by apply Create_ok. }
  rewrite (Hok id). unfold col. rewrite after_creates_items. split; [done|]. by destruct (listed _ _).
Qed.
End CollectionTheory.

(** ** Chaos *)

Section ChaosTheory.
Context {G : Type} {HR : RandSource G}.
Context {A : Type} (own : Patterns A) (serve : A -> SRequest -> Service G -> SResponse * Service G).
Implicit Types (s : Service G) (req : SRequest).

(** A service with endpoints of its own, below other paths than [/chaos/], which leave the
    chaos alone. *)
Definition own_endpoints : Prop :=
  (forall rest, own ("" :: "chaos" :: rest) = []) /\ (forall endpoint req s, sv_chaos (snd (serve endpoint req s)) = sv_chaos s).

Definition is_chaos (req : SRequest) : bool := HasPrefix (sq_Path req) "/chaos/".

Lemma chaos_patterns_path segments p : p ∈ chaos_patterns segments -> exists action, segments = [""; "chaos"; action].
Proof. unfold chaos_patterns. repeat (case_match; try by intros ?%elem_of_nil); eauto. Qed.

(** A request for another path does not change the chaos. *)
Lemma serveMux_chaos req s : own_endpoints -> is_chaos req = false -> sv_chaos (snd (serveMux own serve req s)) = sv_chaos s.
Proof.
  intros [_ Hown] Hpath. unfold serveMux. destruct (route _ _ _) as [|[endpoint|endpoint]] eqn:Hroute; [done|by apply Hown|].
  apply route_matches in Hroute as (m & Hin & _). unfold service_patterns in Hin. apply elem_of_app in Hin as [Hin|Hin].
  - apply list_elem_of_In, in_map_iff in Hin as ([? ?] & [=] & _).
  - apply list_elem_of_In, in_map_iff in Hin as ([m' e'] & [= -> ->] & Hin%list_elem_of_In). apply chaos_patterns_path in Hin as [action Hseg].
    destruct (Split_spec (sq_Path req) slash) as [Hp _]. rewrite Hseg in Hp. unfold is_chaos in Hpath. by rewrite Hp in Hpath.
Qed.

(** Requests one after the other. *)
Fixpoint serve_all (f : SRequest -> Service G -> Outcome * Service G) (reqs : list SRequest) s : list Outcome * Service G :=
  match reqs with
  | [] => ([], s)
  | req :: reqs =>
      let '(out, s) := f req s in
      let '(outs, s) := serve_all f reqs s in (out :: outs, s)
  end.

(** The service without its middleware. *)
Definition undisturbed req s : Outcome * Service G := forward (serveMux own serve) 0 req s.

Definition quiet (c : ChaosState G) : Prop := ch_delay c = 0 /\ ch_errorRate c = float_zero /\ ch_down c = false.

Lemma quiet_undisturbed req s : quiet (sv_chaos s) -> serveService own serve req s = undisturbed req s.
Proof. intros (Hd & Hr & Hw). unfold serveService, Middleware, snapshot. rewrite Hd, Hr, Hw. by destruct (HasPrefix _ _). Qed.

Lemma quiet_serve_all reqs s :
  own_endpoints -> Forall (fun req => is_chaos req = false) reqs -> quiet (sv_chaos s) ->
  serve_all (serveService own serve) reqs s = serve_all undisturbed reqs s.
Proof.
  intros Hown Hreqs. revert s. induction Hreqs as [|req reqs Hreq _ IH]; intros s Hq; [done|]. cbn [serve_all].
  rewrite quiet_undisturbed by done. unfold undisturbed, forward. pose proof (serveMux_chaos req s Hown Hreq) as Hc.
  destruct (serveMux own serve req s) as [resp s']. cbn in Hc. rewrite IH by (by rewrite Hc). done.
Qed.

(** A request to one of the chaos endpoints. *)
Lemma serveService_chaos endpoint action req s :
  (forall rest, own ("" :: "chaos" :: rest) = []) ->
  sq_Method req = "POST" -> sq_Path req = "/chaos/" +:+ action -> cleanPath (sq_Path req) = sq_Path req ->
  chaos_patterns (Split (sq_Path req) slash) = [("POST", endpoint)] -> 
  serveService own serve req s =
    let '(resp, chaos) := serveChaos endpoint req (sv_chaos s) in (Answered 0 resp, with_sv_chaos chaos s).
Proof.
  intros Hown Hm Hp Hclean Hpat. unfold serveService, Middleware. rewrite Hp at 1. rewrite HasPrefix_app.
  unfold forward, serveMux, route, service_patterns. rewrite Hclean, (bool_decide_eq_true_2 (sq_Path req = sq_Path req)) by done. rewrite andb_false_r.
  destruct (chaos_patterns_path (Split (sq_Path req) slash) ("POST", endpoint)) as [act Hseg]; [rewrite Hpat; set_solver|].
  rewrite Hpat, Hseg, Hown, Hm. cbn -[takes]. replace (takes "POST" "POST") with true by (by vm_compute). cbn [snd]. by destruct (serveChaos _ _ _).
Qed.

Definition chaos_request (path : string) req : Prop := sq_Method req = "POST" /\ sq_Path req = path.

(** The middleware on a request that is not to the chaos endpoints, of a client that stays. *)
Lemma serveService_steady req s :
  is_chaos req = false -> sq_Gone req = None ->
  serveService own serve req s =
    if ch_down (sv_chaos s) then (Waiting, s)
    else
      let after := Z.max 0 (ch_delay (sv_chaos s)) in
      if SFltb float_zero (ch_errorRate (sv_chaos s)) then
        let '(fails, chaos) := shouldFail (ch_errorRate (sv_chaos s)) (sv_chaos s) in
        let s := with_sv_chaos chaos s in
        if fails : bool then (Answered after chaosFailure, s) else forward (serveMux own serve) after req s
      else forward (serveMux own serve) after req s.
Proof.
  intros Hc Hg. unfold serveService, Middleware, snapshot, timerFires. unfold is_chaos in Hc. rewrite Hc, Hg. destruct (ch_down _); [done|].
  cbn [negb]. by rewrite andb_false_r.
Qed.

(** Chaos is undone: whatever was injected into a service, a reset is answered at once, also
    by a service that answers nothing else; it leaves the items as they are, and from then on
    requests are served, in any number and order, as if the service had no chaos, until some is
    injected again. *)
Lemma chaos_is_undone req reqs s :
  own_endpoints -> chaos_request "/chaos/reset" req -> Forall (fun r => is_chaos r = false) reqs ->
  let '(out, s') := serveService own serve req s in
  out = Answered 0 (WriteJSON StatusOK (JObject [("status", JString "reset")])) /\ sv_items s' = sv_items s /\
  quiet (sv_chaos s') /\ serve_all (serveService own serve) reqs s' = serve_all undisturbed reqs s'.
Proof.
  intros Hown [Hm Hp] Hreqs.
  rewrite (serveService_chaos ChaosReset "reset") by (by apply Hown || by rewrite ?Hp; vm_compute).
  cbn [serveChaos handleReset]. split_and!; [done|done|done|]. by apply quiet_serve_all.
Qed.

(** The chaos that a request injects. *)
Definition injects (req : SRequest) (resp : SResponse) (f : ChaosState G -> ChaosState G) : Prop :=
  forall s, serveService own serve req s = (Answered 0 resp, with_sv_chaos (f (sv_chaos s)) s).

Lemma injects_latency req d :
  (forall rest, own ("" :: "chaos" :: rest) = []) -> chaos_request "/chaos/latency" req ->
  decodeJSON (oneField "delay_ms" decodeInt) req 0 = Some d -> 0 <= d ->
  injects req (WriteJSON StatusOK (JObject [("delay_ms", JInt d)]))
    (fun c => mkChaos (wrap64 (d * Millisecond)) (ch_errorRate c) (ch_down c) (ch_rng c)).
Proof.
  intros Hown [Hm Hp] Hd Hd0 s. rewrite (serveService_chaos ChaosLatency "latency") by (done || by rewrite ?Hp; vm_compute).
  cbn [serveChaos]. unfold handleLatency. rewrite Hd. by destruct (Z.ltb_spec d 0); [lia|].
Qed.

Lemma injects_errors req rate :
  (forall rest, own ("" :: "chaos" :: rest) = []) -> chaos_request "/chaos/errors" req ->
  decodeJSON (oneField "rate" decodeFloat) req float_zero = Some rate -> SFltb rate float_zero || SFltb float_one rate = false ->
  injects req (WriteJSON StatusOK (JObject [("rate", JFloat rate)]))
    (fun c => mkChaos (ch_delay c) rate (ch_down c) (ch_rng c)).
Proof.
  intros Hown [Hm Hp] Hr Hrange s. rewrite (serveService_chaos ChaosErrors "errors") by (done || by rewrite ?Hp; vm_compute).
  cbn [serveChaos]. unfold handleErrors. by rewrite Hr, Hrange.
Qed.

Lemma injects_down req :
  (forall rest, own ("" :: "chaos" :: rest) = []) -> chaos_request "/chaos/down" req ->
  injects req (WriteJSON StatusOK (JObject [("status", JString "down")]))
    (fun c => mkChaos (ch_delay c) (ch_errorRate c) true (ch_rng c)).
Proof.
  intros Hown [Hm Hp] s. by rewrite (serveService_chaos ChaosDown "down") by (done || by rewrite ?Hp; vm_compute).
Qed.

(** When an outcome comes. *)
Definition answered_after (out : Outcome) (d : Duration) : Prop := match out with Answered after _ => d <= after | _ => True end.

(** Chaos takes effect: a service that accepted a latency answers no request sooner, one that
    accepted an error rate of one answers every request with 500 and its handlers do not run,
    and one that was put down answers nothing; only the requests for chaos are answered as
    ever. *)
Lemma chaos_takes_effect `{!RandSourceLaws G} inject req s :
  own_endpoints -> is_chaos req = false -> sq_Gone req = None ->
  let s1 := snd (serveService own serve inject s) in
  let '(out, s2) := serveService own serve req s1 in
  (forall d, chaos_request "/chaos/latency" inject -> decodeJSON (oneField "delay_ms" decodeInt) inject 0 = Some d ->
     0 <= d -> d * Millisecond <= int64_max -> answered_after out (d * Millisecond)) /\
  (chaos_request "/chaos/errors" inject -> decodeJSON (oneField "rate" decodeFloat) inject float_zero = Some float_one ->
     sv_items s2 = sv_items s /\ (out = Waiting \/ exists after, out = Answered after chaosFailure)) /\
  (chaos_request "/chaos/down" inject -> out = Waiting /\ sv_items s2 = sv_items s).
Proof.
  intros [Hown _] Hreq Hgone s1. rewrite serveService_steady by done.
  destruct (if ch_down (sv_chaos s1) then _ else _) as [out s2] eqn:Hserve. split_and!.
  - intros d Hc Hd Hd0 Hmax. pose proof (injects_latency inject d Hown Hc Hd Hd0 s) as Hi. unfold s1 in Hserve. rewrite Hi in Hserve. cbn [snd with_sv_chaos sv_chaos ch_delay ch_errorRate ch_down ch_rng] in Hserve.
    rewrite wrap64_id in Hserve by (unfold in_int64, int64_min, int64_max, Millisecond in *; lia).
    destruct (ch_down _); [by injection Hserve as <- _|]. unfold forward in Hserve.
    destruct (SFltb _ _); [destruct (shouldFail _ _) as [[] c]; [by injection Hserve as <- _; cbn; lia|]|];
      destruct (serveMux _ _ _ _); injection Hserve as <- _; cbn; lia.
  - intros Hc Hr. pose proof (injects_errors inject float_one Hown Hc Hr eq_refl s) as Hi. unfold s1 in Hserve. rewrite Hi in Hserve. cbn [snd with_sv_chaos sv_chaos ch_delay ch_errorRate ch_down ch_rng] in Hserve.
    destruct (ch_down _); [injection Hserve as <- <-; by auto|].
    unfold shouldFail in Hserve. cbn [ch_rng] in Hserve. pose proof (Float64_below_one (ch_rng (sv_chaos s))) as Hx.
    destruct (Float64 _) as [x rng]. cbn [fst] in Hx. rewrite Hx in Hserve. change (SFltb float_zero float_one) with true in Hserve.
    injection Hserve as <- <-. by eauto.
  - intros Hc. pose proof (injects_down inject Hown Hc s) as Hi. unfold s1 in Hserve. rewrite Hi in Hserve. by injection Hserve as <- <-.
Qed.

(** The product of the milliseconds wraps around: a delay that was accepted is none. *)
Lemma huge_latency_is_none inject req s :
  (forall rest, own ("" :: "chaos" :: rest) = []) -> chaos_request "/chaos/latency" inject ->
  sq_Body inject = Some (mkBody [JObject [("delay_ms", JInt 9223372036855)]] true) ->
  quiet (sv_chaos s) -> is_chaos req = false -> sq_Gone req = None ->
  let '(out, s1) := serveService own serve inject s in
  out = Answered 0 (WriteJSON StatusOK (JObject [("delay_ms", JInt 9223372036855)])) /\
  serveService own serve req s1 = undisturbed req s1.
Proof.
  intros Hown Hc Hb (_ & Hr & Hw) Hreq Hg. rewrite (injects_latency inject 9223372036855) by (done || unfold decodeJSON; rewrite Hb; by vm_compute).
  split; [done|]. rewrite serveService_steady by done. cbn. by rewrite Hr, Hw.
Qed.
End ChaosTheory.

(** ** The concrete services *)

Section Concrete.
Context {G : Type} {HR : RandSource G}.

Lemma order_own : own_endpoints (G := G) order_patterns (serveItems "order-service" StatusCreated new_order).
Proof. split; [done|]. by intros []. Qed.

Lemma payment_own : own_endpoints (G := G) payment_patterns (serveItems "payment-service" StatusOK new_payment).
Proof. split; [done|]. by intros []. Qed.
End Concrete.

(** A source that always gives one half. *)
Definition half : spec_float := S754_finite false 4503599627370496 (-53).
Definition demo_rand : RandSource unit := {| Float64 g := (half, g) |}.
Lemma demo_rand_laws : @RandSourceLaws unit demo_rand.
Proof. by split. Qed.

Definition demo_post (path : string) (documents : list JSON) : SRequest := mkSRequest "POST" path "" (Some (mkBody documents true)) None true.
Definition demo_get (path : string) : SRequest := mkSRequest "GET" path "" None None true.

Lemma chaos_is_undone_witness :
  let down := snd (order_service (HR := demo_rand) (demo_post "/chaos/down" []) (new_order_service tt)) in
  fst (order_service (HR := demo_rand) (demo_get "/orders/o-1") down) = Waiting /\
  let '(out, s) := order_service (HR := demo_rand) (demo_post "/chaos/reset" []) down in
  out = Answered 0 (WriteJSON StatusOK (JObject [("status", JString "reset")])) /\
  serve_all (order_service (HR := demo_rand)) [demo_get "/orders/o-1"] s =
    serve_all (undisturbed order_patterns (serveItems "order-service" StatusCreated new_order)) [demo_get "/orders/o-1"] s.
Proof.
  split; [vm_compute; reflexivity|].
  pose proof (chaos_is_undone (HR := demo_rand) order_patterns (serveItems "order-service" StatusCreated new_order)
    (demo_post "/chaos/reset" []) [demo_get "/orders/o-1"] (snd (order_service (HR := demo_rand) (demo_post "/chaos/down" []) (new_order_service tt)))
    (order_own (HR := demo_rand)) ltac:(by split) ltac:(by repeat constructor)) as H.
  unfold order_service at 1. destruct (serveService _ _ _ _) as [out s]. destruct H as (H1 & _ & _ & H2). split; [exact H1|exact H2].
Defined.

Lemma chaos_takes_effect_witness :
  let inject := demo_post "/chaos/latency" [JObject [("Delay_MS", JInt 2000)]] in
  answered_after (fst (order_service (HR := demo_rand) (demo_get "/orders") (snd (order_service (HR := demo_rand) inject (new_order_service tt))))) (2 * Second).
Proof.
  intros inject.
  pose proof (chaos_takes_effect (HR := demo_rand) order_patterns (serveItems "order-service" StatusCreated new_order)
    (RandSourceLaws0 := demo_rand_laws) inject (demo_get "/orders") (new_order_service tt) (order_own (HR := demo_rand)) eq_refl eq_refl) as H.
  unfold order_service. cbv zeta in H. destruct (serveService order_patterns _ (demo_get "/orders") _) as [out s2].
  destruct H as (H & _). apply (H 2000); [by split|by vm_compute|lia|by vm_compute].
Defined.
