(* ===== verification/Crowd.v ===== *)
(** * Requests to a demo service at the same time: [services/common/chaos.go]

    The middleware reads the chaos under its lock, waits, draws a number under the lock, and
    calls the handler, whose section is one: between these sections other requests run.  The
    theorem: a reset is never in the way of anything, and every request that has not yet read
    the chaos when it takes effect is served as if none had been injected; a lemma shows that a
    request which has read it can still fail. *)

From Stdlib Require Import SpecFloat.
From stdpp Require Import strings list.
From S2P Require Import Prelude GoStrings Mux Scenarios Json Services.
From stdpp Require Import options.
#[local] Set Default Proof Using "Type*".
#[local] Open Scope string_scope.
#[local] Open Scope Z_scope.

(** Where a request is: it has not read the chaos yet; it waits for its client to go, or for
    the timer; it draws; its handler is next; it is over. *)
Inductive Phase := Arrived | Hanging | Delaying (rate : spec_float) | Drawing (rate : spec_float) | Serving | Finished (resp : SResponse) | Left.

Section Crowd.
Context {G : Type} {HR : RandSource G}.
Context {A : Type} (own : Patterns A) (serve : A -> SRequest -> Service G -> SResponse * Service G).
Implicit Types (sv : Service G) (req : SRequest).

(** The next section of a request; [gone]: its client has left, and the [select] sees it. *)
Definition advance (gone : bool) req (phase : Phase) sv : option (Phase * Service G) :=
  match phase with
  | Arrived =>
      if HasPrefix (sq_Path req) "/chaos/" then Some (Serving, sv)
      else
        let '(delay, errorRate, down) := snapshot (sv_chaos sv) in
        Some (if down : bool then Hanging else if 0 <? delay then Delaying errorRate else Drawing errorRate, sv)
  | Hanging => if gone then Some (Left, sv) else None
  | Delaying rate => Some (if gone then Left else Drawing rate, sv)
  | Drawing rate =>
      if SFltb float_zero rate then
        let '(fails, chaos) := shouldFail rate (sv_chaos sv) in
        Some (if fails : bool then Finished chaosFailure else Serving, with_sv_chaos chaos sv)
      else Some (Serving, sv)
  | Serving => let '(resp, sv) := serveMux own serve req sv in Some (Finished resp, sv)
  | Finished _ | Left => None
  end.

Record Crowd := mkCrowd { cr_service : Service G; cr_requests : list (SRequest * Phase) }.

(** The handler that injects chaos is next. *)
Definition injecting req (phase : Phase) : bool :=
  match phase, route (service_patterns own) (sq_Method req) (sq_Path req) with
  | Serving, inr (ToChaos (ChaosLatency | ChaosErrors | ChaosDown)) => true
  | _, _ => false
  end.

(** [calm]: nothing is injected. *)
Inductive crowd_step (calm : bool) : Crowd -> Crowd -> Prop :=
  | crowd_arrive req c : crowd_step calm c (mkCrowd (cr_service c) (cr_requests c ++ [(req, Arrived)]))
  | crowd_advance i gone req phase phase' sv c :
      cr_requests c !! i = Some (req, phase) -> advance gone req phase (cr_service c) = Some (phase', sv) ->
      (calm = true -> injecting req phase = false) ->
      crowd_step calm c (mkCrowd sv (<[i := (req, phase')]> (cr_requests c))).

(** ** A request that is alone *)

(** The sections of a request that nothing comes between, until it is over or waits. *)
Fixpoint alone (fuel : nat) (gone : bool) req (phase : Phase) sv : Phase * Service G :=
  match fuel, advance gone req phase sv with
  | S fuel, Some (phase, sv) => alone fuel gone req phase sv
  | _, _ => (phase, sv)
  end.

Definition outcome_of (out : Outcome) : Phase :=
  match out with Answered _ resp => Finished resp | Abandoned _ => Left | Waiting => Hanging end.

(** Whether the [select] sees the client gone. *)
Definition sees_gone req sv : bool :=
  if ch_down (sv_chaos sv) then bool_decide (is_Some (sq_Gone req)) else (0 <? ch_delay (sv_chaos sv)) && negb (timerFires (ch_delay (sv_chaos sv)) req).

(** The sections together are the middleware. *)
Lemma alone_is_Middleware req sv :
  alone 4 (sees_gone req sv) req Arrived sv =
    let '(out, sv') := serveService own serve req sv in (outcome_of out, sv').
Proof.
  unfold serveService, Middleware, sees_gone, forward, snapshot. cbn [alone advance].
  destruct (HasPrefix (sq_Path req) "/chaos/"); cbn [alone advance]; [by destruct (serveMux own serve req sv)|].
  unfold snapshot. destruct (ch_down (sv_chaos sv)); cbn [alone advance].
  { destruct (sq_Gone req); [|by rewrite bool_decide_eq_false_2 by by intros []]. by rewrite bool_decide_eq_true_2 by done. }
  destruct (0 <? ch_delay (sv_chaos sv)); cbn [andb alone advance].
  - destruct (timerFires _ _); cbn [negb alone advance]; [|done].
    destruct (SFltb float_zero _); [|cbn [alone advance]; by destruct (serveMux own serve req sv)].
    destruct (shouldFail _ _) as [[] chaos]; cbn [alone advance]; [done|]. by destruct (serveMux own serve req _).
  - destruct (SFltb float_zero _); [|cbn [alone advance]; by destruct (serveMux own serve req sv)].
    destruct (shouldFail _ _) as [[] chaos]; cbn [alone advance]; [done|]. by destruct (serveMux own serve req _).
Qed.

(** ** After a reset *)

Definition reset_answer : SResponse := WriteJSON StatusOK (JObject [("status", JString "reset")]).

(** A request that no chaos has touched: what it ends with is its handler's answer. *)
Definition untouched req (phase : Phase) : Prop :=
  match phase with
  | Arrived | Serving => True
  | Drawing rate => rate = float_zero
  | Finished resp => exists sv, resp = fst (serveMux own serve req sv)
  | Hanging | Delaying _ | Left => False
  end.

Definition is_finished (phase : Phase) : bool := match phase with Finished _ => true | _ => false end.

Lemma untouched_finishes gone req phase sv :
  untouched req phase -> quiet (sv_chaos sv) -> is_finished (fst (alone 4 gone req phase sv)) = true.
Proof.
  assert (forall fuel req sv, is_finished (fst (alone (S (S fuel)) gone req Serving sv)) = true) as Hserve.
  { intros fuel r v. cbn [alone advance]. by destruct (serveMux own serve r v). }
  assert (forall fuel req sv, is_finished (fst (alone (S (S (S fuel))) gone req (Drawing float_zero) sv)) = true) as Hdraw
    by (intros; apply Hserve).
  intros Hu (Hd & Hr & Hw). destruct phase; cbn in Hu; [|done|done| |by apply Hserve|done|done].
  - change (is_finished (fst match advance gone req Arrived sv with Some (phase, sv) => alone 3 gone req phase sv | None => (Arrived, sv) end) = true).
    cbn [advance]. unfold snapshot. rewrite Hd, Hr, Hw. destruct (HasPrefix _ _); [apply (Hserve 1%nat)|apply (Hdraw 0%nat)].
  - subst. apply Hdraw.
Qed.

Lemma serveMux_quiet req sv :
  own_endpoints own serve -> injecting req Serving = false -> quiet (sv_chaos sv) -> quiet (sv_chaos (snd (serveMux own serve req sv))).
Proof.
  intros [_ Hown] Hi Hq. unfold serveMux. cbn in Hi. destruct (route _ _ _) as [|[endpoint|[]]]; try done. by rewrite Hown.
Qed.

Lemma advance_calm gone req phase phase' sv sv' :
  own_endpoints own serve -> injecting req phase = false -> advance gone req phase sv = Some (phase', sv') ->
  quiet (sv_chaos sv) -> quiet (sv_chaos sv') /\ (untouched req phase -> untouched req phase').
Proof.
  intros Hown Hi Ha Hq. destruct phase as [| |rate|rate| | |]; cbn [advance] in Ha; try done.
  - destruct (HasPrefix _ _); [by injection Ha as <- <-|]. destruct Hq as (Hd & Hr & Hw). unfold snapshot in Ha. rewrite Hd, Hr, Hw in Ha.
    by injection Ha as <- <-.
  - destruct gone; [|done]. by injection Ha as <- <-.
  - by injection Ha as <- <-.
  - destruct (SFltb float_zero rate) eqn:Hr; [|by injection Ha as <- <-].
    unfold shouldFail in Ha. destruct (Float64 _) as [x rng]. injection Ha as <- <-. split; [done|]. cbn. intros ->. by vm_compute in Hr.
  - pose proof (serveMux_quiet req sv Hown Hi Hq) as H. destruct (serveMux own serve req sv) as [resp s1] eqn:Hs. injection Ha as <- <-.
    split; [done|]. intros _. exists sv. by rewrite Hs.
Qed.

(** The requests that have not read the chaos. *)
Definition unread (c : Crowd) (j : nat) : Prop := forall req phase, cr_requests c !! j = Some (req, phase) -> phase = Arrived.

Definition calm_inv (c0 c : Crowd) : Prop :=
  quiet (sv_chaos (cr_service c)) /\
  forall j req phase, unread c0 j -> cr_requests c !! j = Some (req, phase) -> untouched req phase.

Lemma crowd_step_calm c0 c c' : own_endpoints own serve -> crowd_step true c c' -> calm_inv c0 c -> calm_inv c0 c'.
Proof.
  intros Hown Hstep [Hq Hu]. destruct Hstep as [req c|i gone req phase phase' sv c Hi Ha Hcalm]; (split; cbn [cr_service cr_requests]).
  - done.
  - intros j r ph Hj [Hl|[_ Hl]]%lookup_app_Some; [by eapply Hu|]. by apply list_lookup_singleton_Some in Hl as [_ [= <- <-]].
  - by eapply advance_calm; eauto.
  - intros j r ph Hj. rewrite list_lookup_insert_Some. intros [(<- & [= <- <-] & _)|[_ Hl]]; [|by eapply Hu].
    eapply advance_calm; eauto.
Qed.

(** C32: chaos is undone, for all that are there: a reset request is never held up; when its
    handler has run, the items are as they were, and for as long as nothing is injected,
    whatever the interleaving with any number of requests, each request that had not read the
    chaos by then, or came later, is untouched by it: it does not wait, it ends with its
    handler's answer, and needs nothing but its turn to end. *)
Theorem reset_calms_crowd req c i gone :
  own_endpoints own serve -> chaos_request "/chaos/reset" req ->
  fst (alone 4 gone req Arrived (cr_service c)) = Finished reset_answer /\
  (cr_requests c !! i = Some (req, Serving) ->
   exists sv, advance gone req Serving (cr_service c) = Some (Finished reset_answer, sv) /\
     sv_items sv = sv_items (cr_service c) /\
     forall c', rtc (crowd_step true) (mkCrowd sv (<[i := (req, Finished reset_answer)]> (cr_requests c))) c' ->
       quiet (sv_chaos (cr_service c')) /\
       forall j r phase, unread c j -> cr_requests c' !! j = Some (r, phase) ->
         untouched r phase /\ is_finished (fst (alone 4 gone r phase (cr_service c'))) = true).
Proof.
  intros Hown [Hm Hp].
  assert (forall sv, serveMux own serve req sv = (reset_answer, with_sv_chaos (snd (handleReset req (sv_chaos sv))) sv)) as Hserve.
  { intros sv. pose proof (serveService_chaos own serve ChaosReset "reset" req sv (proj1 Hown) Hm Hp) as H.
    rewrite Hp in H. specialize (H eq_refl eq_refl). unfold serveService, Middleware, forward in H. rewrite Hp in H.
    change (HasPrefix "/chaos/reset" "/chaos/") with true in H. cbv iota in H.
    destruct (serveMux own serve req sv) as [resp sv']. cbn in H. by injection H as -> ->. }
  split; [cbn [alone advance]; rewrite Hp; change (HasPrefix "/chaos/reset" "/chaos/") with true; cbn [alone advance]; by rewrite Hserve|].
  intros Hi. eexists. cbn [advance]. rewrite Hserve. split_and!; [done|done|]. intros c' Hc'.
  assert (calm_inv c c') as [Hq Hu].
  { eapply (rtc_ind_r (calm_inv c)); [| |exact Hc'].
    - split; [done|]. cbn. intros j r ph Hj. rewrite list_lookup_insert_Some. intros [(<- & [= <- <-] & _)|[_ Hl]].
      + exists (cr_service c). by rewrite Hserve.
      + by rewrite (Hj r ph Hl).
    - intros y z _ Hstep Hy. by eapply crowd_step_calm. }
  split; [done|]. intros j r ph Hj Hl. split; [by eapply Hu|]. apply untouched_finishes; [by eapply Hu|done].
Qed.
End Crowd.

(** Orders, with every request failing and delayed: one request waits for its timer, one for
    its turn, and the reset is next. *)
Definition demo_crowd : Crowd (G := unit) :=
  mkCrowd (mkService (mkChaos Second float_one false tt) (NewCollectionHandlers item_id orders))
    [(demo_get "/orders/o-1", Delaying float_one); (demo_get "/orders/o-1", Arrived); (demo_post "/chaos/reset" [], Serving)].

Notation demo_serve := (serveItems (G := unit) "order-service" StatusCreated new_order).

Definition demo_calm : Service unit := mkService (mkChaos 0 float_zero false tt) (NewCollectionHandlers item_id orders).

Lemma reset_calms_crowd_witness :
  exists resp, fst (alone (HR := demo_rand) order_patterns demo_serve 4 false (demo_get "/orders/o-1") Arrived demo_calm) = Finished resp.
Proof.
  destruct (proj2 (reset_calms_crowd (HR := demo_rand) order_patterns demo_serve (demo_post "/chaos/reset" []) demo_crowd 2 false
    (order_own (HR := demo_rand)) ltac:(by split)) eq_refl) as (sv & Hsv & _ & Hall).
  injection Hsv as <-. destruct (Hall _ (rtc_refl _ _)) as [_ H].
  destruct (H 1%nat (demo_get "/orders/o-1") Arrived) as [_ Hf]; [by intros r ph [= <- <-]|reflexivity|].
  change (is_finished (fst (alone (HR := demo_rand) order_patterns demo_serve 4 false (demo_get "/orders/o-1") Arrived demo_calm)) = true) in Hf.
  destruct (fst (alone _ _ 4 false _ Arrived demo_calm)) as [| | | | |resp|]; try discriminate Hf. by exists resp.
Defined.

(** A request that read the chaos before the reset still fails after it. *)
Lemma late_request_still_fails :
  exists c, rtc (crowd_step (HR := demo_rand) order_patterns demo_serve true) demo_crowd c /\
    quiet (sv_chaos (cr_service c)) /\ cr_requests c !! 0%nat = Some (demo_get "/orders/o-1", Finished chaosFailure).
Proof.
  eexists. split; [|split].
  - eapply rtc_l; [apply (crowd_advance _ _ _ 2 false (demo_post "/chaos/reset" []) Serving); [reflexivity|by vm_compute|reflexivity]|].
    eapply rtc_l; [apply (crowd_advance _ _ _ 0 false (demo_get "/orders/o-1") (Delaying float_one)); [reflexivity|reflexivity|reflexivity]|].
    eapply rtc_l; [apply (crowd_advance _ _ _ 0 false (demo_get "/orders/o-1") (Drawing float_one)); [reflexivity|by vm_compute|reflexivity]|].
    apply rtc_refl.
  - by vm_compute.
  - reflexivity.
Qed.
