(* ===== verification/Login.v ===== *)
(** * The user service and its login: [services/user-service/main.go]

    The service that issues the tokens which the gateway's authentication checks.  The
    theorem puts the two programs together: a token of the login is admitted by a gateway
    with the same secret, with the login's subject and role, for its hour and no longer.  The
    JWT library is a parameter, with the law its documentation states. *)

From Stdlib Require Import SpecFloat.
From stdpp Require Import gmap strings.
From S2P Require Import Prelude GoStrings GoErrors Config Http Metrics RateStore Handlers Router Auth Mux Scenarios Json Services.
From stdpp Require Import options.
#[local] Set Default Proof Using "Type*".
#[local] Open Scope string_scope.
#[local] Open Scope Z_scope.

Definition loginTokenTTL : Duration := 60 * Minute.

(** [t.Unix()], and back. *)
Definition unix_epoch : Z := 62135596800.
Definition Unix (t : Time) : Z := t / Second - unix_epoch.
Definition unix_time (seconds : Z) : Time := (seconds + unix_epoch) * Second.

(** ** Tokens *)

(** [jwt.MapClaims] of a login. *)
Record loginClaims := mkLoginClaims { lc_sub : string; lc_role : string; lc_iat : Z; lc_exp : Z }.

(** [jwt.NewWithClaims(method, claims).SignedString(key)] *)
Class JWTIssuer := { SignedString : string -> string -> loginClaims -> sum string string }.

(** What the gateway's parser makes of a token at an instant. *)
Definition issued_parse (claims : loginClaims) (now : Time) : sum JWTError (option (bool * authClaims)) :=
  if unix_time (lc_exp claims) <=? now then inl (mkJWTError false true)
  else if now <? unix_time (lc_iat claims) then inl (mkJWTError false false)
  else inr (Some (true, mkClaims (lc_role claims) (lc_sub claims) (Some (unix_time (lc_exp claims))) (Some (unix_time (lc_iat claims))))).

(** Signing with HMAC does not fail; a token is base64url and dots; and it is parsed with the
    key that signed it as what it holds: text that is UTF-8, and dates that a JSON number
    holds exactly. *)
Class JWTIssuerLaws `{JWTParser} `{JWTIssuer} : Prop := {
  SignedString_issues key claims :
    exists token, SignedString HS256 key claims = inr token /\ all_graphic token = true /\ token <> "" /\
      forall methods now keyFunc,
        valid_utf8 (lc_sub claims) = true -> valid_utf8 (lc_role claims) = true ->
        0 <= lc_iat claims < 2 ^ 53 -> 0 <= lc_exp claims < 2 ^ 53 ->
        HS256 ∈ methods -> keyFunc HS256 = Some key ->
        ParseWithClaims methods now token keyFunc = issued_parse claims now;
}.

Section UserService.
Context {HJWT : JWTParser} {HI : JWTIssuer} {G : Type} {HR : RandSource G}.

Definition signLoginToken (jwtSecret subject role : string) (issuedAt : Time) : sum string string :=
  SignedString HS256 jwtSecret (mkLoginClaims subject role (Unix issuedAt) (Unix (AddDuration issuedAt loginTokenTTL))).

Definition requiredJWTSecret (raw : string) : sum string string :=
  let jwtSecret := TrimSpace raw in
  if bool_decide (jwtSecret = "") then inl "JWT_SECRET must be set" else inr jwtSecret.

(** ** Claims *)

Definition requiredUserClaim (user : Item) (key : string) : sum string string :=
  match List.find (fun kv => bool_decide (kv.1 = key)) user with
  | None => inl (key +:+ " missing")
  | Some (_, JString value) =>
      let value := TrimSpace value in
      if bool_decide (value = "") then inl (key +:+ " must be set") else inr value
  | Some _ => inl (key +:+ " must be a string")
  end.

(** Given [IRONGATE_ALLOW_LOGIN_OVERRIDES]. *)
Definition loginOverridesEnabled (overrides : string) : bool := EqualFold (TrimSpace overrides) "true".

Record loginPayload := mkLoginPayload { lp_Subject : string; lp_Role : string }.

Definition setLoginField (key : string) (j : JSON) (p : loginPayload) : option loginPayload :=
  if names_field "subject" key then v ← decodeString j (lp_Subject p); Some (mkLoginPayload v (lp_Role p))
  else if names_field "role" key then v ← decodeString j (lp_Role p); Some (mkLoginPayload (lp_Subject p) v)
  else None.

Definition resolveLoginClaims (overrides : string) (req : SRequest) (user : Item) : sum string (string * string) :=
  match requiredUserClaim user "id", requiredUserClaim user "role" with
  | inl err, _ | inr _, inl err => inl err
  | inr subject, inr role =>
      match sq_Body req with
      | None => inr (subject, role)
      | Some body =>
          match Decode setLoginField body (mkLoginPayload "" "") with
          | (inl DecodeEOF, _) => inr (subject, role)
          | (inl DecodeInvalid, _) => inl "invalid JSON"
          | (inr payload, rest) =>
              match fst (Decode (fun _ _ (x : unit) => None) rest tt) with
              | inr _ => inl "unexpected trailing JSON payload"
              | inl DecodeInvalid => inl "invalid JSON"
              | inl DecodeEOF =>
                  let overrideSubject := TrimSpace (lp_Subject payload) in
                  let overrideRole := TrimSpace (lp_Role payload) in
                  if (negb (bool_decide (overrideSubject = "")) || negb (bool_decide (overrideRole = ""))) && negb (loginOverridesEnabled overrides)
                  then inl "login overrides are disabled"
                  else inr (if bool_decide (overrideSubject = "") then subject else overrideSubject,
                            if bool_decide (overrideRole = "") then role else overrideRole)
              end
          end
      end
  end.

(** ** Handlers *)

Definition writeLoginError (req : SRequest) (status : Z) (message : string) : SResponse :=
  WriteJSON status (JObject [("code", JInt status); ("error", JString message); ("request_id", JString (TrimSpace (sq_RequestID req)))]).

Definition loginHandler (jwtSecret : string) (user : Item) (overrides : string) (now : Time) (req : SRequest) : SResponse :=
  if bool_decide (TrimSpace jwtSecret = "") then writeLoginError req StatusInternalServerError "jwt secret not configured"
  else match resolveLoginClaims overrides req user with
  | inl _ => writeLoginError req StatusBadRequest "invalid login request"
  | inr (subject, role) =>
      match signLoginToken jwtSecret subject role now with
      | inl _ => writeLoginError req StatusInternalServerError "failed to sign token"
      | inr token => WriteJSON StatusOK (JObject [("token", JString token)])
      end
  end.

Definition first_user : Item := [("email", JString "ada@example.com"); ("id", JString "u-1"); ("name", JString "Ada Lovelace"); ("role", JString "admin")].

Definition users : list Item := [
  first_user;
  [("email", JString "grace@example.com"); ("id", JString "u-2"); ("name", JString "Grace Hopper"); ("role", JString "user")];
  [("email", JString "katherine@example.com"); ("id", JString "u-3"); ("name", JString "Katherine Johnson"); ("role", JString "user")]].

Definition new_user : Item := [("email", JString "new.user@example.com"); ("id", JString "u-4"); ("name", JString "New User"); ("role", JString "user")].

Inductive UserEndpoint := UserItems (endpoint : ItemsEndpoint) | Login | Register.

Definition user_patterns : Patterns UserEndpoint := fun segments =>
  match segments with
  | [""; "users"] => [("GET", UserItems ListItems); ("POST", UserItems CreateItem)]
  | [""; "users"; id] =>
      ((if bool_decide (id = "") then [] else [("GET", UserItems (GetItem id))]) ++
       (if bool_decide (id = "login") then [("POST", Login)] else []) ++
       (if bool_decide (id = "register") then [("POST", Register)] else []))%list
  | [""; "health"] => [("GET", UserItems CheckHealth)]
  | _ => []
  end.

Definition serveUser (jwtSecret overrides : string) (now : Time) (endpoint : UserEndpoint) (req : SRequest) (s : Service G) : SResponse * Service G :=
  match endpoint with
  | UserItems endpoint => serveItems "user-service" StatusCreated new_user endpoint req s
  | Login => (loginHandler jwtSecret first_user overrides now req, s)
  | Register =>
      (WriteJSON StatusCreated (JObject [("email", JString "registered@example.com"); ("id", JString "u-5"); ("message", JString "account created")]), s)
  end.

(** [newHandler] *)
Definition user_service (jwtSecret overrides : string) (now : Time) : SRequest -> Service G -> Outcome * Service G :=
  serveService user_patterns (serveUser jwtSecret overrides now).

Definition new_user_service (rng : G) : Service G := mkService (NewChaosState rng) (NewCollectionHandlers item_id users).
End UserService.

(** The user service's endpoints are not below [/chaos/], and leave the chaos alone. *)
Lemma user_own {HI : JWTIssuer} {G} {HR : RandSource G} jwtSecret overrides now :
  own_endpoints (G := G) user_patterns (serveUser jwtSecret overrides now).
Proof. split; [done|]. by intros [[]| |]. Qed.

(** What [main] serves with: the secret and the address; or why it exits. *)
Definition user_service_main (JWT_SECRET PORT : string) : sum string (string * string) :=
  match requiredJWTSecret JWT_SECRET with
  | inl err => inl err
  | inr jwtSecret => inr (jwtSecret, ":" +:+ Itoa (ServicePortFromEnv PORT 8081))
  end.

(** ** The login's claims *)

Lemma requiredUserClaim_set user key value : requiredUserClaim user key = inr value -> TrimSpace value <> "".
Proof.
  unfold requiredUserClaim. destruct (List.find _ _) as [[k [| | | |s| |]]|]; try done.
  case_bool_decide as Hs; [done|]. intros [= <-]. by rewrite TrimSpace_idemp.
Qed.

Lemma resolveLoginClaims_set overrides req user subject role :
  resolveLoginClaims overrides req user = inr (subject, role) -> TrimSpace subject <> "" /\ TrimSpace role <> "".
Proof.
  unfold resolveLoginClaims. destruct (requiredUserClaim user "id") as [|subject0] eqn:Hs; [done|].
  destruct (requiredUserClaim user "role") as [|role0] eqn:Hr; [done|]. apply requiredUserClaim_set in Hs, Hr.
  destruct (sq_Body req) as [body|]; [|by intros [= <- <-]].
  destruct (Decode _ _ _) as [[[]|payload] rest]; [by intros [= <- <-]|done|].
  destruct (fst _) as [[]|]; [|done|done]. destruct (_ && _); [done|]. intros [= <- <-].
  split; (case_bool_decide as Ho; [done|by rewrite TrimSpace_idemp]).
Qed.

Lemma requiredJWTSecret_set raw secret : requiredJWTSecret raw = inr secret -> secret <> "" /\ TrimSpace secret = secret.
Proof. unfold requiredJWTSecret. case_bool_decide; [done|]. intros [= <-]. by rewrite TrimSpace_idemp. Qed.

(** A bearer token as it is sent. *)
Lemma bearerToken_graphic token :
  all_graphic token = true -> token <> "" ->
  TrimSpace ("Bearer " +:+ token) <> "" /\ bearerToken (TrimSpace ("Bearer " +:+ token)) = Some token.
Proof.
  intros Hg Hne. assert (TrimSpace ("Bearer " +:+ token) = "Bearer " +:+ token) as Htrim by (by apply (TrimSpace_prefixed (byte 66) "earer ")).
  rewrite Htrim. split; [by rewrite append_cons|]. unfold bearerToken. rewrite Htrim.
  assert (Cut ("Bearer " +:+ token) space = Some ("Bearer", token)) as -> by (rewrite !append_cons, append_nil_l; by vm_compute).
  rewrite TrimSpace_graphic, bool_decide_eq_false_2 by done. by replace (EqualFold "Bearer" authSchemeBearer) with true by (by vm_compute).
Qed.

(** ** The two programs *)

Section Admission.
Context {D : Type} {HProm : Prometheus} {HDown : Downstream D} {HJWT : JWTParser} {HI : JWTIssuer} {HL : JWTIssuerLaws}.

(** [Auth] on the token of a login. *)
Lemma Auth_issued authCfg secret token claims next w (r : Request) (s : Server (D := D)) route :
  secret <> "" -> TrimSpace (ac_JWTSecret authCfg) = secret -> TrimSpace (ac_JWTAlgorithm authCfg) = HS256 ->
  all_graphic token = true -> token <> "" ->
  GetRouteConfig r = Some route -> rc_AuthRequired route = true ->
  Header_Get (rq_Header r) "Authorization" = "Bearer " +:+ token ->
  (forall methods now keyFunc, HS256 ∈ methods -> keyFunc HS256 = Some secret -> ParseWithClaims methods now token keyFunc = issued_parse claims now) ->
  TrimSpace (lc_sub claims) <> "" -> TrimSpace (lc_role claims) <> "" ->
  Auth authCfg next w r s =
    if unix_time (lc_exp claims) <=? dn_Now (sv_down s) then respondError w r StatusUnauthorized authExpiredTokenMessage s
    else if dn_Now (sv_down s) <? unix_time (lc_iat claims) then respondError w r StatusUnauthorized authInvalidTokenMessage s
    else next w (authenticated (mkClaims (lc_role claims) (lc_sub claims) (Some (unix_time (lc_exp claims))) (Some (unix_time (lc_iat claims)))) r) s.
Proof.
  intros Hsec Hcfg Halg Hg Hne Hroute Hreq Hauth Hparse Hsub Hrole. unfold Auth. rewrite Hroute, Hreq, Hcfg, Halg, Hauth. cbn [negb].
  rewrite bool_decide_eq_false_2 by done. rewrite signingMethodMatches_spec, bool_decide_eq_true_2 by done. cbn [orb negb].
  destruct (bearerToken_graphic token Hg Hne) as [Hset Hbearer]. rewrite bool_decide_eq_false_2 by done. rewrite Hbearer.
  rewrite Hparse by (by set_solver || by rewrite signingMethodMatches_spec, bool_decide_eq_true_2). unfold issued_parse.
  destruct (_ <=? _); [done|]. destruct (_ <? _); [done|]. cbn [negb cl_ExpiresAt cl_IssuedAt cl_Subject cl_Role].
  by rewrite !bool_decide_eq_false_2 by done.
Qed.

(** C31: a login is admitted: the user service answers a login request that it accepts with a
    token, and a gateway with the same secret passes every request for a protected route that
    carries it, as of the login's subject and role, from when it was issued until a second
    before its hour is over; from the end of that hour it answers 401, token expired. *)
Theorem login_is_admitted rawSecret secret overrides user req issuedAt subject role authCfg :
  requiredJWTSecret rawSecret = inr secret ->
  resolveLoginClaims overrides req user = inr (subject, role) ->
  valid_utf8 subject = true -> valid_utf8 role = true -> 0 <= Unix issuedAt < 2 ^ 52 ->
  TrimSpace (ac_JWTSecret authCfg) = secret -> TrimSpace (ac_JWTAlgorithm authCfg) = HS256 ->
  exists token, loginHandler secret user overrides issuedAt req = WriteJSON StatusOK (JObject [("token", JString token)]) /\
    forall next w (r : Request) (s : Server (D := D)) route,
      GetRouteConfig r = Some route -> rc_AuthRequired route = true ->
      Header_Get (rq_Header r) "Authorization" = "Bearer " +:+ token ->
      let now := dn_Now (sv_down s) in
      (issuedAt <= now <= issuedAt + 60 * Minute - Second ->
         exists claims, cl_Subject claims = subject /\ cl_Role claims = role /\ Auth authCfg next w r s = next w (authenticated claims r) s) /\
      (issuedAt + 60 * Minute <= now -> Auth authCfg next w r s = respondError w r StatusUnauthorized authExpiredTokenMessage s).
Proof.
  intros Hraw Hclaims Hu1 Hu2 Htime Hcfg Halg. apply requiredJWTSecret_set in Hraw as [Hne Htrim].
  apply resolveLoginClaims_set in Hclaims as Hset. destruct Hset as [Hsub Hrole].
  set (claims := mkLoginClaims subject role (Unix issuedAt) (Unix (AddDuration issuedAt loginTokenTTL))).
  destruct (SignedString_issues secret claims) as (token & Hsign & Hg & Ht & Hparse). exists token. split.
  { unfold loginHandler. by rewrite Htrim, bool_decide_eq_false_2, Hclaims; [unfold signLoginToken; fold claims; rewrite Hsign|]. }
  intros next w r s route Hroute Hreq Hauth now.
  assert (Unix (AddDuration issuedAt loginTokenTTL) = Unix issuedAt + 3600) as Hexp.
  { unfold Unix, AddDuration, loginTokenTTL, Minute. replace (issuedAt + 60 * (60 * Second)) with (issuedAt + 3600 * Second) by lia.
    rewrite Z.div_add by done. lia. }
  rewrite (Auth_issued authCfg secret token claims next w r s route); try done.
  2:{ intros methods now' keyFunc Hm Hk. apply Hparse; try done; unfold claims; cbn [lc_iat lc_exp]; rewrite ?Hexp; lia. }
  unfold claims. cbn [lc_iat lc_exp lc_sub lc_role]. fold now.
  assert (unix_time (Unix issuedAt) <= issuedAt < unix_time (Unix issuedAt) + Second) as Hfloor.
  { unfold unix_time, Unix. pose proof (Z.div_mod issuedAt Second ltac:(done)). pose proof (Z.mod_pos_bound issuedAt Second ltac:(done)). lia. }
  assert (unix_time (Unix (AddDuration issuedAt loginTokenTTL)) = unix_time (Unix issuedAt) + 60 * Minute) as Hend
    by (rewrite Hexp; unfold unix_time, Minute; lia).
  rewrite Hend. split; intros Hnow.
  - destruct (Z.leb_spec (unix_time (Unix issuedAt) + 60 * Minute) now); [lia|]. destruct (Z.ltb_spec now (unix_time (Unix issuedAt))); [lia|].
    by eexists (mkClaims _ _ _ _).
  - by destruct (Z.leb_spec (unix_time (Unix issuedAt) + 60 * Minute) now); [|lia].
Qed.
End Admission.

(** ** A concrete JWT library

    A token is the binary code of what it holds and of its key, in letters. *)

Fixpoint letters_of (p : positive) : string :=
  match p with xH => "e" | xO p => String (byte 111) (letters_of p) | xI p => String (byte 105) (letters_of p) end.

Fixpoint of_letters (s : string) : option positive :=
  match s with
  | EmptyString => None
  | String a s =>
      if bool_decide (a = byte 101) then if bool_decide (s = "") then Some xH else None
      else if bool_decide (a = byte 111) then p ← of_letters s; Some (xO p)
      else if bool_decide (a = byte 105) then p ← of_letters s; Some (xI p)
      else None
  end.

Lemma of_letters_of p : of_letters (letters_of p) = Some p.
Proof. induction p as [p IH|p IH|]; cbn; by rewrite ?IH. Qed.

Lemma letters_graphic p : all_graphic (letters_of p) = true /\ letters_of p <> "".
Proof. induction p as [p [IH _]|p [IH _]|]; cbn [letters_of all_graphic]; rewrite ?IH; by vm_compute. Qed.

(** A token: the method and the key, the subject and the role, the dates. *)
Definition coded_token (alg key : string) (claims : loginClaims) : string :=
  letters_of (encode ((alg, key), (lc_sub claims, lc_role claims), (lc_iat claims, lc_exp claims))).

Definition coded_claims (token : string) : option ((string * string) * (string * string) * (Z * Z)) :=
  p ← of_letters token; decode p.

Lemma coded_claims_token alg key claims :
  coded_claims (coded_token alg key claims) = Some ((alg, key), (lc_sub claims, lc_role claims), (lc_iat claims, lc_exp claims)).
Proof. unfold coded_claims, coded_token. rewrite of_letters_of. cbn [mbind option_bind]. apply decode_encode. Qed.

Definition coded_parser : JWTParser := {|
  ParseWithClaims methods now token keyFunc :=
    match coded_claims token with
    | Some ((alg, key), (subject, role), (iat, exp)) =>
        if bool_decide (alg ∈ methods) && bool_decide (keyFunc alg = Some key)
        then issued_parse (mkLoginClaims subject role iat exp) now
        else inl (mkJWTError false false)
    | None => inl (mkJWTError true false)
    end;
  jwt_signed token alg key claims :=
    exists iat exp, coded_claims token = Some ((alg, key), (cl_Subject claims, cl_Role claims), (iat, exp));
|}.

Definition coded_issuer : JWTIssuer := {| SignedString alg key claims := inr (coded_token alg key claims) |}.

Lemma coded_parser_laws : @JWTParserLaws coded_parser.
Proof.
  split. intros methods now token keyFunc claims. cbn. destruct (coded_claims token) as [[[[alg key] [subject role]] [iat exp]]|] eqn:Htoken; [|done].
  case_bool_decide as Halg; [|done]. case_bool_decide as Hkey; [|done]. cbn [andb]. unfold issued_parse. cbn.
  destruct (Z.leb_spec (unix_time exp) now); [done|]. destruct (Z.ltb_spec now (unix_time iat)); [done|].
  intros [= <-]. exists alg, key. cbn. split_and!; [done|done|by eauto|by eauto|]. by intros i [= <-].
Qed.

Lemma coded_issuer_laws : @JWTIssuerLaws coded_parser coded_issuer.
Proof.
  split. intros key claims. exists (coded_token HS256 key claims). unfold coded_token at 2 3. destruct (letters_graphic (encode (HS256, key, (lc_sub claims, lc_role claims), (lc_iat claims, lc_exp claims)))).
  split_and!; [done..|]. intros methods now keyFunc _ _ _ _ Hm Hk. cbn [ParseWithClaims coded_parser]. rewrite coded_claims_token, !bool_decide_eq_true_2 by done. by destruct claims.
Qed.

(** A login without a body on the first of January 2025, by the secret of [demo_auth]. *)
Definition demo_login : SRequest := mkSRequest "POST" "/users/login" "r-1" (Some (mkBody [] true)) None true.
Definition demo_issued : Time := unix_time 1735689600.

Lemma login_is_admitted_witness :
  exists token, loginHandler (HI := coded_issuer) "s3cret" first_user "" demo_issued demo_login = WriteJSON StatusOK (JObject [("token", JString token)]) /\
    forall next w (s : Server (D := _)),
      dn_Now (sv_down s) = demo_issued + 2 * (60 * Minute) ->
      Auth (HJWT := coded_parser) demo_auth next w (demo_protected_request ("Bearer " +:+ token)) s =
        respondError w (demo_protected_request ("Bearer " +:+ token)) StatusUnauthorized authExpiredTokenMessage s.
Proof.
  destruct (login_is_admitted (HL := coded_issuer_laws) " s3cret " "s3cret" "" first_user demo_login demo_issued "u-1" "admin" demo_auth) as (token & Hresp & Hall);
    [by vm_compute..|].
  exists token. split; [exact Hresp|]. intros next w s Hnow.
  destruct (Hall next w (demo_protected_request ("Bearer " +:+ token)) s demo_protected_route eq_refl eq_refl eq_refl) as [_ H].
  apply H. unfold demo_issued, unix_time, Minute, Second, Millisecond in *. lia.
Defined.
