(* ===== verification/Telemetry.v ===== *)
(** * Tracing: [internal/telemetry/telemetry.go]

    Which tracer provider the environment asks for, and the exporter that warns once.  The
    exporter, the provider and the spans are OpenTelemetry's; parsing a float is a parameter.
    The lemmas: without an endpoint, or when the exporter cannot be made, tracing is off and
    its shutdown succeeds; the ratio is the one asked for or the fallback; and of any number
    of failed exports one is warned about and all are reported. *)

From Stdlib Require Import SpecFloat.
From stdpp Require Import strings.
From S2P Require Import Prelude GoStrings Scenarios.
From stdpp Require Import options.
#[local] Set Default Proof Using "Type*".
#[local] Open Scope string_scope.
#[local] Open Scope Z_scope.

Definition otlpEndpointEnvVar : string := "OTEL_EXPORTER_OTLP_ENDPOINT".
Definition otlpInsecureEnvVar : string := "OTEL_EXPORTER_OTLP_INSECURE".
Definition otelSamplerEnvVar : string := "OTEL_TRACES_SAMPLER".
Definition otelSamplerArgEnvVar : string := "OTEL_TRACES_SAMPLER_ARG".

Definition alwaysOnSampler : string := "always_on".
Definition alwaysOffSampler : string := "always_off".
Definition traceIDRatioSampler : string := "traceidratio".
Definition parentBasedAlwaysOnSampler : string := "parentbased_always_on".
Definition parentBasedAlwaysOffSampler : string := "parentbased_always_off".
Definition parentBasedTraceIDRatioSampler : string := "parentbased_traceidratio".

Definition otlpDialTimeout : Duration := 5 * Second.
Definition otlpExportTimeout : Duration := 10 * Second.

(** The samplers of the SDK. *)
Inductive Sampler := AlwaysSample | NeverSample | TraceIDRatioBased (ratio : spec_float) | ParentBased (root : Sampler).

Section Telemetry.
Variable Getenv : string -> string.
Variable ParseFloat : string -> option spec_float. (* [strconv.ParseFloat(s, 64)] *)

Definition traceSamplerRatio (fallback : spec_float) : spec_float :=
  let raw := TrimSpace (Getenv otelSamplerArgEnvVar) in
  if bool_decide (raw = "") then fallback
  else match ParseFloat raw with
  | None => fallback
  | Some ratio => if SFltb ratio float_zero || SFltb float_one ratio then fallback else ratio
  end.

(** The double nearest to 0.1. *)
Definition one_tenth : spec_float := S754_finite false 7205759403792794 (-56).

Definition defaultTraceSampler : Sampler := ParentBased (TraceIDRatioBased one_tenth).

Definition traceSampler : Sampler :=
  let name := ToLower (TrimSpace (Getenv otelSamplerEnvVar)) in
  if bool_decide (name = "") then defaultTraceSampler
  else if bool_decide (name = alwaysOnSampler) then AlwaysSample
  else if bool_decide (name = alwaysOffSampler) then NeverSample
  else if bool_decide (name = traceIDRatioSampler) then TraceIDRatioBased (traceSamplerRatio float_one)
  else if bool_decide (name = parentBasedAlwaysOnSampler) then ParentBased AlwaysSample
  else if bool_decide (name = parentBasedAlwaysOffSampler) then ParentBased NeverSample
  else if bool_decide (name = parentBasedTraceIDRatioSampler) then ParentBased (TraceIDRatioBased (traceSamplerRatio float_one))
  else defaultTraceSampler.

Definition otlpInsecure : bool := EqualFold (TrimSpace (Getenv otlpInsecureEnvVar)) "true".

(** [strings.Contains(s, "://")] *)
Fixpoint contains_scheme (s : string) : bool :=
  HasPrefix s "://" || match s with EmptyString => false | String _ s => contains_scheme s end.

Definition otlpEndpointUsesURL (endpoint : string) : bool := contains_scheme (TrimSpace endpoint).

(** The options of the exporter. *)
Inductive ExporterOption :=
  | WithMinConnectTimeout (d : Duration)
  | WithEndpointURL (url : string)
  | WithEndpoint (endpoint : string)
  | WithInsecure.

Definition exporterOptions (endpoint : string) : list ExporterOption :=
  ([WithMinConnectTimeout otlpDialTimeout] ++
   [if otlpEndpointUsesURL endpoint then WithEndpointURL endpoint else WithEndpoint endpoint] ++
   (if otlpInsecure then [WithInsecure] else []))%list.

(** The provider that [Init] gives: the SDK's, over a batch processor on the warning exporter;
    or the one that records nothing, whose shutdown does nothing. *)
Inductive Provider (X : Type) :=
  | NoopProvider
  | SDKProvider (exporter : X) (serviceName version : string) (sampler : Sampler) (exportTimeout : Duration).
Arguments NoopProvider {X}.
Arguments SDKProvider {X} exporter serviceName version sampler exportTimeout.

(** [Init], given what making an exporter gives; the flag is the warning that it failed. *)
Definition Init {X E} (newExporter : list ExporterOption -> sum E X) (serviceName version : string) : Provider X * bool :=
  let endpoint := TrimSpace (Getenv otlpEndpointEnvVar) in
  if bool_decide (endpoint = "") then (NoopProvider, false)
  else match newExporter (exporterOptions endpoint) with
  | inl _ => (NoopProvider, true)
  | inr exporter => (SDKProvider exporter serviceName version traceSampler otlpExportTimeout, false)
  end.

(** [TracerOrNoop]: of a provider that there may not be. *)
Definition TracerOrNoop {X} (tp : option (Provider X)) (name : string) : Provider X * string :=
  (match tp with Some tp => tp | None => NoopProvider end, name).

(** The ratio is within bounds, or it is the fallback; what is no number passes for one. *)
Lemma traceSamplerRatio_spec fallback :
  let ratio := traceSamplerRatio fallback in
  ratio = fallback \/
  ParseFloat (TrimSpace (Getenv otelSamplerArgEnvVar)) = Some ratio /\ SFltb ratio float_zero = false /\ SFltb float_one ratio = false.
Proof.
  unfold traceSamplerRatio. case_bool_decide; [by left|]. destruct (ParseFloat _) as [ratio|]; [|by left].
  destruct (SFltb ratio float_zero) eqn:H1; cbn [orb]; [by left|]. destruct (SFltb float_one ratio) eqn:H2; [by left|]. by right.
Qed.

Lemma nan_ratio_passes fallback raw :
  TrimSpace (Getenv otelSamplerArgEnvVar) = raw -> raw <> "" -> ParseFloat raw = Some S754_nan -> traceSamplerRatio fallback = S754_nan.
Proof. unfold traceSamplerRatio. intros -> Hne Hp. by rewrite bool_decide_eq_false_2, Hp. Qed.

Lemma Init_off {X E} (newExporter : list ExporterOption -> sum E X) serviceName version :
  TrimSpace (Getenv otlpEndpointEnvVar) = "" \/ (exists err, newExporter (exporterOptions (TrimSpace (Getenv otlpEndpointEnvVar))) = inl err) ->
  fst (Init newExporter serviceName version) = NoopProvider.
Proof.
  unfold Init. case_bool_decide as He; [done|]. intros [H|[err H]]; [done|]. by rewrite H.
Qed.
End Telemetry.

(** ** The exporter that warns once *)

Section WarnOnce.
Context {S X E : Type}.
Variable export : S -> X -> option E * X. (* the exporter underneath *)

(** Its state: what is underneath, whether [once] is done, and the warnings logged. *)
Record warnOnceExporter := mkWarnOnce { wo_exporter : X; wo_once : bool; wo_warnings : list E }.

Definition ExportSpans (spans : S) (e : warnOnceExporter) : option E * warnOnceExporter :=
  let '(err, x) := export spans (wo_exporter e) in
  match err with
  | None => (None, mkWarnOnce x (wo_once e) (wo_warnings e))
  | Some failure =>
      (Some failure, if wo_once e then mkWarnOnce x true (wo_warnings e) else mkWarnOnce x true (wo_warnings e ++ [failure]))
  end.

Fixpoint exports (batches : list S) (e : warnOnceExporter) : list (option E) * warnOnceExporter :=
  match batches with
  | [] => ([], e)
  | spans :: batches =>
      let '(err, e) := ExportSpans spans e in
      let '(errs, e) := exports batches e in (err :: errs, e)
  end.

(** The exporter underneath, by itself. *)
Fixpoint bare_exports (batches : list S) (x : X) : list (option E) * X :=
  match batches with
  | [] => ([], x)
  | spans :: batches => let '(err, x) := export spans x in let '(errs, x) := bare_exports batches x in (err :: errs, x)
  end.

(** Every error is passed on as it is, and the first is the only one that is warned about. *)
Lemma exports_warn_once batches e :
  let '(errs, e') := exports batches e in
  (errs, wo_exporter e') = bare_exports batches (wo_exporter e) /\
  wo_warnings e' = (wo_warnings e ++ (if wo_once e then [] else take 1 (omap id errs)))%list.
Proof.
  revert e. induction batches as [|spans batches IH]; intros e; cbn [exports bare_exports].
  - split; [done|]. by destruct (wo_once e); rewrite app_nil_r.
  - unfold ExportSpans. destruct (export spans (wo_exporter e)) as [[failure|] x].
    + destruct (wo_once e) eqn:Ho.
      * specialize (IH (mkWarnOnce x true (wo_warnings e))). destruct (exports batches _) as [errs e']. cbn in IH. destruct IH as [<- ->]. by split.
      * specialize (IH (mkWarnOnce x true (wo_warnings e ++ [failure]))). destruct (exports batches _) as [errs e']. cbn in IH. destruct IH as [<- ->].
        split; [done|]. by rewrite app_nil_r.
    + specialize (IH (mkWarnOnce x (wo_once e) (wo_warnings e))). destruct (exports batches _) as [errs e']. cbn in IH. destruct IH as [<- ->]. by split.
Qed.
End WarnOnce.

(** ** Attributes *)

(** [hex.EncodeToString] *)
Definition hex_nibble (n : Z) : ascii := byte (Z.to_nat (if n <? 10 then 48 + n else 87 + n)).
Fixpoint hex_encode (octets : list Z) : string :=
  match octets with [] => "" | b :: octets => String (hex_nibble (b / 16)) (String (hex_nibble (b mod 16)) (hex_encode octets)) end.

Fixpoint take_bytes (n : nat) (s : string) : string :=
  match n, s with S n, String a s => String a (take_bytes n s) | _, _ => "" end.

(** [HashAttr], given [sha256.Sum256]. *)
Definition HashAttr (Sum256 : string -> list Z) (value : string) : string := take_bytes 8 (hex_encode (Sum256 value)).

(** It is the first four octets, in hexadecimal. *)
Lemma HashAttr_spec Sum256 value a b c d rest :
  Sum256 value = a :: b :: c :: d :: rest -> HashAttr Sum256 value = hex_encode [a; b; c; d].
Proof. intros H. unfold HashAttr. by rewrite H. Qed.
