(* ===== verification/Host.v ===== *)
(** * What the observatory works on: [cmd/observatory/deps.go], [toxiproxy.go]

    The Docker daemon, the HTTP services, Redis and the clock are the environment, a class;
    every call is logged with whether it succeeded.  Operations are computations that end in a
    value or an error, in the order in which the code calls.  The Toxiproxy client is here. *)

From Stdlib Require Import SpecFloat.
From stdpp Require Import gmap strings.
From S2P Require Import Prelude GoStrings Scenarios.
From stdpp Require Import options.
#[local] Set Default Proof Using "Type*".
#[local] Open Scope string_scope.
#[local] Open Scope Z_scope.

(** ** Errors *)

(** An error, by what the code asks of it: [client.IsErrNotFound], [cerrdefs.IsConflict],
    [errors.Is(err, context.Canceled)], and its text. *)
Record HostError := mkHostError { he_notFound : bool; he_conflict : bool; he_canceled : bool; he_message : string }.

(** Errors for a parameter of a step are told apart.  [OutOfFuel] is no error of the code: it
    marks a loop that was cut short. *)
Inductive Err := Failed (e : HostError) | BadParameter (message : string) | OutOfFuel.

(** [errors.New] *)
Definition newError (message : string) : Err := Failed (mkHostError false false false message).

(** [fmt.Errorf("…: %w", err)] *)
Definition wrap (prefix : string) (err : Err) : Err :=
  match err with
  | Failed e => Failed (mkHostError (he_notFound e) (he_conflict e) (he_canceled e) (prefix +:+ ": " +:+ he_message e))
  | BadParameter message => BadParameter (prefix +:+ ": " +:+ message)
  | OutOfFuel => OutOfFuel
  end.

Definition IsErrNotFound (err : Err) : bool := match err with Failed e => he_notFound e | _ => false end.
Definition IsConflict (err : Err) : bool := match err with Failed e => he_conflict e | _ => false end.
Definition IsCanceled (err : Err) : bool := match err with Failed e => he_canceled e | _ => false end.
Definition Error_text (err : Err) : string := match err with Failed e => he_message e | BadParameter message => message | OutOfFuel => "" end.

(** ** Payloads *)

(** What is marshalled: the bodies of the chaos and Toxiproxy requests. *)
Inductive Payload :=
  | PayloadNone
  | PayloadRate (rate : spec_float)
  | PayloadDelay (delay_ms : Z)
  | PayloadToxic (name : string) (attrs : list (string * Param))
  | PayloadPopulate (name listen upstream : string).

Definition finite (f : spec_float) : bool := match f with S754_infinity _ | S754_nan => false | _ => true end.

Fixpoint marshals (p : Param) : bool :=
  match p with
  | ParamFloat f => finite f
  | ParamMap entries => forallb (fun kv => marshals kv.2) entries
  | _ => true
  end.

(** [json.Marshal] refuses infinities and NaN. *)
Definition payload_marshals (p : Payload) : bool :=
  match p with
  | PayloadRate rate => finite rate
  | PayloadToxic _ attrs => forallb (fun kv => marshals kv.2) attrs
  | _ => true
  end.

Record HTTPRequest := mkHTTPRequest {
  hr_Method : string; hr_URL : string; hr_Authorization : string; hr_Payload : Payload;
}.

(** A response: its status, and what the code reads of its body. *)
Record HTTPResponse := mkHTTPResponse {
  hp_StatusCode : Z; hp_Body : string; hp_Toxics : option (list string); hp_Token : option string;
}.

Record Container := mkContainer { ct_ID : string; ct_Running : bool }.

(** What a wait for a container ends with. *)
Inductive WaitOutcome := WaitCancelled (err : HostError) | WaitFailed (err : option HostError) | WaitExited (status : Z) (cancelled : option HostError).

(** ** The environment *)

Inductive Call :=
  | CallList (filters : list (string * string))
  | CallInspect (id : string)
  | CallCreate (image script : string) (env : list string) (labels : list (string * string)) (network bind name : string)
  | CallStart (id : string)
  | CallStop (id : string)
  | CallRemove (id : string)
  | CallWait (id : string)
  | CallImageInspect (ref : string)
  | CallImagePull (ref : string)
  | CallHTTP (req : HTTPRequest)
  | CallScan (cursor : N)
  | CallDel (keys : list string)
  | CallSleep (d : Duration).

(** What came of it. *)
Inductive Reply :=
  | ReplyDone
  | ReplyID (id : string)
  | ReplyContainers (containers : list Container)
  | ReplyResponse (resp : HTTPResponse)
  | ReplyKeys (keys : list string) (cursor : N)
  | ReplyError (err : HostError).

Class Host (E : Type) := {
  env_list : list (string * string) -> E -> sum HostError (list Container) * E;
  env_inspect : string -> E -> sum HostError string * E;
  env_create : Call -> E -> sum HostError string * E;
  env_start : string -> E -> option HostError * E;
  env_stop : string -> E -> option HostError * E;
  env_remove : string -> E -> option HostError * E;
  env_wait : string -> E -> WaitOutcome * E;
  env_image_inspect : string -> E -> option HostError * E;
  env_image_pull : string -> E -> option HostError * E; (* the pull and the reading of its stream *)
  env_http : HTTPRequest -> E -> sum HostError HTTPResponse * E;
  env_scan : N -> E -> sum HostError (list string * N) * E;
  env_del : list string -> E -> option HostError * E;
  env_sleep : Duration -> E -> option HostError * E; (* the context's error when it is done first *)
  env_now : E -> Time;
}.

Record HostState (E : Type) := mkHost { ho_env : E; ho_log : list (Call * Reply) }.
Arguments mkHost {E} ho_env ho_log.
Arguments ho_env {E} h : rename.
Arguments ho_log {E} h : rename.

(** ** Computations *)

Definition M (E A : Type) : Type := HostState E -> sum Err A * HostState E.

Definition ret {E A} (x : A) : M E A := fun s => (inr x, s).
Definition throw {E A} (err : Err) : M E A := fun s => (inl err, s).
Definition bind {E A B} (m : M E A) (k : A -> M E B) : M E B := fun s =>
  match m s with (inl err, s) => (inl err, s) | (inr x, s) => k x s end.
(** [x, err := m]: the error as a value. *)
Definition try {E A} (m : M E A) : M E (sum Err A) := fun s => let '(r, s) := m s in (inr r, s).
Definition wrapping {E A} (prefix : string) (m : M E A) : M E A := fun s =>
  match m s with (inl err, s) => (inl (wrap prefix err), s) | r => r end.

Declare Scope host_scope.
Notation "'let*' x ':=' m 'in' k" := (bind m (fun x => k)) (at level 200, x pattern, right associativity) : host_scope.
Notation "m ';;' k" := (bind m (fun _ => k)) (at level 100, right associativity) : host_scope.
#[local] Open Scope host_scope.

(** The first error of a loop that calls. *)
Fixpoint forEach {E A} (f : A -> M E unit) (l : list A) : M E unit :=
  match l with [] => ret tt | x :: l => f x ;; forEach f l end.

Section Calls.
Context {E : Type} {HH : Host E}.

Definition call {A} (c : Call) (f : E -> sum HostError A * E) (reply : A -> Reply) : M E A := fun s =>
  let '(r, e) := f (ho_env s) in
  match r with
  | inl err => (inl (Failed err), mkHost e (ho_log s ++ [(c, ReplyError err)])%list)
  | inr x => (inr x, mkHost e (ho_log s ++ [(c, reply x)])%list)
  end.

Definition effect (c : Call) (f : E -> option HostError * E) : M E unit :=
  call c (fun e => let '(r, e) := f e in (match r with Some err => inl err | None => inr tt end, e)) (fun _ => ReplyDone).

Definition ContainerList (filters : list (string * string)) : M E (list Container) :=
  call (CallList filters) (env_list filters) ReplyContainers.
Definition ContainerInspect (id : string) : M E string := call (CallInspect id) (env_inspect id) ReplyID.
Definition ContainerCreate (image script : string) (env : list string) (labels : list (string * string)) (network bindMount name : string) : M E string :=
  let c := CallCreate image script env labels network bindMount name in call c (env_create c) ReplyID.
Definition ContainerStart (id : string) : M E unit := effect (CallStart id) (env_start id).
Definition ContainerStop (id : string) : M E unit := effect (CallStop id) (env_stop id).
Definition ContainerRemove (id : string) : M E unit := effect (CallRemove id) (env_remove id).
Definition ImageInspect (ref : string) : M E unit := effect (CallImageInspect ref) (env_image_inspect ref).
Definition ImagePull (ref : string) : M E unit := effect (CallImagePull ref) (env_image_pull ref).
Definition ContainerWait (id : string) : M E WaitOutcome :=
  call (CallWait id) (fun e => let '(r, e) := env_wait id e in (inr r, e)) (fun _ => ReplyDone).
Definition Do (req : HTTPRequest) : M E HTTPResponse := call (CallHTTP req) (env_http req) ReplyResponse.
Definition Scan (cursor : N) : M E (list string * N) := call (CallScan cursor) (env_scan cursor) (fun r => ReplyKeys r.1 r.2).
Definition Del (keys : list string) : M E unit := effect (CallDel keys) (env_del keys).
(** [select { case <-ctx.Done(): return ctx.Err() case <-time.After(d): }] *)
Definition Sleep (d : Duration) : M E unit := effect (CallSleep d) (env_sleep d).
Definition Now : M E Time := fun s => (inr (env_now (ho_env s)), s).

(** ** Toxiproxy *)

Definition toxiproxyBaseURL : string := "http://toxiproxy:8474".
Definition StatusBadRequest : Z := 400.
Definition StatusNotFound : Z := 404.

(** A request without an [Authorization] header. *)
Definition plain (method url : string) (payload : Payload) : HTTPRequest := mkHTTPRequest method url "" payload.

Definition bad_status (resp : HTTPResponse) : bool := StatusBadRequest <=? hp_StatusCode resp.

Definition EnsureRedisProxy : M E unit :=
  let* resp := wrapping "ensure toxiproxy redis proxy"
    (Do (plain "POST" (toxiproxyBaseURL +:+ "/populate") (PayloadPopulate "redis" "0.0.0.0:6380" "redis:6379"))) in
  if bad_status resp then throw (newError "ensure toxiproxy redis proxy returned an error") else ret tt.

Definition deleteToxic (name : string) : M E unit :=
  let* resp := wrapping "delete toxiproxy toxic" (Do (plain "DELETE" (toxiproxyBaseURL +:+ "/proxies/redis/toxics/" +:+ name) PayloadNone)) in
  if bad_status resp && negb (hp_StatusCode resp =? StatusNotFound) then throw (newError "delete toxiproxy toxic returned an error")
  else ret tt.

Definition RemoveAllToxics : M E unit :=
  let* resp := wrapping "get toxiproxy redis proxy" (Do (plain "GET" (toxiproxyBaseURL +:+ "/proxies/redis") PayloadNone)) in
  if hp_StatusCode resp =? StatusNotFound then ret tt
  else if bad_status resp then throw (newError "get toxiproxy redis proxy returned an error")
  else match hp_Toxics resp with
  | None => throw (newError "decode toxiproxy proxy response")
  | Some toxics => forEach deleteToxic toxics
  end.

(** A nil map of attributes is the empty one. *)
Definition AddToxic (toxicType : string) (attrs : list (string * Param)) : M E unit :=
  if bool_decide (toxicType = "") then throw (BadParameter "toxic type is required")
  else
    let payload := PayloadToxic toxicType attrs in
    if negb (payload_marshals payload) then throw (BadParameter "marshal json payload")
    else
      let* resp := wrapping "add toxiproxy toxic" (Do (plain "POST" (toxiproxyBaseURL +:+ "/proxies/redis/toxics") payload)) in
      if bad_status resp then throw (newError "add toxiproxy toxic returned an error") else ret tt.

Definition RemoveToxic (toxicType : string) : M E unit :=
  if bool_decide (toxicType = "") then throw (BadParameter "toxic type is required")
  else deleteToxic toxicType.
End Calls.

(** ** What a computation logs

    [emits m Q]: from any state, [m] adds to the log, and what it returns and what it added
    are related by [Q]. *)

Notation Log := (list (Call * Reply)).

Definition emits {E A} (m : M E A) (Q : sum Err A -> Log -> Prop) : Prop :=
  forall s, exists log, ho_log (m s).2 = (ho_log s ++ log)%list /\ Q (m s).1 log.

Lemma emits_conseq {E A} (m : M E A) (Q R : sum Err A -> Log -> Prop) :
  emits m Q -> (forall r log, Q r log -> R r log) -> emits m R.
Proof. intros Hm HQ s. destruct (Hm s) as (log & Hl & Hr). exists log. auto. Qed.

Lemma emits_ret {E A} (x : A) (Q : sum Err A -> Log -> Prop) : Q (inr x) [] -> emits (E := E) (ret x) Q.
Proof. intros HQ s. exists []. by rewrite app_nil_r. Qed.

Lemma emits_throw {E A} err (Q : sum Err A -> Log -> Prop) : Q (inl err) [] -> emits (E := E) (throw err) Q.
Proof. intros HQ s. exists []. by rewrite app_nil_r. Qed.

Lemma emits_bind {E A B} (m : M E A) (k : A -> M E B) (Q : sum Err A -> Log -> Prop) (R : sum Err B -> Log -> Prop) :
  emits m Q -> (forall err log, Q (inl err) log -> R (inl err) log) ->
  (forall x log, Q (inr x) log -> emits (k x) (fun r log' => R r (log ++ log')%list)) ->
  emits (bind m k) R.
Proof.
  intros Hm Herr Hk s. unfold bind. destruct (Hm s) as (log & Hl & Hr). destruct (m s) as [[err|x] s']; cbn in *; [exists log; auto|].
  destruct (Hk x log Hr s') as (log' & Hl' & Hr'). exists (log ++ log')%list. by rewrite Hl', Hl, app_assoc.
Qed.

Lemma emits_try {E A} (m : M E A) (Q : sum Err (sum Err A) -> Log -> Prop) :
  emits m (fun r log => Q (inr r) log) -> emits (try m) Q.
Proof. intros Hm s. unfold try. destruct (Hm s) as (log & Hl & Hr). exists log. by destruct (m s). Qed.

Lemma emits_wrapping {E A} prefix (m : M E A) (Q : sum Err A -> Log -> Prop) :
  emits m (fun r log => Q (match r with inl err => inl (wrap prefix err) | inr x => inr x end) log) -> emits (wrapping prefix m) Q.
Proof. intros Hm s. unfold wrapping. destruct (Hm s) as (log & Hl & Hr). exists log. by destruct (m s) as [[]]. Qed.

Lemma emits_call {E A} c (f : E -> sum HostError A * E) reply (Q : sum Err A -> Log -> Prop) :
  (forall err, Q (inl (Failed err)) [(c, ReplyError err)]) -> (forall x, Q (inr x) [(c, reply x)]) ->
  emits (call c f reply) Q.
Proof. intros Herr Hx s. unfold call. destruct (f (ho_env s)) as [[err|x] e]; (eexists; split; [done|]); [apply Herr|apply Hx]. Qed.

Lemma emits_forEach {E A} (f : A -> M E unit) (l : list A) (P : A -> Log -> Prop) (Q : sum Err unit -> Log -> Prop) :
  (forall x, x ∈ l -> emits (f x) (fun r log => match r with inr _ => P x log | inl err => forall before, Q (inl err) (before ++ log)%list end)) ->
  (forall logs, Forall2 P l logs -> Q (inr tt) (concat logs)) ->
  emits (forEach f l) Q.
Proof.
  revert Q. induction l as [|x l IH]; intros Q Hf Hdone; cbn [forEach]; [apply emits_ret; by apply (Hdone [])|].
  eapply emits_bind; [apply Hf; by left|intros err log H; by apply (H [])|]. intros u log Hx. apply IH.
  - intros y Hy. eapply emits_conseq; [apply Hf; by right|]. intros [err|] log' H; [|done]. intros before. cbn. rewrite app_assoc. apply H.
  - intros logs Hlogs. apply (Hdone (log :: logs)). by constructor.
Qed.

(** What a computation has done when it succeeds. *)
Definition achieves {E} (m : M E unit) (P : Log -> Prop) : Prop := emits m (fun r log => r = inr tt -> P log).

Lemma achieves_forEach {E A} (f : A -> M E unit) l (P : A -> Log -> Prop) :
  (forall x, x ∈ l -> achieves (f x) (P x)) -> achieves (forEach f l) (fun log => exists logs, Forall2 P l logs /\ log = concat logs).
Proof.
  intros Hf. apply (emits_forEach f l P).
  - intros x Hx. eapply emits_conseq; [by apply Hf|]. intros [err|[]] log H; [done|by apply H].
  - intros logs Hlogs _. by exists logs.
Qed.

Lemma Forall2_concat_elem {A} (P : A -> Log -> Prop) (Q : A -> Log -> Prop) l logs x :
  (forall x before log after, P x log -> Q x (before ++ log ++ after)%list) ->
  Forall2 P l logs -> x ∈ l -> Q x (concat logs).
Proof.
  intros HPQ Hall Hx. assert (exists before log after, P x log /\ concat logs = (before ++ log ++ after)%list) as (before & log & after & HP & ->); [|by apply HPQ].
  induction Hall as [|y log l logs Hy Hall IH]; [set_solver|]. apply elem_of_cons in Hx as [->|Hx].
  - by exists [], log, (concat logs).
  - destruct (IH Hx) as (before & log' & after & HP & Heq). exists (log ++ before)%list, log', after. split; [done|]. cbn.
    by rewrite Heq, <- app_assoc.
Qed.

Lemma achieves_then {E} (m k : M E unit) P Q :
  achieves m P -> achieves k Q -> achieves (m ;; k) (fun log => exists log1 log2, log = (log1 ++ log2)%list /\ P log1 /\ Q log2).
Proof.
  intros Hm Hk. eapply emits_bind; [exact Hm|done|]. intros [] log HP. eapply emits_conseq; [exact Hk|].
  intros r log' HQ Hr. exists log, log'. auto.
Qed.

Lemma achieves_conseq {E} (m : M E unit) (P Q : Log -> Prop) : achieves m P -> (forall log, P log -> Q log) -> achieves m Q.
Proof. intros Hm HPQ. eapply emits_conseq; [exact Hm|]. auto. Qed.

(** Runs a computation through, one case per answer of the environment. *)
Ltac run_host :=
  intros s; unfold bind, try, wrapping, effect, call, ret, throw, Now;
  repeat (cbn -[String.append]; first
    [ match goal with
      | |- context [match ?x with _ => _ end] => is_var x; destruct x
      | |- context [match ?f ?x with (_, _) => _ end] => let Hr := fresh "Hr" in let He := fresh "He" in destruct (f x) as [[]] eqn:Hr
      | |- context [if ?b then _ else _] => destruct b eqn:?
      end ]);
  (eexists; split; [cbn -[String.append]; rewrite <- ?app_assoc; cbn -[String.append]; first [reflexivity | by rewrite app_nil_r]|cbn -[String.append]]).

(** ** A concrete host

    One container per service, all running, every service healthy, no toxics and no keys;
    what starting a container gives is an argument.  Its state is the clock. *)
Definition demo_host (started : option HostError) : Host Time := {|
  env_list filters now := (inr [mkContainer "c1" true], now);
  env_inspect id now := (inr id, now);
  env_create _ now := (inr "k6-1", now);
  env_start _ now := (started, now);
  env_stop _ now := (None, now + Second);
  env_remove _ now := (None, now);
  env_wait _ now := (WaitExited 0 None, now);
  env_image_inspect _ now := (None, now);
  env_image_pull _ now := (None, now);
  env_http _ now := (inr (mkHTTPResponse 200 "" (Some []) None), now + Millisecond);
  env_scan _ now := (inr ([], 0%N), now);
  env_del _ now := (None, now);
  env_sleep d now := (None, now + d);
  env_now now := now;
|}.

(** ** Errors for parameters *)

(** The computation does not fail for a parameter. *)
Definition blameless {E A} (m : M E A) : Prop := emits m (fun r _ => forall message, r <> inl (BadParameter message)).

Section Blameless.
Context {E : Type} {HH : Host E}.

Lemma blameless_ret {A} (x : A) : blameless (E := E) (ret x).
Proof. by apply emits_ret. Qed.
Lemma blameless_Now : blameless (E := E) Now.
Proof. intros s. exists []. by rewrite app_nil_r. Qed.
Lemma blameless_throw {A} message : blameless (E := E) (A := A) (throw (newError message)).
Proof. by apply emits_throw. Qed.
Lemma blameless_bind {A B} (m : M E A) (k : A -> M E B) : blameless m -> (forall x, blameless (k x)) -> blameless (bind m k).
Proof.
  intros Hm Hk. eapply emits_bind; [exact Hm|intros err log Herr message [= ->]; by apply (Herr message)|].
  intros x log _. eapply emits_conseq; [apply Hk|]. auto.
Qed.
Lemma blameless_wrapping {A} prefix (m : M E A) : blameless m -> blameless (wrapping prefix m).
Proof.
  intros Hm. apply emits_wrapping. eapply emits_conseq; [exact Hm|]. intros [[e|message|]|x] log Hr message'; try done.
  by destruct (Hr message).
Qed.
Lemma blameless_call {A} c (f : E -> sum HostError A * E) reply : blameless (call c f reply).
Proof. by apply emits_call. Qed.
Lemma blameless_forEach {A} (f : A -> M E unit) l : (forall x, blameless (f x)) -> blameless (forEach f l).
Proof. intros Hf. induction l as [|x l IH]; [apply blameless_ret|]. cbn [forEach]. by apply blameless_bind. Qed.
End Blameless.

Create HintDb host.
#[export] Hint Resolve blameless_ret blameless_Now blameless_throw blameless_wrapping blameless_call blameless_forEach : host.
#[export] Hint Extern 1 (blameless (bind _ _)) => apply blameless_bind; [|intros ?] : host.
#[export] Hint Extern 1 (blameless (if ?b then _ else _)) => destruct b : host.
#[export] Hint Extern 1 (blameless (match ?x with _ => _ end)) => destruct x : host.
