(* ===== verification/Runner.v ===== *)
(** * The observatory's load generator: [cmd/observatory/runner.go]

    Each run of a scenario is a k6 container.  The theorems: a start that fails leaves no
    container behind, one that succeeds runs the scenario's script, which stays among the
    mounted ones, with the load asked for, under the label by which [StopManagedContainers]
    finds it; and waiting ends with the container removed. *)

From stdpp Require Import gmap strings.
From S2P Require Import Prelude GoStrings Watcher Scenarios Host.
From stdpp Require Import options.
#[local] Set Default Proof Using "Type*".
#[local] Open Scope string_scope.
#[local] Open Scope Z_scope.
#[local] Open Scope host_scope.

Definition k6ImageRef : string := "grafana/k6:0.51.0".
Definition k6ManagedContainerLabel : string := "com.irongate.observatory.managed".
Definition k6ManagedContainerLabelTrue : string := "true".
Definition k6ScenarioLabel : string := "com.irongate.observatory.scenario".

Record Runner := mkRunner { rn_projectRoot : string; rn_composeProject : string }.

Definition k6TokenPoolSize (rps : Z) : Z := if rps <? 10 then 10 else if 100 <? rps then 100 else rps.

Definition scriptPath (k6Script : string) : string :=
  let path := Clean (TrimSpace k6Script) in
  "/scripts/" +:+ TrimPrefix (TrimPrefix (TrimPrefix path "./") "scenarios/k6/") "/".

Section Runner.
Context {E : Type} {HH : Host E}.

Definition ensureImage : M E unit :=
  let* found := try (ImageInspect k6ImageRef) in
  match found with inr _ => ret tt | inl _ => wrapping "pull k6 image" (ImagePull k6ImageRef) end.

(** [Start]: the container it leaves running.  [UnixNano] of the clock makes its name. *)
Definition Start (r : Runner) (scenario : Scenario) (intensityName : string) (rps durationSeconds : Z) (jwt : string) : M E string :=
  ensureImage ;;
  let* now := Now in
  let env := ["INTENSITY=" +:+ TrimSpace intensityName; "RPS=" +:+ Itoa rps; "DURATION=" +:+ Itoa durationSeconds;
    "TARGET_URL=http://gateway:8080"; "JWT=" +:+ TrimSpace jwt; "TOKEN_POOL_SIZE=" +:+ Itoa (k6TokenPoolSize rps);
    "LOGIN_SUBJECT_PREFIX=observatory-user"; "LOGIN_ROLE=admin"] in
  let labels := [(k6ManagedContainerLabel, k6ManagedContainerLabelTrue); (k6ScenarioLabel, sn_Name scenario)] in
  let* id := wrapping "create k6 container"
    (ContainerCreate k6ImageRef (scriptPath (sn_K6Script scenario)) env labels (rn_composeProject r +:+ "_default")
      (Clean (rn_projectRoot r +:+ "/scenarios/k6") +:+ ":/scripts:ro") ("irongate-k6-" +:+ sn_Name scenario +:+ "-" +:+ Itoa now)) in
  let* started := try (wrapping "start k6 container" (ContainerStart id)) in
  match started with
  | inr _ => ret id
  | inl err => try (ContainerRemove id) ;; throw err
  end.

Definition Wait (containerID : string) : M E unit :=
  if bool_decide (TrimSpace containerID = "") then ret tt
  else
    let* outcome := ContainerWait containerID in
    try (ContainerRemove containerID) ;;
    match outcome with
    | WaitCancelled err => throw (Failed err)
    | WaitFailed None => ret tt
    | WaitFailed (Some err) => throw (wrap "wait for k6 container" (Failed err))
    | WaitExited _ (Some err) => throw (Failed err)
    | WaitExited status None =>
        if negb (status =? 0) then throw (newError ("k6 container exited with code " +:+ Itoa status)) else ret tt
    end.

Definition Stop (containerID : string) : M E unit :=
  if bool_decide (TrimSpace containerID = "") then ret tt
  else
    let remove :=
      let* removed := try (ContainerRemove containerID) in
      match removed with
      | inr _ => ret tt
      | inl err =>
          if IsErrNotFound err then ret tt
          else if IsConflict err && Contains (Error_text err) "already in progress" then ret tt
          else throw (wrap "remove k6 container" err)
      end in
    let* stopped := try (ContainerStop containerID) in
    match stopped with
    | inr _ => remove
    | inl err =>
        if IsErrNotFound err then ret tt
        else if negb (IsConflict err) || negb (Contains (Error_text err) "is not running") then throw (wrap "stop k6 container" err)
        else remove
    end.

Definition stopListed (c : Container) : M E unit :=
  let* stopped := try (Stop (ct_ID c)) in
  match stopped with
  | inr _ => ret tt
  | inl err => if negb (IsErrNotFound err) then throw (wrap "stop managed k6 container" err) else ret tt
  end.

Definition StopManagedContainers : M E unit :=
  let* containers := wrapping "list managed k6 containers" (ContainerList [("label", k6ManagedContainerLabel +:+ "=" +:+ k6ManagedContainerLabelTrue)]) in
  forEach stopListed containers.
End Runner.

(** ** The script *)

Lemma TrimSpace_part s : exists a b, s = a +:+ TrimSpace s +:+ b.
Proof.
  destruct (trim_fuel_suffix space_encodings (String.length s) s) as [a Ha]. fold (TrimLeftSpace s) in Ha.
  destruct (trim_fuel_suffix (String.rev <$> space_encodings) (String.length (TrimLeftSpace s)) (String.rev (TrimLeftSpace s))) as [b Hb].
  exists a, (String.rev b). rewrite Ha at 1. f_equal. unfold TrimSpace, TrimRightSpace.
  rewrite <- (rev_involutive (TrimLeftSpace s)) at 1. rewrite Hb at 1. by rewrite rev_append.
Qed.

Lemma Split_element s c el : el ∈ Split s c -> exists a b, s = a +:+ el +:+ b.
Proof.
  revert el. induction s as [|x s IH]; cbn; intros el.
  - intros ->%list_elem_of_singleton. by exists "", "".
  - case_bool_decide.
    + intros [->|Hel]%elem_of_cons; [by exists "", (String x s)|]. destruct (IH el Hel) as (a & b & ->). by exists (String x a), b.
    + destruct (Split s c) as [|y ys] eqn:Hs; [intros ->%list_elem_of_singleton; exists "", s; by subst|].
      intros [->|Hel]%elem_of_cons.
      * assert (exists b, s = y +:+ b) as [b ->]; [|by exists "", b].
        clear -Hs. revert y ys Hs. induction s as [|x s IH]; cbn; intros y ys; [intros [= <- <-]; by exists ""|].
        case_bool_decide; [intros [= <- <-]; by exists (String x s)|]. destruct (Split s c) as [|z zs]; intros [= <- <-]; [by exists s|].
        destruct (IH z zs eq_refl) as [b ->]. by exists b.
      * destruct (IH el) as (a & b & ->); [by right|]. by exists (String x a), b.
Qed.

(** What [Clean] keeps of a path that has no [..]. *)
Lemma clean_elements rooted els kept :
  ".." ∉ els -> foldl (clean_element rooted) kept els = (rev (filter (fun el => el <> "" /\ el <> ".") els) ++ kept)%list.
Proof.
  revert kept. induction els as [|el els IH]; intros kept Hel; [done|]. cbn [foldl]. rewrite IH by set_solver.
  unfold clean_element. rewrite filter_cons. rewrite (bool_decide_eq_false_2 (el = "..")) by set_solver.
  case_bool_decide; cbn [orb]; [rewrite decide_False by tauto; done|]. case_bool_decide; [rewrite decide_False by tauto; done|].
  rewrite decide_True by done. cbn. by rewrite <- app_assoc.
Qed.

Lemma Clean_elements path : ".." ∉ Split path slash -> ".." ∉ Split (Clean path) slash.
Proof.
  intros Hp. unfold Clean. case_bool_decide; [vm_compute; set_solver|]. rewrite clean_elements, app_nil_r, List.rev_involutive by done.
  set (els := filter _ _). assert (".." ∉ els) as He by (unfold els; rewrite list_elem_of_filter; tauto).
  assert (Forall (fun el => contains_byte slash el = false) els) as Hn by
    (apply Forall_forall; intros el [_ Hin]%list_elem_of_filter; by apply (proj1 (Forall_forall _ _) (proj2 (Split_spec path slash)))).
  destruct (decide (els = [])) as [->|Hne]; [destruct (HasPrefix path "/"); vm_compute; set_solver|].
  destruct (HasPrefix path "/").
  - change ("/" +:+ Join els "/") with (String slash (Join els "/")). cbn. rewrite Split_Join by done. set_solver.
  - case_bool_decide; [vm_compute; set_solver|]. by rewrite Split_Join.
Qed.

Lemma TrimPrefix_elements s p : ".." ∉ Split s slash -> ".." ∉ Split (TrimPrefix s (p +:+ "/")) slash.
Proof.
  unfold TrimPrefix. destruct (HasPrefix s (p +:+ "/")) eqn:Hp; [|done].
  apply HasPrefix_spec in Hp as [t ->]. rewrite drop_bytes_app. rewrite append_assoc. change ("/" +:+ t) with (String slash t).
  rewrite Split_app. set_solver.
Qed.

(** The script of a validated scenario lies below the directory that is mounted. *)
Lemma scriptPath_confined k6Script : Contains k6Script ".." = false ->
  exists rest, scriptPath k6Script = "/scripts/" +:+ rest /\ ".." ∉ Split rest slash.
Proof.
  intros Hc. eexists. split; [reflexivity|]. apply (TrimPrefix_elements _ ""), (TrimPrefix_elements _ "scenarios/k6"), (TrimPrefix_elements _ ".").
  apply Clean_elements. intros (a & b & Hab)%Split_element. destruct (TrimSpace_part k6Script) as (c & d & Hcd).
  apply not_true_iff_false in Hc. apply Hc, Contains_spec. exists (c +:+ a), (b +:+ d). rewrite Hcd, Hab. by rewrite !append_assoc.
Qed.

(** ** Containers *)

Section RunnerTheory.
Context {E : Type} {HH : Host E}.
Implicit Types log : Log.

(** The daemon was asked to stop the container, and did, or it was not running. *)
Definition asked_to_stop (id : string) log : Prop :=
  exists reply, (CallStop id, reply) ∈ log /\
    match reply with ReplyError err => he_notFound err = true \/ he_conflict err = true | _ => True end.

Lemma Stop_asks id : TrimSpace id <> "" ->
  emits (Stop id) (fun r log => match r with inr _ => asked_to_stop id log | inl err => IsErrNotFound err = false end).
Proof.
  intros Hid. unfold Stop. rewrite bool_decide_eq_false_2 by done. unfold ContainerStop, ContainerRemove.
  run_host; try done; (eexists; (split; [by left|]); cbn; auto).
  all: match goal with H : negb _ || _ = false |- _ => apply orb_false_iff in H as [H%negb_false_iff _]; auto end.
Qed.

(** A stop calls the daemon, whatever comes of it. *)
Lemma Stop_calls id : TrimSpace id <> "" -> emits (Stop id) (fun _ log => exists reply, (CallStop id, reply) ∈ log).
Proof.
  intros Hid. unfold Stop. rewrite bool_decide_eq_false_2 by done. unfold ContainerStop, ContainerRemove.
  run_host; eexists; by left.
Qed.

Lemma Stop_emits id : emits (Stop id) (fun _ log => TrimSpace id <> "" -> exists reply, (CallStop id, reply) ∈ log).
Proof.
  destruct (decide (TrimSpace id = "")) as [Hid|Hid].
  - intros s. exists []. unfold Stop. rewrite bool_decide_eq_true_2 by done. cbn. by rewrite app_nil_r.
  - eapply emits_conseq; [by apply Stop_calls|]. auto.
Qed.

Definition managed_filter : list (string * string) := [("label", k6ManagedContainerLabel +:+ "=" +:+ k6ManagedContainerLabelTrue)].

Lemma StopManaged_asks : emits StopManagedContainers (fun r log => r = inr tt ->
  exists listed rest, log = (CallList managed_filter, ReplyContainers listed) :: rest /\
    forall c, c ∈ listed -> TrimSpace (ct_ID c) <> "" -> asked_to_stop (ct_ID c) rest).
Proof.
  unfold StopManagedContainers. fold managed_filter.
  eapply (emits_bind _ _ (fun r log => match r with
    | inr listed => log = [(CallList managed_filter, ReplyContainers listed)]
    | inl _ => True end)); [apply emits_wrapping, emits_call; done|done|].
  intros listed log ->. eapply emits_conseq; [apply (emits_forEach stopListed listed
    (fun c log => TrimSpace (ct_ID c) <> "" -> asked_to_stop (ct_ID c) log)
    (fun r log => r = inr tt -> forall c, c ∈ listed -> TrimSpace (ct_ID c) <> "" -> asked_to_stop (ct_ID c) log))|].
  - intros c _. destruct (decide (TrimSpace (ct_ID c) = "")) as [Hblank|Hid].
    { intros s. unfold stopListed, bind, try, Stop. rewrite bool_decide_eq_true_2 by done. cbn. exists []. by rewrite app_nil_r. }
    unfold stopListed. eapply (emits_bind _ _ (fun r log => match r with
      | inr (inr _) => asked_to_stop (ct_ID c) log | inr (inl err) => IsErrNotFound err = false | inl _ => False end));
      [|done|].
    + apply emits_try. eapply emits_conseq; [by apply Stop_asks|]. by intros [].
    + intros [err|[]] log Hl; [rewrite Hl; by apply emits_throw|]. apply emits_ret. intros _. by rewrite app_nil_r.
  - intros logs Hlogs _ c Hc Hid. apply list_elem_of_lookup in Hc as [i Hc]. destruct (Forall2_lookup_l _ _ _ _ _ Hlogs Hc) as (log & Hl & Hlog).
    destruct (Hlog Hid) as (reply & Hin & Hr). exists reply. split; [|done]. apply list_elem_of_In, in_concat. exists log.
    split; apply list_elem_of_In; [by eapply list_elem_of_lookup_2|done].
  - intros r log Hr Hok. exists listed, log. split; [done|]. by apply Hr.
Qed.

Definition created (id : string) log : Prop :=
  exists image script env labels network bindMount name, (CallCreate image script env labels network bindMount name, ReplyID id) ∈ log.

Lemma Start_emits r scenario intensityName rps durationSeconds jwt :
  emits (Start r scenario intensityName rps durationSeconds jwt) (fun result log =>
    match result with
    | inl _ => forall id, created id log -> exists reply, (CallRemove id, reply) ∈ log
    | inr id => (exists env labels network bindMount name,
        (CallCreate k6ImageRef (scriptPath (sn_K6Script scenario)) env labels network bindMount name, ReplyID id) ∈ log /\
        "RPS=" +:+ Itoa rps ∈ env /\ "DURATION=" +:+ Itoa durationSeconds ∈ env /\
        (k6ManagedContainerLabel, k6ManagedContainerLabelTrue) ∈ labels) /\
        (CallStart id, ReplyDone) ∈ log /\ forall reply, (CallRemove id, reply) ∉ log
    end).
Proof.
  unfold Start, ensureImage, ImageInspect, ImagePull, ContainerCreate, ContainerStart, ContainerRemove. run_host.
  all: try (intros id (image & script & env & labels & network & bm & name & Hin);
    repeat (apply elem_of_cons in Hin as [Hin|Hin]; [try discriminate|]); [..|by apply elem_of_nil in Hin];
    injection Hin; intros; subst; eexists; repeat (first [by left|right])).
  all: split; [do 5 eexists; split; [repeat (first [by left|right])|split_and!; set_solver]|split; [repeat (first [by left|right])|set_solver]].
Qed.

(** C35: no container is left behind: a start that fails has asked for the removal of every
    container it created; one that succeeds has started a container with the scenario's
    script, which lies below the mounted directory, the load asked for, and the label that
    [StopManagedContainers] lists; a wait, however it ends, asks for the container's removal;
    and when [StopManagedContainers] succeeds, each container listed under the label has
    been stopped, was not running, or was gone. *)
Theorem no_container_left_behind r scenario intensityName rps durationSeconds jwt :
  Contains (sn_K6Script scenario) ".." = false ->
  emits (Start r scenario intensityName rps durationSeconds jwt) (fun result log =>
    match result with
    | inl _ => forall id, created id log -> exists reply, (CallRemove id, reply) ∈ log
    | inr id => (exists rest env labels network bindMount name,
        (CallCreate k6ImageRef ("/scripts/" +:+ rest) env labels network bindMount name, ReplyID id) ∈ log /\
        ".." ∉ Split rest slash /\
        "RPS=" +:+ Itoa rps ∈ env /\ "DURATION=" +:+ Itoa durationSeconds ∈ env /\
        (k6ManagedContainerLabel, k6ManagedContainerLabelTrue) ∈ labels) /\
        (CallStart id, ReplyDone) ∈ log /\ forall reply, (CallRemove id, reply) ∉ log
    end) /\
  (forall id, TrimSpace id <> "" -> emits (Wait id) (fun _ log => exists reply reply', log = [(CallWait id, reply); (CallRemove id, reply')])) /\
  emits StopManagedContainers (fun result log => result = inr tt ->
    exists listed rest, log = (CallList managed_filter, ReplyContainers listed) :: rest /\
      forall c, c ∈ listed -> TrimSpace (ct_ID c) <> "" -> asked_to_stop (ct_ID c) rest).
Proof.
  intros Hscript. split_and!; [|intros id Hid|apply StopManaged_asks].
  - eapply emits_conseq; [apply Start_emits|]. intros [err|id] log; [done|].
    intros ((env & labels & network & bm & name & Hin & Henv) & Hstart). split; [|done].
    destruct (scriptPath_confined _ Hscript) as (rest & Hrest & Hconf). exists rest, env, labels, network, bm, name. by rewrite <- Hrest.
  - unfold Wait, ContainerWait, ContainerRemove. rewrite bool_decide_eq_false_2 by done.
    run_host; by do 2 eexists.
Qed.
End RunnerTheory.

Definition demo_refusal : HostError := mkHostError false false false "no such network".
Definition demo_runner : Runner := mkRunner "/srv/irongate" "irongate".

Lemma no_container_left_behind_witness :
  exists reply, (CallRemove "k6-1", reply) ∈ ho_log (Start (HH := demo_host (Some demo_refusal)) demo_runner demo_scenario "mild" 50 60 "jwt" (mkHost 0 [])).2.
Proof.
  destruct (proj1 (no_container_left_behind (HH := demo_host (Some demo_refusal)) demo_runner demo_scenario "mild" 50 60 "jwt" ltac:(by vm_compute)) (mkHost 0 []))
    as (log & Hlog & Hr).
  assert (exists err, (Start (HH := demo_host (Some demo_refusal)) demo_runner demo_scenario "mild" 50 60 "jwt" (mkHost 0 [])).1 = inl err) as [err Herr]
    by (eexists; by vm_compute).
  rewrite Herr in Hr. change (ho_log (mkHost 0 []) ++ log)%list with log in Hlog. rewrite Hlog. apply Hr. rewrite <- Hlog.
  do 7 eexists. vm_compute. by right; left.
Defined.
