(* ===== verification/Chaos.v ===== *)
(** * The observatory's chaos and reset: [cmd/observatory/chaos.go], [reset.go]

    The steps of a scenario carried out on the services, their undoing, and the reset that
    brings the whole system back.  The theorems: the waits for a service end, no step of a
    validated scenario fails for its parameters, and a reset that says the system is clean
    has seen each of its parts restored. *)

From Stdlib Require Import SpecFloat.
From stdpp Require Import gmap strings.
From S2P Require Import Prelude GoStrings Scenarios Host Runner.
From stdpp Require Import options.
#[local] Set Default Proof Using "Type*".
#[local] Open Scope string_scope.
#[local] Open Scope Z_scope.
#[local] Open Scope host_scope.

Definition StatusOK : Z := 200.
Definition resetDrainDelay : Duration := 5 * Second.

(** The app, as far as this part goes. *)
Record Observatory := mkObservatory { ob_composeProject : string; ob_adminToken : string; ob_redis : bool }.

Section Chaos.
Context {E : Type} {HH : Host E}.
Variable a : Observatory.

(** ** Services *)

(** Until its deadline, and no request follows it.  The rounds are counted: 500 milliseconds
    pass between two of them, so that [health_rounds] are enough. *)
Fixpoint healthLoop (fuel : nat) (deadline : Time) (name url : string) : M E unit :=
  match fuel with
  | O => throw OutOfFuel
  | S fuel =>
      let* result := try (Do (plain "GET" (url +:+ "/health") PayloadNone)) in
      if match result with inr resp => hp_StatusCode resp =? StatusOK | inl _ => false end then ret tt
      else
        let* now := Now in
        if After now deadline
        then throw (match result with
                    | inl err => wrap (name +:+ " health check failed") err
                    | inr _ => newError (name +:+ " health check returned non-200")
                    end)
        else Sleep (500 * Millisecond) ;; healthLoop fuel deadline name url
  end.

Definition health_rounds : nat := 22.

Definition waitForHealthy (endpoint : string * string) : M E unit :=
  let* now := Now in
  healthLoop health_rounds (AddDuration now (10 * Second)) endpoint.1 endpoint.2.

Definition serviceContainerID (service : string) : M E (string * bool) :=
  let* containers := wrapping ("list container for " +:+ service)
    (ContainerList [("label", "com.docker.compose.project=" +:+ ob_composeProject a); ("label", "com.docker.compose.service=" +:+ service)]) in
  match containers with
  | [] => throw (newError ("container for " +:+ service +:+ " not found"))
  | c :: _ => ret (ct_ID c, ct_Running c)
  end.

Definition stopServiceContainer (service : string) : M E unit :=
  let* found := serviceContainerID service in
  if negb found.2 then ret tt else wrapping ("stop " +:+ service +:+ " container") (ContainerStop found.1).

Definition startServiceContainer (service : string) : M E unit :=
  let* found := serviceContainerID service in
  if found.2 : bool then ret tt else wrapping ("start " +:+ service +:+ " container") (ContainerStart found.1).

(** The payload is marshalled before the request is built. *)
Definition postJSON (url : string) (payload : Payload) : M E unit :=
  if negb (payload_marshals payload) then throw (BadParameter "marshal json payload")
  else
    let* resp := wrapping ("post " +:+ url) (Do (plain "POST" url payload)) in
    if bad_status resp then throw (newError ("post " +:+ url +:+ " returned an error")) else ret tt.

(** ** Steps *)

(** A parameter, or the error it is at fault for. *)
Definition param {A} (r : sum string A) : M E A :=
  match r with inr x => ret x | inl message => throw (BadParameter message) end.

Definition executeChaosStep (step : ChaosStep) : M E unit :=
  let action := TrimSpace (cs_Action step) in
  let target := cs_Target step in
  if bool_decide (action = "service_down") then stopServiceContainer target
  else if bool_decide (action = "service_up") then
    let* targetURL := param (serviceURL target) in
    startServiceContainer target ;;
    waitForHealthy (target, targetURL)
  else if bool_decide (action = "error_inject") then
    let* targetURL := param (serviceURL target) in
    let* rate := param (chaosFloatParam (cs_Params step) "rate") in
    postJSON (targetURL +:+ "/chaos/errors") (PayloadRate rate)
  else if bool_decide (action = "latency_inject") then
    let* targetURL := param (serviceURL target) in
    let* delayMS := param (chaosIntParam (cs_Params step) "delay_ms") in
    postJSON (targetURL +:+ "/chaos/latency") (PayloadDelay delayMS)
  else if bool_decide (action = "add_toxic") then
    let* toxicType := param (chaosStringParam (cs_Params step) "type") in
    let* attrs := param (chaosAttributesParam (cs_Params step) "attributes") in
    AddToxic toxicType attrs
  else if bool_decide (action = "remove_toxic") then
    let* toxicType := param (chaosStringParam (cs_Params step) "type") in
    RemoveToxic toxicType
  else throw (BadParameter "unsupported chaos action").

(** Each step at its time after the start. *)
Definition executeStepAt (startedAt : Time) (step : ChaosStep) : M E unit :=
  let* now := Now in
  Sleep (SubTime (AddDuration startedAt (cs_AtSeconds step * Second)) now) ;;
  executeChaosStep step.

Definition executeChaos (scenario : Scenario) : M E unit :=
  match sn_ChaosSequence scenario with
  | [] => ret tt
  | steps => let* startedAt := Now in forEach (executeStepAt startedAt) steps
  end.

(** ** Reset *)

(** Calls that run at the same time, in the order in which they are made here: all are made,
    and the error is the first one's that failed. *)
Fixpoint together {A} (f : A -> M E unit) (l : list A) : M E unit :=
  match l with
  | [] => ret tt
  | x :: l =>
      let* first := try (f x) in
      let* rest := try (together f l) in
      match first, rest with inl err, _ | inr _, inl err => throw err | inr _, inr _ => ret tt end
  end.

Definition resetChaos : M E unit :=
  forEach (fun endpoint => startServiceContainer endpoint.1) serviceEndpoints ;;
  forEach waitForHealthy serviceEndpoints ;;
  together (fun endpoint => postJSON (endpoint.2 +:+ "/chaos/reset") PayloadNone) serviceEndpoints.

Definition resetCircuitBreakers : M E unit :=
  let* resp := wrapping "call circuit reset endpoint"
    (Do (mkHTTPRequest "POST" "http://gateway:9090/admin/circuit-breakers/reset" ("Bearer " +:+ ob_adminToken a) PayloadNone)) in
  if bad_status resp then throw (newError "circuit reset endpoint returned an error") else ret tt.

(** The scan ends where Redis answers with the cursor 0. *)
Fixpoint flushLoop (fuel : nat) (cursor : N) : M E unit :=
  match fuel with
  | O => throw OutOfFuel
  | S fuel =>
      let* found := wrapping "scan redis rate limit keys" (Scan cursor) in
      (if bool_decide (found.1 = []) then ret tt else wrapping "delete redis rate limit keys" (Del found.1)) ;;
      if N.eqb found.2 0 then ret tt else flushLoop fuel found.2
  end.

Definition flushRedisRateLimitKeys (fuel : nat) : M E unit := if ob_redis a then flushLoop fuel 0 else ret tt.

Definition verifyServiceHealth : M E unit := together waitForHealthy serviceEndpoints.

Inductive ResetResponse := ResetClean | ResetPartial (failedStep : string) (err : Err).

(** [partialReset] for the first step that fails. *)
Fixpoint resetSteps (steps : list (string * M E unit)) : M E ResetResponse :=
  match steps with
  | [] => ret ResetClean
  | (name, step) :: steps =>
      let* result := try step in
      match result with inl err => ret (ResetPartial name err) | inr _ => resetSteps steps end
  end.

(** [resetSystem], after it cancelled the active scenario. *)
Definition resetSystem (fuel : nat) : M E ResetResponse :=
  resetSteps [
    ("stop_k6_containers", StopManagedContainers);
    ("reset_chaos", resetChaos);
    ("reset_circuit_breakers", resetCircuitBreakers);
    ("remove_toxics", RemoveAllToxics);
    ("flush_redis", flushRedisRateLimitKeys fuel);
    ("drain_wait", Sleep resetDrainDelay);
    ("verify_services", verifyServiceHealth)].
End Chaos.

(** ** Waiting for a service *)

(** Time does not run backwards, and a sleep that is not cut short lasts. *)
Class HostLaws (E : Type) {HH : Host E} : Prop := {
  http_time req e : env_now e <= env_now (env_http req e).2;
  sleep_time d e e' : env_sleep d e = (None, e') -> env_now e + d <= env_now e';
}.

Section Waiting.
Context {E : Type} {HH : Host E} {HL : HostLaws E}.

Definition check (url : string) : Call := CallHTTP (plain "GET" (url +:+ "/health") PayloadNone).

(** The log ends with a healthy answer. *)
Definition healthy (url : string) (log : Log) : Prop :=
  exists before resp, log = (before ++ [(check url, ReplyResponse resp)])%list /\ hp_StatusCode resp = StatusOK.

(** After a check that failed: the deadline, or another round. *)
Definition afterCheck (deadline : Time) (err : Err) (again : M E unit) : M E unit :=
  let* now := Now in if After now deadline then throw err else Sleep (500 * Millisecond) ;; again.

Lemma healthLoop_S fuel deadline name url s :
  let '(result, s1) := Do (plain "GET" (url +:+ "/health") PayloadNone) s in
  healthLoop (S fuel) deadline name url s =
    match result with
    | inr resp => if hp_StatusCode resp =? StatusOK then (inr tt, s1)
                  else afterCheck deadline (newError (name +:+ " health check returned non-200")) (healthLoop fuel deadline name url) s1
    | inl err => afterCheck deadline (wrap (name +:+ " health check failed") err) (healthLoop fuel deadline name url) s1
    end.
Proof using Type.
  cbn [healthLoop]. unfold bind, try. destruct (Do _ s) as [[err|resp] s1]; [done|]. by destruct (hp_StatusCode resp =? StatusOK).
Qed.

Definition waited (fuel : nat) (url : string) (s : HostState E) (r : sum Err unit * HostState E) : Prop :=
  r.1 <> inl OutOfFuel /\
  exists log, ho_log r.2 = (ho_log s ++ log)%list /\ (length log <= 2 * fuel - 1)%nat /\ (r.1 = inr tt -> healthy url log).

Lemma afterCheck_waited fuel deadline err url again entry (s : HostState E) log0 :
  err <> OutOfFuel -> 
  deadline - env_now (ho_env s) < Z.of_nat fuel * (500 * Millisecond) ->
  ho_log s = (log0 ++ [entry])%list ->
  (forall s', deadline - env_now (ho_env s') < (Z.of_nat fuel - 1) * (500 * Millisecond) -> (0 < fuel)%nat -> waited fuel url s' (again s')) ->
  forall s0, ho_log s0 = log0 -> waited (S fuel) url s0 (afterCheck deadline err again s).
Proof.
  intros Herr Htime Hlog Hagain s0 Hs0. unfold afterCheck, bind, Now, throw, Sleep, effect, call, After.
  destruct (Z.ltb_spec deadline (env_now (ho_env s))) as [Hlate|Hearly].
  - split; cbn; [congruence|]. exists [entry]. split_and!; [by rewrite Hs0|cbn; lia|done].
  - assert (0 < fuel)%nat as Hf by (destruct fuel; lia).
    pose proof (sleep_time (500 * Millisecond) (ho_env s)) as Hsl.
    destruct (env_sleep _ (ho_env s)) as [[cut|] e']; cbn [fst snd].
    + split; cbn; [done|]. eexists (_ :: [_]). split_and!; [rewrite Hlog, Hs0, <- app_assoc; reflexivity|cbn; lia|done].
    + specialize (Hsl e' eq_refl). set (s' := mkHost e' _). destruct (Hagain s') as (Ho & log & Hl & Hlen & Hok); [unfold s'; cbn; lia|done|].
      split; [done|]. exists ([entry; (CallSleep (500 * Millisecond), ReplyDone)] ++ log)%list. split_and!.
      * rewrite Hl. unfold s'. cbn. by rewrite Hlog, Hs0, <- !app_assoc.
      * cbn. lia.
      * intros Hr. destruct (Hok Hr) as (before & resp & -> & Hst). eexists _, resp. split; [by rewrite app_assoc|done].
Qed.

Lemma healthLoop_waited fuel deadline name url s :
  deadline - env_now (ho_env s) < (Z.of_nat fuel - 1) * (500 * Millisecond) -> (0 < fuel)%nat ->
  waited fuel url s (healthLoop fuel deadline name url s).
Proof.
  revert s. induction fuel as [|fuel IH]; intros s Htime Hf; [lia|].
  pose proof (healthLoop_S fuel deadline name url s) as Heq. unfold Do, call in Heq.
  pose proof (http_time (plain "GET" (url +:+ "/health") PayloadNone) (ho_env s)) as Hm.
  destruct (env_http _ (ho_env s)) as [[err|resp] e]; cbn [snd] in Hm; rewrite Heq; clear Heq.
  - eapply afterCheck_waited; [by intros [=]|cbn [ho_env]; lia|reflexivity|exact IH|done].
  - destruct (Z.eqb_spec (hp_StatusCode resp) StatusOK) as [Hok|].
    + split; [done|]. eexists. split; [reflexivity|]. split; [cbn; lia|]. intros _. by exists [], resp.
    + eapply afterCheck_waited; [by intros [=]|cbn [ho_env]; lia|reflexivity|exact IH|done].
Qed.
End Waiting.

(** Waits end: a wait for a service ends, with at most 22 health checks, whatever the
    service answers, and it succeeds only on a healthy answer. *)
Lemma health_waits_end `{HostLaws E} (endpoint : string * string) (s : HostState E) :
  let '(result, s') := waitForHealthy endpoint s in
  result <> inl OutOfFuel /\
  exists log, ho_log s' = (ho_log s ++ log)%list /\ (length log <= 43)%nat /\ (result = inr tt -> healthy endpoint.2 log).
Proof.
  unfold waitForHealthy, bind, Now. pose proof (healthLoop_waited health_rounds (AddDuration (env_now (ho_env s)) (10 * Second)) endpoint.1 endpoint.2 s) as Hw.
  destruct (healthLoop _ _ _ _ s) as [result s']. destruct Hw as (Ho & log & Hl & Hlen & Hok); [unfold AddDuration, health_rounds, Second, Millisecond; lia|unfold health_rounds; lia|].
  split; [done|]. exists log. split_and!; [done|unfold health_rounds in Hlen; lia|done].
Qed.

Lemma demo_host_laws started : HostLaws Time (HH := demo_host started).
Proof. split; cbn; [intros; unfold Millisecond; lia|]. intros d e e' [= <-]. lia. Qed.

Lemma health_waits_end_witness :
  (waitForHealthy (HH := demo_host None) ("user-service-1", "http://user-service-1:8081") (mkHost 0 [])).1 <> inl OutOfFuel.
Proof.
  pose proof (health_waits_end (H := demo_host_laws None) ("user-service-1", "http://user-service-1:8081") (mkHost 0 [])) as H.
  destruct (waitForHealthy _ _) as [result s']. exact (proj1 H).
Defined.

(** ** The end of a scan *)

(** A scan comes back to the cursor 0: what is left of it shrinks with each call, and
    deleting keys leaves no more. *)
Class ScanLaws (E : Type) {HH : Host E} := {
  scan_left : N -> E -> nat;
  scan_progress cursor e keys next e' : env_scan cursor e = (inr (keys, next), e') -> next <> 0%N -> (scan_left next e' < scan_left cursor e)%nat;
  del_progress keys cursor e : (scan_left cursor (env_del keys e).2 <= scan_left cursor e)%nat;
}.

(** Deleting the rate limit keys ends, with as much fuel as the scan has calls. *)
Lemma flush_ends `{ScanLaws E} (a : Observatory) fuel (s : HostState E) :
  (scan_left 0 (ho_env s) < fuel)%nat -> (flushRedisRateLimitKeys a fuel s).1 <> inl OutOfFuel.
Proof.
  unfold flushRedisRateLimitKeys. destruct (ob_redis a); [|done]. generalize 0%N as cursor. revert s.
  induction fuel as [|fuel IH]; intros s cursor Hfuel; [lia|]. cbn [flushLoop].
  unfold bind, wrapping, Scan, Del, effect, call.
  destruct (env_scan cursor (ho_env s)) as [[err|[keys next]] e] eqn:Hscan; cbn; [done|].
  pose proof (scan_progress _ _ _ _ _ Hscan) as Hp. pose proof (del_progress keys next e) as Hd.
  case_bool_decide; cbn.
  - destruct (N.eqb_spec next 0) as [|Hnext]; [done|]. specialize (Hp Hnext). apply IH. cbn. lia.
  - destruct (env_del keys e) as [[err|] e']; cbn in *; [done|].
    destruct (N.eqb_spec next 0) as [|Hnext]; [done|]. specialize (Hp Hnext). apply IH. cbn. lia.
Qed.

#[export] Instance demo_scan_laws started : ScanLaws Time (HH := demo_host started).
Proof. refine (Build_ScanLaws _ (demo_host started) (fun _ _ => 0%nat) _ _); [|done]. intros cursor e keys next e' [= _ <- _]. done. Defined.

(** ** Steps of a validated scenario *)

Section Steps.
Context {E : Type} {HH : Host E}.
Variable a : Observatory.

Lemma blameless_healthLoop fuel deadline name url : blameless (E := E) (healthLoop fuel deadline name url).
Proof.
  induction fuel as [|fuel IH]; cbn [healthLoop]; [by apply emits_throw|].
  eapply (emits_bind _ _ (fun r _ => match r with inr (inl err) => forall message, err <> BadParameter message | inr (inr _) => True | inl _ => False end));
    [apply emits_try, emits_call; [by intros err message|done]|done|].
  intros [err|resp] _ Herr.
  - apply blameless_bind; [apply blameless_Now|intros now]. destruct (After now deadline); [|unfold Sleep, effect; auto with host].
    apply emits_throw. intros message [= Hw]. destruct err; cbn in Hw; try done. by eapply Herr.
  - change (blameless (if hp_StatusCode resp =? StatusOK then ret tt else
      let* now := Now in if After now deadline then throw (newError (name +:+ " health check returned non-200"))
      else Sleep (500 * Millisecond) ;; healthLoop fuel deadline name url)). unfold Sleep, effect. auto 10 with host.
Qed.

Lemma blameless_waitForHealthy endpoint : blameless (E := E) (waitForHealthy endpoint).
Proof. unfold waitForHealthy. auto using blameless_healthLoop with host. Qed.

Lemma blameless_service service :
  blameless (E := E) (serviceContainerID a service) /\ blameless (E := E) (startServiceContainer a service) /\
  blameless (E := E) (stopServiceContainer a service).
Proof.
  assert (blameless (E := E) (serviceContainerID a service)) as H by (unfold serviceContainerID, ContainerList; auto with host).
  unfold startServiceContainer, stopServiceContainer, ContainerStart, ContainerStop, effect. auto 10 with host.
Qed.

Lemma blameless_postJSON url payload : payload_marshals payload = true -> blameless (E := E) (postJSON url payload).
Proof. intros Hp. unfold postJSON, Do. rewrite Hp. cbn [negb]. auto with host. Qed.

Lemma blameless_param {A} (r : sum string A) (k : A -> M E unit) x : r = inr x -> blameless (k x) -> blameless (bind (param r) k).
Proof. intros -> Hk. cbn [param]. exact Hk. Qed.

(** Its parameters can be marshalled: the rate is a number, and the attributes hold no
    infinity and nothing that is not a number. *)
Definition marshalable (step : ChaosStep) : Prop :=
  chaosFloatParam (cs_Params step) "rate" <> inr S754_nan /\
  forall attrs, chaosAttributesParam (cs_Params step) "attributes" = inr attrs -> forallb (fun kv => marshals kv.2) attrs = true.

Lemma rate_finite rate : rate <> S754_nan -> SFltb rate float_zero || SFltb float_one rate = false -> finite rate = true.
Proof. by destruct rate as [|[]| |]. Qed.

Lemma chaosStringParam_nonempty params key text : chaosStringParam params key = inr text -> text <> "".
Proof.
  unfold chaosStringParam. destruct (lookupParam _ _) as [err|[]]; try done. case_bool_decide; [done|]. by intros [= <-].
Qed.

Lemma blameless_toxics toxicType attrs :
  toxicType <> "" -> forallb (fun kv => marshals kv.2) attrs = true ->
  blameless (E := E) (AddToxic toxicType attrs) /\ blameless (E := E) (RemoveToxic toxicType).
Proof.
  intros Ht Ha. unfold AddToxic, RemoveToxic, deleteToxic, Do. rewrite bool_decide_eq_false_2 by done.
  cbn [payload_marshals]. rewrite Ha. cbn [negb]. auto with host.
Qed.

(** Validated steps can be carried out: no step of a validated scenario fails because of
    its parameters, as long as its numbers can be marshalled; what fails it is the host. *)
Lemma validated_steps_are_executable (step : ChaosStep) :
  valid_step step -> marshalable step ->
  emits (executeChaosStep a (trimStep step)) (fun r _ => forall message, r <> inl (BadParameter message)).
Proof.
  intros [_ Hv] [Hrate Hattrs]. fold (blameless (executeChaosStep a (trimStep step))).
  unfold executeChaosStep, validateChaosStep in *. cbn [trimStep cs_Action cs_Target cs_Params] in *. rewrite TrimSpace_idemp.
  destruct (blameless_service (TrimSpace (cs_Target step))) as (_ & Hstart & Hstop).
  set (action := TrimSpace (cs_Action step)) in *. set (target := TrimSpace (cs_Target step)) in *.
  destruct (decide (action = "service_down")) as [Heq|Hdown]; [by rewrite (bool_decide_eq_true_2 (action = "service_down"))|].
  rewrite (bool_decide_eq_false_2 (action = "service_down")) by done.
  destruct (decide (action = "service_up")) as [Heq|Hup].
  { rewrite (bool_decide_eq_true_2 (action = "service_up")) by done. rewrite bool_decide_eq_true_2 in Hv by auto.
    destruct (serviceURL target) as [|url] eqn:Hurl; [done|].
    eapply blameless_param; [done|]. apply blameless_bind; [done|]. intros _. apply blameless_waitForHealthy. }
  rewrite (bool_decide_eq_false_2 (action = "service_up")) by done. rewrite bool_decide_eq_false_2 in Hv by tauto.
  destruct (bool_decide (action = "error_inject")).
  { destruct (serviceURL target) as [|url] eqn:Hurl; [done|]. destruct (chaosFloatParam _ _) as [|rate] eqn:Hr; [done|].
    do 2 (eapply blameless_param; [done|]). apply blameless_postJSON, rate_finite; [congruence|]. by destruct (SFltb _ _ || SFltb _ _). }
  destruct (bool_decide (action = "latency_inject")).
  { destruct (serviceURL target) as [|url] eqn:Hurl; [done|]. destruct (chaosIntParam _ _) as [|delay] eqn:Hd; [done|].
    do 2 (eapply blameless_param; [done|]). by apply blameless_postJSON. }
  destruct (bool_decide (action = "add_toxic")).
  { destruct (chaosStringParam _ _) as [|ty] eqn:Hty; [done|]. pose proof (chaosStringParam_nonempty _ _ _ Hty) as Hne.
    destruct (chaosAttributesParam _ _) as [|attrs] eqn:Hat; [done|]. do 2 (eapply blameless_param; [done|]).
    by apply blameless_toxics; [|apply Hattrs]. }
  destruct (bool_decide (action = "remove_toxic")); [|done].
  destruct (chaosStringParam _ _) as [|ty] eqn:Hty; [done|]. pose proof (chaosStringParam_nonempty _ _ _ Hty) as Hne.
  eapply blameless_param; [done|]. by apply (blameless_toxics _ []).
Qed.
End Steps.

Definition demo_step : ChaosStep := mkStep 5 " error_inject" "order-service-2 " {[ "rate" := ParamInt 1 ]}.

Lemma validated_steps_are_executable_witness :
  forall message, (executeChaosStep (HH := demo_host None) (mkObservatory "irongate" "adm1n" true) (trimStep demo_step) (mkHost 0 [])).1 <> inl (BadParameter message).
Proof.
  destruct (validated_steps_are_executable (HH := demo_host None) (mkObservatory "irongate" "adm1n" true) demo_step) with (s := mkHost (E := Time) 0 [])
    as (log & _ & H); [split; [done|by vm_compute]|split; [by vm_compute|by vm_compute]|exact H].
Defined.

(** A rate that is not a number passes validation, and fails its step. *)
Lemma nan_rate_fails a : exists step message,
  valid_step step /\ (executeChaosStep (HH := demo_host None) a step (mkHost 0 [])).1 = inl (BadParameter message).
Proof.
  exists (mkStep 0 "error_inject" "user-service-1" {[ "rate" := ParamFloat S754_nan ]}). eexists.
  split; [split; [done|by vm_compute]|by vm_compute].
Qed.

(** ** What a reset achieves *)

Section Reset.
Context {E : Type} {HH : Host E} {HL : HostLaws E}.
Variable a : Observatory.
Implicit Types log : Log.

Definition answered (req : HTTPRequest) (ok : HTTPResponse -> Prop) log : Prop :=
  exists resp, (CallHTTP req, ReplyResponse resp) ∈ log /\ ok resp.

Definition accepted (resp : HTTPResponse) : Prop := hp_StatusCode resp < StatusBadRequest.

(** The service's container runs: it did, or it was started. *)
Definition service_running (service : string) log : Prop :=
  exists c others, (CallList [("label", "com.docker.compose.project=" +:+ ob_composeProject a); ("label", "com.docker.compose.service=" +:+ service)],
                    ReplyContainers (c :: others)) ∈ log /\
    (ct_Running c = true \/ (CallStart (ct_ID c), ReplyDone) ∈ log).

Definition service_healthy (url : string) : Log -> Prop :=
  answered (plain "GET" (url +:+ "/health") PayloadNone) (fun resp => hp_StatusCode resp = StatusOK).

Definition managed_stopped log : Prop :=
  exists listed rest, log = (CallList managed_filter, ReplyContainers listed) :: rest /\
    forall c, c ∈ listed -> TrimSpace (ct_ID c) <> "" -> asked_to_stop (ct_ID c) rest.
Definition chaos_undone log : Prop :=
  forall name url, (name, url) ∈ serviceEndpoints ->
    service_running name log /\ service_healthy url log /\ answered (plain "POST" (url +:+ "/chaos/reset") PayloadNone) accepted log.
Definition circuits_closed : Log -> Prop :=
  answered (mkHTTPRequest "POST" "http://gateway:9090/admin/circuit-breakers/reset" ("Bearer " +:+ ob_adminToken a) PayloadNone) accepted.
Definition toxics_removed log : Prop :=
  exists resp, (CallHTTP (plain "GET" (toxiproxyBaseURL +:+ "/proxies/redis") PayloadNone), ReplyResponse resp) ∈ log /\
    (hp_StatusCode resp = StatusNotFound \/ exists toxics, hp_Toxics resp = Some toxics /\ forall name, name ∈ toxics ->
      answered (plain "DELETE" (toxiproxyBaseURL +:+ "/proxies/redis/toxics/" +:+ name) PayloadNone)
        (fun resp => accepted resp \/ hp_StatusCode resp = StatusNotFound) log).
Definition keys_deleted log : Prop :=
  ob_redis a = true ->
    (exists keys next, (CallScan 0, ReplyKeys keys next) ∈ log) /\ (exists cursor keys, (CallScan cursor, ReplyKeys keys 0) ∈ log) /\
    (forall cursor keys next, (CallScan cursor, ReplyKeys keys next) ∈ log ->
       (keys <> [] -> (CallDel keys, ReplyDone) ∈ log) /\ (next <> 0%N -> exists keys' next', (CallScan next, ReplyKeys keys' next') ∈ log)).
Definition drained log : Prop := (CallSleep resetDrainDelay, ReplyDone) ∈ log.
Definition services_verified log : Prop := forall name url, (name, url) ∈ serviceEndpoints -> service_healthy url log.

Lemma answered_within req ok before log after : answered req ok log -> answered req ok (before ++ log ++ after)%list.
Proof. intros (resp & Hin & Hok). exists resp. split; [|done]. apply elem_of_app; right. apply elem_of_app; by left. Qed.

Lemma together_achieves {A} (f : A -> M E unit) l (P : A -> Log -> Prop) :
  (forall x, x ∈ l -> achieves (f x) (P x)) -> achieves (together f l) (fun log => exists logs, Forall2 P l logs /\ log = concat logs).
Proof.
  induction l as [|x l IH]; intros Hf; cbn [together]; [apply emits_ret; intros _; by exists []|].
  eapply (emits_bind _ _ (fun r log => match r with inr (inr _) => P x log | _ => True end)); [|done|].
  { apply emits_try. eapply emits_conseq; [apply Hf; by left|]. intros [err|[]] log H; [done|by apply H]. }
  intros first log Hfirst.
  eapply (emits_bind _ _ (fun r log => match r with inr (inr _) => exists logs, Forall2 P l logs /\ log = concat logs | _ => True end)); [|done|].
  { apply emits_try. eapply emits_conseq; [apply IH; intros; apply Hf; by right|]. intros [err|[]] log' H; [done|by apply H]. }
  intros rest log' Hrest. destruct first as [err|[]]; [by apply emits_throw|]. destruct rest as [err|[]]; [by apply emits_throw|].
  apply emits_ret. intros _. destruct Hrest as (logs & Hlogs & ->). exists (log :: logs). split; [by constructor|]. cbn. by rewrite app_nil_r.
Qed.

Lemma waitForHealthy_achieves endpoint : achieves (E := E) (waitForHealthy endpoint) (service_healthy endpoint.2).
Proof.
  intros s. unfold waitForHealthy, bind, Now.
  destruct (healthLoop_waited health_rounds (AddDuration (env_now (ho_env s)) (10 * Second)) endpoint.1 endpoint.2 s) as (_ & log & Hl & _ & Hok);
    [unfold AddDuration, health_rounds, Second, Millisecond; lia|unfold health_rounds; lia|].
  exists log. split; [done|]. intros Hr. destruct (Hok Hr) as (before & resp & -> & Hst). exists resp. split; [|done]. apply elem_of_app; right. by left.
Qed.

Lemma startServiceContainer_achieves service : achieves (E := E) (startServiceContainer a service) (service_running service).
Proof.
  unfold startServiceContainer, serviceContainerID, ContainerList, ContainerStart. run_host; intros Hsucc; try discriminate.
  all: do 2 eexists; (split; [by left|]); cbn; auto.
  right. right. by left.
Qed.

Lemma postJSON_achieves url : achieves (E := E) (postJSON url PayloadNone) (answered (plain "POST" url PayloadNone) accepted).
Proof.
  unfold postJSON, Do, bad_status. cbn [payload_marshals negb]. run_host; intros Hsucc; try discriminate.
  eexists. split; [by left|]. unfold accepted. lia.
Qed.

Lemma resetChaos_achieves : achieves (E := E) (resetChaos a) chaos_undone.
Proof.
  unfold resetChaos. eapply achieves_conseq.
  { apply achieves_then; [|apply achieves_then].
    - apply (achieves_forEach _ _ (fun endpoint => service_running endpoint.1)). intros endpoint _. apply startServiceContainer_achieves.
    - apply (achieves_forEach _ _ (fun endpoint => service_healthy endpoint.2)). intros endpoint _. apply waitForHealthy_achieves.
    - apply (together_achieves _ _ (fun endpoint => answered (plain "POST" (endpoint.2 +:+ "/chaos/reset") PayloadNone) accepted)).
      intros endpoint _. apply postJSON_achieves. }
  intros log (l1 & l23 & -> & (logs1 & H1 & ->) & l2 & l3 & -> & (logs2 & H2 & ->) & (logs3 & H3 & ->)) name url Hin.
  assert (forall service before log after, service_running service log -> service_running service (before ++ log ++ after)%list) as Hrun.
  { intros service before log after (c & others & Hl & Hr). exists c, others. split; [apply elem_of_app; right; apply elem_of_app; by left|].
    destruct Hr as [?|Hr]; [by left|right; apply elem_of_app; right; apply elem_of_app; by left]. }
  split_and!.
  - apply (Hrun name []). eapply (Forall2_concat_elem _ (fun endpoint => service_running endpoint.1) _ _ (name, url)); [|exact H1|done]. intros. by apply Hrun.
  - apply answered_within. eapply (Forall2_concat_elem _ (fun endpoint => service_healthy endpoint.2) _ _ (name, url)); [|exact H2|done].
    intros. by apply answered_within.
  - rewrite app_assoc, <- (app_nil_r (concat logs3)). apply answered_within.
    eapply (Forall2_concat_elem _ (fun endpoint => answered (plain "POST" (endpoint.2 +:+ "/chaos/reset") PayloadNone) accepted) _ _ (name, url)); [|exact H3|done].
    intros. by apply answered_within.
Qed.

Lemma resetCircuitBreakers_achieves : achieves (E := E) (resetCircuitBreakers a) circuits_closed.
Proof.
  unfold resetCircuitBreakers, Do, bad_status. run_host; intros Hsucc; try discriminate. eexists. split; [by left|]. unfold accepted. lia.
Qed.

Lemma deleteToxic_achieves name : achieves (E := E) (deleteToxic name)
  (answered (plain "DELETE" (toxiproxyBaseURL +:+ "/proxies/redis/toxics/" +:+ name) PayloadNone)
    (fun resp => accepted resp \/ hp_StatusCode resp = StatusNotFound)).
Proof.
  unfold deleteToxic, Do, bad_status. run_host; intros Hsucc; try discriminate. eexists. split; [by left|].
  match goal with H : _ && _ = false |- _ => apply andb_false_iff in H as [H|H] end; [left; unfold accepted; lia|].
  right. apply negb_false_iff in Heqb. by apply Z.eqb_eq.
Qed.

Lemma RemoveAllToxics_achieves : achieves (E := E) RemoveAllToxics toxics_removed.
Proof.
  unfold RemoveAllToxics. set (req := plain "GET" _ _).
  eapply (emits_bind _ _ (fun r log => match r with inr resp => log = [(CallHTTP req, ReplyResponse resp)] | inl _ => True end));
    [by apply emits_wrapping, emits_call|done|].
  intros resp log ->. destruct (Z.eqb_spec (hp_StatusCode resp) StatusNotFound).
  { apply emits_ret. intros _. exists resp. split; [by left|by left]. }
  destruct (bad_status resp); [by apply emits_throw|]. destruct (hp_Toxics resp) as [toxics|] eqn:Ht; [|by apply emits_throw].
  eapply emits_conseq; [apply (achieves_forEach deleteToxic toxics); intros; apply deleteToxic_achieves|].
  intros r log Hr Hsucc. destruct (Hr Hsucc) as (logs & Hlogs & ->). exists resp. split; [by left|]. right. exists toxics. split; [done|].
  intros name Hname. rewrite <- (app_nil_r (concat logs)). apply answered_within.
  eapply (Forall2_concat_elem _ (fun name => answered (plain "DELETE" (toxiproxyBaseURL +:+ "/proxies/redis/toxics/" +:+ name) PayloadNone)
    (fun resp => accepted resp \/ hp_StatusCode resp = StatusNotFound))); [|exact Hlogs|done]. intros. by apply answered_within.
Qed.

(** One round of the scan. *)
Lemma flushLoop_achieves fuel cursor : achieves (E := E) (flushLoop fuel cursor) (fun log =>
  (exists keys next, (CallScan cursor, ReplyKeys keys next) ∈ log) /\ (exists cursor keys, (CallScan cursor, ReplyKeys keys 0) ∈ log) /\
  (forall cursor keys next, (CallScan cursor, ReplyKeys keys next) ∈ log ->
     (keys <> [] -> (CallDel keys, ReplyDone) ∈ log) /\ (next <> 0%N -> exists keys' next', (CallScan next, ReplyKeys keys' next') ∈ log))).
Proof.
  revert cursor. induction fuel as [|fuel IH]; intros cursor; cbn [flushLoop]; [by apply emits_throw|].
  eapply (emits_bind _ _ (fun r log => match r with inr found => log = [(CallScan cursor, ReplyKeys found.1 found.2)] | inl _ => True end));
    [by apply emits_wrapping, emits_call|done|].
  intros [keys next] log ->. cbn [fst snd].
  eapply (emits_bind _ _ (fun r log => match r with inr _ => (keys = [] /\ log = []) \/ (keys <> [] /\ log = [(CallDel keys, ReplyDone)]) | inl _ => True end)); [|done|].
  { case_bool_decide; [apply emits_ret; by left|]. apply emits_wrapping, emits_call; [done|]. intros []. by right. }
  intros [] log Hdel.
  assert (forall rest, let log' := ((CallScan cursor, ReplyKeys keys next) :: log ++ rest)%list in
    (keys <> [] -> (CallDel keys, ReplyDone) ∈ log') /\
    forall cursor' keys' next', (CallScan cursor', ReplyKeys keys' next') ∈ log' ->
      (cursor', keys', next') = (cursor, keys, next) \/ (CallScan cursor', ReplyKeys keys' next') ∈ rest) as Hlog.
  { intros rest. cbv zeta. split.
    - intros Hk. destruct Hdel as [[? _]|[_ ->]]; [done|]. right. by left.
    - intros c' k' n' [Heq|[Hin|Hin]%elem_of_app]%elem_of_cons; [left; congruence| |by right].
      destruct Hdel as [[_ ->]|[_ ->]]; [by apply elem_of_nil in Hin|]. by apply list_elem_of_singleton in Hin. }
  destruct (N.eqb_spec next 0) as [->|Hnext].
  - apply emits_ret. intros _. destruct (Hlog []) as [Hd Hs]. rewrite app_nil_r in *. cbn. split_and!; [by do 2 eexists; left|by do 2 eexists; left|].
    intros c' k' n' Hin. destruct (Hs _ _ _ Hin) as [[= -> -> ->]|Hnil%elem_of_nil]; done.
  - eapply emits_conseq; [apply IH|]. intros r rest Hr Hsucc. destruct (Hr Hsucc) as ((k1 & n1 & Hfirst) & (c2 & k2 & Hlast) & Hall).
    destruct (Hlog rest) as [Hd Hs]. cbn.
    assert (forall x, x ∈ rest -> x ∈ ((CallScan cursor, ReplyKeys keys next) :: log ++ rest)%list) as Hin by (intros; right; apply elem_of_app; by right).
    split_and!; [by do 2 eexists; left|exists c2, k2; by apply Hin|].
    intros c' k' n' Hc. destruct (Hs _ _ _ Hc) as [[= -> -> ->]|Hrest]; [split; [done|]; intros _; exists k1, n1; by apply Hin|].
    destruct (Hall _ _ _ Hrest) as [Ha Hb]. split; [intros Hk; by apply Hin, Ha|]. intros Hn. destruct (Hb Hn) as (k3 & n3 & H3). exists k3, n3. by apply Hin.
Qed.

Lemma flushRedis_achieves fuel : achieves (E := E) (flushRedisRateLimitKeys a fuel) keys_deleted.
Proof.
  unfold flushRedisRateLimitKeys. destruct (ob_redis a) eqn:Hr; [eapply achieves_conseq; [apply flushLoop_achieves|]; intros log H _; exact H|].
  apply emits_ret. intros _ H. congruence.
Qed.

Lemma verify_achieves : achieves (E := E) verifyServiceHealth services_verified.
Proof.
  eapply achieves_conseq; [apply (together_achieves _ _ (fun endpoint => service_healthy endpoint.2)); intros; apply waitForHealthy_achieves|].
  intros log (logs & Hlogs & ->) name url Hin. rewrite <- (app_nil_r (concat logs)). apply (answered_within _ _ []).
  rewrite <- (app_nil_r (concat logs)). apply (answered_within _ _ []).
  eapply (Forall2_concat_elem _ (fun endpoint => service_healthy endpoint.2) _ _ (name, url)); [|exact Hlogs|done]. intros. by apply answered_within.
Qed.

Lemma drain_achieves : achieves (E := E) (Sleep resetDrainDelay) drained.
Proof. unfold Sleep, drained. run_host; intros Hsucc; [discriminate|by left]. Qed.

(** The outcome of a sequence of steps: what those achieved that succeeded. *)
Definition reset_outcome (names : list string) (effects : list (Log -> Prop)) (r : sum Err ResetResponse) log : Prop :=
  match r with
  | inr ResetClean => exists segments, log = concat segments /\ Forall2 (fun (P : Log -> Prop) segment => P segment) effects segments
  | inr (ResetPartial name _) => exists i segments failed, names !! i = Some name /\ log = (concat segments ++ failed)%list /\
      Forall2 (fun (P : Log -> Prop) segment => P segment) (take i effects) segments
  | inl _ => False
  end.

Lemma resetSteps_outcome steps effects :
  Forall2 (fun (step : string * M E unit) P => achieves step.2 P) steps effects ->
  emits (resetSteps steps) (reset_outcome (fst <$> steps) effects).
Proof.
  induction 1 as [|[name step] P steps effects Hstep Hsteps IH]; cbn [resetSteps]; [apply emits_ret; by exists []|].
  eapply (emits_bind _ _ (fun r log => match r with inr (inr _) => P log | inr (inl _) => True | inl _ => False end)); [|done|].
  { apply emits_try. eapply emits_conseq; [exact Hstep|]. intros [err|[]] log H; [done|by apply H]. }
  intros [err|[]] log HP; [apply emits_ret; exists 0%nat, [], log; by rewrite app_nil_r|].
  eapply emits_conseq; [exact IH|]. intros [err|[|name' err]] log'; cbn.
  - done.
  - intros (segments & -> & Hs). exists (log :: segments). split; [done|by constructor].
  - intros (i & segments & failed & Hn & -> & Hs). exists (S i), (log :: segments), failed. split_and!; [done|cbn; by rewrite app_assoc|by constructor].
Qed.
End Reset.

Definition reset_steps : list string :=
  ["stop_k6_containers"; "reset_chaos"; "reset_circuit_breakers"; "remove_toxics"; "flush_redis"; "drain_wait"; "verify_services"].

(** C34: a reset does what it says: when it answers that the system is clean, then, one after
    the other, every managed container was stopped, each service's container ran, was
    healthy and took the chaos reset, the gateway took the reset of its circuits, each toxic
    was removed, each rate limit key of a whole scan was deleted, the drain delay passed,
    and each service was healthy; when it names a failed step, those before it did so. *)
Theorem reset_does_what_it_says `{HostLaws E} (a : Observatory) fuel :
  emits (resetSystem (E := E) a fuel)
    (reset_outcome reset_steps
      [managed_stopped; chaos_undone a; circuits_closed a; toxics_removed; keys_deleted a; drained; services_verified]).
Proof.
  unfold resetSystem. match goal with |- emits (resetSteps ?steps) _ => apply (resetSteps_outcome steps) end. 
  apply Forall2_cons; split; [apply StopManaged_asks|]. apply Forall2_cons; split; [apply resetChaos_achieves|].
  apply Forall2_cons; split; [apply resetCircuitBreakers_achieves|]. apply Forall2_cons; split; [apply RemoveAllToxics_achieves|].
  apply Forall2_cons; split; [apply flushRedis_achieves|]. apply Forall2_cons; split; [apply drain_achieves|].
  apply Forall2_cons; split; [apply verify_achieves|]. apply Forall2_nil_2.
Qed.

Lemma reset_does_what_it_says_witness :
  let a := mkObservatory "irongate" "adm1n" true in
  (resetSystem (HH := demo_host None) a 1 (mkHost 0 [])).1 = inr ResetClean /\
  exists segments, ho_log (resetSystem (HH := demo_host None) a 1 (mkHost 0 [])).2 = concat segments /\ length segments = 7%nat.
Proof.
  cbv zeta. set (a := mkObservatory "irongate" "adm1n" true).
  destruct (reset_does_what_it_says (H := demo_host_laws None) a 1 (mkHost 0 [])) as (log & Hlog & Hr).
  assert ((resetSystem (HH := demo_host None) a 1 (mkHost 0 [])).1 = inr ResetClean) as Hclean by (by vm_compute).
  split; [exact Hclean|]. rewrite Hclean in Hr. destruct Hr as (segments & Hs & Hall). exists segments.
  split; [by rewrite Hlog, Hs|]. symmetry. exact (Forall2_length _ _ _ Hall).
Defined.
