(* ===== verification/Fleet.v ===== *)
(** * The observatory on the demo services: [cmd/observatory] with [services]

    A host made of the five services of the demo: its containers run them, its HTTP requests
    are served by them, with the client's timeout of ten seconds.  The theorem puts the two
    programs together: the chaos that the observatory undoes is gone from every service; and
    what is in the way of it. *)

From Stdlib Require Import SpecFloat.
From stdpp Require Import gmap strings.
From S2P Require Import Prelude GoStrings Scenarios Json Services Login Mux Host Runner Chaos.
From stdpp Require Import options.
#[local] Set Default Proof Using "Type*".
#[local] Open Scope string_scope.
#[local] Open Scope Z_scope.
#[local] Open Scope host_scope.

(** [requestTimeout], of the observatory's client. *)
Definition requestTimeout : Duration := 10 * Second.

Section Fleet.
Context {HI : JWTIssuer} {G : Type} {HR : RandSource G}.
Variables (jwtSecret overrides : string) (rng : G).

(** The clock, and the service that runs in each container; [None] in one that is stopped. *)
Record Fleet := mkFleet { fl_now : Time; fl_services : gmap string (Service G) }.

(** What a container runs, by the name of its service. *)
Definition handler_of (name : string) (now : Time) : SRequest -> Service G -> Outcome * Service G :=
  if bool_decide (name = "user-service-1" \/ name = "user-service-2") then user_service jwtSecret overrides now
  else if bool_decide (name = "order-service-1" \/ name = "order-service-2") then order_service
  else payment_service.

Definition fresh_of (name : string) : Service G :=
  if bool_decide (name = "user-service-1" \/ name = "user-service-2") then new_user_service rng
  else if bool_decide (name = "order-service-1" \/ name = "order-service-2") then new_order_service rng
  else new_payment_service rng.

(** What the client writes of a payload. *)
Definition body_of (payload : Payload) : Body :=
  match payload with
  | PayloadRate rate => mkBody [JObject [("rate", JFloat rate)]] true
  | PayloadDelay delayMS => mkBody [JObject [("delay_ms", JInt delayMS)]] true
  | _ => mkBody [] true
  end.

(** The service that a URL names, and the path. *)
Definition target_of (url : string) : option (string * string) :=
  match List.find (fun endpoint => HasPrefix url (endpoint.2 +:+ "/")) serviceEndpoints with
  | Some endpoint => Some (endpoint.1, TrimPrefix url endpoint.2)
  | None => None
  end.

Definition unreachable : HostError := mkHostError false false false "connection refused".
Definition timed_out : HostError := mkHostError false false false "Client.Timeout exceeded".

Definition fleet_http (req : HTTPRequest) (f : Fleet) : sum HostError HTTPResponse * Fleet :=
  match target_of (hr_URL req) with
  | None => (inl unreachable, f)
  | Some (name, path) =>
      match fl_services f !! name with
      | None => (inl unreachable, f)
      | Some service =>
          let sreq := mkSRequest (hr_Method req) path "" (Some (body_of (hr_Payload req))) (Some requestTimeout) false in
          let '(out, service) := handler_of name (fl_now f) sreq service in
          let services := <[name := service]> (fl_services f) in
          match out with
          | Answered after resp => (inr (mkHTTPResponse (sp_Status resp) "" None None), mkFleet (fl_now f + after) services)
          | Abandoned _ | Waiting => (inl timed_out, mkFleet (fl_now f + requestTimeout) services)
          end
      end
  end.

(** The service whose containers a list asks for. *)
Definition listed_service (filters : list (string * string)) : string :=
  match filters with
  | [_; (_, label)] => TrimPrefix label "com.docker.compose.service="
  | _ => ""
  end.

(** Nothing else of the host is asked here. *)
Definition fleet_host : Host Fleet := {|
  env_list filters f :=
    let name := listed_service filters in
    (inr (if bool_decide (name ∈ serviceEndpoints.*1) then [mkContainer name (bool_decide (is_Some (fl_services f !! name)))] else []), f);
  env_inspect id f := (inr id, f);
  env_create _ f := (inl unreachable, f);
  env_start name f := (None, mkFleet (fl_now f) (<[name := fresh_of name]> (fl_services f)));
  env_stop name f := (None, mkFleet (fl_now f) (delete name (fl_services f)));
  env_remove _ f := (None, f);
  env_wait _ f := (WaitExited 0 None, f);
  env_image_inspect _ f := (None, f);
  env_image_pull _ f := (None, f);
  env_http := fleet_http;
  env_scan _ f := (inr ([], 0%N), f);
  env_del _ f := (None, f);
  env_sleep d f := (None, mkFleet (fl_now f + Z.max 0 d) (fl_services f));
  env_now := fl_now;
|}.

#[local] Existing Instance fleet_host.

(** ** Requests to the services *)

(** Every container runs a service of the shape that the theorems on chaos are about, with
    a health check. *)
Lemma handler_of_service name now :
  exists (A : Type) (own : Patterns A) (serve : A -> SRequest -> Service G -> SResponse * Service G) health service,
    handler_of name now = serveService own serve /\ own_endpoints own serve /\
    own [""; "health"] = [("GET", health)] /\ forall req s, serve health req s = (HealthHandler service, s).
Proof.
  unfold handler_of. case_bool_decide; [|case_bool_decide].
  - exists UserEndpoint, user_patterns, (serveUser jwtSecret overrides now), (UserItems CheckHealth), "user-service". split_and!; [done|apply user_own|done|done].
  - exists ItemsEndpoint, order_patterns, (serveItems "order-service" StatusCreated new_order), CheckHealth, "order-service". split_and!; [done|apply order_own|done|done].
  - exists ItemsEndpoint, payment_patterns, (serveItems "payment-service" StatusOK new_payment), CheckHealth, "payment-service". split_and!; [done|apply payment_own|done|done].
Qed.

Lemma fresh_of_quiet name : quiet (sv_chaos (fresh_of name)).
Proof. unfold fresh_of. by repeat case_bool_decide. Qed.

Lemma target_of_endpoint endpoint path :
  endpoint ∈ serviceEndpoints -> target_of (endpoint.2 +:+ "/" +:+ path) = Some (endpoint.1, "/" +:+ path).
Proof.
  unfold serviceEndpoints. rewrite !elem_of_cons, elem_of_nil. intros [->|[->|[->|[->|[->|[]]]]]]; cbn [fst snd].
  all: unfold target_of, serviceEndpoints; cbn -[String.append HasPrefix TrimPrefix]; by rewrite ?append_cons, ?append_nil_l.
Qed.

Lemma endpoint_name endpoint : endpoint ∈ serviceEndpoints -> endpoint.1 ∈ serviceEndpoints.*1.
Proof. intros Hin. apply list_elem_of_fmap. eauto. Qed.

(** ** What a request does to the fleet *)

(** A request to an endpoint touches its service only. *)
Lemma fleet_http_touches endpoint method path payload f other :
  endpoint ∈ serviceEndpoints -> other <> endpoint.1 ->
  fl_services (snd (fleet_http (plain method (endpoint.2 +:+ "/" +:+ path) payload) f)) !! other = fl_services f !! other.
Proof.
  intros Hin Hne. unfold fleet_http. cbn [hr_URL plain]. rewrite target_of_endpoint by done. destruct (fl_services f !! endpoint.1); [|done].
  destruct (handler_of _ _ _ _) as [[] service']; cbn [snd fl_services]; by rewrite lookup_insert_ne.
Qed.

Definition reset_request : SRequest := mkSRequest "POST" "/chaos/reset" "" (Some (mkBody [] true)) (Some requestTimeout) false.
Definition health_request : SRequest := mkSRequest "GET" "/health" "" (Some (mkBody [] true)) (Some requestTimeout) false.

(** A reset of a container that runs. *)
Lemma fleet_reset endpoint f :
  endpoint ∈ serviceEndpoints ->
  fleet_http (plain "POST" (endpoint.2 +:+ "/chaos/reset") PayloadNone) f =
    match fl_services f !! endpoint.1 with
    | None => (inl unreachable, f)
    | Some service => (inr (mkHTTPResponse 200 "" None None),
        mkFleet (fl_now f + 0) (<[endpoint.1 := with_sv_chaos (mkChaos 0 float_zero false (ch_rng (sv_chaos service))) service]> (fl_services f)))
    end.
Proof.
  intros Hin. unfold fleet_http. cbn [hr_URL hr_Method hr_Payload plain body_of]. change "/chaos/reset" with ("/" +:+ "chaos/reset") at 1.
  rewrite target_of_endpoint by done. destruct (fl_services f !! endpoint.1) as [service|]; [|done].
  destruct (handler_of_service endpoint.1 (fl_now f)) as (A & own & serve & health & label & -> & [Hown _] & _).
  change (mkSRequest "POST" _ "" _ _ false) with reset_request.
  by rewrite (serveService_chaos own serve ChaosReset "reset") by (done || by vm_compute).
Qed.

(** The health check of a container that runs. *)
Definition checked (c : ChaosState G) : option Z * ChaosState G :=
  if ch_down c then (None, c)
  else if (0 <? ch_delay c) && negb (ch_delay c <? requestTimeout) then (None, c)
  else if SFltb float_zero (ch_errorRate c) then
    let '(fails, c) := shouldFail (ch_errorRate c) c in (Some (if fails : bool then 500 else 200), c)
  else (Some 200, c).

Lemma fleet_health endpoint f service :
  endpoint ∈ serviceEndpoints -> fl_services f !! endpoint.1 = Some service ->
  let '(r, f') := fleet_http (plain "GET" (endpoint.2 +:+ "/health") PayloadNone) f in
  let '(status, chaos) := checked (sv_chaos service) in
  fl_services f' = <[endpoint.1 := with_sv_chaos chaos service]> (fl_services f) /\
  match r with inr resp => status = Some (hp_StatusCode resp) | inl _ => status = None end.
Proof.
  intros Hin Hrun. unfold fleet_http. cbn [hr_URL hr_Method hr_Payload plain body_of]. change "/health" with ("/" +:+ "health").
  rewrite target_of_endpoint by done. rewrite Hrun. change ("/" +:+ "health") with "/health".
  destruct (handler_of_service endpoint.1 (fl_now f)) as (A & own & serve & health & label & -> & _ & Hhealth & Hserve).
  change (mkSRequest "GET" _ "" _ _ false) with health_request.
  assert (forall s, serveMux own serve health_request s = (HealthHandler label, s)) as Hmux.
  { intros s. unfold serveMux, route. replace (cleanPath (sq_Path health_request)) with "/health" by (by vm_compute).
    change (Split (sq_Path health_request) slash) with [""; "health"]. unfold service_patterns. rewrite Hhealth.
    cbn -[takes]. replace (takes "GET" "GET") with true by (by vm_compute). cbn [snd]. apply Hserve. }
  unfold serveService, Middleware. change (HasPrefix (sq_Path health_request) "/chaos/") with false. cbn [snapshot].
  unfold checked, timerFires, forward. cbn [sq_Gone health_request sq_TimerFirst].
  assert (forall c, c = sv_chaos service -> with_sv_chaos c service = service) as Hsame by (intros c ->; by destruct service).
  destruct (ch_down (sv_chaos service)); [cbn; by rewrite Hsame|].
  destruct (ch_delay (sv_chaos service) <? requestTimeout) eqn:Hlt; cbn [negb]; rewrite ?andb_false_r, ?andb_true_r.
  2:{ destruct (requestTimeout <? ch_delay (sv_chaos service)) eqn:Hgt; cbn [negb andb]; rewrite ?andb_true_r.
      - destruct (0 <? ch_delay (sv_chaos service)) eqn:Hpos; [cbn; by rewrite Hsame|]. unfold requestTimeout, Second, Millisecond in *. lia.
      - destruct (0 <? ch_delay (sv_chaos service)) eqn:Hpos; [cbn; by rewrite Hsame|]. unfold requestTimeout, Second, Millisecond in *. lia. }
  destruct (SFltb float_zero _); [|rewrite Hmux; cbn; by rewrite Hsame].
  destruct (shouldFail _ _) as [[] c]; [done|]. by rewrite Hmux.
Qed.

(** ** Success *)

Definition quiet_at (name : string) (f : Fleet) : Prop := exists service, fl_services f !! name = Some service /\ quiet (sv_chaos service).

Lemma together_all {E A} (f : A -> M E unit) (P : A -> E -> Prop) l (s : HostState E) :
  (forall x s, x ∈ l -> let '(r, s') := f x s in (r = inr tt -> P x (ho_env s')) /\ (forall y, P y (ho_env s) -> P y (ho_env s'))) ->
  let '(r, s') := together f l s in
  (r = inr tt -> forall x, x ∈ l -> P x (ho_env s')) /\ (forall y, P y (ho_env s) -> P y (ho_env s')).
Proof.
  revert s. induction l as [|x l IH]; intros s Hf; cbn [together]; [by split; [intros _ x ?%elem_of_nil|]|].
  unfold bind, try. pose proof (Hf x s ltac:(by left)) as Hx. destruct (f x s) as [r1 s1]. destruct Hx as [Hx1 Hx2].
  specialize (IH s1 ltac:(intros y s' Hy; apply Hf; by right)). destruct (together f l s1) as [r2 s2]. destruct IH as [IH1 IH2].
  destruct r1 as [err|[]]; [by split; [|auto]|]. destruct r2 as [err|[]]; [by split; [|auto]|].
  split; [|auto]. intros _ y [->|Hy]%elem_of_cons; auto.
Qed.

Lemma post_quiets endpoint (s : HostState Fleet) :
  endpoint ∈ serviceEndpoints ->
  let '(r, s') := postJSON (endpoint.2 +:+ "/chaos/reset") PayloadNone s in
  (r = inr tt -> quiet_at endpoint.1 (ho_env s')) /\ (forall other, quiet_at other (ho_env s) -> quiet_at other (ho_env s')) /\
  (is_Some (fl_services (ho_env s) !! endpoint.1) -> r = inr tt).
Proof.
  intros Hin. unfold postJSON, bind, wrapping, Do, call. cbn [payload_marshals negb env_http fleet_host]. rewrite fleet_reset by done.
  destruct (fl_services (ho_env s) !! endpoint.1) as [service|] eqn:Hrun; unfold quiet_at; cbn.
  - split_and!; [intros _; eexists; by rewrite lookup_insert_eq| |done]. intros other [service' [Hs Hq]].
    destruct (decide (other = endpoint.1)) as [->|Hne]; [eexists; by rewrite lookup_insert_eq|]. rewrite lookup_insert_ne by done. eauto.
  - split_and!; [done|done|]. by intros [? [=]].
Qed.

(** Services that answer their health checks: those that run are not down, fail no request,
    and are faster than the client's timeout. *)
Definition benign_chaos (c : ChaosState G) : Prop :=
  ch_down c = false /\ SFltb float_zero (ch_errorRate c) = false /\ ch_delay c < requestTimeout.
Definition benign (f : Fleet) : Prop := forall name service, fl_services f !! name = Some service -> benign_chaos (sv_chaos service).

Definition running (name : string) (f : Fleet) : Prop := is_Some (fl_services f !! name).

(** From a benign fleet the computation succeeds, keeps it benign and running, and achieves. *)
Definition does (pre : Fleet -> Prop) (m : M Fleet unit) (post : Fleet -> Prop) : Prop :=
  forall s, benign (ho_env s) -> pre (ho_env s) ->
    exists s', m s = (inr tt, s') /\ benign (ho_env s') /\ (forall name, running name (ho_env s) -> running name (ho_env s')) /\ post (ho_env s').

Definition stable (P : Fleet -> Prop) : Prop := forall f f', (forall name, running name f -> running name f') -> P f -> P f'.

Lemma does_forEach {A} pre (f : A -> M Fleet unit) l (R : A -> Fleet -> Prop) :
  stable pre -> (forall x, stable (R x)) -> (forall x, x ∈ l -> does pre (f x) (R x)) ->
  does pre (forEach f l) (fun g => forall x, x ∈ l -> R x g).
Proof.
  intros Hpre Hst Hf. induction l as [|x l IH]; intros s Hb Hp; cbn [forEach].
  - exists s. split_and!; [done..|]. by intros x ?%elem_of_nil.
  - destruct (Hf x ltac:(by left) s Hb Hp) as (s1 & H1 & Hb1 & Hm1 & HR1).
    destruct (IH ltac:(intros y Hy; apply Hf; by right) s1 Hb1 (Hpre _ _ Hm1 Hp)) as (s2 & H2 & Hb2 & Hm2 & HR2).
    exists s2. unfold bind. rewrite H1. split_and!; [done|done|by auto|]. intros y [->|Hy]%elem_of_cons; [|by auto]. by apply (Hst x _ _ Hm2).
Qed.

Lemma does_then P Q R m k : does P m Q -> does Q k R -> does P (m ;; k) R.
Proof.
  intros Hm Hk s Hb Hp. destruct (Hm s Hb Hp) as (s1 & H1 & Hb1 & Hm1 & HQ). destruct (Hk s1 Hb1 HQ) as (s2 & H2 & Hb2 & Hm2 & HR2).
  exists s2. unfold bind. rewrite H1. eauto 10.
Qed.

Lemma benign_insert name service f t :
  benign f -> benign_chaos (sv_chaos service) -> benign (mkFleet t (<[name := service]> (fl_services f))).
Proof.
  intros Hb Hc other service'. cbn. destruct (decide (other = name)) as [->|Hne]; [rewrite lookup_insert_eq; by intros [= <-]|].
  rewrite lookup_insert_ne by done. apply Hb.
Qed.

Lemma running_insert name other service f t : running other f -> running other (mkFleet t (<[name := service]> (fl_services f))).
Proof. unfold running. cbn. intros H. destruct (decide (other = name)) as [->|Hne]; [by rewrite lookup_insert_eq|by rewrite lookup_insert_ne]. Qed.

Lemma listed_service_of project name :
  listed_service [("label", project); ("label", "com.docker.compose.service=" +:+ name)] = name.
Proof. unfold listed_service. apply (TrimPrefix_app "com.docker.compose.service="). Qed.

Lemma start_does (a : Observatory) endpoint :
  endpoint ∈ serviceEndpoints -> does (fun _ => True) (startServiceContainer a endpoint.1) (running endpoint.1).
Proof.
  intros Hin s Hb _. unfold startServiceContainer, serviceContainerID, bind, wrapping, ContainerList, ContainerStart, effect, call, ret.
  cbn [env_list env_start fleet_host]. rewrite listed_service_of, bool_decide_eq_true_2 by (by apply endpoint_name). cbn [ho_env ho_log fst snd].
  destruct (bool_decide _) eqn:Hrun; cbn [ct_Running ct_ID fst snd].
  - eexists. split; [reflexivity|]. split_and!; [done|done|]. by apply bool_decide_eq_true in Hrun.
  - eexists. split; [reflexivity|]. cbn [ho_env]. split_and!.
    + apply benign_insert; [done|]. destruct (fresh_of_quiet endpoint.1) as (H1 & H2 & H3). unfold benign_chaos. rewrite H1, H2, H3. by vm_compute.
    + intros name. apply running_insert.
    + unfold running. cbn. by rewrite lookup_insert_eq.
Qed.

Lemma checked_benign c : benign_chaos c -> checked c = (Some 200, c).
Proof.
  intros (Hd & Hr & Ht). unfold checked. rewrite Hd, Hr. destruct (Z.ltb_spec (ch_delay c) requestTimeout); [|lia]. by rewrite andb_false_r.
Qed.

Lemma wait_does endpoint : endpoint ∈ serviceEndpoints -> does (running endpoint.1) (waitForHealthy endpoint) (fun _ => True).
Proof.
  intros Hin s Hb [service Hrun]. unfold waitForHealthy, bind at 1, Now at 1, health_rounds. cbn [healthLoop].
  unfold bind at 1, try, Do, call. cbn [env_http fleet_host].
  pose proof (fleet_health endpoint (ho_env s) service Hin Hrun) as H. rewrite checked_benign in H by (by apply (Hb endpoint.1)).
  destruct (fleet_http _ _) as [r f']. destruct H as [Hf Hr]. destruct r as [err|resp]; [done|]. injection Hr as Hr.
  rewrite <- Hr. cbn [Z.eqb Pos.eqb StatusOK]. eexists. split; [reflexivity|]. cbn [ho_env].
  assert (with_sv_chaos (sv_chaos service) service = service) as Hsame by (by destruct service). rewrite Hsame, insert_id in Hf by done.
  unfold benign, running. rewrite Hf. by auto.
Qed.

Lemma posts_succeed l (s : HostState Fleet) :
  (forall endpoint, endpoint ∈ l -> endpoint ∈ serviceEndpoints) -> (forall endpoint, endpoint ∈ l -> running endpoint.1 (ho_env s)) ->
  fst (together (fun endpoint => postJSON (endpoint.2 +:+ "/chaos/reset") PayloadNone) l s) = inr tt.
Proof.
  revert s. induction l as [|x l IH]; intros s Hl Hrun; cbn [together]; [done|].
  unfold bind, try. pose proof (post_quiets x s ltac:(apply Hl; by left)) as Hx.
  assert (forall other, running other (ho_env s) -> running other (ho_env (snd (postJSON (x.2 +:+ "/chaos/reset") PayloadNone s)))) as Hmono.
  { intros other Ho. unfold postJSON, bind, wrapping, Do, call. cbn [payload_marshals negb env_http fleet_host].
    rewrite fleet_reset by (apply Hl; by left). destruct (fl_services (ho_env s) !! x.1); [|done]. cbn. by apply running_insert. }
  destruct (postJSON _ _ s) as [r1 s1]. destruct Hx as (_ & _ & Hx). rewrite Hx by (apply Hrun; by left).
  specialize (IH s1 ltac:(intros y Hy; apply Hl; by right) ltac:(intros y Hy; apply Hmono, Hrun; by right)).
  destruct (together _ l s1) as [r2 s2]. cbn in IH. by rewrite IH.
Qed.

(** C30: the observatory undoes the chaos of the services: when undoing it succeeds, every service
    runs and has no chaos left; and it does succeed on services that answer their health
    checks, whichever of them were stopped. *)
Theorem observatory_undoes_chaos (a : Observatory) (s : HostState Fleet) :
  let '(result, s') := resetChaos a s in
  (result = inr tt -> forall endpoint, endpoint ∈ serviceEndpoints -> quiet_at endpoint.1 (ho_env s')) /\
  (benign (ho_env s) -> result = inr tt).
Proof.
  destruct (resetChaos a s) as [result s'] eqn:Hreset. unfold resetChaos in Hreset. split.
  - intros ->. unfold bind at 1 in Hreset. destruct (forEach _ _ s) as [[?|?] s1]; [done|].
    unfold bind in Hreset. destruct (forEach _ _ s1) as [[?|?] s2]; [done|].
    pose proof (together_all (fun endpoint => postJSON (endpoint.2 +:+ "/chaos/reset") PayloadNone)
      (fun endpoint f => endpoint ∈ serviceEndpoints -> quiet_at endpoint.1 f) serviceEndpoints s2) as H.
    rewrite Hreset in H. intros endpoint Hin. refine (proj1 (H _) eq_refl endpoint Hin Hin). intros x s3 Hx. pose proof (post_quiets x s3 Hx) as Hp.
    destruct (postJSON _ _ s3) as [r s4]. destruct Hp as (H1 & H2 & _). split; [by auto|]. intros y Hy Hyin. by auto.
  - intros Hb.
    assert (does (fun _ => True) (forEach (fun endpoint => startServiceContainer a endpoint.1) serviceEndpoints ;; forEach waitForHealthy serviceEndpoints)
      (fun f => forall endpoint, endpoint ∈ serviceEndpoints -> running endpoint.1 f)) as Hdo.
    { eapply does_then; [apply (does_forEach _ _ _ (fun endpoint => running endpoint.1))|].
      - done.
      - intros x f f' Hm. apply Hm.
      - intros endpoint Hin. by apply start_does.
      - intros s1 Hb1 Hrun. destruct (does_forEach (fun f => forall endpoint, endpoint ∈ serviceEndpoints -> running endpoint.1 f)
          waitForHealthy serviceEndpoints (fun _ _ => True)) with (s := s1) as (s2 & H2 & Hb2 & Hm2 & _).
        + intros f f' Hm Hf endpoint Hin. by apply Hm, Hf.
        + by intros x f f' _ _.
        + intros endpoint Hin s3 Hb3 Hp3. apply wait_does; [done|done|by apply Hp3].
        + done.
        + exact Hrun.
        + exists s2. split_and!; [done..|]. intros endpoint Hin. by apply Hm2, Hrun. }
    destruct (Hdo s Hb I) as (s1 & H1 & _ & _ & Hrun). unfold bind in H1, Hreset.
    destruct (forEach (fun endpoint => _) _ s) as [[?|?] s2]; [done|]. rewrite H1 in Hreset.
    pose proof (posts_succeed serviceEndpoints s1 ltac:(done) Hrun) as Hp. by rewrite Hreset in Hp.
Qed.

(** ** What is in the way *)

(** A service that fails every request. *)
Definition failing (name : string) (f : Fleet) : Prop :=
  exists service, fl_services f !! name = Some service /\ ch_errorRate (sv_chaos service) = float_one.

Context {HL : RandSourceLaws G}.

Lemma checked_failing c : ch_errorRate c = float_one -> ch_errorRate (snd (checked c)) = float_one /\ fst (checked c) <> Some 200.
Proof.
  intros Hr. unfold checked. destruct (ch_down c); [done|]. destruct (_ && _); [done|]. rewrite Hr.
  change (SFltb float_zero float_one) with true. cbv iota. unfold shouldFail. pose proof (Float64_below_one (ch_rng c)) as Hx.
  destruct (Float64 _) as [x rng']. cbn [fst] in Hx. by rewrite Hx.
Qed.

(** A health check, of any service, leaves it failing; its own does not succeed. *)
Lemma check_failing endpoint name f :
  endpoint ∈ serviceEndpoints -> failing name f ->
  let '(r, f') := fleet_http (plain "GET" (endpoint.2 +:+ "/health") PayloadNone) f in
  failing name f' /\ (endpoint.1 = name -> forall resp, r = inr resp -> hp_StatusCode resp <> 200).
Proof.
  intros Hin (service & Hrun & Hr). destruct (decide (endpoint.1 = name)) as [Heq|Hne].
  - subst name. pose proof (fleet_health endpoint f service Hin Hrun) as H. destruct (fleet_http _ f) as [r f'].
    destruct (checked_failing (sv_chaos service) Hr) as [Hc Hs]. destruct (checked _) as [status chaos]. cbn in Hc, Hs. destruct H as [Hf Hst]. split.
    + exists (with_sv_chaos chaos service). by rewrite Hf, lookup_insert_eq.
    + intros _ resp -> H200. congruence.
  - pose proof (fleet_http_touches endpoint "GET" "health" PayloadNone f name Hin ltac:(congruence)) as Ht.
    change ("/" +:+ "health") with "/health" in Ht. destruct (fleet_http _ f) as [r f']. cbn [snd] in Ht. split; [|done]. exists service. by rewrite Ht.
Qed.

Lemma healthLoop_failing fuel deadline endpoint name (s : HostState Fleet) :
  endpoint ∈ serviceEndpoints -> failing name (ho_env s) ->
  failing name (ho_env (snd (healthLoop fuel deadline endpoint.1 endpoint.2 s))) /\
  (endpoint.1 = name -> fst (healthLoop fuel deadline endpoint.1 endpoint.2 s) <> inr tt).
Proof.
  intros Hin. revert s. induction fuel as [|fuel IH]; intros s Hf; [by split|].
  pose proof (healthLoop_S fuel deadline endpoint.1 endpoint.2 s) as Heq. unfold Do, call in Heq. cbn [env_http fleet_host] in Heq.
  pose proof (check_failing endpoint name (ho_env s) Hin Hf) as H. destruct (fleet_http _ _) as [r f']. destruct H as [Hf' H200].
  assert (forall r' log, let x := afterCheck deadline r' (healthLoop fuel deadline endpoint.1 endpoint.2) (mkHost f' log) in
    failing name (ho_env (snd x)) /\ (endpoint.1 = name -> fst x <> inr tt)) as Hafter.
  { intros r' log x. unfold x, afterCheck, bind, Now. cbn [ho_env]. destruct (After _ _); [done|]. unfold Sleep, effect, call. cbn. by apply IH. }
  destruct r as [err|resp]; rewrite Heq; [apply Hafter|].
  destruct (Z.eqb_spec (hp_StatusCode resp) StatusOK) as [Hok|]; [|apply Hafter].
  split; [done|]. intros Hname. by destruct (H200 Hname resp eq_refl).
Qed.

Lemma forEach_failing {A} (f : A -> M Fleet unit) l x name (s : HostState Fleet) :
  (forall y s, y ∈ l -> failing name (ho_env s) -> failing name (ho_env (snd (f y s)))) ->
  failing name (ho_env s) ->
  failing name (ho_env (snd (forEach f l s))) /\
  (x ∈ l -> (forall s, failing name (ho_env s) -> fst (f x s) <> inr tt) -> fst (forEach f l s) <> inr tt).
Proof.
  revert s. induction l as [|y l IH]; intros s Hf Hs; cbn [forEach]; [split; [done|by intros ?%elem_of_nil]|].
  unfold bind. pose proof (Hf y s ltac:(by left) Hs) as Hy. destruct (f y s) as [[err|[]] s1] eqn:Heq; [done|].
  destruct (IH s1 ltac:(intros z s' Hz; apply Hf; by right) Hy) as [IH1 IH2]. split; [done|].
  intros [->|Hx]%elem_of_cons Hfail; [|by apply IH2]. specialize (Hfail s Hs). by rewrite Heq in Hfail.
Qed.

Lemma start_failing (a : Observatory) endpoint name (s : HostState Fleet) :
  endpoint ∈ serviceEndpoints -> failing name (ho_env s) -> failing name (ho_env (snd (startServiceContainer a endpoint.1 s))).
Proof.
  intros Hin (service & Hrun & Hr). unfold startServiceContainer, serviceContainerID, bind, wrapping, ContainerList, ContainerStart, effect, call, ret.
  cbn [env_list env_start fleet_host]. rewrite listed_service_of, bool_decide_eq_true_2 by (by apply endpoint_name). cbn [ho_env ho_log fst snd].
  destruct (bool_decide _) eqn:Hrun'; cbn [ct_Running ct_ID fst snd ho_env]; [by exists service|].
  apply bool_decide_eq_false in Hrun'. exists service. cbn. split; [|done]. rewrite lookup_insert_ne; [done|]. intros <-. apply Hrun'. by exists service.
Qed.

(** A service that fails every request, as an injected error rate of one makes it, fails its
    health checks too, for which the reset waits before it undoes the chaos: undoing fails, and
    the service goes on failing. *)
Lemma injected_errors_defeat_reset (a : Observatory) name (s : HostState Fleet) :
  name ∈ serviceEndpoints.*1 -> failing name (ho_env s) ->
  fst (resetChaos a s) <> inr tt /\ failing name (ho_env (snd (resetChaos a s))).
Proof.
  intros (endpoint & -> & Hin)%list_elem_of_fmap Hf. unfold resetChaos, bind.
  destruct (forEach_failing (fun endpoint => startServiceContainer a endpoint.1) serviceEndpoints endpoint endpoint.1 s) as [H1 _]; [|done|].
  { intros y s' Hy. by apply start_failing. }
  destruct (forEach (fun endpoint => _) _ s) as [[err|[]] s1]; [done|].
  destruct (forEach_failing waitForHealthy serviceEndpoints endpoint endpoint.1 s1) as [H2 H3]; [|done|].
  { intros y s' Hy Hs'. unfold waitForHealthy, bind, Now. by apply healthLoop_failing. }
  specialize (H3 Hin). destruct (forEach waitForHealthy _ s1) as [[err|[]] s2]; [done|].
  destruct H3; [|done]. intros s' Hs'. unfold waitForHealthy, bind, Now.
  by apply (proj2 (healthLoop_failing health_rounds (AddDuration (env_now (ho_env s')) (10 * Second)) endpoint endpoint.1 s' Hin Hs')).
Qed.
End Fleet.

(** ** A fleet with one container stopped and one service slow *)

Definition demo_fleet : Fleet (G := unit) :=
  mkFleet 0 (list_to_map [
    ("user-service-1", new_user_service tt);
    ("user-service-2", with_sv_chaos (mkChaos (2 * Second) float_zero false tt) (new_user_service tt));
    ("order-service-2", new_order_service tt);
    ("payment-service-1", new_payment_service tt)]).

Lemma observatory_undoes_chaos_witness :
  let HH := fleet_host (HI := coded_issuer) (HR := demo_rand) "s3cret" "" tt in
  let '(result, s') := resetChaos (HH := HH) (mkObservatory "irongate" "adm1n" true) (mkHost demo_fleet []) in
  result = inr tt /\ forall endpoint, endpoint ∈ serviceEndpoints -> quiet_at endpoint.1 (ho_env s').
Proof.
  intros HH.
  pose proof (observatory_undoes_chaos (HI := coded_issuer) (HR := demo_rand) "s3cret" "" tt (mkObservatory "irongate" "adm1n" true) (mkHost demo_fleet [])) as H.
  fold HH in H. destruct (resetChaos _ _) as [result s']. destruct H as [H1 H2].
  assert (result = inr tt) as Hr.
  { apply H2. intros name service Hs. apply elem_of_list_to_map_2 in Hs. rewrite !elem_of_cons, elem_of_nil in Hs.
    destruct Hs as [[= -> ->]|[[= -> ->]|[[= -> ->]|[[= -> ->]|[]]]]]; by vm_compute. }
  split; [exact Hr|exact (H1 Hr)].
Defined.
