(* ===== verification/Url.v ===== *)
(** * Query strings: what the observatory uses of [net/url]

    [URL.Query().Get]: the pairs of a raw query, by [ParseQuery], and their escapes; and what
    a client sends of a URL that it is given as a string. *)

From stdpp Require Import strings.
From S2P Require Import Prelude GoStrings.
From stdpp Require Import options.
#[local] Open Scope string_scope.

Definition percent : ascii := byte 37.
Definition plus : ascii := byte 43.
Definition ampersand : ascii := byte 38.
Definition semicolon : ascii := byte 59.
Definition equals : ascii := byte 61.
Definition hash : ascii := byte 35.

(** [unhex], of a digit. *)
Definition hex_value (a : ascii) : option nat :=
  let n := nat_of_ascii a in
  if ((48 <=? n) && (n <=? 57))%nat then Some (n - 48)%nat
  else if ((97 <=? n) && (n <=? 102))%nat then Some (n - 87)%nat
  else if ((65 <=? n) && (n <=? 70))%nat then Some (n - 55)%nat
  else None.

(** [unescape], of a query's component or a fragment: a plus is a space in the first only. *)
Fixpoint unescape (component : bool) (s : string) : option string :=
  match s with
  | EmptyString => Some ""
  | String a rest =>
      if bool_decide (a = percent) then
        match rest with
        | String h (String l rest) =>
            x ← hex_value h; y ← hex_value l; u ← unescape component rest; Some (String (byte (16 * x + y)) u)
        | _ => None
        end
      else u ← unescape component rest; Some (String (if component && bool_decide (a = plus) then space else a) u)
  end.

Definition QueryUnescape : string -> option string := unescape true.

(** What [parseQuery] makes of the part between two ampersands. *)
Definition parsePair (part : string) : option (string * string) :=
  if contains_byte semicolon part || bool_decide (part = "") then None
  else
    let '(key, value) := default (part, "") (Cut part equals) in
    key ← QueryUnescape key; value ← QueryUnescape value; Some (key, value).

Definition ParseQuery (raw : string) : list (string * string) := omap parsePair (Split raw ampersand).

(** [Query().Get]: the first value of the key, or nothing. *)
Definition Query_Get (raw key : string) : string :=
  match List.find (fun kv => bool_decide (kv.1 = key)) (ParseQuery raw) with Some kv => kv.2 | None => "" end.

(** [url.Parse] of a URL whose part before the query is sound: no control byte, and a
    fragment whose escapes are sound. *)
Fixpoint has_control (s : string) : bool :=
  match s with EmptyString => false | String a s => let n := nat_of_ascii a in (n <? 32)%nat || (n =? 127)%nat || has_control s end.

Definition url_parses (url : string) : bool :=
  negb (has_control url) && match Cut url hash with Some (_, fragment) => bool_decide (is_Some (unescape false fragment)) | None => true end.

(** What is sent of a query: a fragment stays with the client. *)
Definition sent_query (raw : string) : string := match Cut raw hash with Some (query, _) => query | None => raw end.

Example query_values :
  Query_Get "a=1&query=rate%28up%5B5m%5D%29+%2B+1&query=x" "query" = "rate(up[5m]) + 1" /\
  Query_Get "query=%zz&query=b;c&=d&query" "query" = "" /\ Query_Get "query=%zz&query=e" "query" = "e".
Proof. by vm_compute. Qed.
