(* ===== verification/PromQL.v ===== *)
(** * The observatory's query filter: [cmd/observatory/metrics.go]

    [allowedPrometheusQuery] cuts the query into the tokens of its regular expression and
    looks at each.  The lemmas: the tokens are the identifiers of the query, and the loop
    over them is a condition on each. *)

From stdpp Require Import strings.
From S2P Require Import Prelude GoStrings.
From stdpp Require Import options.
#[local] Set Default Proof Using "Type*".
#[local] Open Scope string_scope.

Definition allowedMetricNames : list string := [
  "gateway_requests_total"; "gateway_request_duration_seconds"; "gateway_request_failures_total";
  "gateway_rate_limit_rejections_total"; "gateway_retries_total"; "gateway_retry_delay_seconds";
  "gateway_circuit_opens_total"; "gateway_open_circuits"; "gateway_circuit_state";
  "gateway_in_flight_requests"; "gateway_upstream_duration_seconds"].

Definition allowedPromQLFunctions : list string :=
  ["avg"; "clamp_min"; "histogram_quantile"; "increase"; "max"; "rate"; "sum"].

Definition allowedPromQLKeywords : list string :=
  ["bool"; "by"; "group_left"; "group_right"; "ignoring"; "le"; "offset"; "on"; "service"; "without"; "__rate_interval"].

(** ** Tokens: [[A-Za-z_:][A-Za-z0-9_:]*] *)

Definition token_start (a : ascii) : bool :=
  let n := nat_of_ascii a in ((65 <=? n) && (n <=? 90) || (97 <=? n) && (n <=? 122) || (n =? 95) || (n =? 58))%nat.
Definition digit (a : ascii) : bool := let n := nat_of_ascii a in ((48 <=? n) && (n <=? 57))%nat.
Definition token_byte (a : ascii) : bool := token_start a || digit a.

(** The longest prefix of token bytes, and the rest. *)
Fixpoint span_token (s : string) : string * string :=
  match s with
  | EmptyString => ("", "")
  | String a rest => if token_byte a then let '(tok, rest) := span_token rest in (String a tok, rest) else ("", s)
  end.

(** [FindAllStringIndex]: each match with what comes before and after it.  The search goes on
    where the last match ended; the fuel is the length of what is left. *)
Fixpoint tokens (fuel : nat) (before s : string) : list (string * string * string) :=
  match fuel with
  | O => []
  | S fuel =>
      match s with
      | EmptyString => []
      | String a rest =>
          if token_start a
          then let '(tok, after) := span_token rest in
               (before, String a tok, after) :: tokens fuel (before +:+ String a tok) after
          else tokens fuel (before +:+ String a "") rest
      end
  end.

Definition FindAll (s : string) : list (string * string * string) := tokens (String.length s) "" s.

(** ** The filter *)

Definition allowedMetricIdentifier (token : string) : bool :=
  existsb (fun metric => bool_decide (token = metric) || HasPrefix token (metric +:+ "_")) allowedMetricNames.

(** The next byte that is no space, tab or newline. *)
Fixpoint nextPromQLChar (after : string) : option ascii :=
  match after with
  | EmptyString => None
  | String a after =>
      if bool_decide (a = byte 32 \/ a = byte 9 \/ a = byte 10) then nextPromQLChar after else Some a
  end.

Fixpoint last_byte (s : string) : option ascii :=
  match s with EmptyString => None | String a EmptyString => Some a | String _ s => last_byte s end.

(** A unit right after a digit.  [token] is in lower case. *)
Definition isPromQLDurationUnit (before token : string) : bool :=
  bool_decide (token ∈ ["s"; "m"; "h"; "d"; "w"; "y"]) && match last_byte before with Some a => digit a | None => false end.

Definition allowed_token (t : string * string * string) : bool :=
  let '(before, token, after) := t in
  let lower := ToLower token in
  allowedMetricIdentifier token || bool_decide (lower ∈ allowedPromQLKeywords) || isPromQLDurationUnit before lower ||
  bool_decide (nextPromQLChar after = Some (byte 40)) && bool_decide (lower ∈ allowedPromQLFunctions).

(** The loop over the matches. *)
Fixpoint allowed_loop (hasAllowedMetric : bool) (matches : list (string * string * string)) : bool :=
  match matches with
  | [] => hasAllowedMetric
  | t :: matches =>
      if allowedMetricIdentifier t.1.2 then allowed_loop true matches
      else if allowed_token t then allowed_loop hasAllowedMetric matches
      else false
  end.

Definition allowedPrometheusQuery (query : string) : bool :=
  let trimmed := TrimSpace query in
  if bool_decide (trimmed = "") then false
  else match FindAll trimmed with
  | [] => false
  | matches => allowed_loop false matches
  end.

Example allows_a_rate : allowedPrometheusQuery "sum(rate(gateway_requests_total[5m])) by (service)" = true.
Proof. vm_compute. reflexivity. Qed.
Example refuses_another_metric : allowedPrometheusQuery "gateway_requests_total + up" = false.
Proof. vm_compute. reflexivity. Qed.
Example refuses_a_label : allowedPrometheusQuery "{__name__!=1}" = false.
Proof. vm_compute. reflexivity. Qed.

(** The dashboards' form of aggregation is refused: the function's name is followed by [by],
    not by a parenthesis, though [by], [service] and [__rate_interval] are allowed for it. *)
Lemma refuses_the_dashboards_query :
  allowedPrometheusQuery "sum by (service) (rate(gateway_requests_total[$__rate_interval]))" = false.
Proof. vm_compute. reflexivity. Qed.

(** ** The tokens are the identifiers of the query *)

(** Whether a position after [s] is inside an identifier, from whether [s] starts in one. *)
Fixpoint inside (st : bool) (s : string) : bool :=
  match s with EmptyString => st | String a s => inside (if st then token_byte a else token_start a) s end.

Fixpoint all_token_bytes (s : string) : bool :=
  match s with EmptyString => true | String a s => token_byte a && all_token_bytes s end.

Definition ends_token (after : string) : Prop := match after with EmptyString => True | String a _ => token_byte a = false end.

(** An identifier of [s]: it starts with a letter, an underscore or a colon where no other
    identifier goes on, and it is as long as it can be. *)
Record identifier (s before token after : string) : Prop := {
  id_parts : s = before +:+ token +:+ after;
  id_start : exists a rest, token = String a rest /\ token_start a = true /\ all_token_bytes rest = true;
  id_outside : inside false before = false;
  id_maximal : ends_token after;
}.

Lemma inside_app st s t : inside st (s +:+ t) = inside (inside st s) t.
Proof. revert st. induction s as [|a s IH]; intros st; [done|]. rewrite append_cons. apply IH. Qed.

Lemma start_is_token a : token_start a = true -> token_byte a = true.
Proof. unfold token_byte. by intros ->. Qed.

Lemma span_token_spec s :
  s = (span_token s).1 +:+ (span_token s).2 /\ all_token_bytes (span_token s).1 = true /\ ends_token (span_token s).2.
Proof.
  induction s as [|a s IH]; cbn; [done|]. destruct (token_byte a) eqn:Ha; [|by cbn].
  destruct (span_token s) as [tok rest]. cbn in *. destruct IH as (-> & H1 & H2). by rewrite Ha.
Qed.

Lemma span_token_unique s t r :
  s = t +:+ r -> all_token_bytes t = true -> ends_token r -> span_token s = (t, r).
Proof.
  revert s. induction t as [|a t IH]; intros s -> Ht Hr.
  - rewrite append_nil_l. destruct r as [|b r]; [done|]. cbn in *. by rewrite Hr.
  - rewrite append_cons. cbn in *. apply andb_true_iff in Ht as [-> Ht]. by rewrite (IH (t +:+ r) eq_refl).
Qed.

(** A position outside of identifiers lies beyond the one being read. *)
Lemma span_token_leave mid r :
  inside true mid = false ->
  exists mid', mid = (span_token (mid +:+ r)).1 +:+ mid' /\ (span_token (mid +:+ r)).2 = mid' +:+ r.
Proof.
  induction mid as [|a mid IH]; cbn [inside]; [done|]. rewrite append_cons. cbn [span_token].
  destruct (token_byte a) eqn:Ha; [|intros _; exists (String a mid); by cbn].
  intros Hm. destruct (IH Hm) as (mid' & H1 & H2). exists mid'. destruct (span_token (mid +:+ r)) as [tok rest]. cbn in *.
  split; [by rewrite append_cons, <- H1|done].
Qed.

Lemma inside_true_tokens s : all_token_bytes s = true -> inside true s = true.
Proof. induction s as [|a s IH]; cbn; [done|]. intros [-> Hs]%andb_true_iff. auto. Qed.

Lemma append_inj_l s t u : s +:+ t = s +:+ u -> t = u.
Proof. induction s as [|a s IH]; [done|]. rewrite !append_cons. intros [= H]. auto. Qed.

Lemma append_eq_nil s t : s +:+ t = "" -> s = "" /\ t = "".
Proof. destruct s; [by rewrite append_nil_l|by rewrite append_cons]. Qed.

Lemma tokens_spec fuel before s :
  (String.length s <= fuel)%nat -> (inside false before = false \/ ends_token s) ->
  forall b t a, (b, t, a) ∈ tokens fuel before s <->
    exists mid, b = before +:+ mid /\ identifier (before +:+ s) b t a.
Proof.
  revert before s. induction fuel as [|fuel IH]; intros before s Hf Hst b t a.
  { destruct s; [|cbn in Hf; lia]. cbn [tokens]. split; [by intros ?%elem_of_nil|].
    intros (mid & -> & [Hp (c & rest & -> & _) _ _]). rewrite append_assoc in Hp. apply append_inj_l in Hp. symmetry in Hp.
    by apply append_eq_nil in Hp as [_ Hp]. }
  destruct s as [|c rest]; cbn [tokens].
  { split; [by intros ?%elem_of_nil|]. intros (mid & -> & [Hp (c & rest & -> & _) _ _]). rewrite append_assoc in Hp.
    apply append_inj_l in Hp. symmetry in Hp. by apply append_eq_nil in Hp as [_ Hp]. }
  cbn in Hf. destruct (token_start c) eqn:Hc.
  - assert (inside false before = false) as Hout by (destruct Hst as [?|Hst]; [done|]; cbn in Hst; by rewrite start_is_token in Hst).
    destruct (span_token_spec rest) as (Hrest & Htok & Hend). destruct (span_token rest) as [tok after] eqn:Hspan. cbn [fst snd] in *.
    assert (before +:+ String c rest = (before +:+ String c tok) +:+ after) as Hsplit by (by rewrite append_assoc, append_cons, <- Hrest).
    assert (String.length after <= fuel)%nat as Hlen by (rewrite Hrest, length_append in Hf; lia).
    rewrite elem_of_cons, (IH (before +:+ String c tok) after Hlen (or_intror Hend)), <- Hsplit. split.
    + intros [[= -> -> ->]|(mid & -> & Hid)].
      * exists "". split; [by rewrite append_nil_r|]. split; [by rewrite append_cons, <- Hrest|by exists c, tok|done|done].
      * exists (String c tok +:+ mid). split; [by rewrite append_assoc|done].
    + intros (mid & -> & Hid). destruct mid as [|c' mid].
      * left. rewrite append_nil_r in *. destruct Hid as [Hp (c' & r & -> & Hc' & Hr) _ Ha]. apply append_inj_l in Hp.
        rewrite append_cons in Hp. injection Hp as <- Hp.
        assert (span_token rest = (r, a)) as Hs by (by apply span_token_unique). rewrite Hspan in Hs. by injection Hs as -> ->.
      * right. pose proof Hid as [Hp _ Ho _]. rewrite append_assoc in Hp. apply append_inj_l in Hp. rewrite append_cons in Hp. injection Hp as -> Hp.
        rewrite inside_app, Hout in Ho. cbn [inside] in Ho. rewrite Hc in Ho.
        destruct (span_token_leave mid (t +:+ a) Ho) as (mid' & Hm & _). rewrite <- Hp, Hspan in Hm. cbn in Hm.
        exists mid'. split; [|done]. by rewrite Hm, append_assoc, append_cons.
  - assert (before +:+ String c rest = (before +:+ String c "") +:+ rest) as Hsplit by (by rewrite append_assoc).
    rewrite (IH (before +:+ String c "") rest ltac:(lia)), <- Hsplit.
    2:{ left. rewrite inside_app. cbn [inside]. destruct (inside false before) eqn:Hin; [|done].
        destruct Hst as [?|Hst]; [congruence|]. exact Hst. }
    split.
    + intros (mid & -> & Hid). exists (String c mid). split; [by rewrite append_assoc|done].
    + intros (mid & -> & Hid). destruct mid as [|c' mid].
      * exfalso. destruct Hid as [Hp (c' & r & -> & Hc' & _) _ _]. rewrite append_nil_r in Hp. apply append_inj_l in Hp.
        rewrite append_cons in Hp. injection Hp as -> _. congruence.
      * pose proof Hid as [Hp _ _ _]. rewrite append_assoc in Hp. apply append_inj_l in Hp. rewrite append_cons in Hp. injection Hp as -> _.
        exists mid. split; [by rewrite append_assoc|done].
Qed.

Lemma FindAll_spec s b t a : (b, t, a) ∈ FindAll s <-> identifier s b t a.
Proof.
  unfold FindAll. rewrite tokens_spec by (lia || by left). rewrite append_nil_l. split; [by intros (mid & _ & Hid)|].
  intros Hid. exists b. split; [by rewrite append_nil_l|done].
Qed.

Lemma allowed_loop_spec has matches :
  allowed_loop has matches = true <->
  Forall (fun t => allowed_token t = true) matches /\ (has = true \/ Exists (fun t => allowedMetricIdentifier t.1.2 = true) matches).
Proof.
  revert has. induction matches as [|t matches IH]; intros has; cbn [allowed_loop].
  - rewrite Exists_nil. naive_solver.
  - rewrite Forall_cons, Exists_cons. destruct (allowedMetricIdentifier t.1.2) eqn:Hm.
    + rewrite IH. assert (allowed_token t = true) by (destruct t as [[b k] a]; cbn in *; by rewrite Hm). naive_solver.
    + destruct (allowed_token t); [rewrite IH|]; naive_solver.
Qed.

(** A query is let through exactly if one of its identifiers is a metric's name and every one
    is allowed. *)
Lemma allowed_by_identifiers query :
  allowedPrometheusQuery query = true <->
  (exists before metric after, identifier (TrimSpace query) before metric after /\ allowedMetricIdentifier metric = true) /\
  forall before token after, identifier (TrimSpace query) before token after -> allowed_token (before, token, after) = true.
Proof.
  unfold allowedPrometheusQuery. set (s := TrimSpace query).
  transitivity (Forall (fun t => allowed_token t = true) (FindAll s) /\ Exists (fun t => allowedMetricIdentifier t.1.2 = true) (FindAll s)).
  - case_bool_decide as Hs; [rewrite Hs; cbn; rewrite Exists_nil; naive_solver|].
    destruct (FindAll s) as [|t l] eqn:Hl; [rewrite Exists_nil; naive_solver|]. rewrite <- Hl, allowed_loop_spec. naive_solver.
  - rewrite Forall_forall, Exists_exists. split.
    + intros [Hall ([[b m] a] & Hin%FindAll_spec & Hm)]. split; [by exists b, m, a|]. intros b' t a' Hid%FindAll_spec. by apply (Hall (b', t, a')).
    + intros [(b & m & a & Hid%FindAll_spec & Hm) Hall]. split; [|by exists (b, m, a)].
      intros [[b' t] a'] Hin%FindAll_spec. by apply Hall.
Qed.
