(* ===== verification/MetricNames.v ===== *)
(** * The metrics' names: [internal/metrics/registry.go]

    What the gateway registers with Prometheus: the metrics' names, the buckets of the
    histograms, and the registration, which refuses a name that is taken.  The lemmas: the
    start registers everything without a panic, a collector can be registered, refused while
    it is, and registered again once it is removed; and the metrics that the observatory lets
    through to Prometheus are exactly the gateway's. *)

From stdpp Require Import strings.
From S2P Require Import Prelude GoStrings PromQL.
From stdpp Require Import options.
#[local] Open Scope string_scope.
#[local] Open Scope Z_scope.

Definition serviceLabel : string := "service".
Definition MetricRequestsTotal : string := "gateway_requests_total".
Definition MetricRequestFailuresTotal : string := "gateway_request_failures_total".
Definition MetricRequestDuration : string := "gateway_request_duration_seconds".
Definition MetricRateLimitRejections : string := "gateway_rate_limit_rejections_total".
Definition MetricRetriesTotal : string := "gateway_retries_total".
Definition MetricRetryDelay : string := "gateway_retry_delay_seconds".
Definition MetricCircuitOpensTotal : string := "gateway_circuit_opens_total".
Definition MetricOpenCircuits : string := "gateway_open_circuits".
Definition MetricUpstreamDuration : string := "gateway_upstream_duration_seconds".
Definition MetricInFlightRequests : string := "gateway_in_flight_requests".
Definition metricCircuitState : string := "gateway_circuit_state". (* [circuitbreaker/registry.go] *)

(** In milliseconds. *)
Definition requestDurationBuckets : list Z := [5; 10; 25; 50; 100; 250; 500; 1000; 2500; 5000; 10000].
Definition retryDelayBuckets : list Z := [5; 10; 25; 50; 100; 250; 500; 1000; 2000; 5000].
Definition upstreamDurationBuckets : list Z := [5; 10; 25; 50; 100; 250; 500; 1000; 2500; 5000; 10000].

(** ** Collectors *)

Inductive CollectorKind := KindCounter | KindGauge | KindHistogram (buckets : list Z) | KindRuntime.

Record Collector := mkCollector { cl_Name : string; cl_Kind : CollectorKind; cl_Labels : list string }.

Definition newCounter (name : string) : Collector := mkCollector name KindCounter [serviceLabel].
Definition newGauge (name : string) : Collector := mkCollector name KindGauge [serviceLabel].
Definition newHistogram (name : string) (buckets : list Z) : Collector := mkCollector name (KindHistogram buckets) [serviceLabel].

(** A Prometheus registry, by the collectors it holds. *)
Notation PromRegistry := (list Collector).

(** [Register] fails on a name that is taken. *)
Definition Register (reg : PromRegistry) (c : Collector) : option PromRegistry :=
  if existsb (fun c' => bool_decide (cl_Name c' = cl_Name c)) reg then None else Some (reg ++ [c])%list.

Definition Unregister (reg : PromRegistry) (c : Collector) : bool * PromRegistry :=
  (existsb (fun c' => bool_decide (cl_Name c' = cl_Name c)) reg, List.filter (fun c' => negb (bool_decide (cl_Name c' = cl_Name c))) reg).

(** [None] is the panic. *)
Fixpoint MustRegister (reg : PromRegistry) (cs : list Collector) : option PromRegistry :=
  match cs with [] => Some reg | c :: cs => reg ← Register reg c; MustRegister reg cs end.

Definition gateway_metrics : list Collector := [
  newCounter MetricRequestsTotal; newCounter MetricRequestFailuresTotal; newHistogram MetricRequestDuration requestDurationBuckets;
  newCounter MetricRateLimitRejections; newCounter MetricRetriesTotal; newHistogram MetricRetryDelay retryDelayBuckets;
  newCounter MetricCircuitOpensTotal; newGauge MetricOpenCircuits; newHistogram MetricUpstreamDuration upstreamDurationBuckets;
  newGauge MetricInFlightRequests].

(** The Go and process collectors come first. *)
Definition NewRegistry : option PromRegistry :=
  MustRegister [] (mkCollector "go" KindRuntime [] :: mkCollector "process" KindRuntime [] :: gateway_metrics).

(** On a nil registry nothing is registered, and that is no error. *)
Definition RegisterCollector (r : option PromRegistry) (c : Collector) : bool * option PromRegistry :=
  match r with
  | None => (true, None)
  | Some reg => match Register reg c with None => (false, Some reg) | Some reg => (true, Some reg) end
  end.

Definition UnregisterCollector (r : option PromRegistry) (c : Collector) : bool * option PromRegistry :=
  match r with
  | None => (false, None)
  | Some reg => let '(found, reg) := Unregister reg c in (found, Some reg)
  end.

(** [Gather], by name. *)
Definition Gather (r : option PromRegistry) : list string := match r with None => [] | Some reg => map cl_Name reg end.

(** ** The start *)

Fixpoint increasing (l : list Z) : bool :=
  match l with x :: (y :: _) as l' => (x <? y) && increasing l' | _ => true end.

Definition buckets_ok (c : Collector) : bool := match cl_Kind c with KindHistogram buckets => increasing buckets && negb (bool_decide (buckets = [])) | _ => true end.

(** Nothing is registered twice, and the buckets are in order: the start does not panic. *)
Lemma NewRegistry_registers : exists reg, NewRegistry = Some reg /\ forallb buckets_ok reg = true /\ NoDup (map cl_Name reg).
Proof. eexists. split; [vm_compute; reflexivity|]. split; [by vm_compute|]. apply (bool_decide_unpack _). by vm_compute. Qed.

(** ** Collectors come and go *)

Lemma taken_spec reg c : existsb (fun c' => bool_decide (cl_Name c' = cl_Name c)) reg = true <-> cl_Name c ∈ map cl_Name reg.
Proof.
  rewrite existsb_exists. split.
  - intros (c' & Hin & <-%bool_decide_eq_true). by apply list_elem_of_In, in_map.
  - intros (c' & Hn & Hin)%list_elem_of_In%in_map_iff. exists c'. by rewrite Hn, bool_decide_eq_true_2.
Qed.

Lemma register_collector_cycle reg c :
  cl_Name c ∉ map cl_Name reg ->
  let '(ok, r1) := RegisterCollector (Some reg) c in
  ok = true /\ Gather r1 = (map cl_Name reg ++ [cl_Name c])%list /\
  RegisterCollector r1 c = (false, r1) /\ UnregisterCollector r1 c = (true, Some reg).
Proof.
  intros Hnew. unfold RegisterCollector at 1, Register at 1.
  destruct (existsb _ reg) eqn:Ht; [by apply taken_spec in Ht|]. cbn [Gather]. split_and!; [done|by rewrite map_app|..].
  - unfold RegisterCollector, Register. rewrite existsb_app. cbn. by rewrite bool_decide_eq_true_2, !orb_true_r.
  - unfold UnregisterCollector, Unregister. rewrite existsb_app. cbn. rewrite bool_decide_eq_true_2, !orb_true_r by done.
    rewrite List.filter_app. cbn. rewrite bool_decide_eq_true_2 by done. cbn. rewrite app_nil_r. do 2 f_equal.
    clear Ht. induction reg as [|c' reg IH]; cbn in *; [done|]. apply not_elem_of_cons in Hnew as [Hne Hnew].
    rewrite bool_decide_eq_false_2 by done. cbn. by rewrite IH.
Qed.

(** ** The observatory's view *)

(** The metrics that [allowedPrometheusQuery] lets through are the gateway's, no less and no
    more. *)
Lemma allowed_metrics_are_registered name :
  name ∈ allowedMetricNames <-> name ∈ map cl_Name gateway_metrics \/ name = metricCircuitState.
Proof.
  assert (forall a b, bool_decide (Forall (fun x => x ∈ (b : list string)) a) = true -> forall x : string, x ∈ a -> x ∈ b) as Hsub.
  { intros a b H%bool_decide_eq_true x. by rewrite Forall_forall in H; apply H. }
  split.
  - intros Hin. apply (Hsub _ (map cl_Name gateway_metrics ++ [metricCircuitState])%list) in Hin; [set_solver|by vm_compute].
  - intros Hin. apply (Hsub (map cl_Name gateway_metrics ++ [metricCircuitState])%list); [by vm_compute|set_solver].
Qed.
