(* ===== verification/Queries.v ===== *)
(** * Which queries are for Prometheus: [cmd/observatory/metrics.go]

    The rule that [allowedPrometheusQuery] decides, told without its loop: what a query's
    identifiers may be, the metrics being those that the gateway registers.  The repository's
    documents have another rule, a list of prefixes; the lemmas at the end show where the two
    differ, and what the rule of the code lets through that it should not. *)

From stdpp Require Import strings.
From S2P Require Import Prelude GoStrings Url PromQL MetricNames.
From stdpp Require Import options.
#[local] Open Scope string_scope.

(** ** The rule *)

Definition gateway_metric (name : string) : Prop := name ∈ map cl_Name gateway_metrics \/ name = metricCircuitState.

(** A metric, or one of its series: the name, an underscore, and more. *)
Definition names_metric (token : string) : Prop :=
  exists metric suffix, gateway_metric metric /\ token = metric +:+ suffix /\ (suffix = "" \/ exists rest, suffix = "_" +:+ rest).

Definition blank (a : ascii) : Prop := a = byte 32 \/ a = byte 9 \/ a = byte 10.
Fixpoint all_blank (s : string) : Prop := match s with EmptyString => True | String a s => blank a /\ all_blank s end.

(** What an identifier may be, by what stands before and after it. *)
Inductive permitted (before token after : string) : Prop :=
  | permitted_metric : names_metric token -> permitted before token after
  | permitted_keyword : ToLower token ∈ allowedPromQLKeywords -> permitted before token after
  | permitted_unit b d : before = b +:+ String d "" -> digit d = true -> ToLower token ∈ ["s"; "m"; "h"; "d"; "w"; "y"] ->
      permitted before token after
  | permitted_function blanks rest : after = blanks +:+ "(" +:+ rest -> all_blank blanks ->
      ToLower token ∈ allowedPromQLFunctions -> permitted before token after.

(** The query names a metric of the gateway, and each of its identifiers is permitted. *)
Definition confined (query : string) : Prop :=
  (exists before metric after, identifier query before metric after /\ names_metric metric) /\
  forall before token after, identifier query before token after -> permitted before token after.

(** ** The code decides it *)

Lemma allowedMetricIdentifier_spec token : allowedMetricIdentifier token = true <-> names_metric token.
Proof.
  unfold allowedMetricIdentifier, names_metric, gateway_metric. rewrite existsb_exists. setoid_rewrite <- list_elem_of_In.
  setoid_rewrite <- allowed_metrics_are_registered. split.
  - intros (metric & Hin & [->%bool_decide_eq_true|[rest ->]%HasPrefix_spec]%orb_true_iff); exists metric.
    + exists "". by rewrite append_nil_r; auto.
    + exists ("_" +:+ rest). rewrite append_assoc. eauto.
  - intros (metric & suffix & Hin & -> & [->|[rest ->]]); exists metric; (split; [done|]); apply orb_true_iff.
    + left. by rewrite append_nil_r, bool_decide_eq_true_2.
    + right. rewrite <- append_assoc. apply HasPrefix_app.
Qed.

Lemma nextPromQLChar_spec after a :
  ~ blank a -> nextPromQLChar after = Some a <-> exists blanks rest, after = blanks +:+ String a rest /\ all_blank blanks.
Proof.
  intros Ha. induction after as [|b after IH]; cbn [nextPromQLChar].
  - split; [done|]. intros (blanks & rest & Heq & _). symmetry in Heq. by apply append_eq_nil in Heq as [_ ?].
  - case_bool_decide as Hb.
    + rewrite IH. split.
      * intros (blanks & rest & -> & Hbl). exists (String b blanks), rest. by split.
      * intros ([|c blanks] & rest & Heq & Hbl); [rewrite append_nil_l in Heq; by injection Heq as <- _|].
        rewrite append_cons in Heq. injection Heq as <- ->. exists blanks, rest. by destruct Hbl.
    + split.
      * intros [= <-]. by exists "", after.
      * intros ([|c blanks] & rest & Heq & Hbl); [rewrite append_nil_l in Heq; by injection Heq as <- _|].
        rewrite append_cons in Heq. injection Heq as <- _. by destruct Hbl.
Qed.

Lemma last_byte_spec s a : last_byte s = Some a <-> exists b, s = b +:+ String a "".
Proof.
  induction s as [|c s IH].
  - split; [done|]. intros (b & Heq). symmetry in Heq. by apply append_eq_nil in Heq as [_ ?].
  - destruct s as [|c' s].
    + cbn. split; [intros [= <-]; by exists ""|]. intros ([|d b] & Heq); [by injection Heq as ->|].
      rewrite append_cons in Heq. injection Heq as _ Heq. symmetry in Heq. by apply append_eq_nil in Heq as [_ ?].
    + change (last_byte (String c (String c' s))) with (last_byte (String c' s)). rewrite IH. split.
      * intros (b & ->). by exists (String c b).
      * intros ([|d b] & Heq); [by injection Heq as _ ?|]. rewrite append_cons in Heq. injection Heq as <- ->. by exists b.
Qed.

Lemma allowed_token_spec before token after : allowed_token (before, token, after) = true <-> permitted before token after.
Proof.
  unfold allowed_token, isPromQLDurationUnit. rewrite !orb_true_iff, !andb_true_iff, !bool_decide_eq_true, allowedMetricIdentifier_spec.
  rewrite (nextPromQLChar_spec after (byte 40)) by (by intros [?|[?|?]]). split.
  - intros [[[?|?]|[Hu Hd]]|[(blanks & rest & -> & Hb) Hf]].
    + by apply permitted_metric.
    + by apply permitted_keyword.
    + destruct (last_byte before) as [d|] eqn:Hl; [|done]. apply last_byte_spec in Hl as [b ->]. by eapply permitted_unit.
    + by eapply permitted_function.
  - intros [?|?|b d -> Hd Hu|blanks rest -> Hb Hf]; [auto..| |].
    + left; right. split; [done|]. by rewrite (proj2 (last_byte_spec _ d)) by eauto.
    + right. split; [|done]. by exists blanks, rest.
Qed.

Lemma allowed_is_confined query : allowedPrometheusQuery query = true <-> confined (TrimSpace query).
Proof.
  rewrite allowed_by_identifiers. unfold confined. setoid_rewrite allowedMetricIdentifier_spec. by setoid_rewrite allowed_token_spec.
Qed.

#[export] Instance confined_trimmed_dec query : Decision (confined (TrimSpace query)).
Proof. destruct (allowedPrometheusQuery query) eqn:H; [left|right]; rewrite <- allowed_is_confined; congruence. Qed.

(** ** The documented rule

    Section 8.7 of the observatory's specification. *)
Definition allowedQueryPrefixes : list string := [
  "gateway_requests_total"; "gateway_request_duration_seconds"; "gateway_request_failures_total";
  "gateway_rate_limit_rejections_total"; "gateway_retries_total"; "gateway_retry_delay_seconds";
  "gateway_circuit_opens_total"; "gateway_open_circuits"; "gateway_circuit_state";
  "gateway_in_flight_requests"; "gateway_upstream_duration_seconds";
  "rate("; "histogram_quantile("; "increase("; "sum("; "avg("].

Definition documented (query : string) : bool := existsb (HasPrefix (TrimSpace query)) allowedQueryPrefixes.

(** The two rules differ both ways: the documents let through functions of any metric, and
    whatever follows a prefix, which the code refuses; the code lets through [max] and
    [clamp_min], which the documents do not have. *)
Lemma filter_is_no_prefix_list :
  Forall (fun query => documented query = true /\ allowedPrometheusQuery query = false)
    ["rate(up[5m])"; "sum(process_cpu_seconds_total)"; "gateway_requests_total + up"; "gateway_requests_total_or_not + on(job) up"] /\
  Forall (fun query => documented query = false /\ allowedPrometheusQuery query = true)
    ["max(gateway_open_circuits)"; "clamp_min(gateway_retries_total, 1)"; "RATE (gateway_requests_total[5m])"].
Proof. split; repeat constructor; by vm_compute. Qed.

(** Strings and comments count: a selector of every metric is let through when a string in
    it, or a comment after it, names a metric of the gateway. *)
Lemma metric_in_a_string_suffices :
  allowedPrometheusQuery "{service!='gateway_requests_total'}" = true /\
  allowedPrometheusQuery ("{service!=''} " +:+ String hash " gateway_requests_total") = true.
Proof. by vm_compute. Qed.
