(* ===== verification/Runs.v ===== *)
(** * The observatory's scenario runs: [cmd/observatory/app.go], [api.go], [reset.go]

    Starting, watching, stopping and completing runs, as the steps that handlers and
    goroutines take between the critical sections of the app's mutex.  The theorem: whatever
    the interleaving, one run at most is starting or active, and what the API says of a
    scenario is true of its run; with one exception, which is shown: a run that was stopped
    while it was starting overwrites the status of the next run of the same scenario.  The
    lemmas on [others] say what a start can rely on whatever the other threads do. *)

From stdpp Require Import gmap strings.
From S2P Require Import Prelude.
From stdpp Require Import options.
#[local] Set Default Proof Using "Type*".
#[local] Open Scope string_scope.

Inductive scenarioStatus := statusIdle | statusRunning | statusStopping | statusError.
#[export] Instance scenarioStatus_eq_dec : EqDecision scenarioStatus.
Proof. solve_decision. Defined.

(** [scenarioRun]: its name, its container, and whether its context was cancelled. *)
Record scenarioRun := mkRun { sr_name : string; sr_containerID : string; sr_cancelled : bool }.

(** Where a handler or goroutine is. *)
Inductive Thread :=
  | Launching (id : nat) (* [startScenario], in [runner.Start] *)
  | Aborting (id : nat) (* [startScenario], its context cancelled: in [runner.Stop] *)
  | Announcing (id : nat) (* [startScenario], about to publish *)
  | Watching (id : nat) (* [watchScenario] *)
  | Cancelling (id : nat) (* [stopScenario] or [cancelActiveScenario], about to cancel *)
  | Finished.

Inductive RunEvent := ScenarioStarted (name : string) | ScenarioStopped (name : string) (status : scenarioStatus).

Record Runs := mkRuns {
  rs_status : gmap string scenarioStatus;
  rs_starting : option nat;
  rs_active : option nat;
  rs_runs : list scenarioRun; (* every run there was *)
  rs_threads : list Thread;
  rs_events : list RunEvent;
}.
Implicit Types s : Runs.

(** [newApp] *)
Definition newRuns (names : list string) : Runs :=
  mkRuns (list_to_map ((fun name => (name, statusIdle)) <$> names)) None None [] [] [].

Definition scenarioStatusFor (name : string) s : scenarioStatus := default statusIdle (rs_status s !! name).

Definition setScenarioStatusLocked (name : string) (status : scenarioStatus) s : Runs :=
  mkRuns (<[name := status]> (rs_status s)) (rs_starting s) (rs_active s) (rs_runs s) (rs_threads s) (rs_events s).
Definition with_live (starting active : option nat) s : Runs :=
  mkRuns (rs_status s) starting active (rs_runs s) (rs_threads s) (rs_events s).
Definition with_runs (runs : list scenarioRun) s : Runs :=
  mkRuns (rs_status s) (rs_starting s) (rs_active s) runs (rs_threads s) (rs_events s).
Definition with_thread (i : nat) (t : Thread) s : Runs :=
  mkRuns (rs_status s) (rs_starting s) (rs_active s) (rs_runs s) (<[i := t]> (rs_threads s)) (rs_events s).
Definition spawn (t : Thread) s : Runs :=
  mkRuns (rs_status s) (rs_starting s) (rs_active s) (rs_runs s) (rs_threads s ++ [t])%list (rs_events s).
Definition publish (e : RunEvent) s : Runs :=
  mkRuns (rs_status s) (rs_starting s) (rs_active s) (rs_runs s) (rs_threads s) (rs_events s ++ [e])%list.

(** [a.active], else [a.starting]. *)
Definition live s : option nat := match rs_active s with Some id => Some id | None => rs_starting s end.

Definition clear (id : nat) (slot : option nat) : option nat := if bool_decide (slot = Some id) then None else slot.

(** [startScenario] up to [runner.Start]; [None]: another scenario is already running. *)
Definition startScenario_begin (name : string) s : option Runs :=
  match rs_active s, rs_starting s with
  | None, None =>
      let id := length (rs_runs s) in
      Some (spawn (Launching id)
             (setScenarioStatusLocked name statusRunning
               (with_live (Some id) (rs_active s) (with_runs (rs_runs s ++ [mkRun name "" false])%list s))))
  | _, _ => None
  end.

(** What [runner.Start] gives: an error, and whether it is [context.Canceled]; or the container. *)
Inductive Launched := LaunchFailed (canceled : bool) | LaunchedContainer (containerID : string).

(** [startScenario], the critical section after [runner.Start]. *)
Definition startScenario_launched (i id : nat) (run : scenarioRun) (result : Launched) s : Runs :=
  let s := with_live (clear id (rs_starting s)) (rs_active s) s in
  match result with
  | LaunchFailed canceled =>
      let status := if canceled && bool_decide (rs_status s !! sr_name run = Some statusStopping) then statusIdle else statusError in
      with_thread i Finished
        (with_runs (<[id := mkRun (sr_name run) (sr_containerID run) true]> (rs_runs s)) (setScenarioStatusLocked (sr_name run) status s))
  | LaunchedContainer containerID =>
      let s := with_runs (<[id := mkRun (sr_name run) containerID (sr_cancelled run)]> (rs_runs s)) s in
      if sr_cancelled run then with_thread i (Aborting id) s
      else with_thread i (Announcing id) (with_live (rs_starting s) (Some id) s)
  end.

(** [completeScenario]: a run completes once, since one thread completes it. *)
Definition completeScenario (id : nat) (run : scenarioRun) (failed : bool) s : Runs :=
  let status := if failed then statusError else statusIdle in
  publish (ScenarioStopped (sr_name run) status)
    (setScenarioStatusLocked (sr_name run) status (with_live (clear id (rs_starting s)) (clear id (rs_active s)) s)).

(** [stopScenario], its critical section; [None]: the scenario is not running. *)
Definition stopScenario_begin (name : string) s : option Runs :=
  match live s with
  | None => None
  | Some id =>
      run ← rs_runs s !! id;
      if bool_decide (sr_name run = name) then Some (spawn (Cancelling id) (setScenarioStatusLocked name statusStopping s)) else None
  end.

(** [cancelActiveScenario], its critical section. *)
Definition cancelActiveScenario_begin s : Runs :=
  match live s with
  | None => s
  | Some id =>
      match rs_runs s !! id with
      | Some run => spawn (Cancelling id) (setScenarioStatusLocked (sr_name run) statusStopping s)
      | None => s
      end
  end.

(** [run.cancel()] *)
Definition cancel (id : nat) s : Runs :=
  with_runs (alter (fun run => mkRun (sr_name run) (sr_containerID run) true) id (rs_runs s)) s.

(** An aborted run of the scenario that has not completed yet. *)
Definition aborting (name : string) s : Prop :=
  exists id run, Aborting id ∈ rs_threads s /\ rs_runs s !! id = Some run /\ sr_name run = name.

(** The steps.  In a [strict] execution no run begins while one of its scenario is aborting. *)
Inductive runs_step (strict : bool) : Runs -> Runs -> Prop :=
  | step_begin name s s' : startScenario_begin name s = Some s' -> (strict = true -> ~ aborting name s) -> runs_step strict s s'
  | step_launched i id run result s : rs_threads s !! i = Some (Launching id) -> rs_runs s !! id = Some run ->
      runs_step strict s (startScenario_launched i id run result s)
  | step_aborted i id run s : rs_threads s !! i = Some (Aborting id) -> rs_runs s !! id = Some run ->
      runs_step strict s (with_thread i Finished (completeScenario id run false s))
  | step_announced i id run s : rs_threads s !! i = Some (Announcing id) -> rs_runs s !! id = Some run ->
      runs_step strict s (with_thread i (Watching id) (publish (ScenarioStarted (sr_name run)) s))
  | step_watched i id run failed s : rs_threads s !! i = Some (Watching id) -> rs_runs s !! id = Some run ->
      runs_step strict s (with_thread i Finished (completeScenario id run failed s))
  | step_stop name s s' : stopScenario_begin name s = Some s' -> runs_step strict s s'
  | step_cancel_active s : runs_step strict s (cancelActiveScenario_begin s)
  | step_cancel i id s : rs_threads s !! i = Some (Cancelling id) -> runs_step strict s (with_thread i Finished (cancel id s)).

(** ** The invariant *)

Inductive Phase := Starting | Active | Aborted.
#[export] Instance Phase_eq_dec : EqDecision Phase.
Proof. solve_decision. Defined.

(** The run a thread carries, and how far it is. *)
Definition carries (t : Thread) : option (Phase * nat) :=
  match t with
  | Launching id => Some (Starting, id)
  | Announcing id | Watching id => Some (Active, id)
  | Aborting id => Some (Aborted, id)
  | Cancelling _ | Finished => None
  end.

Definition carried s (i : nat) : option (Phase * nat) := rs_threads s !! i ≫= carries.

Definition named s (id : nat) (name : string) : Prop := exists run, rs_runs s !! id = Some run /\ sr_name run = name.

(** Its context is cancelled, or is about to be. *)
Definition doomed s (id : nat) : Prop :=
  (exists run, rs_runs s !! id = Some run /\ sr_cancelled run = true) \/ Cancelling id ∈ rs_threads s.

Lemma aborting_carried name s : aborting name s <-> exists i id, carried s i = Some (Aborted, id) /\ named s id name.
Proof.
  unfold aborting, carried, named. split.
  - intros (id & run & [i Hi]%list_elem_of_lookup & Hr & Hn). exists i, id. rewrite Hi. eauto.
  - intros (i & id & Hi & run & Hr & Hn). exists id, run. destruct (rs_threads s !! i) as [[]|] eqn:Ht; cbn in Hi; try done.
    injection Hi as ->. split; [by eapply list_elem_of_lookup_2|done].
Qed.

Lemma carried_with_thread i t s j : is_Some (rs_threads s !! i) ->
  carried (with_thread i t s) j = if decide (i = j) then carries t else carried s j.
Proof.
  intros Hi%lookup_lt_is_Some. unfold carried. cbn. destruct (decide (i = j)) as [<-|Hne]; [by rewrite list_lookup_insert_eq|by rewrite list_lookup_insert_ne].
Qed.

Lemma carried_spawn t s j : carried (spawn t s) j = if decide (j = length (rs_threads s)) then carries t else carried s j.
Proof.
  unfold carried. cbn. destruct (decide (j = length (rs_threads s))) as [->|Hne]; [by rewrite list_lookup_middle|].
  destruct (decide (j < length (rs_threads s))%nat); [by rewrite lookup_app_l|].
  rewrite !lookup_ge_None_2; [done|lia|rewrite length_app; cbn; lia].
Qed.

Lemma carried_None_end s : carried s (length (rs_threads s)) = None.
Proof. unfold carried. by rewrite lookup_ge_None_2. Qed.

(** Renaming no run and adding none with a name that matters. *)
Lemma named_insert s id id' run run' name :
  rs_runs s !! id = Some run -> sr_name run' = sr_name run ->
  named (with_runs (<[id := run']> (rs_runs s)) s) id' name <-> named s id' name.
Proof.
  intros Hr Hn. unfold named. cbn. destruct (decide (id = id')) as [<-|Hne].
  - rewrite list_lookup_insert_eq by (by eapply lookup_lt_Some). rewrite Hr. naive_solver.
  - by rewrite list_lookup_insert_ne.
Qed.

Lemma named_functional s id name name' : named s id name -> named s id name' -> name = name'.
Proof. intros (r & Hr & <-) (r' & Hr' & <-). congruence. Qed.

(** The invariant, of what it depends on. *)
Record view_ok (status : gmap string scenarioStatus) (starting active : option nat)
    (owner : nat -> option (Phase * nat)) (name_of : nat -> string -> Prop) (doomed : nat -> Prop) : Prop := {
  vo_known i phase id : owner i = Some (phase, id) -> exists name, name_of id name;
  vo_function id name name' : name_of id name -> name_of id name' -> name = name';
  vo_unique i j phase phase' id : owner i = Some (phase, id) -> owner j = Some (phase', id) -> i = j;
  vo_starting id : starting = Some id <-> exists i, owner i = Some (Starting, id);
  vo_active id : active = Some id <-> exists i, owner i = Some (Active, id);
  vo_exclusive : starting = None \/ active = None;
  vo_running name : status !! name = Some statusRunning -> exists id, (active = Some id \/ starting = Some id) /\ name_of id name;
  vo_stopping name : status !! name = Some statusStopping ->
    (exists id, (active = Some id \/ starting = Some id) /\ name_of id name) \/ exists i id, owner i = Some (Aborted, id) /\ name_of id name;
  vo_doomed id name : doomed id -> active = Some id \/ starting = Some id -> name_of id name -> status !! name <> Some statusRunning;
  vo_doomed_known id : doomed id -> exists name, name_of id name;
}.

Record view_strict (status : gmap string scenarioStatus) (starting active : option nat)
    (owner : nat -> option (Phase * nat)) (name_of : nat -> string -> Prop) : Prop := {
  vs_live id name : active = Some id \/ starting = Some id -> name_of id name ->
    status !! name = Some statusRunning \/ status !! name = Some statusStopping;
  vs_apart id name i id' : active = Some id \/ starting = Some id -> name_of id name -> owner i = Some (Aborted, id') -> ~ name_of id' name;
}.

Section View.
Implicit Types (status : gmap string scenarioStatus) (starting active : option nat)
  (owner : nat -> option (Phase * nat)) (name_of : nat -> string -> Prop) (doomed : nat -> Prop).

(** A thread that carried a run drops it; the run's scenario gets a resting status. *)
Lemma view_drop status starting active owner name_of doomed i phase id name rest :
  owner i = Some (phase, id) -> name_of id name -> rest = statusIdle \/ rest = statusError ->
  view_ok status starting active owner name_of doomed ->
  view_ok (<[name := rest]> status) (clear id starting) (clear id active)
    (fun j => if decide (i = j) then None else owner j) name_of (fun id' => id' = id \/ doomed id').
Proof.
  intros Hi Hn Hrest [K F U S A X R P D DK]. unfold clear.
  split.
  - intros j ph id'. case_decide; [done|]. apply K.
  - exact F.
  - intros j k ph ph' id'. do 2 case_decide; try done. apply U.
  - intros id'. case_bool_decide as Hs.
    + split; [done|]. intros [j Hj]. case_decide; [done|]. subst starting.
      assert (id' = id) as -> by (specialize (proj2 (S id')); intros HS; specialize (HS (ex_intro _ j Hj)); congruence).
      by specialize (U _ _ _ _ _ Hi Hj).
    + rewrite S. split; intros [j Hj]; exists j; [|by case_decide]. case_decide as Hij; [|done]. subst j. rewrite Hi in Hj. injection Hj as -> ->.
      exfalso. apply Hs. apply S. by exists i.
  - intros id'. case_bool_decide as Hs.
    + split; [done|]. intros [j Hj]. case_decide; [done|]. subst active.
      assert (id' = id) as -> by (specialize (proj2 (A id')); intros HA; specialize (HA (ex_intro _ j Hj)); congruence).
      by specialize (U _ _ _ _ _ Hi Hj).
    + rewrite A. split; intros [j Hj]; exists j; [|by case_decide]. case_decide as Hij; [|done]. subst j. rewrite Hi in Hj. injection Hj as -> ->.
      exfalso. apply Hs. apply A. by exists i.
  - destruct X as [-> | ->]; [left|right]; by case_bool_decide.
  - intros m Hm. assert (m <> name) by (intros ->; rewrite lookup_insert_eq in Hm; destruct Hrest; congruence).
    rewrite lookup_insert_ne in Hm by done. destruct (R m Hm) as (id' & Hl & Hn'). assert (id' <> id) by (intros ->; by specialize (F _ _ _ Hn Hn')).
    exists id'. split; [|done]. destruct Hl as [-> | ->]; [left|right]; rewrite bool_decide_eq_false_2 by congruence; done.
  - intros m Hm. assert (m <> name) by (intros ->; rewrite lookup_insert_eq in Hm; destruct Hrest; congruence).
    rewrite lookup_insert_ne in Hm by done. destruct (P m Hm) as [(id' & Hl & Hn')|(j & id' & Hj & Hn')]; (assert (id' <> id) by (intros ->; by specialize (F _ _ _ Hn Hn'))).
    + left. exists id'. split; [|done]. destruct Hl as [-> | ->]; [left|right]; rewrite bool_decide_eq_false_2 by congruence; done.
    + right. exists j, id'. split; [|done]. case_decide; [|done]. subst j. rewrite Hi in Hj. congruence.
  - intros id' m Hd Hl Hm. destruct (decide (m = name)) as [->|?]; [rewrite lookup_insert_eq; destruct Hrest; congruence|].
    rewrite lookup_insert_ne by done. assert ((active = Some id' \/ starting = Some id') /\ id' <> id) as [Hl' Hne]
      by (repeat case_bool_decide; naive_solver).
    destruct Hd as [?|Hd]; [done|by apply (D id')].
  - intros id' [->|Hd]; [by exists name|by apply DK].
Qed.

Lemma view_drop_strict status starting active owner name_of doomed i phase id name rest :
  owner i = Some (phase, id) -> name_of id name ->
  view_ok status starting active owner name_of doomed -> view_strict status starting active owner name_of ->
  view_strict (<[name := rest]> status) (clear id starting) (clear id active)
    (fun j => if decide (i = j) then None else owner j) name_of.
Proof.
  intros Hi Hn [K F U S A X R P _ _] [L D].
  assert (forall id', clear id active = Some id' \/ clear id starting = Some id' -> (active = Some id' \/ starting = Some id') /\ id' <> id) as Hclear.
  { unfold clear. intros id'. repeat case_bool_decide; naive_solver. }
  split.
  - intros id' m Hl Hm. destruct (Hclear id' Hl) as [Hl' Hne]. destruct (decide (m = name)) as [->|?]; [|rewrite lookup_insert_ne by done; by eapply L].
    (* the dropped run has the name of the live one: it is neither live nor aborted *)
    exfalso. destruct phase.
    + assert (starting = Some id) as Hs by (apply S; by exists i). destruct Hl' as [Ha|Hs']; [destruct X; congruence|congruence].
    + assert (active = Some id) as Hs by (apply A; by exists i). destruct Hl' as [Ha|Hs']; [congruence|destruct X; congruence].
    + by apply (D id' name i id Hl' Hm Hi).
  - intros id' m j id2 Hl Hm Hj. destruct (Hclear id' Hl) as [Hl' _]. case_decide; [done|]. by eapply D.
Qed.

(** A live run's scenario is stopping, and the run is to be cancelled. *)
Lemma view_stopping status starting active owner name_of doomed id name :
  active = Some id \/ starting = Some id -> name_of id name ->
  view_ok status starting active owner name_of doomed ->
  view_ok (<[name := statusStopping]> status) starting active owner name_of (fun id' => id' = id \/ doomed id').
Proof.
  intros Hl Hn [K F U S A X R P D DK]. split; try done.
  - intros m Hm. assert (m <> name) by (intros ->; by rewrite lookup_insert_eq in Hm). rewrite lookup_insert_ne in Hm by done. by apply R.
  - intros m Hm. destruct (decide (m = name)) as [->|?]; [left; by exists id|]. rewrite lookup_insert_ne in Hm by done. by apply P.
  - intros id' m Hd Hl' Hm. destruct (decide (m = name)) as [->|?]; [by rewrite lookup_insert_eq|]. rewrite lookup_insert_ne by done.
    destruct Hd as [->|Hd]; [by specialize (F _ _ _ Hn Hm)|by apply (D id')].
  - intros id' [->|Hd]; [by exists name|by apply DK].
Qed.

Lemma view_stopping_strict status starting active owner name_of name :
  view_strict status starting active owner name_of -> view_strict (<[name := statusStopping]> status) starting active owner name_of.
Proof.
  intros [L D]. split; [|exact D]. intros id m Hl Hm. destruct (decide (m = name)) as [->|?]; [right; by rewrite lookup_insert_eq|].
  rewrite lookup_insert_ne by done. by eapply L.
Qed.
(** A run begins, with an identifier that was not in use. *)
Lemma view_begin status owner name_of doomed i id name name_of' :
  owner i = None -> (forall name', ~ name_of id name') ->
  (forall id' m, name_of' id' m <-> name_of id' m \/ id' = id /\ m = name) ->
  view_ok status None None owner name_of doomed ->
  view_ok (<[name := statusRunning]> status) (Some id) None (fun j => if decide (j = i) then Some (Starting, id) else owner j) name_of' doomed.
Proof.
  intros Hi Hfresh Hname [K F U S A X R P D DK].
  assert (forall j phase, owner j <> Some (phase, id)) as Hnew by (intros j phase Hj; destruct (K _ _ _ Hj) as [m Hm]; by apply (Hfresh m)).
  split.
  - intros j phase id'. case_decide; [intros [= <- <-]; exists name; apply Hname; by right|]. intros Hj. destruct (K _ _ _ Hj) as [m Hm].
    exists m. apply Hname. by left.
  - intros id' m m' [Hm|[-> ->]]%Hname [Hm'|[Hid ->]]%Hname; try subst; [by eapply F|by apply Hfresh in Hm|by apply Hfresh in Hm'|done].
  - intros j k ph ph' id'. repeat case_decide; intros H1 H2; subst; try done.
    + injection H1 as <- <-. by apply Hnew in H2.
    + injection H2 as <- <-. by apply Hnew in H1.
    + by eapply U.
  - intros id'. split; [intros [= <-]; exists i; by rewrite decide_True|]. intros [j Hj]. case_decide; [congruence|].
    assert (None = Some id') by (apply S; by exists j). done.
  - intros id'. split; [done|]. intros [j Hj]. case_decide; [congruence|]. apply A. by exists j.
  - by right.
  - intros m Hm. destruct (decide (m = name)) as [->|?]; [exists id; split; [by right|]; apply Hname; by right|].
    rewrite lookup_insert_ne in Hm by done. destruct (R m Hm) as (id' & [?|?] & _); done.
  - intros m Hm. destruct (decide (m = name)) as [->|?]; [by rewrite lookup_insert_eq in Hm|]. rewrite lookup_insert_ne in Hm by done.
    destruct (P m Hm) as [(id' & [?|?] & _)|(j & id' & Hj & Hn)]; [done..|]. right. exists j, id'. split; [|apply Hname; by left].
    rewrite decide_False; [done|]. intros ->. congruence.
  - intros id' m Hd [?|[= ->]] Hm; [done|]. destruct (DK _ Hd) as [m' Hm']. by apply Hfresh in Hm'.
  - intros id' Hd. destruct (DK _ Hd) as [m Hm]. exists m. apply Hname. by left.
Qed.

Lemma view_begin_strict status owner name_of i id name name_of' :
  owner i = None -> (forall name', ~ name_of id name') ->
  (forall id' m, name_of' id' m <-> name_of id' m \/ id' = id /\ m = name) ->
  (forall j phase id', owner j = Some (phase, id') -> exists m, name_of id' m) ->
  ~ (exists j id', owner j = Some (Aborted, id') /\ name_of id' name) ->
  view_strict (<[name := statusRunning]> status) (Some id) None (fun j => if decide (j = i) then Some (Starting, id) else owner j) name_of'.
Proof.
  intros Hi Hfresh Hname K Hnone. split.
  - intros id' m [?|[= <-]] [Hm|[_ ->]]%Hname; [done|done|by apply Hfresh in Hm|]. left. by rewrite lookup_insert_eq.
  - intros id' m j id2 [?|[= <-]] [Hm|[_ ->]]%Hname Hj; [done|done|by apply Hfresh in Hm|]. case_decide; [done|].
    intros [Hm|[-> _]]%Hname; [|destruct (K _ _ _ Hj) as [m Hm]; by apply Hfresh in Hm]. apply Hnone. by exists j, id2.
Qed.

(** A starting run becomes the active one. *)
Lemma view_activate status starting active owner name_of doomed i id :
  owner i = Some (Starting, id) ->
  view_ok status starting active owner name_of doomed ->
  view_ok status (clear id starting) (Some id) (fun j => if decide (i = j) then Some (Active, id) else owner j) name_of doomed /\
  active = None /\ starting = Some id.
Proof.
  intros Hi [K F U S A X R P D DK]. assert (starting = Some id) as Hs by (apply S; by exists i). assert (active = None) as Ha by (destruct X; congruence).
  split; [|done]. subst. unfold clear. rewrite bool_decide_eq_true_2 by done. split; try done.
  - intros j phase id'. case_decide; [intros [= <- <-]; by eapply K|by apply K].
  - intros j k ph ph' id'. repeat case_decide; intros H1 H2; subst; try done.
    + injection H1 as <- <-. by eapply U.
    + injection H2 as <- <-. by eapply U.
    + by eapply U.
  - intros id'. split; [done|]. intros [j Hj]. case_decide; [done|]. assert (Some id = Some id') as [= <-] by (apply S; by exists j).
    by specialize (U _ _ _ _ _ Hi Hj).
  - intros id'. split; [intros [= <-]; exists i; by rewrite decide_True|]. intros [j Hj]. case_decide; [congruence|].
    assert (None = Some id') by (apply A; by exists j). done.
  - by left.
  - intros m Hm. destruct (R m Hm) as (id' & [?|[= <-]] & Hn); [done|]. exists id. auto.
  - intros m Hm. destruct (P m Hm) as [(id' & [?|[= <-]] & Hn)|(j & id' & Hj & Hn)]; [done|left; exists id; auto|].
    right. exists j, id'. split; [|done]. rewrite decide_False; [done|]. intros ->. congruence.
  - intros id' m Hd [[= <-]|?] Hm; [|done]. by apply (D id m Hd); [right|].
Qed.

(** A starting run that was cancelled aborts. *)
Lemma view_abort status starting active owner name_of doomed i id :
  owner i = Some (Starting, id) -> doomed id ->
  view_ok status starting active owner name_of doomed ->
  view_ok status (clear id starting) active (fun j => if decide (i = j) then Some (Aborted, id) else owner j) name_of doomed /\
  active = None /\ starting = Some id.
Proof.
  intros Hi Hd [K F U S A X R P D DK]. assert (starting = Some id) as Hs by (apply S; by exists i). assert (active = None) as Ha by (destruct X; congruence).
  split; [|done]. subst. unfold clear. rewrite bool_decide_eq_true_2 by done. split; try done.
  - intros j phase id'. case_decide; [intros [= <- <-]; by eapply K|by apply K].
  - intros j k ph ph' id'. repeat case_decide; intros H1 H2; subst; try done.
    + injection H1 as <- <-. by eapply U.
    + injection H2 as <- <-. by eapply U.
    + by eapply U.
  - intros id'. split; [done|]. intros [j Hj]. case_decide; [done|]. assert (Some id = Some id') as [= <-] by (apply S; by exists j).
    by specialize (U _ _ _ _ _ Hi Hj).
  - intros id'. split; [done|]. intros [j Hj]. case_decide; [done|]. apply A. by exists j.
  - by left.
  - intros m Hm. destruct (R m Hm) as (id' & [?|[= <-]] & Hn); [done|]. by destruct (D id m Hd (or_intror eq_refl) Hn).
  - intros m Hm. right. destruct (P m Hm) as [(id' & [?|[= <-]] & Hn)|(j & id' & Hj & Hn)]; [done|exists i, id; by rewrite decide_True|].
    exists j, id'. split; [|done]. rewrite decide_False; [done|]. intros ->. congruence.
  - intros id' m _ [?|?]; done.
Qed.
End View.

Lemma view_ok_sub status starting active owner owner' name_of name_of' (doomed1 doomed2 : nat -> Prop) :
  (forall j, owner' j = owner j) -> (forall id m, name_of' id m <-> name_of id m) -> (forall id, doomed2 id -> doomed1 id) ->
  view_ok status starting active owner name_of doomed1 -> view_ok status starting active owner' name_of' doomed2.
Proof.
  intros Ho Hn Hd [K F U S A X R P D DK]. split.
  - intros i ph id. rewrite Ho. setoid_rewrite Hn. apply K.
  - intros id m m' H1%Hn H2%Hn. by eapply F.
  - intros i j ph ph' id. rewrite !Ho. apply U.
  - intros id. setoid_rewrite Ho. apply S.
  - intros id. setoid_rewrite Ho. apply A.
  - exact X.
  - intros m. setoid_rewrite Hn. apply R.
  - intros m. setoid_rewrite Hn. setoid_rewrite Ho. apply P.
  - intros id m H1%Hd H2 H3. apply Hn in H3. by apply (D id).
  - intros id H1%Hd. setoid_rewrite Hn. by apply DK.
Qed.

Lemma view_strict_sub status starting active owner owner' name_of name_of' :
  (forall j, owner' j = owner j) -> (forall id m, name_of' id m <-> name_of id m) ->
  view_strict status starting active owner name_of -> view_strict status starting active owner' name_of'.
Proof.
  intros Ho Hn [L D]. split.
  - intros id m. rewrite Hn. apply L.
  - intros id m i id'. rewrite !Hn, Ho. apply D.
Qed.

(** ** Every step keeps it *)

Definition runs_inv (strict : bool) s : Prop :=
  view_ok (rs_status s) (rs_starting s) (rs_active s) (carried s) (named s) (doomed s) /\
  (strict = true -> view_strict (rs_status s) (rs_starting s) (rs_active s) (carried s) (named s)).

Lemma newRuns_inv strict names : runs_inv strict (newRuns names).
Proof.
  assert (forall name status, rs_status (newRuns names) !! name = Some status -> status = statusIdle) as Hidle.
  { intros name status Hs%elem_of_list_to_map_2. apply list_elem_of_fmap in Hs as (n & [= _ ->] & _). done. }
  split; [|intros _]; split; cbn -[newRuns]; try done.
  - intros id m m' (r & Hr & _). done.
  - intros id. split; [done|]. by intros [].
  - intros id. split; [done|]. by intros [].
  - by left.
  - intros name Hs%Hidle. done.
  - intros name Hs%Hidle. done.
  - intros id m _ [?|?]; done.
  - intros id [(r & Hr & _)|Hin%elem_of_nil]; done.
  - intros id m [?|?]; done.
Qed.

Lemma named_runs_insert s id run run' runs :
  rs_runs s !! id = Some run -> sr_name run' = sr_name run -> runs = <[id := run']> (rs_runs s) ->
  forall id' m, (exists r, runs !! id' = Some r /\ sr_name r = m) <-> named s id' m.
Proof.
  intros Hr Hn -> id' m. unfold named. destruct (decide (id = id')) as [<-|Hne].
  - rewrite list_lookup_insert_eq by (by eapply lookup_lt_Some). rewrite Hr.
    split; intros (r & [= <-] & Hm); (eexists; split; [done|congruence]).
  - by rewrite list_lookup_insert_ne.
Qed.

Lemma carried_at s i t : rs_threads s !! i = Some t -> carried s i = carries t.
Proof. unfold carried. by intros ->. Qed.

Lemma insert_Cancelling s i t id : (forall id', t <> Cancelling id') ->
  Cancelling id ∈ <[i := t]> (rs_threads s) -> Cancelling id ∈ rs_threads s.
Proof. intros Ht [j Hj]%list_elem_of_lookup. apply list_lookup_insert_Some in Hj as [(_ & Heq & _)|[_ Hj]]; [by destruct (Ht id)|]. by eapply list_elem_of_lookup_2. Qed.

Lemma doomed_insert s id run run' id' : rs_runs s !! id = Some run ->
  (exists r, <[id := run']> (rs_runs s) !! id' = Some r /\ sr_cancelled r = true) ->
  (id' = id /\ sr_cancelled run' = true) \/ exists r, rs_runs s !! id' = Some r /\ sr_cancelled r = true.
Proof.
  intros Hr (r & H & Hc). destruct (decide (id = id')) as [<-|Hne].
  - rewrite list_lookup_insert_eq in H by (by eapply lookup_lt_Some). left. by injection H as <-.
  - rewrite list_lookup_insert_ne in H by done. right. by exists r.
Qed.

Lemma begin_inv strict name s s' :
  startScenario_begin name s = Some s' -> (strict = true -> ~ aborting name s) -> runs_inv strict s -> runs_inv strict s'.
Proof.
  unfold startScenario_begin. destruct (rs_active s) eqn:Ha; [done|]. destruct (rs_starting s) eqn:Hs; [done|]. intros [= <-] Hstrict [Hok Hst].
  rewrite Ha, Hs in Hok, Hst. set (id := length (rs_runs s)).
  assert (carried s (length (rs_threads s)) = None) as Hend by apply carried_None_end.
  assert (forall name', ~ named s id name') as Hfresh by (intros m (r & Hr & _); apply lookup_lt_Some in Hr; unfold id in Hr; lia).
  match goal with |- runs_inv _ ?s' => set (s1 := s') end.
  assert (forall j, carried s1 j = if decide (j = length (rs_threads s)) then Some (Starting, id) else carried s j) as Ho
    by (intros j; unfold s1; by rewrite carried_spawn).
  assert (forall id' m, named s1 id' m <-> named s id' m \/ id' = id /\ m = name) as Hn.
  { intros id' m. unfold named, s1. cbn. split.
    - intros (r & Hr & Hm). apply lookup_app_Some in Hr as [Hr|[Hge Hr]]; [left; by exists r|]. right.
      destruct (id' - length (rs_runs s))%nat eqn:Hd; cbn in Hr; [|done]. injection Hr as <-. unfold id. cbn in Hm. split; [lia|done].
    - intros [(r & Hr & Hm)|[-> ->]]; [exists r; split; [by apply lookup_app_l_Some|done]|]. eexists. split; [by apply list_lookup_middle|done]. }
  split; [|intros Hstr].
  - eapply (view_ok_sub _ _ _ (fun j => if decide (j = length (rs_threads s)) then Some (Starting, id) else carried s j) _ (named s1) _ (doomed s)).
    + exact Ho.
    + done.
    + intros id' [(r & Hr & Hc)|Hin]; unfold s1 in *; cbn in *.
      * apply lookup_app_Some in Hr as [Hr|[_ Hr]]; [left; by exists r|]. apply list_lookup_singleton_Some in Hr as [_ <-]. done.
      * right. apply elem_of_app in Hin as [Hin|Hin%list_elem_of_singleton]; done.
    + unfold s1. cbn. by eapply view_begin.
  - eapply (view_strict_sub _ _ _ (fun j => if decide (j = length (rs_threads s)) then Some (Starting, id) else carried s j) _ (named s1)); [exact Ho|done|].
    unfold s1 at 1 2 3. cbn. eapply view_begin_strict; [done|exact Hfresh|exact Hn|intros; by eapply (vo_known _ _ _ _ _ _ Hok)|].
    rewrite <- aborting_carried. by apply Hstrict.
Qed.

(** A thread that completes its run. *)
Lemma complete_inv strict i id phase run rest s s' :
  runs_inv strict s -> carried s i = Some (phase, id) -> rs_runs s !! id = Some run -> rest = statusIdle \/ rest = statusError ->
  rs_status s' = <[sr_name run := rest]> (rs_status s) -> rs_starting s' = clear id (rs_starting s) -> rs_active s' = clear id (rs_active s) ->
  (forall j, carried s' j = if decide (i = j) then None else carried s j) -> (forall id' m, named s' id' m <-> named s id' m) ->
  (forall id', doomed s' id' -> id' = id \/ doomed s id') ->
  runs_inv strict s'.
Proof.
  intros [Hok Hst] Hi Hr Hrest H1 H2 H3 Ho Hn Hd. assert (named s id (sr_name run)) as Hname by (by exists run).
  split; [|intros Hstr]; rewrite H1, H2, H3.
  - eapply view_ok_sub; [exact Ho|exact Hn|exact Hd|]. by eapply view_drop.
  - eapply view_strict_sub; [exact Ho|exact Hn|]. eapply view_drop_strict; [done|done|exact Hok|by apply Hst].
Qed.

Lemma completeScenario_inv strict i id phase run failed s :
  rs_threads s !! i = Some (match phase with Aborted => Aborting id | _ => Watching id end) -> phase <> Starting ->
  rs_runs s !! id = Some run -> runs_inv strict s -> runs_inv strict (with_thread i Finished (completeScenario id run failed s)).
Proof.
  intros Hi Hp Hr Hinv.
  assert (carried s i = Some (phase, id)) as Hc by (rewrite (carried_at _ _ _ Hi); by destruct phase).
  eapply (complete_inv strict i id phase run (if failed then statusError else statusIdle)); try done; [destruct failed; auto|..].
  - intros j. rewrite carried_with_thread by (by eexists). done.
  - intros id' [Hd|Hin]; [right; by left|]. right. right. by eapply insert_Cancelling in Hin.
Qed.

Lemma launched_inv strict i id run result s :
  rs_threads s !! i = Some (Launching id) -> rs_runs s !! id = Some run -> runs_inv strict s -> runs_inv strict (startScenario_launched i id run result s).
Proof.
  intros Hi Hr Hinv. pose proof (carried_at _ _ _ Hi) as Hc. cbn in Hc. pose proof Hinv as [Hok Hst].
  assert (rs_starting s = Some id) as Hs by (apply (vo_starting _ _ _ _ _ _ Hok); by exists i).
  assert (rs_active s = None) as Ha by (destruct (vo_exclusive _ _ _ _ _ _ Hok); congruence).
  destruct result as [canceled|containerID]; cbn [startScenario_launched].
  - eapply (complete_inv strict i id Starting run (if canceled && bool_decide (rs_status s !! sr_name run = Some statusStopping) then statusIdle else statusError));
      try done; [case_match; auto|cbn; rewrite Ha; unfold clear; by rewrite bool_decide_eq_false_2|..].
    + intros j. rewrite carried_with_thread by (by eexists). done.
    + exact (named_runs_insert s id run (mkRun (sr_name run) _ _) _ Hr eq_refl eq_refl).
    + intros id' [Hd|Hin]; cbn in *; [|right; right; by eapply insert_Cancelling in Hin].
      destruct (doomed_insert _ _ _ _ _ Hr Hd) as [[-> _]|?]; [by left|right; by left].
  - destruct (sr_cancelled run) eqn:Hcan.
    + destruct (view_abort _ _ _ _ _ (doomed s) i id Hc (or_introl (ex_intro _ run (conj Hr Hcan))) Hok) as [Hok' _].
      split; [|intros Hstr]; cbn [with_thread with_runs with_live rs_status rs_starting rs_active].
      * eapply view_ok_sub; [| | |exact Hok'].
        -- intros j. rewrite carried_with_thread by (by eexists). done.
        -- exact (named_runs_insert s id run (mkRun (sr_name run) _ _) _ Hr eq_refl eq_refl).
        -- intros id' [Hd|Hin]; cbn in *; [|right; by eapply insert_Cancelling in Hin]. left.
           destruct (doomed_insert _ _ _ _ _ Hr Hd) as [[-> _]|?]; [by exists run|done].
      * unfold clear. rewrite bool_decide_eq_true_2, Ha by done. split; [intros ? ? [?|?]; done|intros ? ? ? ? [?|?]; done].
    + destruct (view_activate _ _ _ _ _ _ i id Hc Hok) as [Hok' _].
      split; [|intros Hstr]; cbn [with_thread with_runs with_live rs_status rs_starting rs_active].
      * eapply view_ok_sub; [| | |exact Hok'].
        -- intros j. rewrite carried_with_thread by (by eexists). done.
        -- exact (named_runs_insert s id run (mkRun (sr_name run) _ _) _ Hr eq_refl eq_refl).
        -- intros id' [Hd|Hin]; cbn in *; [|right; by eapply insert_Cancelling in Hin]. left.
           destruct (doomed_insert _ _ _ _ _ Hr Hd) as [[_ ?]|?]; [cbn in *; congruence|done].
      * destruct (Hst Hstr) as [L D]. eapply (view_strict_sub _ _ _ (fun j => if decide (i = j) then Some (Active, id) else carried s j) _ (named s));
          [intros j; by rewrite carried_with_thread by (by eexists)|exact (named_runs_insert s id run (mkRun (sr_name run) _ _) _ Hr eq_refl eq_refl)|].
        unfold clear. rewrite bool_decide_eq_true_2 by done. split.
        -- intros id' m [[= <-]|?] Hm; [|done]. apply (L id); auto.
        -- intros id' m j id2 [[= <-]|?] Hm Hj; [|done]. case_decide; [done|]. apply (D id m j id2); auto.
Qed.

Lemma live_spec s id : runs_inv false s -> live s = Some id <-> rs_active s = Some id \/ rs_starting s = Some id.
Proof. intros [[_ _ _ _ _ X _ _ _ _] _]. unfold live. destruct (rs_active s); naive_solver. Qed.

Lemma runs_inv_weaken strict s : runs_inv strict s -> runs_inv false s.
Proof. intros [H _]. by split. Qed.

(** The critical section of a stop: the live run's scenario is stopping, and a thread will
    cancel it. *)
Lemma stopping_inv strict id run s :
  live s = Some id -> rs_runs s !! id = Some run -> runs_inv strict s ->
  runs_inv strict (spawn (Cancelling id) (setScenarioStatusLocked (sr_name run) statusStopping s)).
Proof.
  intros Hl Hr Hinv. apply live_spec in Hl; [|by eapply runs_inv_weaken]. destruct Hinv as [Hok Hst].
  assert (forall j, carried (spawn (Cancelling id) (setScenarioStatusLocked (sr_name run) statusStopping s)) j = carried s j) as Ho.
  { intros j. rewrite carried_spawn. case_decide; [|done]. subst j. exact (eq_sym (carried_None_end s)). }
  split; [|intros Hstr]; cbn [spawn setScenarioStatusLocked rs_status rs_starting rs_active].
  - eapply view_ok_sub; [exact Ho|intros id' m; exact (iff_refl (named s id' m))| |eapply (view_stopping _ _ _ _ _ _ id (sr_name run) Hl); [by exists run|exact Hok]].
    intros id' [Hd|Hin]; [right; by left|]. cbn in Hin. apply elem_of_app in Hin as [Hin|Hin%list_elem_of_singleton]; [right; by right|].
    injection Hin as ->. by left.
  - eapply view_strict_sub; [exact Ho|intros id' m; exact (iff_refl (named s id' m))|]. by apply view_stopping_strict, Hst.
Qed.

Lemma runs_step_inv strict s s' : runs_step strict s s' -> runs_inv strict s -> runs_inv strict s'.
Proof.
  destruct 1 as [name s s' Hb Hstrict|i id run result s Hi Hr|i id run s Hi Hr|i id run s Hi Hr|i id run failed s Hi Hr|name s s' Hb|s|i id s Hi]; intros Hinv.
  - by eapply begin_inv.
  - by apply launched_inv.
  - by apply (completeScenario_inv strict i id Aborted).
  - destruct Hinv as [Hok Hst].
    assert (forall j, carried (with_thread i (Watching id) (publish (ScenarioStarted (sr_name run)) s)) j = carried s j) as Ho.
    { intros j. rewrite carried_with_thread by (by eexists). case_decide; [|done]. subst j. by rewrite (carried_at _ _ _ Hi). }
    split; [|intros Hstr]; [eapply view_ok_sub; [exact Ho|intros id' m; exact (iff_refl (named s id' m))| |exact Hok]|
      eapply view_strict_sub; [exact Ho|intros id' m; exact (iff_refl (named s id' m))|by apply Hst]].
    intros id' [Hd|Hin]; [by left|right]. by eapply insert_Cancelling in Hin.
  - by apply (completeScenario_inv strict i id Active).
  - unfold stopScenario_begin in Hb. destruct (live s) as [id|] eqn:Hl; [|done]. destruct (rs_runs s !! id) as [run|] eqn:Hr; cbn in Hb; [|done].
    case_bool_decide as Hn; [|done]. injection Hb as <-. rewrite <- Hn. by apply stopping_inv.
  - unfold cancelActiveScenario_begin. destruct (live s) as [id|] eqn:Hl; [|done]. destruct (rs_runs s !! id) as [run|] eqn:Hr; [|done]. by apply stopping_inv.
  - destruct Hinv as [Hok Hst].
    assert (forall j, carried (with_thread i Finished (cancel id s)) j = carried s j) as Ho.
    { intros j. rewrite carried_with_thread by (by eexists). case_decide; [|done]. subst j. by rewrite (carried_at _ _ _ Hi). }
    assert (forall id' m, named (with_thread i Finished (cancel id s)) id' m <-> named s id' m) as Hn.
    { intros id' m. unfold named. cbn. destruct (decide (id = id')) as [<-|Hne]; [|by rewrite list_lookup_alter_ne].
      rewrite list_lookup_alter_eq. destruct (rs_runs s !! id) as [r|]; cbn; [|done]. split; intros (x & [= <-] & Hm); eexists; (split; [done|done]). }
    split; [|intros Hstr]; [eapply view_ok_sub; [exact Ho|exact Hn| |exact Hok]|eapply view_strict_sub; [exact Ho|exact Hn|by apply Hst]].
    intros id' [(r & Hr & Hc)|Hin]; [|right; by eapply insert_Cancelling in Hin]. cbn in Hr.
    destruct (decide (id = id')) as [<-|Hne]; [right; by eapply list_elem_of_lookup_2|]. rewrite list_lookup_alter_ne in Hr by done. left. by exists r.
Qed.

Lemma runs_reachable strict names s : rtc (runs_step strict) (newRuns names) s -> runs_inv strict s.
Proof.
  intros Hrun. assert (forall s0, rtc (runs_step strict) s0 s -> runs_inv strict s0 -> runs_inv strict s) as Hgen
    by (intros s0 H; induction H; eauto using runs_step_inv).
  eapply Hgen; [exact Hrun|apply newRuns_inv].
Qed.

(** ** What others do meanwhile

    The steps of every thread but the [i]th, which stays where it is. *)
Definition others_step (strict : bool) (i : nat) s s' : Prop := runs_step strict s s' /\ rs_threads s' !! i = rs_threads s !! i.
Definition others (strict : bool) (i : nat) : Runs -> Runs -> Prop := rtc (others_step strict i).

Lemma others_steps strict i s s' : others strict i s s' -> rtc (runs_step strict) s s'.
Proof. induction 1 as [|s1 s2 s3 [Hstep _] _ IH]; [apply rtc_refl|by eapply rtc_l]. Qed.

Lemma others_thread strict i s s' : others strict i s s' -> rs_threads s' !! i = rs_threads s !! i.
Proof. induction 1 as [|s1 s2 s3 [_ Hi] _ IH]; [done|by rewrite IH]. Qed.

(** A run is its thread's: others can cancel it, no more. *)
Lemma others_step_run strict i s s' phase id run :
  runs_inv false s -> carried s i = Some (phase, id) -> rs_runs s !! id = Some run -> others_step strict i s s' ->
  exists cancelled, rs_runs s' !! id = Some (mkRun (sr_name run) (sr_containerID run) cancelled) /\ (sr_cancelled run = true -> cancelled = true).
Proof.
  intros [[_ _ U _ _ _ _ _ _ _] _] Hi Hr [Hstep Hsame].
  assert (forall s', rs_runs s' = rs_runs s -> exists cancelled, rs_runs s' !! id = Some (mkRun (sr_name run) (sr_containerID run) cancelled) /\
    (sr_cancelled run = true -> cancelled = true)) as Hkeep by (intros s0 ->; rewrite Hr; by destruct run; eexists).
  destruct Hstep as [name s s' Hb _|j id' run' result s Hj Hr'|j id' run' s Hj Hr'|j id' run' s Hj Hr'|j id' run' failed s Hj Hr'|name s s' Hb|s|j id' s Hj].
  - unfold startScenario_begin in Hb. destruct (rs_active s), (rs_starting s); try done. injection Hb as <-. cbn.
    exists (sr_cancelled run). split; [|done]. rewrite lookup_app_l by (by eapply lookup_lt_Some). rewrite Hr. by destruct run.
  - assert (id' <> id) as Hne.
    { intros ->. assert (j = i) as -> by (eapply (U j i _ _ id); [by rewrite (carried_at _ _ _ Hj)|exact Hi]). rewrite Hj in Hsame.
      unfold startScenario_launched in Hsame. destruct result; [|destruct (sr_cancelled run')];
        cbn in Hsame; rewrite list_lookup_insert_eq in Hsame by (by eapply lookup_lt_Some); done. }
    exists (sr_cancelled run). split; [|done]. transitivity (rs_runs s !! id); [|rewrite Hr; by destruct run].
    unfold startScenario_launched. destruct result; [|destruct (sr_cancelled run')]; cbn; by rewrite list_lookup_insert_ne.
  - by apply Hkeep.
  - by apply Hkeep.
  - by apply Hkeep.
  - unfold stopScenario_begin in Hb. destruct (live s) as [l|]; [|done]. destruct (rs_runs s !! l); cbn in Hb; [|done].
    case_bool_decide; [|done]. injection Hb as <-. by apply Hkeep.
  - unfold cancelActiveScenario_begin. destruct (live s) as [l|]; [|by apply Hkeep]. destruct (rs_runs s !! l); by apply Hkeep.
  - cbn. destruct (decide (id' = id)) as [->|Hne].
    + rewrite list_lookup_alter_eq, Hr. by exists true.
    + rewrite list_lookup_alter_ne by done. by apply (Hkeep s).
Qed.

Lemma others_run strict i s s' phase id run :
  others strict i s s' -> runs_inv strict s -> carried s i = Some (phase, id) -> rs_runs s !! id = Some run ->
  runs_inv strict s' /\ carried s' i = Some (phase, id) /\
  exists cancelled, rs_runs s' !! id = Some (mkRun (sr_name run) (sr_containerID run) cancelled) /\ (sr_cancelled run = true -> cancelled = true).
Proof.
  intros Hothers. revert run. induction Hothers as [s|s1 s2 s3 Hstep _ IH]; intros run Hinv Hi Hr.
  - split_and!; [done|done|]. exists (sr_cancelled run). by destruct run.
  - destruct (others_step_run strict i s1 s2 phase id run (runs_inv_weaken _ _ Hinv) Hi Hr Hstep) as (x & Hx & Hmono).
    destruct Hstep as [Hstep Hsame]. assert (carried s2 i = Some (phase, id)) as Hi2 by (unfold carried in *; by rewrite Hsame).
    destruct (IH _ (runs_step_inv _ _ _ Hstep Hinv) Hi2 Hx) as (H1 & H2 & y & Hy & Hmono2). split_and!; [done|done|]. exists y. eauto.
Qed.

(** ** A start, among others *)

Section Start.
Variables (strict : bool) (name : string) (s begun before : Runs).
Let i := length (rs_threads s).
Let id := length (rs_runs s).
Hypothesis Hinv : runs_inv strict s.
Hypothesis Hbegun : startScenario_begin name s = Some begun.
Hypothesis Hfree : strict = true -> ~ aborting name s.
Hypothesis Hbefore : others strict i begun before.

Lemma start_begun :
  live s = None /\ rs_threads begun !! i = Some (Launching id) /\ rs_runs begun !! id = Some (mkRun name "" false) /\ runs_inv strict begun.
Proof using Hinv Hbegun Hfree.
  clear before Hbefore.
  assert (runs_inv strict begun) as Hb by (eapply runs_step_inv; [by eapply step_begin|done]).
  revert Hbegun. unfold startScenario_begin, live. destruct (rs_active s), (rs_starting s); try done. intros [= <-].
  split_and!; [done| | |exact Hb]; cbn; by rewrite list_lookup_middle.
Qed.

(** The run is still starting when [runner.Start] returns, though it may be cancelled. *)
Lemma start_before :
  runs_inv strict before /\ rs_threads before !! i = Some (Launching id) /\ exists cancelled, rs_runs before !! id = Some (mkRun name "" cancelled).
Proof.
  destruct start_begun as (_ & Ht & Hr & Hb). destruct (others_run strict i begun before Starting id (mkRun name "" false) Hbefore Hb) as (H1 & _ & x & Hx & _);
    [by rewrite (carried_at _ _ _ Ht)|exact Hr|]. split_and!; [done|by rewrite (others_thread _ _ _ _ Hbefore)|by exists x].
Qed.

Lemma start_alone : rs_active before = None /\ rs_starting before = Some id.
Proof.
  destruct start_before as ([[_ _ _ S _ X _ _ _ _] _] & Ht & _).
  assert (rs_starting before = Some id) as Hs by (apply S; exists i; by rewrite (carried_at _ _ _ Ht)). split; [|done]. by destruct X; congruence.
Qed.

Lemma start_fails canceled run :
  sr_name run = name ->
  let failed := startScenario_launched i id run (LaunchFailed canceled) before in
  live failed = None /\
  scenarioStatusFor name failed = if canceled && bool_decide (scenarioStatusFor name before = statusStopping) then statusIdle else statusError.
Proof.
  intros Hname. destruct start_alone as [Ha Hs]. unfold live, startScenario_launched, clear, scenarioStatusFor. cbn.
  rewrite Hname, Ha, Hs, lookup_insert_eq, bool_decide_eq_true_2 by done. split; [done|]. cbn. by destruct (rs_status before !! name) as [[]|].
Qed.

Lemma start_runs containerID after :
  rs_runs before !! id = Some (mkRun name "" false) ->
  others strict i (startScenario_launched i id (mkRun name "" false) (LaunchedContainer containerID) before) after ->
  let started := with_thread i (Watching id) (publish (ScenarioStarted name) after) in
  live started = Some id /\ exists cancelled, rs_runs started !! id = Some (mkRun name containerID cancelled) /\
    (strict = true -> scenarioStatusFor name started = statusStopping \/ cancelled = false /\ scenarioStatusFor name started = statusRunning).
Proof.
  intros Hrun Hafter. destruct start_before as (Hb & Ht & _).
  set (launched := startScenario_launched _ _ _ _ _) in Hafter.
  assert (runs_inv strict launched) as Hl by (eapply runs_step_inv; [by eapply step_launched|done]).
  assert (rs_threads launched !! i = Some (Announcing id)) as Hti by (cbn; by rewrite list_lookup_insert_eq by (by eapply lookup_lt_Some)).
  destruct (others_run strict i launched after Active id (mkRun name containerID false) Hafter Hl) as (Ha & _ & x & Hx & _).
  { by rewrite (carried_at _ _ _ Hti). } { cbn. by rewrite list_lookup_insert_eq by (by eapply lookup_lt_Some). }
  rewrite <- (others_thread _ _ _ _ Hafter) in Hti. cbv zeta. set (started := with_thread _ _ _).
  assert (runs_inv strict started) as Hs by (eapply runs_step_inv; [by eapply (step_announced strict i id _ after Hti Hx)|done]).
  assert (rs_active started = Some id) as Hact.
  { destruct Hs as [[_ _ _ _ A _ _ _ _ _] _]. apply A. exists i. unfold started. rewrite carried_with_thread by (by eexists). by rewrite decide_True. }
  split; [unfold live; by rewrite Hact|]. exists x. split; [exact Hx|]. intros Hstrict. destruct Hs as [[_ _ _ _ _ _ _ _ D _] V]. specialize (V Hstrict).
  assert (named started id name) as Hn by (by eexists).
  destruct (vs_live _ _ _ _ _ V id name (or_introl Hact) Hn) as [Hrunning|Hstop]; [right|left]; unfold scenarioStatusFor.
  - rewrite Hrunning. split; [|done]. destruct x; [|done]. exfalso. apply (D id name); [left; by eexists|by left|exact Hn|exact Hrunning].
  - by rewrite Hstop.
Qed.
End Start.

(** A run that was aborted and completed is not live, and its scenario rests. *)
Lemma aborted_rests i id run s :
  let completed := with_thread i Finished (completeScenario id run false s) in
  live completed <> Some id /\ scenarioStatusFor (sr_name run) completed = statusIdle /\ last (rs_events completed) = Some (ScenarioStopped (sr_name run) statusIdle).
Proof.
  cbv zeta. split_and!.
  - unfold live, completeScenario, clear. cbn. repeat case_bool_decide; try done; by destruct (rs_active s).
  - unfold scenarioStatusFor. cbn. by rewrite lookup_insert_eq.
  - cbn. by rewrite last_snoc.
Qed.

(** A stop, from its critical section to the cancellation. *)
Definition stop_meanwhile (name : string) s : Runs :=
  match stopScenario_begin name s, live s with
  | Some stopping, Some id => with_thread (length (rs_threads s)) Finished (cancel id stopping)
  | _, _ => s
  end.

Lemma stop_others strict i name s : is_Some (rs_threads s !! i) -> others strict i s (stop_meanwhile name s).
Proof.
  intros Hi%lookup_lt_is_Some. unfold stop_meanwhile. destruct (stopScenario_begin name s) as [stopping|] eqn:Hb; [|apply rtc_refl].
  destruct (live s) as [id|] eqn:Hl; [|apply rtc_refl]. pose proof Hb as Hb'. unfold stopScenario_begin in Hb'. rewrite Hl in Hb'.
  destruct (rs_runs s !! id) as [run|]; cbn in Hb'; [|done]. case_bool_decide; [|done]. injection Hb' as Hb'.
  eapply rtc_l; [split; [by apply step_stop with name|]|eapply rtc_l; [split; [apply (step_cancel strict (length (rs_threads s)) id stopping)|]|apply rtc_refl]].
  - rewrite <- Hb'. cbn. by rewrite lookup_app_l.
  - rewrite <- Hb'. cbn. by rewrite list_lookup_middle.
  - cbn. rewrite list_lookup_insert_ne by lia. done.
Qed.

(** C28: scenario runs exclude each other: whatever the interleaving of starts, stops, resets
    and the goroutines of runs, one run at most is starting or active, and a start is
    accepted exactly if none is; a scenario shown as running has that run; one shown as
    stopping has it or one that is aborting; and as long as no run begins while one of its
    scenario is aborting, the live run's scenario is shown as running or stopping. *)
Theorem scenario_runs_are_exclusive strict names s :
  rtc (runs_step strict) (newRuns names) s ->
  (rs_starting s = None \/ rs_active s = None) /\
  (forall i j id id', (carried s i = Some (Starting, id) \/ carried s i = Some (Active, id)) ->
     (carried s j = Some (Starting, id') \/ carried s j = Some (Active, id')) -> i = j /\ live s = Some id) /\
  (forall name, is_Some (startScenario_begin name s) <-> live s = None) /\
  (forall name, scenarioStatusFor name s = statusRunning -> exists id, live s = Some id /\ named s id name) /\
  (forall name, scenarioStatusFor name s = statusStopping -> (exists id, live s = Some id /\ named s id name) \/ aborting name s) /\
  (strict = true -> forall id name, live s = Some id -> named s id name ->
     scenarioStatusFor name s = statusRunning \/ scenarioStatusFor name s = statusStopping).
Proof.
  intros Hrun. pose proof (runs_reachable strict names s Hrun) as Hinv. pose proof (runs_inv_weaken _ _ Hinv) as Hw.
  assert (forall id, live s = Some id <-> rs_active s = Some id \/ rs_starting s = Some id) as Hl by (intros; by apply live_spec).
  destruct Hinv as [[K F U S A X R P _ _] Hst].
  assert (forall i id, carried s i = Some (Starting, id) \/ carried s i = Some (Active, id) -> live s = Some id) as Hlive.
  { intros i id [Hi|Hi]; apply Hl; [right; apply S; by exists i|left; apply A; by exists i]. }
  assert (forall name status, status <> statusIdle -> scenarioStatusFor name s = status -> rs_status s !! name = Some status) as Hstatus
    by (unfold scenarioStatusFor; intros name status Hne <-; by destruct (rs_status s !! name)).
  split_and!.
  - exact X.
  - intros i j id id' Hi Hj. pose proof (Hlive i id Hi) as H1. pose proof (Hlive j id' Hj) as H2. split; [|done]. rewrite H1 in H2. injection H2 as <-.
    destruct Hi as [Hi|Hi], Hj as [Hj|Hj]; by eapply U.
  - intros name. unfold startScenario_begin, live. destruct (rs_active s); [split; [by intros []|done]|]. destruct (rs_starting s); [split; [by intros []|done]|]. by split.
  - intros name Hn%Hstatus; [|done]. setoid_rewrite Hl. by apply R.
  - intros name Hn%Hstatus; [|done]. rewrite aborting_carried. setoid_rewrite Hl. by apply P.
  - intros Hstr id name Hid Hn. destruct (Hst Hstr) as [L _]. unfold scenarioStatusFor. destruct (L id name) as [-> | ->]; [by apply Hl|done|by left|by right].
Qed.

(** A run is started, and stopped while it starts; its container starts nevertheless. *)
Definition demo_aborting : list (Runs -> Runs) := [
  (fun s => default s (startScenario_begin "retry" s));
  (fun s => default s (stopScenario_begin "retry" s));
  (fun s => with_thread 1 Finished (cancel 0 s));
  (fun s => startScenario_launched 0 0 (default (mkRun "" "" false) (rs_runs s !! 0%nat)) (LaunchedContainer "k6-1") s)].
Definition demo_runs : Runs := foldl (fun s f => f s) (newRuns ["retry"; "auth"]) demo_aborting.

Lemma demo_runs_reached strict : rtc (runs_step strict) (newRuns ["retry"; "auth"]) demo_runs.
Proof.
  eapply rtc_l; [apply (step_begin _ "retry"); [reflexivity|]|].
  { intros _ (id & run & Hin & _). by apply elem_of_nil in Hin. }
  eapply rtc_l; [by apply (step_stop _ "retry")|]. eapply rtc_l; [by apply (step_cancel _ 1 0)|].
  eapply rtc_l; [by apply (step_launched _ 0 0 (mkRun "retry" "" true) (LaunchedContainer "k6-1"))|].
  match goal with |- rtc _ ?s _ => replace s with demo_runs by (vm_compute; reflexivity) end. apply rtc_refl.
Qed.

Lemma scenario_runs_are_exclusive_witness : scenarioStatusFor "retry" demo_runs = statusStopping /\ aborting "retry" demo_runs.
Proof.
  destruct (scenario_runs_are_exclusive true ["retry"; "auth"] demo_runs (demo_runs_reached true)) as (_ & _ & _ & _ & H & _).
  assert (scenarioStatusFor "retry" demo_runs = statusStopping) as Hs by (by vm_compute). split; [exact Hs|].
  destruct (H "retry" Hs) as [(id & Hl & _)|Ha]; [by vm_compute in Hl|exact Ha].
Defined.

(** A new run of the scenario begins before the aborted one completes: then it is shown as
    idle while it runs. *)
Lemma aborted_run_overwrites_status : exists s,
  rtc (runs_step false) (newRuns ["retry"; "auth"]) s /\
  (exists id, live s = Some id /\ named s id "retry") /\ scenarioStatusFor "retry" s = statusIdle.
Proof.
  set (s1 := default demo_runs (startScenario_begin "retry" demo_runs)).
  set (s2 := startScenario_launched 2 1 (mkRun "retry" "" false) (LaunchedContainer "k6-2") s1).
  exists (with_thread 0 Finished (completeScenario 0 (mkRun "retry" "k6-1" true) false s2)). split_and!.
  - transitivity demo_runs; [apply demo_runs_reached|].
    eapply rtc_l; [by apply (step_begin _ "retry" demo_runs s1)|].
    eapply rtc_l; [by apply (step_launched _ 2 1 (mkRun "retry" "" false) (LaunchedContainer "k6-2"))|]. fold s2.
    eapply rtc_l; [by apply (step_aborted _ 0 0 (mkRun "retry" "k6-1" true))|]. apply rtc_refl.
  - exists 1%nat. split; [by vm_compute|]. eexists. by split; [vm_compute|].
  - by vm_compute.
Qed.
