(* ===== verification/Limiter.v ===== *)
(** * The observatory's rate limit per address: [cmd/observatory/app.go]

    A token bucket per address, in double precision, computed as the code computes it.  The
    theorem: of requests that an address makes at one instant exactly the limit is let
    through, and one address takes nothing from another. *)

From Stdlib Require Import SpecFloat.
From stdpp Require Import gmap strings.
From S2P Require Import Prelude GoStrings Netip.
From stdpp Require Import options.
#[local] Set Default Proof Using "Type*".
#[local] Open Scope string_scope.
#[local] Open Scope Z_scope.

(** ** Doubles *)

Definition float64 (z : Z) : spec_float := binary_normalize 53 1024 z 0 false.
Definition fadd : spec_float -> spec_float -> spec_float := SFadd 53 1024.
Definition fsub : spec_float -> spec_float -> spec_float := SFsub 53 1024.
Definition fmul : spec_float -> spec_float -> spec_float := SFmul 53 1024.
Definition fdiv : spec_float -> spec_float -> spec_float := SFdiv 53 1024.

(** [Duration.Seconds] *)
Definition Seconds (d : Duration) : spec_float :=
  fadd (float64 (Z.quot d Second)) (fdiv (float64 (Z.rem d Second)) (float64 1000000000)).

(** ** The limiter *)

Record ipRateState := mkState { ip_tokens : spec_float; ip_lastRefill : Time }.

Record IPRateLimiter := mkLimiter {
  il_rate : spec_float; il_capacity : spec_float; il_state : gmap string ipRateState;
}.

Definition NewIPRateLimiter (limit : Z) (window : Duration) : IPRateLimiter :=
  let limit := if limit <=? 0 then 1 else limit in
  let window := if window <=? 0 then Minute else window in
  mkLimiter (fdiv (float64 limit) (Seconds window)) (float64 limit) ∅.

Definition with_state (key : string) (s : ipRateState) (l : IPRateLimiter) : IPRateLimiter :=
  mkLimiter (il_rate l) (il_capacity l) (<[key := s]> (il_state l)).

Definition limiter_key (key : string) : string := if bool_decide (TrimSpace key = "") then "unknown" else key.

(** The bucket after the time since its last refill. *)
Definition refill (l : IPRateLimiter) (current : ipRateState) (now : Time) : spec_float :=
  let tokens := fadd (ip_tokens current) (fmul (Seconds (SubTime now (ip_lastRefill current))) (il_rate l)) in
  if SFltb (il_capacity l) tokens then il_capacity l else tokens.

Definition IPRateLimiter_Allow (key : string) (now : Time) (l : IPRateLimiter) : bool * IPRateLimiter :=
  let key := limiter_key key in
  match il_state l !! key with
  | None => (true, with_state key (mkState (fsub (il_capacity l) (float64 1)) now) l)
  | Some current =>
      let tokens := refill l current now in
      if SFltb tokens (float64 1) then (false, with_state key (mkState tokens now) l)
      else (true, with_state key (mkState (fsub tokens (float64 1)) now) l)
  end.

(** [clientIPFromRequest], of the request's remote address. *)
Definition clientIPFromRequest (remoteAddr : string) : string :=
  match SplitHostPort (TrimSpace remoteAddr) with
  | None => TrimSpace remoteAddr
  | Some (host, _) => if bool_decide (TrimSpace host = "") then "unknown" else host
  end.

(** The two limiters of [newApp]. *)
Definition globalRateLimitPerMinute : Z := 100.
Definition metricsRateLimitPerMinute : Z := 60.
Definition rateLimitWindow : Duration := Minute.

(** ** Bursts *)

(** [n] requests of one address at one instant: how many are let through. *)
Fixpoint burst (n : nat) (key : string) (now : Time) (l : IPRateLimiter) : nat * IPRateLimiter :=
  match n with
  | O => (O, l)
  | S n =>
      let '(ok, l) := IPRateLimiter_Allow key now l in
      let '(allowed, l) := burst n key now l in
      ((if ok then S allowed else allowed), l)
  end.

(** A request changes no bucket but its address's, and neither the rate nor the capacity. *)
Lemma Allow_frame key now l : let l' := snd (IPRateLimiter_Allow key now l) in
  il_rate l' = il_rate l /\ il_capacity l' = il_capacity l /\
  forall other, other <> limiter_key key -> il_state l' !! other = il_state l !! other.
Proof.
  cbv zeta. unfold IPRateLimiter_Allow. destruct (il_state l !! _); [case_match|]; cbn; (split_and!; [done|done|]); intros; by rewrite lookup_insert_ne.
Qed.

Lemma burst_frame n key now l : let l' := snd (burst n key now l) in
  il_rate l' = il_rate l /\ il_capacity l' = il_capacity l /\
  forall other, other <> limiter_key key -> il_state l' !! other = il_state l !! other.
Proof.
  cbv zeta. revert l. induction n as [|n IH]; intros l; cbn [burst]; [done|]. destruct (Allow_frame key now l) as (H1 & H2 & H3).
  destruct (IPRateLimiter_Allow key now l) as [ok l1]. destruct (IH l1) as (G1 & G2 & G3). destruct (burst n key now l1) as [m l2]. cbn in *.
  split_and!; [congruence|congruence|]. intros other Ho. by rewrite G3, H3.
Qed.

#[export] Instance spec_float_eq_dec : EqDecision spec_float.
Proof. solve_decision. Defined.

(** What a bucket of [k] tokens does at once, for the two limits: decided for each [k]. *)
Definition exact_step (rate capacity : spec_float) (k : Z) : bool :=
  let tokens := fadd (float64 k) (fmul (Seconds 0) rate) in
  let tokens := if SFltb capacity tokens then capacity else tokens in
  if k =? 0 then SFltb tokens (float64 1) && bool_decide (tokens = float64 0)
  else negb (SFltb tokens (float64 1)) && bool_decide (fsub tokens (float64 1) = float64 (k - 1)).

Definition app_limit (limit : Z) : Prop := limit = globalRateLimitPerMinute \/ limit = metricsRateLimitPerMinute.

Definition limiter_of (limit : Z) : IPRateLimiter := NewIPRateLimiter limit rateLimitWindow.

Lemma exact_steps limit k : app_limit limit -> 0 <= k < limit ->
  exact_step (il_rate (limiter_of limit)) (il_capacity (limiter_of limit)) k = true.
Proof.
  intros Hl Hk.
  assert (forallb (fun k => exact_step (il_rate (limiter_of limit)) (il_capacity (limiter_of limit)) (Z.of_nat k)) (seq 0 (Z.to_nat limit)) = true) as Hall
    by (destruct Hl as [-> | ->]; vm_compute; reflexivity).
  rewrite forallb_forall in Hall. specialize (Hall (Z.to_nat k)). rewrite in_seq, Z2Nat.id in Hall by lia. apply Hall. lia.
Qed.

(** A bucket of the app's limiters that was filled at [now] and has [k] tokens. *)
Definition holds (limit : Z) (l : IPRateLimiter) (key : string) (k : Z) (now : Time) : Prop :=
  il_rate l = il_rate (limiter_of limit) /\ il_capacity l = il_capacity (limiter_of limit) /\
  il_state l !! limiter_key key = Some (mkState (float64 k) now).

Lemma SubTime_self t : SubTime t t = 0.
Proof. unfold SubTime. rewrite Z.sub_diag. reflexivity. Qed.

Lemma Allow_holds limit l key k now : app_limit limit -> 0 <= k < limit -> holds limit l key k now ->
  let '(ok, l') := IPRateLimiter_Allow key now l in
  ok = negb (k =? 0) /\ holds limit l' key (if k =? 0 then 0 else k - 1) now.
Proof.
  intros Hlim Hk (Hr & Hc & Hs). pose proof (exact_steps limit k Hlim Hk) as He. unfold exact_step in He.
  unfold IPRateLimiter_Allow. rewrite Hs. unfold refill. cbn [ip_tokens ip_lastRefill]. rewrite SubTime_self, Hr, Hc. cbv zeta in He.
  set (tokens := if SFltb _ _ then _ else _) in *. destruct (Z.eqb_spec k 0) as [->|Hne].
  - apply andb_true_iff in He as [Hlt Heq%bool_decide_eq_true]. rewrite Hlt. split; [done|]. split_and!; [done|done|]. unfold with_state; cbn [il_state]. by rewrite lookup_insert_eq, Heq.
  - apply andb_true_iff in He as [Hlt%negb_true_iff Heq%bool_decide_eq_true]. rewrite Hlt. split; [done|]. split_and!; [done|done|]. unfold with_state; cbn [il_state]. by rewrite lookup_insert_eq, Heq.
Qed.

Lemma burst_holds n limit l key k now : app_limit limit -> 0 <= k < limit -> holds limit l key k now ->
  fst (burst n key now l) = Nat.min n (Z.to_nat k).
Proof.
  intros Hlim. revert l k. induction n as [|n IH]; intros l k Hk Hh; [done|]. cbn [burst].
  pose proof (Allow_holds limit l key k now Hlim Hk Hh) as Ha. destruct (IPRateLimiter_Allow key now l) as [ok l']. destruct Ha as [-> Hh'].
  specialize (IH l' (if k =? 0 then 0 else k - 1) ltac:(destruct (Z.eqb_spec k 0); lia) Hh'). destruct (burst n key now l') as [m l2]. cbn [fst] in IH |- *. subst m.
  destruct (Z.eqb_spec k 0) as [->|Hne]; cbn [negb]; lia.
Qed.

(** Bursts are limited: of [n] requests that an address no request came from before makes
    at one instant, the first 100 are let through and no more, and of those for metrics the
    first 60; the buckets of the other addresses stay as they are. *)
Lemma bursts_are_limited limit l key now n :
  limit = 100 \/ limit = 60 ->
  il_rate l = il_rate (NewIPRateLimiter limit rateLimitWindow) -> il_capacity l = il_capacity (NewIPRateLimiter limit rateLimitWindow) ->
  il_state l !! limiter_key key = None ->
  let '(allowed, l') := burst n key now l in
  allowed = Nat.min n (Z.to_nat limit) /\
  forall other, limiter_key other <> limiter_key key -> il_state l' !! limiter_key other = il_state l !! limiter_key other.
Proof.
  intros Hlim Hr Hc Hs. pose proof (burst_frame n key now l) as Hframe. destruct (burst n key now l) as [allowed l'] eqn:Hb. cbn in Hframe.
  split; [|intros other Ho; by apply Hframe]. destruct n as [|n]; [by injection Hb as <- _|]. cbn [burst] in Hb.
  unfold IPRateLimiter_Allow in Hb. rewrite Hs in Hb. set (l1 := with_state _ _ l) in Hb.
  assert (app_limit limit) as Happ by done.
  assert (holds limit l1 key (limit - 1) now) as Hh.
  { split_and!; [done|done|]. unfold l1, with_state; cbn [il_state]. rewrite lookup_insert_eq, Hc. do 2 f_equal. destruct Hlim as [-> | ->]; vm_compute; reflexivity. }
  pose proof (burst_holds n limit l1 key (limit - 1) now Happ ltac:(lia) Hh) as Hn. destruct (burst n key now l1) as [m l2]. cbn in Hn. subst m.
  injection Hb as <- _. lia.
Qed.

Lemma bursts_are_limited_witness :
  let '(allowed, _) := burst 150 "192.0.2.1" Second (NewIPRateLimiter 100 rateLimitWindow) in allowed = 100%nat.
Proof.
  pose proof (bursts_are_limited 100 (NewIPRateLimiter 100 rateLimitWindow) "192.0.2.1" Second 150 (or_introl eq_refl) eq_refl eq_refl ltac:(by vm_compute)) as H.
  destruct (burst 150 _ _ _) as [allowed l']. exact (proj1 H).
Defined.
