(* ===== verification/Api.v ===== *)
(** * The observatory's API: [cmd/observatory/app.go], [api.go], [metrics.go], [reset.go]

    Every request passes the limit per address; what changes something asks for the demo
    token.  A handler is composed here of the steps that the other files model.  What others
    do to the runs while a run starts is an argument, [Meanwhile]; the other handlers are
    composed as they run when no other comes between their steps, the interleavings of which
    are the subject of the file on runs.  The theorems: nothing changes and nothing is called
    without the token, but for confined queries to Prometheus; which queries reach
    Prometheus, and how; and what a request to run a scenario is answered, on every path,
    whatever others do meanwhile. *)

From stdpp Require Import gmap strings.
From S2P Require Import Prelude GoStrings Url Mux Scenarios Host Runner Chaos PromQL Queries Runs Limiter.
From stdpp Require Import options.
#[local] Set Default Proof Using "Type*".
#[local] Open Scope string_scope.
#[local] Open Scope Z_scope.

Definition observatorySpecVersion : string := "2.2".

(** ** Requests and answers *)

(** [ar_Body] is what decoding the body as [runParams] gives. *)
Record APIRequest := mkAPIRequest {
  ar_Method : string; ar_Path : string; ar_RemoteAddr : string; ar_Authorization : string;
  ar_Body : option runParams; ar_RawQuery : string;
}.

Inductive AnswerBody :=
  | BodyError (message : string)
  | BodyMux (* the mux's own 404, 405 and redirects *)
  | BodyHealth (specVersion : string) (jwtValid toxiproxyReady : bool)
  | BodyScenarios (scenarios : list Scenario)
  | BodyScenario (scenario : Scenario)
  | BodyStatus (status : scenarioStatus)
  | BodyStarted
  | BodyReset (response : ResetResponse)
  | BodyProxied (content : string)
  | BodyStream. (* [handleEvents] *)

Record Answer := mkAnswer { an_Status : Z; an_Body : AnswerBody }.

Definition StatusUnauthorized : Z := 401.
Definition StatusForbidden : Z := 403.
Definition StatusConflict : Z := 409.
Definition StatusTooManyRequests : Z := 429.
Definition StatusInternalServerError : Z := 500.
Definition StatusBadGateway : Z := 502.

Definition apiError (status : Z) (message : string) : Answer := mkAnswer status (BodyError message).

(** [authorizedBearerToken]; [hmac.Equal] compares. *)
Definition authorizedBearerToken (authorization expected : string) : bool :=
  match Cut (TrimSpace authorization) space with
  | None => false
  | Some (scheme, token) =>
      if negb (EqualFold (TrimSpace scheme) "Bearer") then false
      else
        let token := TrimSpace token in
        let expected := TrimSpace expected in
        if bool_decide (token = "") || bool_decide (expected = "") then false else bool_decide (token = expected)
  end.

(** ** The app *)

Record AppConfig := mkAppConfig {
  ap_demoToken : string; ap_scenarios : gmap string Scenario; ap_runner : Runner; ap_observatory : Observatory;
}.

Record App (E : Type) := mkApp {
  ap_runs : Runs; ap_host : HostState E; ap_global : IPRateLimiter; ap_metrics : IPRateLimiter; ap_demoJWT : string; ap_toxiproxyReady : bool;
}.
Arguments mkApp {E}.
Arguments ap_runs {E}.
Arguments ap_host {E}.
Arguments ap_global {E}.
Arguments ap_metrics {E}.
Arguments ap_demoJWT {E}.
Arguments ap_toxiproxyReady {E}.

Section Api.
Context {E : Type} {HH : Host E}.
Variable c : AppConfig.
Implicit Types (a : App E) (req : APIRequest).

Definition with_rs (runs : Runs) a : App E := mkApp runs (ap_host a) (ap_global a) (ap_metrics a) (ap_demoJWT a) (ap_toxiproxyReady a).
Definition with_host (host : HostState E) a : App E := mkApp (ap_runs a) host (ap_global a) (ap_metrics a) (ap_demoJWT a) (ap_toxiproxyReady a).
Definition with_limiters (global metrics : IPRateLimiter) a : App E := mkApp (ap_runs a) (ap_host a) global metrics (ap_demoJWT a) (ap_toxiproxyReady a).

(** A call to the host. *)
Definition on_host {A} (m : M E A) a : sum Err A * App E :=
  let '(r, host) := m (ap_host a) in (r, with_host host a).

(** ** Runs *)

Inductive StartError := InvalidRunParams (message : string) | ScenarioAlreadyRunning | StartFailed (err : Err).

(** What other handlers and goroutines do to the runs while [runner.Start] starts the
    container, and from the critical section after it to the last step of [startScenario]. *)
Record Meanwhile := mkMeanwhile { mw_starting : Runs -> Runs; mw_started : Runs -> Runs }.
Variable meanwhile : Meanwhile.

(** [context.Canceled] *)
Definition Canceled : Err := Failed (mkHostError false false true "context canceled").

(** [startScenario], up to the goroutine that watches the run.  The run's context is looked at
    as it is after [runner.Start]; an error of [runner.Stop] is dropped. *)
Definition startScenario (scenario : Scenario) (params : runParams) a : option StartError * App E :=
  match ResolveRun scenario params with
  | inl message => (Some (InvalidRunParams message), a)
  | inr (rps, durationSeconds) =>
      let i := length (rs_threads (ap_runs a)) in
      let id := length (rs_runs (ap_runs a)) in
      match startScenario_begin (sn_Name scenario) (ap_runs a) with
      | None => (Some ScenarioAlreadyRunning, a)
      | Some runs =>
          let '(r, a) := on_host (Start (ap_runner c) scenario (TrimSpace (rp_Intensity params)) rps durationSeconds (ap_demoJWT a)) (with_rs runs a) in
          let runs := mw_starting meanwhile (ap_runs a) in
          let run := default (mkRun (sn_Name scenario) "" false) (rs_runs runs !! id) in
          match r with
          | inl err => (Some (StartFailed err), with_rs (startScenario_launched i id run (LaunchFailed (IsCanceled err)) runs) a)
          | inr containerID =>
              let a := with_rs (startScenario_launched i id run (LaunchedContainer containerID) runs) a in
              if sr_cancelled run then
                let '(_, a) := on_host (Stop containerID) a in
                (Some (StartFailed Canceled), with_rs (with_thread i Finished (completeScenario id run false (mw_started meanwhile (ap_runs a)))) a)
              else
                (None, with_rs (with_thread i (Watching id) (publish (ScenarioStarted (sn_Name scenario)) (mw_started meanwhile (ap_runs a)))) a)
          end
      end
  end.

(** The run that a stop cancels, and its container: the thread that the critical section
    left cancels it. *)
Definition cancel_live (id : nat) (i : nat) a : App E := with_rs (with_thread i Finished (cancel id (ap_runs a))) a.

(** [stopScenario]: [None] when the scenario is not running. *)
Definition stopScenario (name : string) a : option (option Err) * App E :=
  match stopScenario_begin name (ap_runs a), live (ap_runs a) with
  | Some runs, Some id =>
      let containerID := from_option sr_containerID "" (rs_runs runs !! id) in
      let a := cancel_live id (length (rs_threads (ap_runs a))) (with_rs runs a) in
      let '(r, a) := on_host (Stop containerID) a in
      (Some (match r with inl err => Some err | inr _ => None end), a)
  | _, _ => (None, a)
  end.

Definition cancelActiveScenario a : App E :=
  match live (ap_runs a) with
  | None => a
  | Some id => cancel_live id (length (rs_threads (ap_runs a))) (with_rs (cancelActiveScenario_begin (ap_runs a)) a)
  end.

(** ** Handlers *)

Definition handleHealth a : Answer * App E :=
  (mkAnswer 200 (BodyHealth observatorySpecVersion (negb (bool_decide (TrimSpace (ap_demoJWT a) = ""))) (ap_toxiproxyReady a)), a).

Definition handleListScenarios a : Answer * App E := (mkAnswer 200 (BodyScenarios (sortedScenarios (ap_scenarios c))), a).

Definition handleGetScenario (name : string) a : Answer * App E :=
  match ap_scenarios c !! name with
  | None => (apiError 404 "scenario not found", a)
  | Some scenario => (mkAnswer 200 (BodyScenario scenario), a)
  end.

Definition handleScenarioStatus (name : string) a : Answer * App E :=
  match ap_scenarios c !! name with
  | None => (apiError 404 "scenario not found", a)
  | Some _ => (mkAnswer 200 (BodyStatus (scenarioStatusFor name (ap_runs a))), a)
  end.

Definition handleRunScenario (name : string) req a : Answer * App E :=
  match ap_scenarios c !! name with
  | None => (apiError 404 "scenario not found", a)
  | Some scenario =>
      match ar_Body req with
      | None => (apiError 400 "invalid request body", a)
      | Some params =>
          let '(err, a) := startScenario scenario params a in
          (match err with
           | Some ScenarioAlreadyRunning => apiError StatusConflict "another scenario is already running"
           | Some (InvalidRunParams message) => apiError 400 ("invalid run params: " +:+ message)
           | Some (StartFailed err) => apiError StatusInternalServerError (Error_text err)
           | None => mkAnswer 200 BodyStarted
           end, a)
      end
  end.

Definition handleStopScenario (name : string) a : Answer * App E :=
  match ap_scenarios c !! name with
  | None => (apiError 404 "scenario not found", a)
  | Some _ =>
      let '(r, a) := stopScenario name a in
      (match r with
       | None => mkAnswer 200 (BodyStatus (scenarioStatusFor name (ap_runs a)))
       | Some (Some err) => apiError StatusInternalServerError (Error_text err)
       | Some None => mkAnswer 200 (BodyStatus statusStopping)
       end, a)
  end.

(** The fuel is that of the scan of the rate limit keys. *)
Definition handleReset (fuel : nat) a : Answer * App E :=
  let '(r, a) := on_host (resetSystem (ap_observatory c) fuel) (cancelActiveScenario a) in
  (match r with
   | inr response => mkAnswer 200 (BodyReset response)
   | inl err => mkAnswer 200 (BodyReset (ResetPartial "" err))
   end, a).

Definition handlePrometheusProxy (upstreamBase : string) req a : Answer * App E :=
  let '(ok, metrics) := IPRateLimiter_Allow (clientIPFromRequest (ar_RemoteAddr req)) (env_now (ho_env (ap_host a))) (ap_metrics a) in
  let a := with_limiters (ap_global a) metrics a in
  if negb ok then (apiError StatusTooManyRequests "rate limit exceeded", a)
  else if negb (allowedPrometheusQuery (TrimSpace (Query_Get (ar_RawQuery req) "query"))) then (apiError StatusForbidden "query not permitted", a)
  else
    let rawQuery := TrimSpace (ar_RawQuery req) in
    let upstreamURL := upstreamBase +:+ (if bool_decide (rawQuery = "") then "" else "?" +:+ rawQuery) in
    if negb (url_parses upstreamURL) then (apiError StatusInternalServerError "build prometheus request: ", a) (* [url.Parse]'s error follows *)
    else
      let '(r, a) := on_host (Do (plain "GET" upstreamURL PayloadNone)) a in
      match r with
      | inl err => (apiError StatusBadGateway ("query prometheus: " +:+ Error_text err), a)
      | inr resp => (mkAnswer (hp_StatusCode resp) (BodyProxied (hp_Body resp)), a)
      end.

(** ** Routes *)

Inductive Endpoint :=
  | Health | ListScenarios | GetScenario (name : string) | ScenarioStatus (name : string)
  | RunScenario (name : string) | StopScenario (name : string)
  | Events | MetricsQuery | MetricsQueryRange | Reset.

(** The patterns of the mux. *)
Definition observatory_patterns : Patterns Endpoint := fun segments =>
  match segments with
  | [""; "api"; "health"] => [("GET", Health)]
  | [""; "api"; "scenarios"] => [("GET", ListScenarios)]
  | [""; "api"; "scenarios"; name] => if bool_decide (name = "") then [] else [("GET", GetScenario name)]
  | [""; "api"; "scenarios"; name; action] =>
      if bool_decide (name = "") then []
      else if bool_decide (action = "status") then [("GET", ScenarioStatus name)]
      else if bool_decide (action = "run") then [("POST", RunScenario name)]
      else if bool_decide (action = "stop") then [("POST", StopScenario name)]
      else []
  | [""; "api"; "events"] => [("GET", Events)]
  | [""; "api"; "metrics"; "query"] => [("GET", MetricsQuery)]
  | [""; "api"; "metrics"; "query_range"] => [("GET", MetricsQueryRange)]
  | [""; "api"; "reset"] => [("POST", Reset)]
  | _ => []
  end.

Definition mux : string -> string -> sum Z Endpoint := route observatory_patterns.

Definition withMutationAuth (next : App E -> Answer * App E) req a : Answer * App E :=
  if negb (authorizedBearerToken (ar_Authorization req) (ap_demoToken c)) then (apiError StatusUnauthorized "unauthorized", a)
  else next a.

Definition serve_endpoint (fuel : nat) (endpoint : Endpoint) req a : Answer * App E :=
  match endpoint with
  | Health => handleHealth a
  | ListScenarios => handleListScenarios a
  | GetScenario name => handleGetScenario name a
  | ScenarioStatus name => handleScenarioStatus name a
  | RunScenario name => withMutationAuth (handleRunScenario name req) req a
  | StopScenario name => withMutationAuth (handleStopScenario name) req a
  | Events => (mkAnswer 200 BodyStream, a)
  | MetricsQuery => handlePrometheusProxy "http://prometheus:9090/api/v1/query" req a
  | MetricsQueryRange => handlePrometheusProxy "http://prometheus:9090/api/v1/query_range" req a
  | Reset => withMutationAuth (handleReset fuel) req a
  end.

(** [withGlobalLimit] around the mux. *)
Definition routes (fuel : nat) req a : Answer * App E :=
  let '(ok, global) := IPRateLimiter_Allow (clientIPFromRequest (ar_RemoteAddr req)) (env_now (ho_env (ap_host a))) (ap_global a) in
  let a := with_limiters global (ap_metrics a) a in
  if negb ok then (apiError StatusTooManyRequests "rate limit exceeded", a)
  else match mux (ar_Method req) (ar_Path req) with
  | inl status => (mkAnswer status BodyMux, a)
  | inr endpoint => serve_endpoint fuel endpoint req a
  end.
End Api.

(** ** Request identifiers *)

(** [withRequestID]: the identifier that a request has, or a new one. *)
Definition withRequestID (uuid header : string) : string :=
  let requestID := TrimSpace header in if bool_decide (requestID = "") then uuid else requestID.

(** [responseRequestID]: the one that an error's body names, by the header of the answer. *)
Definition responseRequestID (uuid header : string) : string :=
  let requestID := TrimSpace header in if bool_decide (requestID = "") then uuid else requestID.

(** An error names the identifier that its answer's header has. *)
Lemma error_names_request uuid uuid' header :
  TrimSpace uuid = uuid -> uuid <> "" -> responseRequestID uuid' (withRequestID uuid header) = withRequestID uuid header.
Proof.
  intros Ht Hne. unfold responseRequestID, withRequestID. destruct (decide (TrimSpace header = "")) as [Hh|Hh].
  - rewrite (bool_decide_eq_true_2 (TrimSpace header = "")) by done. by rewrite Ht, bool_decide_eq_false_2.
  - rewrite (bool_decide_eq_false_2 (TrimSpace header = "")) by done. by rewrite TrimSpace_idemp, bool_decide_eq_false_2.
Qed.

(** ** The token *)

(** The header is [Bearer], in any case, a space and the token, which is not empty. *)
Definition presents_token (authorization expected : string) : Prop :=
  exists scheme credentials, TrimSpace authorization = scheme +:+ String space credentials /\ contains_byte space scheme = false /\
    EqualFold (TrimSpace scheme) "Bearer" = true /\ TrimSpace credentials = TrimSpace expected /\ TrimSpace expected <> "".

Lemma authorizedBearerToken_spec authorization expected :
  authorizedBearerToken authorization expected = true <-> presents_token authorization expected.
Proof.
  unfold authorizedBearerToken, presents_token. split.
  - destruct (Cut (TrimSpace authorization) space) as [[scheme token]|] eqn:Hc; [|done]. apply Cut_Some_app in Hc as [-> Hs].
    destruct (EqualFold _ _) eqn:Hf; cbn [negb]; [|done]. repeat case_bool_decide; cbn [orb]; try done.
    intros _. by exists scheme, token.
  - intros (scheme & credentials & -> & Hs & Hf & Heq & Hne). rewrite Cut_app by done. rewrite Hf. cbn [negb].
    rewrite Heq, !bool_decide_eq_false_2 by done. cbn [orb]. by apply bool_decide_eq_true_2.
Qed.

Lemma unauthorized authorization expected : ~ presents_token authorization expected -> authorizedBearerToken authorization expected = false.
Proof. intros Hno. apply not_true_iff_false. by rewrite authorizedBearerToken_spec. Qed.

(** ** Queries to Prometheus *)

Section ApiTheory.
Context {E : Type} {HH : Host E}.
Variable c : AppConfig.
Implicit Types (a : App E) (req : APIRequest).

(** The query that is looked at, and the URL that is called. *)
Definition query_of req : string := TrimSpace (Query_Get (ar_RawQuery req) "query").
Definition prometheus_url (upstreamBase : string) req : string :=
  let raw := TrimSpace (ar_RawQuery req) in upstreamBase +:+ (if bool_decide (raw = "") then "" else "?" +:+ raw).

(** One call was made, of that URL, and answered with what came of it; or none. *)
Definition queried (upstreamBase : string) req (answer : Answer) a a' : Prop :=
  exists reply, ho_log (ap_host a') = (ho_log (ap_host a) ++ [(CallHTTP (plain "GET" (prometheus_url upstreamBase req) PayloadNone), reply)])%list /\
    match reply with
    | ReplyResponse resp => answer = mkAnswer (hp_StatusCode resp) (BodyProxied (hp_Body resp))
    | ReplyError err => an_Status answer = 502
    | _ => False
    end.

Lemma handlePrometheusProxy_spec upstreamBase req a :
  let '(answer, a') := handlePrometheusProxy upstreamBase req a in
  ap_runs a' = ap_runs a /\
  if negb (fst (IPRateLimiter_Allow (clientIPFromRequest (ar_RemoteAddr req)) (env_now (ho_env (ap_host a))) (ap_metrics a)))
  then an_Status answer = 429 /\ ap_host a' = ap_host a
  else if negb (bool_decide (confined (query_of req))) then an_Status answer = 403 /\ ap_host a' = ap_host a
  else if negb (url_parses (prometheus_url upstreamBase req)) then an_Status answer = 500 /\ ap_host a' = ap_host a
  else queried upstreamBase req answer a a'.
Proof.
  unfold handlePrometheusProxy. destruct (IPRateLimiter_Allow _ _ _) as [ok metrics]. cbn [fst].
  destruct ok; cbn [negb]; [|done].
  assert (allowedPrometheusQuery (query_of req) = bool_decide (confined (query_of req))) as Hq.
  { unfold query_of. apply eq_bool_prop_intro. rewrite bool_decide_spec, Is_true_true, allowed_is_confined. by rewrite TrimSpace_idemp. }
  fold (query_of req). rewrite Hq. destruct (bool_decide _); cbn [negb]; [|done].
  fold (prometheus_url upstreamBase req). destruct (url_parses _); cbn [negb]; [|done]. unfold on_host, Do, call, queried.
  destruct (env_http _ _) as [[err|resp] e]; cbn; (split; [done|]); eexists; (split; [reflexivity|]); done.
Qed.

(** C36: queries are confined: beyond the limit of its address a query is answered 429, and
    one that is not confined 403, and nothing is called; a confined one makes one request,
    for the address of the endpoint and the raw query without surrounding space, whose answer
    or failure (502) is passed on, unless that is no URL (500).  A query is confined if one of
    its identifiers names a metric that the gateway registers, or a series of one, and each
    of them does, or is a keyword, a unit of time after a digit, or an allowed function's
    name before a parenthesis.  And what Prometheus reads of the raw query is the query that
    was looked at, if the raw query has no surrounding space and no [#].  (This is the code's
    rule.  The documented one is a list of prefixes, which [filter_is_no_prefix_list] tells
    apart from it; and identifiers in strings and comments count, as
    [metric_in_a_string_suffices] shows.) *)
Theorem queries_are_confined upstreamBase req a :
  let '(answer, a') := handlePrometheusProxy upstreamBase req a in
  let limited := negb (fst (IPRateLimiter_Allow (clientIPFromRequest (ar_RemoteAddr req)) (env_now (ho_env (ap_host a))) (ap_metrics a))) in
  let raw := ar_RawQuery req in
  (limited = true -> an_Status answer = 429 /\ ap_host a' = ap_host a) /\
  (limited = false -> ~ confined (query_of req) -> an_Status answer = 403 /\ ap_host a' = ap_host a) /\
  (limited = false -> confined (query_of req) ->
     if url_parses (prometheus_url upstreamBase req) then queried upstreamBase req answer a a'
     else an_Status answer = 500 /\ ap_host a' = ap_host a) /\
  (TrimSpace raw = raw -> contains_byte hash raw = false -> TrimSpace (Query_Get (sent_query (TrimSpace raw)) "query") = query_of req).
Proof.
  pose proof (handlePrometheusProxy_spec upstreamBase req a) as H. destruct (handlePrometheusProxy _ _ _) as [answer a']. destruct H as [_ H].
  cbv zeta. destruct (negb (fst _)); [split_and!; [by intros _|done|done|]|split_and!; [done| | |]].
  2: { intros _ Hno. by rewrite bool_decide_eq_false_2 in H. }
  2: { intros _ Hyes. rewrite bool_decide_eq_true_2 in H by done. by destruct (url_parses _). }
  all: intros Ht Hh; unfold query_of; rewrite Ht; unfold sent_query;
    destruct (Cut (ar_RawQuery req) hash) as [[x y]|] eqn:Hc; [|done];
    apply Cut_Some_app in Hc as [Heq _]; rewrite Heq, contains_byte_append in Hh; cbn in Hh; by rewrite orb_true_r in Hh.
Qed.

(** ** What needs the token *)

(** The runs as they were; and no call, or one of Prometheus with a confined query. *)
Definition only_queries req a a' : Prop :=
  ap_runs a' = ap_runs a /\
  (ho_log (ap_host a') = ho_log (ap_host a) \/
   exists suffix reply, (suffix = "" \/ suffix = "_range") /\ confined (query_of req) /\
     ho_log (ap_host a') = (ho_log (ap_host a) ++
       [(CallHTTP (plain "GET" (prometheus_url ("http://prometheus:9090/api/v1/query" +:+ suffix) req) PayloadNone), reply)])%list).

Lemma only_queries_refl req a a' : ap_runs a' = ap_runs a -> ap_host a' = ap_host a -> only_queries req a a'.
Proof. intros Hr Hh. split; [done|]. left. by rewrite Hh. Qed.

Lemma proxy_only_queries suffix req a :
  suffix = "" \/ suffix = "_range" ->
  only_queries req a (snd (handlePrometheusProxy ("http://prometheus:9090/api/v1/query" +:+ suffix) req a)).
Proof.
  intros Hs. pose proof (handlePrometheusProxy_spec ("http://prometheus:9090/api/v1/query" +:+ suffix) req a) as H.
  destruct (handlePrometheusProxy _ _ _) as [answer a']. destruct H as [Hr H]. cbn [snd].
  destruct (negb (fst _)); [apply only_queries_refl; [done|apply H]|]. case_bool_decide as Hq; cbn [negb] in H; [|apply only_queries_refl; [done|apply H]].
  destruct (url_parses _); cbn [negb] in H; [|apply only_queries_refl; [done|apply H]]. destruct H as (reply & Hlog & _).
  split; [done|]. right. by exists suffix, reply.
Qed.

Definition mutating (endpoint : Endpoint) : bool :=
  match endpoint with RunScenario _ | StopScenario _ | Reset => true | _ => false end.

Lemma mux_mutating method path endpoint : mux method path = inr endpoint -> mutating endpoint = true -> method = "POST".
Proof.
  intros (registered & Hin & Htakes)%route_matches Hmut. unfold observatory_patterns in Hin.
  repeat (case_match; try by apply elem_of_nil in Hin); apply list_elem_of_singleton in Hin; simplify_eq; by apply takes_post.
Qed.

(** What asks for no token changes no run. *)
Lemma open_endpoint meanwhile fuel endpoint req a :
  mutating endpoint = false -> only_queries req a (snd (serve_endpoint c meanwhile fuel endpoint req a)).
Proof.
  intros Hmut. destruct endpoint; try discriminate; cbn [serve_endpoint].
  - by apply only_queries_refl.
  - by apply only_queries_refl.
  - unfold handleGetScenario. destruct (ap_scenarios c !! name); by apply only_queries_refl.
  - unfold handleScenarioStatus. destruct (ap_scenarios c !! name); by apply only_queries_refl.
  - by apply only_queries_refl.
  - apply (proxy_only_queries ""). auto.
  - apply (proxy_only_queries "_range"). auto.
Qed.

(** C29: the API is guarded: a request beyond its address's limit is answered 429 and does
    nothing.  One that would run, stop or reset something is answered 401 and does nothing
    unless its [Authorization] is [Bearer] and the demo token; if it is, it is handled.  And
    a request without that token, or that is no [POST], changes no run and calls nothing but
    Prometheus, once, with a confined query. *)
Theorem api_is_guarded meanwhile fuel req a :
  let '(answer, a') := routes c meanwhile fuel req a in
  let '(ok, global) := IPRateLimiter_Allow (clientIPFromRequest (ar_RemoteAddr req)) (env_now (ho_env (ap_host a))) (ap_global a) in
  let admitted := with_limiters global (ap_metrics a) a in
  let authorized := presents_token (ar_Authorization req) (ap_demoToken c) in
  (ok = false -> an_Status answer = 429 /\ ap_runs a' = ap_runs a /\ ap_host a' = ap_host a) /\
  (ok = true -> forall endpoint, mux (ar_Method req) (ar_Path req) = inr endpoint ->
     (~ authorized -> mutating endpoint = true -> an_Status answer = 401 /\ ap_runs a' = ap_runs a /\ ap_host a' = ap_host a) /\
     (authorized -> match endpoint with
      | RunScenario name => (answer, a') = handleRunScenario c meanwhile name req admitted
      | StopScenario name => (answer, a') = handleStopScenario c name admitted
      | Reset => (answer, a') = handleReset c fuel admitted
      | _ => True
      end)) /\
  (~ authorized \/ ar_Method req <> "POST" -> only_queries req a a').
Proof.
  unfold routes. destruct (IPRateLimiter_Allow _ _ _) as [ok global]. destruct ok; cbn [negb].
  2:{ split_and!; [done|done|intros _; by apply only_queries_refl]. }
  set (a1 := with_limiters global (ap_metrics a) a).
  destruct (mux (ar_Method req) (ar_Path req)) as [status|endpoint] eqn:Hmux.
  { split_and!; [done|done|intros _; by apply only_queries_refl]. }
  assert (forall a', only_queries req a1 a' -> only_queries req a a') as Hlift by (intros a' H; exact H).
  pose proof (authorizedBearerToken_spec (ar_Authorization req) (ap_demoToken c)) as Hauth.
  pose proof (open_endpoint meanwhile fuel endpoint req a1) as Hopen.
  destruct (serve_endpoint c meanwhile fuel endpoint req a1) as [answer a'] eqn:Hserve. cbn [snd] in Hopen.
  assert (mutating endpoint = true -> ~ presents_token (ar_Authorization req) (ap_demoToken c) -> an_Status answer = 401 /\ a' = a1) as Hrefused.
  { intros Hmut Hno%unauthorized. destruct endpoint; try discriminate; cbn [serve_endpoint] in Hserve; unfold withMutationAuth in Hserve;
      rewrite Hno in Hserve; by injection Hserve as <- <-. }
  split_and!; [done| |].
  - intros _ endpoint' [= <-]. split; [intros Hno Hmut; by destruct (Hrefused Hmut Hno) as [-> ->]|].
    intros Hyes%Hauth. destruct endpoint; try done; cbn [serve_endpoint] in Hserve; unfold withMutationAuth in Hserve; by rewrite Hyes in Hserve.
  - intros Hno. apply Hlift. destruct (mutating endpoint) eqn:Hmut; [|by apply Hopen].
    pose proof (mux_mutating _ _ _ Hmux Hmut) as Hpost. assert (~ presents_token (ar_Authorization req) (ap_demoToken c)) as Hunauth by tauto.
    destruct (Hrefused eq_refl Hunauth) as [_ ->]. by apply only_queries_refl.
Qed.
End ApiTheory.

(** ** What a request to run is answered *)

Section RunRequests.
Context {E : Type} {HH : Host E}.
Variable c : AppConfig.
Implicit Types (a : App E) (req : APIRequest).

(** The run that a start left, and its container with its load; in a strict execution its
    scenario is shown as running, or as stopping once it was stopped. *)
Definition run_started (strict : bool) (name : string) (rps : Z) (id : nat) (containerID : string) a' (log : Log) : Prop :=
  live (ap_runs a') = Some id /\
  (exists cancelled, rs_runs (ap_runs a') !! id = Some (mkRun name containerID cancelled) /\
     (strict = true -> scenarioStatusFor name (ap_runs a') = statusStopping \/ cancelled = false /\ scenarioStatusFor name (ap_runs a') = statusRunning)) /\
  last (rs_events (ap_runs a')) = Some (ScenarioStarted name) /\
  (CallStart containerID, ReplyDone) ∈ log /\
  exists image script env labels network bindMount container,
    (CallCreate image script env labels network bindMount container, ReplyID containerID) ∈ log /\ "RPS=" +:+ Itoa rps ∈ env.

(** No run, and the removal of every container that was created was asked for. *)
Definition run_failed (name : string) (status : scenarioStatus) a' (log : Log) : Prop :=
  live (ap_runs a') = None /\ scenarioStatusFor name (ap_runs a') = status /\
  forall id, created id log -> exists reply, (CallRemove id, reply) ∈ log.

(** The run is over, its scenario idle, and the stop of its container was asked for. *)
Definition run_aborted (name : string) (id : nat) (containerID : string) a' (log : Log) : Prop :=
  live (ap_runs a') <> Some id /\ scenarioStatusFor name (ap_runs a') = statusIdle /\
  last (rs_events (ap_runs a')) = Some (ScenarioStopped name statusIdle) /\
  (TrimSpace containerID <> "" -> exists reply, (CallStop containerID, reply) ∈ log).

(** C38: run requests are answered by what happens, whatever other handlers and goroutines do
    to the runs meanwhile: 404 for an unknown scenario, 400 for parameters it does not offer,
    409 for a run that is already there, each without any effect.  Else the runner starts a
    container.  If it fails, the answer is 500 and its error, there is no run, the removal
    of any container was asked for, and the scenario is in error; or idle, if the start was
    cancelled and the scenario is being stopped.  If the run was stopped while it started,
    the answer is 500, the container's stop was asked for, the run is over and the scenario
    idle.  If not, the answer is
    200, the run is live and its container was started with the load of the intensity; and
    the scenario is shown as running, or stopping, as long as no run begins while one of its
    scenario is aborting. *)
Theorem run_requests_are_answered strict names meanwhile name req a :
  let thread := length (rs_threads (ap_runs a)) in
  let run := length (rs_runs (ap_runs a)) in
  (forall s, ap_scenarios c !! name = Some s -> sn_Name s = name) ->
  rtc (runs_step strict) (newRuns names) (ap_runs a) -> (strict = true -> ~ aborting name (ap_runs a)) ->
  (forall s, is_Some (rs_threads s !! thread) -> others strict thread s (mw_starting meanwhile s)) ->
  (forall s, is_Some (rs_threads s !! thread) -> others strict thread s (mw_started meanwhile s)) ->
  let '(answer, a') := handleRunScenario c meanwhile name req a in
  match ap_scenarios c !! name, ar_Body req with
  | None, _ => an_Status answer = 404 /\ a' = a
  | Some _, None => an_Status answer = 400 /\ a' = a
  | Some scenario, Some params =>
      match ResolveRun scenario params, startScenario_begin name (ap_runs a) with
      | inl _, _ => an_Status answer = 400 /\ a' = a
      | inr _, None => live (ap_runs a) <> None /\ an_Status answer = 409 /\ a' = a
      | inr (rps, duration), Some begun =>
          live (ap_runs a) = None /\
          let before := mw_starting meanwhile begun in
          exists log, ho_log (ap_host a') = (ho_log (ap_host a) ++ log)%list /\
          match fst (Start (ap_runner c) scenario (TrimSpace (rp_Intensity params)) rps duration (ap_demoJWT a) (ap_host a)) with
          | inl err =>
              answer = apiError 500 (Error_text err) /\
              run_failed name (if IsCanceled err && bool_decide (scenarioStatusFor name before = statusStopping) then statusIdle else statusError) a' log
          | inr containerID =>
              if bool_decide (sr_cancelled <$> rs_runs before !! run = Some true)
              then answer = apiError 500 "context canceled" /\ run_aborted name run containerID a' log
              else an_Status answer = 200 /\ run_started strict name rps run containerID a' log
          end
      end
  end.
Proof.
  intros thread run Hname Hreach Hfree Hstarting Hstarted. unfold handleRunScenario.
  destruct (ap_scenarios c !! name) as [s|] eqn:Hs; [|done]. specialize (Hname s eq_refl). clear Hs.
  destruct (ar_Body req) as [params|]; [|done]. unfold startScenario. rewrite Hname. destruct (ResolveRun s params) as [message|[rps d]]; [done|].
  destruct (startScenario_begin name (ap_runs a)) as [begun|] eqn:Hbegin.
  2:{ split; [|done]. intros Hl. revert Hbegin. unfold startScenario_begin, live in *. destruct (rs_active (ap_runs a)), (rs_starting (ap_runs a)); done. }
  pose proof (runs_reachable _ _ _ Hreach) as Hinv.
  destruct (start_begun strict name _ begun Hinv Hbegin Hfree) as (Hlive & Ht & _). specialize (Hstarting begun (ex_intro _ _ Ht)).
  destruct (start_before strict name _ begun _ Hinv Hbegin Hfree Hstarting) as (_ & Ht' & x & Hx).
  unfold on_host at 1. change (ap_host (with_rs begun a)) with (ap_host a). change (ap_demoJWT (with_rs begun a)) with (ap_demoJWT a).
  destruct (Start_emits (ap_runner c) s (TrimSpace (rp_Intensity params)) rps d (ap_demoJWT a) (ap_host a)) as (log & Hlog & Hout).
  destruct (Start _ _ _ _ _ _ (ap_host a)) as [r host]. cbn [fst snd] in Hlog, Hout |- *. cbv zeta.
  cbn [ap_runs with_host with_rs]. fold run in Hx |- *. rewrite Hx. cbn [default from_option id sr_cancelled]. fold thread.
  destruct r as [err|containerID].
  - split; [exact Hlive|]. exists log. split; [exact Hlog|]. split; [done|].
    destruct (start_fails strict name _ begun _ Hinv Hbegin Hfree Hstarting (IsCanceled err) (mkRun name "" x) eq_refl) as [H1 H2]. by split_and!.
  - destruct x.
    + rewrite bool_decide_eq_true_2 by done. unfold on_host. cbn [ap_host ap_runs with_host with_rs].
      destruct (Stop_emits containerID host) as (log' & Hlog' & Hstop). destruct (Stop containerID host) as [r host']. cbn [fst snd ap_runs ap_host with_host with_rs] in *.
      split; [exact Hlive|]. exists (log ++ log')%list. rewrite Hlog', Hlog, app_assoc. split; [done|]. split; [done|].
      pose proof (aborted_rests thread run (mkRun name "" true) (mw_started meanwhile
        (startScenario_launched thread run (mkRun name "" true) (LaunchedContainer containerID) (mw_starting meanwhile begun)))) as (H1 & H2 & H3).
      split_and!; [exact H1|exact H2|exact H3|]. intros Hid. destruct (Hstop Hid) as [reply Hin]. exists reply. set_solver.
    + rewrite bool_decide_eq_false_2 by done. cbn [fst snd ap_runs ap_host with_host with_rs].
      split; [exact Hlive|]. exists log. split; [exact Hlog|]. split; [done|].
      destruct (start_runs strict name _ begun _ Hinv Hbegin Hfree Hstarting containerID
        (mw_started meanwhile (startScenario_launched thread run (mkRun name "" false) (LaunchedContainer containerID) (mw_starting meanwhile begun))) Hx) as (H1 & y & H2 & H3).
      { apply Hstarted. cbn. rewrite list_lookup_insert_eq by (by eapply lookup_lt_Some). by eexists. }
      destruct Hout as ((env & labels & network & bm & container & Hin & Hrps & _) & Hstart & _).
      split_and!; [exact H1|by exists y|cbn; by rewrite last_snoc|done|]. do 7 eexists. split; [exact Hin|exact Hrps].
Qed.
End RunRequests.

(** ** Instances *)

Definition demo_app : App Time := mkApp (newRuns ["retry"]) (mkHost 0 []) (limiter_of 100) (limiter_of 60) "jwt" true.
Definition demo_validated : Scenario := match Scenario_Validate (HO := demo_orders) demo_scenario with inr s => s | inl _ => demo_scenario end.
Definition demo_app_config : AppConfig :=
  mkAppConfig "demo" {[ "retry" := demo_validated ]} demo_runner (mkObservatory "irongate" "adm1n" true).
Definition demo_run_request : APIRequest :=
  mkAPIRequest "POST" "/api/scenarios/retry/run" "192.0.2.1:5000" "Bearer demo" (Some (mkParams "mild" 120)) "".
Definition demo_query (raw : string) : APIRequest := mkAPIRequest "GET" "/api/metrics/query" "192.0.2.1:5000" "" None raw.

(** Nobody else is there; or somebody stops the scenario while it starts. *)
Definition alone : Meanwhile := mkMeanwhile (fun s => s) (fun s => s).
Definition with_a_stop : Meanwhile := mkMeanwhile (stop_meanwhile "retry") (fun s => s).

Definition demo_run (started : option HostError) (meanwhile : Meanwhile) : Answer * App Time :=
  handleRunScenario (HH := demo_host started) demo_app_config meanwhile "retry" demo_run_request demo_app.

Lemma run_requests_are_answered_witness :
  (exists log, run_started true "retry" 50 0 "k6-1" (snd (demo_run None alone)) log) /\
  exists log, run_aborted "retry" 0 "k6-1" (snd (demo_run None with_a_stop)) log.
Proof.
  assert (forall thread s, is_Some (rs_threads s !! thread) -> others true thread s s) as Hidle by (intros; apply rtc_refl).
  assert (rtc (runs_step true) (newRuns ["retry"]) (ap_runs demo_app)) as Hreach by apply rtc_refl.
  assert (~ aborting "retry" (ap_runs demo_app)) as Hfree by (by intros (id & run & Hin%elem_of_nil & _)).
  assert (forall s, ap_scenarios demo_app_config !! "retry" = Some s -> sn_Name s = "retry") as Hname by (intros s; vm_compute; by intros [= <-]).
  pose proof (run_requests_are_answered (HH := demo_host None) demo_app_config true ["retry"] alone "retry" demo_run_request demo_app Hname Hreach (fun _ => Hfree) (Hidle _) (Hidle _)) as H1.
  pose proof (run_requests_are_answered (HH := demo_host None) demo_app_config true ["retry"] with_a_stop "retry" demo_run_request demo_app Hname Hreach (fun _ => Hfree)
    (fun s => stop_others true _ "retry" s) (Hidle _)) as H2.
  fold (demo_run None alone) in H1. fold (demo_run None with_a_stop) in H2.
  destruct (demo_run None alone) as [answer1 a1], (demo_run None with_a_stop) as [answer2 a2]. cbn [snd].
  change (ap_scenarios demo_app_config !! "retry") with (Some demo_validated) in H1, H2.
  cbn [ar_Body demo_run_request] in H1, H2.
  replace (ResolveRun demo_validated (mkParams "mild" 120)) with (inr (50, 120) : sum string (Z * Z)) in H1, H2 by (vm_compute; reflexivity).
  set (begun := startScenario_begin "retry" (ap_runs demo_app)) in *. vm_compute in begun. subst begun.
  set (started := fst (Start _ _ _ _ _ _ _)) in *. vm_compute in started. subst started.
  split.
  - destruct H1 as (_ & log & _ & [_ H1]). by exists log.
  - destruct H2 as (_ & log & _ & H2). rewrite bool_decide_eq_true_2 in H2 by (vm_compute; reflexivity). destruct H2 as [_ H2]. by exists log.
Defined.

(** A stop while the container starts, and the daemon gives up for it: the run's request is
    answered with the cancellation, there is no run, and the scenario is idle. *)
Lemma stopped_start_is_idle :
  let '(answer, a') := demo_run (Some (mkHostError false false true "context canceled")) with_a_stop in
  answer = apiError 500 "start k6 container: context canceled" /\ live (ap_runs a') = None /\ scenarioStatusFor "retry" (ap_runs a') = statusIdle.
Proof. by vm_compute. Qed.

(** A start that fails leaves the scenario in error, and nothing that would bring it back to
    idle: every thread has finished. *)
Lemma failed_start_stays_in_error :
  let '(answer, a') := demo_run (Some (mkHostError false false false "no such network")) alone in
  an_Status answer = 500 /\ scenarioStatusFor "retry" (ap_runs a') = statusError /\ rs_threads (ap_runs a') = [Finished].
Proof. by vm_compute. Qed.

Lemma api_is_guarded_witness :
  let request := mkAPIRequest "POST" "/api/reset" "192.0.2.1:5000" "Bearer guess" None "" in
  let '(answer, a') := routes (HH := demo_host None) demo_app_config alone 1 request demo_app in
  an_Status answer = 401 /\ only_queries request demo_app a'.
Proof.
  cbv zeta. set (request := mkAPIRequest _ _ _ _ _ _). pose proof (api_is_guarded (HH := demo_host None) demo_app_config alone 1 request demo_app) as H.
  assert (~ presents_token (ar_Authorization request) (ap_demoToken demo_app_config)) as Hno by (intros Hyes%authorizedBearerToken_spec; by vm_compute in Hyes).
  destruct (routes _ _ _ _ _) as [answer a']. destruct (IPRateLimiter_Allow _ _ _) as [ok global] eqn:Hallow.
  assert (ok = true) as -> by (vm_compute in Hallow; by injection Hallow as <- _).
  destruct H as (_ & H1 & H2). destruct (H1 eq_refl Reset) as [H3 _]; [by vm_compute|]. destruct (H3 Hno eq_refl) as [H4 _].
  split; [exact H4|]. apply H2. by left.
Defined.

Lemma queries_are_confined_witness :
  let request := demo_query "query=sum(rate(gateway_requests_total%5B5m%5D))" in
  let '(answer, a') := handlePrometheusProxy (HH := demo_host None) "http://prometheus:9090/api/v1/query" request demo_app in
  queried "http://prometheus:9090/api/v1/query" request answer demo_app a'.
Proof.
  cbv zeta. set (request := demo_query _).
  pose proof (queries_are_confined (HH := demo_host None) "http://prometheus:9090/api/v1/query" request demo_app) as H.
  destruct (handlePrometheusProxy _ _ _) as [answer a']. destruct H as (_ & _ & H & _).
  replace (url_parses (prometheus_url "http://prometheus:9090/api/v1/query" request)) with true in H by (vm_compute; reflexivity).
  apply H; [by vm_compute|]. unfold query_of. apply allowed_is_confined. by vm_compute.
Defined.

(** ** A finding: another query is sent

    The raw query loses the space around it, a no-break space too, which belongs to a
    parameter's name when it is looked at: Prometheus reads another query. *)
Lemma trimmed_query_is_another :
  let request := demo_query (bytes [194%nat; 160%nat] +:+ "query=up&query=gateway_requests_total") in
  let '(answer, a') := handlePrometheusProxy (HH := demo_host None) "http://prometheus:9090/api/v1/query" request demo_app in
  answer = mkAnswer 200 (BodyProxied "") /\
  map fst (ho_log (ap_host a')) = [CallHTTP (plain "GET" "http://prometheus:9090/api/v1/query?query=up&query=gateway_requests_total" PayloadNone)] /\
  Query_Get "query=up&query=gateway_requests_total" "query" = "up" /\ allowedPrometheusQuery "up" = false.
Proof. by vm_compute. Qed.
