(* ===== verification/Bootstrap.v ===== *)
(** * The observatory's life: [cmd/observatory/app.go], [main.go], [toxiproxy.go], [events.go]

    What the program does from its start to its exit: its settings, the demo token and the
    Redis proxy, which it asks for until it has them or ten seconds have passed, the renewal
    of the token, and how it ends.  Calls under a context are those of a host of their own, by
    the context's deadline.  The theorems: each bootstrap ends in its time, after at most
    twelve attempts, with what an attempt gave; the program serves only with everything it
    needs; and what it leaves behind when it ends. *)

From Stdlib Require Import SpecFloat.
From stdpp Require Import gmap strings.
From S2P Require Import Prelude GoStrings Login Scenarios Host Runner Chaos Runs Limiter Api.
From stdpp Require Import options.
#[local] Set Default Proof Using "Type*".
#[local] Open Scope string_scope.
#[local] Open Scope Z_scope.
#[local] Open Scope host_scope.

Definition observatoryAddr : string := ":9000".
Definition demoTokenEnvVar : string := "DEMO_TOKEN".
Definition adminTokenEnvVar : string := "ADMIN_TOKEN".
Definition demoJWTEnvVar : string := "DEMO_JWT".
Definition composeProjectEnvVar : string := "COMPOSE_PROJECT_NAME".
Definition gatewayContainerNameEnvVar : string := "GATEWAY_CONTAINER_NAME".
Definition projectRootEnvVar : string := "PROJECT_ROOT".
Definition redisAddrEnvVar : string := "REDIS_ADDR".
Definition defaultComposeProject : string := "irongate".
Definition defaultRedisAddr : string := "toxiproxy:6380".
Definition jwtBootstrapTimeout : Duration := 10 * Second.
Definition bootstrapAttemptTimeout : Duration := 2 * Second.
Definition bootstrapInitialBackoff : Duration := 200 * Millisecond.
Definition bootstrapMaxBackoff : Duration := Second.
Definition jwtRefreshInterval : Duration := 23 * (60 * Minute).

(** ** Contexts *)

(** The host of the calls under a context with a deadline, itself under the context that the
    signals cancel; and whether they have. *)
Class ContextHost (E : Type) := {
  clock : E -> Time;
  env_done : E -> bool;
  host_by : Time -> Host E;
}.

(** A call returns when its context is done, if not before; and a sleep lasts unless its
    context is done. *)
Class ContextHostLaws (E : Type) {HC : ContextHost E} : Prop := {
  by_http deadline req e : clock e <= clock (snd (@env_http E (host_by deadline) req e)) <= Z.max (clock e) deadline;
  by_sleep deadline d e : clock e <= clock (snd (@env_sleep E (host_by deadline) d e)) <= Z.max (clock e) deadline;
  by_sleep_lasts deadline d e e' : @env_sleep E (host_by deadline) d e = (None, e') -> clock e + d <= clock e';
}.

Definition canceled : HostError := mkHostError false false true "context canceled".
Definition deadlineExceeded : HostError := mkHostError false false false "context deadline exceeded".

Section Bootstrap.
Context {E : Type} {HC : ContextHost E}.

(** [ctx.Err()] *)
Definition ctxErr (deadline : Time) : M E (option HostError) := fun s =>
  (inr (if env_done (ho_env s) then Some canceled else if deadline <=? clock (ho_env s) then Some deadlineExceeded else None), s).

(** [context.WithTimeout]: its deadline. *)
Definition withTimeout (parent : option Time) (d : Duration) : M E Time := fun s =>
  (inr (let deadline := AddDuration (clock (ho_env s)) d in match parent with Some p => Z.min p deadline | None => deadline end), s).

(** [sleepContext] *)
Definition sleepContext (deadline : Time) (d : Duration) : M E bool :=
  let* result := try (Sleep (HH := host_by deadline) d) in
  ret (match result with inr _ => true | inl _ => false end).

(** ** The bootstrap *)

(** [fmt.Errorf("%w: %v", ctxErr, lastErr)] *)
Definition after_context (ctx : HostError) (lastErr : Err) : Err :=
  Failed (mkHostError (he_notFound ctx) (he_conflict ctx) (he_canceled ctx) (he_message ctx +:+ ": " +:+ Error_text lastErr)).

(** What follows the loop; [lastErr] is set there. *)
Definition giveUp {A} (deadline : Time) (lastErr : Err) : M E A :=
  let* err := ctxErr deadline in
  throw (match err with Some ctx => after_context ctx lastErr | None => lastErr end).

Definition next_attempt (backoff : Duration) : Duration :=
  if backoff <? bootstrapMaxBackoff then if bootstrapMaxBackoff <? 2 * backoff then bootstrapMaxBackoff else 2 * backoff else backoff.

(** [fn] is given the deadline of its attempt; what it gives is what its closure stores. *)
Fixpoint bootstrapLoop {A} (fuel : nat) (deadline : Time) (fn : Time -> M E A) (backoff : Duration) : M E A :=
  match fuel with
  | O => throw OutOfFuel
  | S fuel =>
      let* attempt := withTimeout (Some deadline) bootstrapAttemptTimeout in
      let* result := try (fn attempt) in
      match result with
      | inr x => ret x
      | inl lastErr =>
          let* err := ctxErr deadline in
          match err with
          | Some _ => giveUp deadline lastErr
          | None =>
              let* slept := sleepContext deadline backoff in
              if slept : bool then bootstrapLoop fuel deadline fn (next_attempt backoff) else giveUp deadline lastErr
          end
      end
  end.

(** Twelve attempts are enough: the sleeps between thirteen last longer than ten seconds. *)
Definition bootstrap_rounds : nat := 12.

Definition retryBootstrap {A} (deadline : Time) (fn : Time -> M E A) : M E A :=
  bootstrapLoop bootstrap_rounds deadline fn bootstrapInitialBackoff.

(** ** The demo token *)

Definition login_request : HTTPRequest := plain "POST" "http://gateway:8080/api/users/login" PayloadNone.

Definition fetchDemoJWT (deadline : Time) : M E string :=
  let* resp := wrapping "bootstrap login request" (Do (HH := host_by deadline) login_request) in
  if negb (hp_StatusCode resp =? StatusOK) then throw (newError ("bootstrap login returned status " +:+ Itoa (hp_StatusCode resp)))
  else match hp_Token resp with
  | None => throw (newError "decode bootstrap login response")
  | Some token => if bool_decide (TrimSpace token = "") then throw (newError "bootstrap login returned empty token") else ret token
  end.

(** Given [DEMO_JWT]: whether the token is static, and what [setDemoJWT] stores. *)
Definition ensureDemoJWT (demoJWT : string) : M E (bool * string) :=
  let staticJWT := TrimSpace demoJWT in
  if negb (bool_decide (staticJWT = "")) then ret (true, TrimSpace staticJWT)
  else
    let* deadline := withTimeout None jwtBootstrapTimeout in
    let* token := wrapping "bootstrap demo jwt" (retryBootstrap deadline fetchDemoJWT) in
    ret (false, TrimSpace token).

Definition ensureToxiproxy : M E unit :=
  let* deadline := withTimeout None jwtBootstrapTimeout in
  retryBootstrap deadline (fun attempt => EnsureRedisProxy (HH := host_by attempt)).

(** One tick of [refreshDemoJWTLoop]: the token after it. *)
Definition refreshDemoJWT (current : string) : M E string :=
  let* deadline := withTimeout None jwtBootstrapTimeout in
  let* result := try (fetchDemoJWT deadline) in
  ret (match result with inr token => TrimSpace token | inl _ => current end).

(** The loop, for as many ticks as come before the program is stopped. *)
Fixpoint refreshDemoJWTLoop (ticks : nat) (current : string) : M E string :=
  match ticks with
  | O => ret current
  | S ticks => let* current := refreshDemoJWT current in refreshDemoJWTLoop ticks current
  end.

(** ** The gateway's container *)

Definition gatewayContainerID {HH : Host E} (gatewayContainerName composeProject : string) : M E string :=
  let override := TrimSpace gatewayContainerName in
  let* inspected := (if bool_decide (override = "") then ret None
    else let* r := try (ContainerInspect override) in ret (match r with inr id => Some id | inl _ => None end)) in
  match inspected with
  | Some id => ret id
  | None =>
      let* containers := ContainerList [("label", "com.docker.compose.project=" +:+ composeProject); ("label", "com.docker.compose.service=gateway")] in
      match containers with
      | [] => throw (newError "gateway container not found")
      | c :: _ => ret (ct_ID c)
      end
  end.

(** ** The app *)

(** What surrounds the process: its environment variables, its directory, the Docker client's
    error, if any, and the scenario files of the directory. *)
Record Process := mkProcess {
  pr_Getenv : string -> string; pr_Getwd : sum string string; pr_docker : option string; pr_scenarios : list (sum string Scenario);
}.

Definition requiredEnv (p : Process) (key : string) : sum string string :=
  let value := TrimSpace (pr_Getenv p key) in
  if bool_decide (value = "") then inl (key +:+ " must be set") else inr value.

Definition resolveHostProjectRoot (p : Process) : sum string string :=
  let value := TrimSpace (pr_Getenv p projectRootEnvVar) in
  if negb (bool_decide (value = "")) then inr value
  else match pr_Getwd p with inl err => inl ("resolve host project root: " +:+ err) | inr wd => inr wd end.

(** A setting, or its default. *)
Definition env_or (p : Process) (key default : string) : string :=
  let value := TrimSpace (pr_Getenv p key) in if bool_decide (value = "") then default else value.

Definition orFail {A} (r : sum string A) : M E A := match r with inl message => throw (newError message) | inr x => ret x end.

(** The settings of an app, the Redis server and the gateway's container among them, and
    whether its token is static. *)
Record Settings := mkSettings {
  st_config : AppConfig; st_redisAddr : string; st_gatewayContainerName : string; st_staticDemoJWT : bool;
}.

Definition newApp {HO : GoOrders} (p : Process) : M E (Settings * (HostState E -> App E)) :=
  let* demoToken := orFail (requiredEnv p demoTokenEnvVar) in
  let* adminToken := orFail (requiredEnv p adminTokenEnvVar) in
  let composeProject := env_or p composeProjectEnvVar defaultComposeProject in
  let* _ := orFail (pr_Getwd p) in
  let* hostProjectRoot := orFail (resolveHostProjectRoot p) in
  let* _ := orFail (match pr_docker p with Some err => inl ("create docker client: " +:+ err) | None => inr tt end) in
  let redisAddr := env_or p redisAddrEnvVar defaultRedisAddr in
  let* scenarios := orFail (loadScenarios (pr_scenarios p)) in
  let* jwt := ensureDemoJWT (pr_Getenv p demoJWTEnvVar) in
  ensureToxiproxy ;;
  ret (mkSettings
         (mkAppConfig demoToken scenarios (mkRunner hostProjectRoot composeProject) (mkObservatory composeProject adminToken true))
         redisAddr (TrimSpace (pr_Getenv p gatewayContainerNameEnvVar)) jwt.1,
       fun host => mkApp (newRuns (map_to_list scenarios).*1) host
         (NewIPRateLimiter globalRateLimitPerMinute rateLimitWindow) (NewIPRateLimiter metricsRateLimitPerMinute rateLimitWindow) jwt.2 true).

(** [close]; its errors are dropped. *)
Definition close {HH : Host E} (c : AppConfig) (a : App E) : App E :=
  let a := cancelActiveScenario a in
  let '(_, a) := on_host StopManagedContainers a in
  let '(_, a) := on_host (resetChaos (ap_observatory c)) a in a.

(** ** The program *)

(** Goroutines that [startBackgroundWorkers] starts. *)
Inductive Worker := RefreshDemoJWT | StreamGatewayEvents.
Definition startBackgroundWorkers (st : Settings) : list Worker :=
  ((if st_staticDemoJWT st then [] else [RefreshDemoJWT]) ++ [StreamGatewayEvents])%list.

(** What ends the serving: a signal, with whether the shutdown is graceful; or the server. *)
Inductive Ending := Signalled (graceful : bool) | ServerStopped.

(** The exit status; [os.Exit] skips the deferred [close]. *)
Definition main {HO : GoOrders} {HH : Host E} (p : Process) (serve : Settings -> App E -> App E) (ending : Ending) (s : HostState E) : Z * HostState E :=
  match newApp p s with
  | (inl _, s) => (1, s)
  | (inr (st, app), s) =>
      let a := serve st (app s) in
      match ending with
      | ServerStopped | Signalled false => (1, ap_host a)
      | Signalled true => (0, ap_host (close (st_config st) a))
      end
  end.
End Bootstrap.

(** ** Bootstraps end *)

Section BootstrapTheory.
Context {E : Type} {HC : ContextHost E} {HL : ContextHostLaws E}.

Definition now_of (s : HostState E) : Time := clock (ho_env s).

(** The computation is over by the deadline, if it was not past when it started, and it is
    not cut short here. *)
Definition timely {A} (deadline : Time) (m : M E A) : Prop :=
  forall s, now_of s <= now_of (snd (m s)) <= Z.max (now_of s) deadline /\ fst (m s) <> inl OutOfFuel.

Lemma timely_ret {A} deadline (x : A) : timely deadline (ret x).
Proof. intros s. cbn. split; [lia|done]. Qed.

Lemma timely_throw {A} deadline message : timely (A := A) deadline (throw (newError message)).
Proof. intros s. cbn. split; [lia|done]. Qed.

Lemma timely_bind {A B} deadline (m : M E A) (k : A -> M E B) : timely deadline m -> (forall x, timely deadline (k x)) -> timely deadline (bind m k).
Proof.
  intros Hm Hk s. specialize (Hm s). unfold bind. destruct (m s) as [[err|x] s1]; cbn [fst snd] in *; [split; [lia|by intros [=->]; apply Hm]|].
  specialize (Hk x s1). destruct Hm as [Hm _], Hk as [Hk ?]. split; [lia|done].
Qed.

Lemma timely_wrapping {A} deadline prefix (m : M E A) : timely deadline m -> timely deadline (wrapping prefix m).
Proof. intros Hm s. specialize (Hm s). unfold wrapping. destruct (m s) as [[[]|] s1]; cbn [fst snd wrap] in *; (split; [tauto|]); (done || tauto). Qed.

Lemma timely_Do deadline req : timely deadline (Do (HH := host_by deadline) req).
Proof.
  intros s. unfold Do, call, now_of. pose proof (by_http deadline req (ho_env s)) as H. destruct (env_http req (ho_env s)) as [[] e]; cbn [fst snd ho_env] in *; split; (lia || done).
Qed.

#[local] Hint Resolve timely_ret timely_throw timely_wrapping timely_Do : timely.
#[local] Hint Extern 1 (timely _ (bind _ _)) => apply timely_bind; [|intros ?] : timely.
#[local] Hint Extern 1 (timely _ (if ?b then _ else _)) => destruct b : timely.
#[local] Hint Extern 1 (timely _ (match ?x with _ => _ end)) => destruct x : timely.

Lemma fetchDemoJWT_timely deadline : timely deadline (fetchDemoJWT deadline).
Proof. unfold fetchDemoJWT. auto 6 with timely. Qed.

Lemma EnsureRedisProxy_timely deadline : timely deadline (EnsureRedisProxy (HH := host_by deadline)).
Proof. unfold EnsureRedisProxy. auto 6 with timely. Qed.

(** The sleeps that follow, for as many more attempts. *)
Fixpoint sleeps (fuel : nat) (backoff : Duration) : Duration :=
  match fuel with O => 0 | S fuel => backoff + sleeps fuel (next_attempt backoff) end.

(** How a bootstrap ends: with what an attempt gave, or with the last attempt's error, by the
    deadline. *)
Definition bootstrapped {A} (fn : Time -> M E A) (deadline : Time) (s : HostState E) (r : sum Err A * HostState E) : Prop :=
  r.1 <> inl OutOfFuel /\ now_of s <= now_of r.2 <= Z.max (now_of s) deadline /\
  exists attempt s0, attempt <= deadline /\
    match r.1 with
    | inr x => fn attempt s0 = (inr x, r.2)
    | inl err => exists lastErr, fst (fn attempt s0) = inl lastErr /\ (err = lastErr \/ exists ctx, err = after_context ctx lastErr)
    end.

Lemma bootstrapped_later {A} (fn : Time -> M E A) deadline s s1 r :
  now_of s <= now_of s1 <= Z.max (now_of s) deadline -> bootstrapped fn deadline s1 r -> bootstrapped fn deadline s r.
Proof. intros Hs (H1 & H2 & H3). split_and!; [done|lia|lia|done]. Qed.

Lemma giveUp_bootstrapped {A} (fn : Time -> M E A) deadline s s1 attempt s0 lastErr :
  now_of s <= now_of s1 <= Z.max (now_of s) deadline -> attempt <= deadline -> fst (fn attempt s0) = inl lastErr -> lastErr <> OutOfFuel ->
  bootstrapped fn deadline s (giveUp deadline lastErr s1).
Proof.
  intros Hs Ha Hfn Hne. unfold giveUp, bind, ctxErr, throw. split_and!; [|cbn; lia|cbn; lia|].
  - cbn. destruct (env_done _); [done|]. destruct (_ <=? _); [done|]. by intros [=->].
  - exists attempt, s0. split; [done|]. cbn. exists lastErr. split; [done|]. destruct (env_done _); [eauto|]. destruct (_ <=? _); eauto.
Qed.

Lemma bootstrapLoop_bootstrapped {A} (fn : Time -> M E A) fuel deadline backoff s :
  (forall attempt, timely attempt (fn attempt)) -> deadline - now_of s < sleeps fuel backoff -> (0 < fuel)%nat ->
  bootstrapped fn deadline s (bootstrapLoop fuel deadline fn backoff s).
Proof.
  intros Hfn. revert backoff s. induction fuel as [|fuel IH]; intros backoff s Hs Hf; [lia|]. cbn [bootstrapLoop sleeps] in *.
  unfold bind at 1, withTimeout. set (attempt := Z.min deadline _). unfold bind at 1, try.
  destruct (Hfn attempt s) as [Ht Hne]. destruct (fn attempt s) as [[lastErr|x] s1] eqn:Hrun; cbn [fst snd] in Ht, Hne; cbv iota beta.
  2:{ split_and!; [done|cbn; lia|cbn; lia|]. exists attempt, s. split; [lia|done]. }
  assert (bootstrapped fn deadline s (giveUp deadline lastErr s1)) as Hgive.
  { apply (giveUp_bootstrapped fn deadline s s1 attempt s); [lia|lia|by rewrite Hrun|congruence]. }
  unfold bind, ctxErr, sleepContext, try, Sleep, effect, call, bind, ret. fold (@giveUp E HC A).
  destruct (env_done _); [done|]. destruct (Z.leb_spec deadline (clock (ho_env s1))) as [|Hearly]; [done|].
  pose proof (by_sleep deadline backoff (ho_env s1)) as Hsl. pose proof (by_sleep_lasts deadline backoff (ho_env s1)) as Hlast.
  fold (now_of s1) in Hearly, Hsl, Hlast.
  destruct (env_sleep backoff (ho_env s1)) as [[cut|] e]; cbn [fst snd] in Hsl; cbv iota beta; cbn [ret].
  - apply (giveUp_bootstrapped fn deadline s _ attempt s); [set (s2 := mkHost e _); assert (now_of s2 = clock e) by done; lia|lia|by rewrite Hrun|congruence].
  - specialize (Hlast e eq_refl). set (s2 := mkHost e _). assert (now_of s2 = clock e) by done.
    eapply bootstrapped_later; [|apply IH]; [lia|lia|]. destruct fuel; [cbn in Hs; lia|lia].
Qed.

(** Bootstraps end: whatever the services answer, asking for the token or for the Redis
    proxy is over within ten seconds and twelve attempts, with what the last attempt gave, or
    with its error, behind the context's if that is done. *)
Lemma bootstraps_end {A} (fn : Time -> M E A) (s : HostState E) deadline :
  (forall attempt, timely attempt (fn attempt)) -> deadline = AddDuration (now_of s) jwtBootstrapTimeout ->
  bootstrapped fn deadline s (retryBootstrap deadline fn s) /\ now_of (snd (retryBootstrap deadline fn s)) <= now_of s + 10 * Second.
Proof.
  intros Hfn ->. assert (bootstrapped fn (AddDuration (now_of s) jwtBootstrapTimeout) s (retryBootstrap (AddDuration (now_of s) jwtBootstrapTimeout) fn s)) as H.
  { apply bootstrapLoop_bootstrapped; [done| |unfold bootstrap_rounds; lia]. unfold AddDuration.
    replace (sleeps bootstrap_rounds bootstrapInitialBackoff) with (10400 * Millisecond) by (by vm_compute). unfold jwtBootstrapTimeout, Second, Millisecond. lia. }
  split; [done|]. destruct H as (_ & [_ H] & _). etransitivity; [exact H|]. unfold AddDuration, jwtBootstrapTimeout, Second, Millisecond. lia.
Qed.

(** ** What the bootstraps give *)

(** A computation that fails or gives something for which the property holds. *)
Definition gives {A} (m : M E A) (P : A -> HostState E -> Prop) : Prop :=
  forall s x s', m s = (inr x, s') -> P x s'.

Lemma fetchDemoJWT_gives deadline : gives (fetchDemoJWT deadline) (fun token _ => TrimSpace token <> "").
Proof using Type.
  intros s x s'. unfold fetchDemoJWT, bind, wrapping. destruct (Do login_request s) as [[err|resp] s1]; [done|].
  destruct (negb _); [done|]. destruct (hp_Token resp) as [token|]; [|done]. by case_bool_decide; [|intros [= <- _]].
Qed.

(** The log ends with Toxiproxy's consent to the Redis proxy. *)
Definition redis_proxied (log : Log) : Prop :=
  exists before resp, log = (before ++ [(CallHTTP (plain "POST" (toxiproxyBaseURL +:+ "/populate") (PayloadPopulate "redis" "0.0.0.0:6380" "redis:6379")), ReplyResponse resp)])%list /\
    bad_status resp = false.

Lemma EnsureRedisProxy_gives deadline : gives (EnsureRedisProxy (HH := host_by deadline)) (fun _ s' => redis_proxied (ho_log s')).
Proof using Type.
  intros s x s'. unfold EnsureRedisProxy, bind, wrapping, Do, call. destruct (env_http _ _) as [[err|resp] e]; [done|].
  destruct (bad_status resp) eqn:Hbad; [done|]. intros [= _ <-]. by eexists _, resp.
Qed.

(** Within a time, and not cut short here. *)
Definition lasts {A} (d : Duration) (m : M E A) : Prop :=
  forall s, now_of s <= now_of (snd (m s)) <= now_of s + d /\ fst (m s) <> inl OutOfFuel.

Lemma lasts_weaken {A} d d' (m : M E A) : lasts d m -> d <= d' -> lasts d' m.
Proof. intros Hm Hd s. destruct (Hm s). split; [lia|done]. Qed.

Lemma lasts_bind {A B} d d' (m : M E A) (k : A -> M E B) : 0 <= d' -> lasts d m -> (forall x, lasts d' (k x)) -> lasts (d + d') (bind m k).
Proof.
  intros Hd Hm Hk s. specialize (Hm s). unfold bind. destruct (m s) as [[err|x] s1]; cbn [fst snd] in *; [split; [lia|by intros [=->]; apply Hm]|].
  specialize (Hk x s1). destruct Hm as [Hm _], Hk as [Hk ?]. split; [lia|done].
Qed.

Lemma lasts_ret {A} (x : A) : lasts 0 (ret x).
Proof. intros s. cbn. split; [lia|done]. Qed.

Lemma lasts_orFail {A} (r : sum string A) : lasts 0 (orFail r).
Proof. intros s. destruct r; cbn; (split; [lia|done]). Qed.

Lemma lasts_wrapping {A} d prefix (m : M E A) : lasts d m -> lasts d (wrapping prefix m).
Proof. intros Hm s. specialize (Hm s). unfold wrapping. destruct (m s) as [[[]|] s1]; cbn [fst snd wrap] in *; (split; [tauto|]); (done || tauto). Qed.

(** A bootstrap with a timeout of its own. *)
Lemma retryBootstrap_gives {A} (fn : Time -> M E A) (P : A -> HostState E -> Prop) :
  (forall attempt, timely attempt (fn attempt)) -> (forall attempt, gives (fn attempt) P) ->
  lasts (10 * Second) (let* deadline := withTimeout None jwtBootstrapTimeout in retryBootstrap deadline fn) /\
  gives (let* deadline := withTimeout None jwtBootstrapTimeout in retryBootstrap deadline fn) P.
Proof.
  intros Ht Hg. split.
  - intros s. unfold bind, withTimeout.
    destruct (bootstrapLoop_bootstrapped fn bootstrap_rounds (AddDuration (now_of s) jwtBootstrapTimeout) bootstrapInitialBackoff s Ht) as (H1 & H2 & _).
    { replace (sleeps bootstrap_rounds bootstrapInitialBackoff) with (10400 * Millisecond) by (by vm_compute).
      unfold AddDuration, jwtBootstrapTimeout, Second, Millisecond. lia. }
    { unfold bootstrap_rounds. lia. }
    split; [|exact H1]. split; [apply H2|]. etransitivity; [apply H2|]. unfold AddDuration, jwtBootstrapTimeout, Second, Millisecond. lia.
  - intros s x s' Heq. unfold bind, withTimeout in Heq.
    destruct (bootstrapLoop_bootstrapped fn bootstrap_rounds (AddDuration (now_of s) jwtBootstrapTimeout) bootstrapInitialBackoff s Ht) as (_ & _ & H3).
    { replace (sleeps bootstrap_rounds bootstrapInitialBackoff) with (10400 * Millisecond) by (by vm_compute).
      unfold AddDuration, jwtBootstrapTimeout, Second, Millisecond. lia. }
    { unfold bootstrap_rounds. lia. }
    destruct H3 as (attempt & s0 & _ & H). unfold retryBootstrap, now_of in *. rewrite Heq in H. by apply (Hg attempt s0).
Qed.

Lemma ensureDemoJWT_gives demoJWT :
  lasts (10 * Second) (ensureDemoJWT demoJWT) /\ gives (ensureDemoJWT demoJWT) (fun jwt _ => jwt.2 <> "" /\ TrimSpace jwt.2 = jwt.2).
Proof.
  unfold ensureDemoJWT. case_bool_decide as Hs; cbn [negb].
  2:{ split; [eapply lasts_weaken; [apply lasts_ret|done]|]. intros s x s' [= <- _]. cbn [snd]. by rewrite !TrimSpace_idemp. }
  destruct (retryBootstrap_gives fetchDemoJWT (fun token _ => TrimSpace token <> "") fetchDemoJWT_timely fetchDemoJWT_gives) as [Hl Hg]. split.
  - intros s. specialize (Hl s). unfold bind, withTimeout, wrapping in *. destruct (retryBootstrap _ _ _) as [[[]|] s1]; cbn [fst snd wrap ret] in *; (split; [tauto|]); (done || tauto).
  - intros s x s'. specialize (Hg s). unfold bind, withTimeout, wrapping in *. destruct (retryBootstrap _ _ _) as [[err|token] s1]; [done|].
    intros [= <- <-]. cbn [snd]. rewrite TrimSpace_idemp. split; [by apply (Hg token s1)|done].
Qed.

Lemma bind_inr {A B} (m : M E A) (k : A -> M E B) s x s' :
  bind m k s = (inr x, s') -> exists y s1, m s = (inr y, s1) /\ k y s1 = (inr x, s').
Proof. unfold bind. destruct (m s) as [[|y] s1]; [done|eauto]. Qed.

Lemma orFail_inr {A} (r : sum string A) s x s' : orFail (E := E) r s = (inr x, s') -> r = inr x /\ s' = s.
Proof. by destruct r; [|intros [= -> ->]]. Qed.

Lemma requiredEnv_inr p key value : requiredEnv p key = inr value -> TrimSpace (pr_Getenv p key) = value /\ value <> "".
Proof. unfold requiredEnv. by case_bool_decide; [|intros [= <-]]. Qed.

Lemma loadScenarios_some `{HO : GoOrders} files scenarios : loadScenarios files = inr scenarios -> scenarios <> ∅.
Proof. unfold loadScenarios. case_bool_decide; [done|]. by case_bool_decide; [|intros [= <-]]. Qed.

(** C33: the observatory serves only what is ready: its start is over within twenty seconds; and if
    it gets as far as serving, both tokens are set and trimmed, there are scenarios, all idle,
    the demo token is not blank, and the last thing that happened is that Toxiproxy agreed to
    the Redis proxy. *)
Theorem observatory_starts_ready `{HO : GoOrders} (p : Process) (s : HostState E) :
  let '(result, s') := newApp p s in
  result <> inl OutOfFuel /\ now_of s <= now_of s' <= now_of s + 20 * Second /\
  forall st app, result = inr (st, app) ->
    (TrimSpace (pr_Getenv p "DEMO_TOKEN") = ap_demoToken (st_config st) /\ ap_demoToken (st_config st) <> "") /\
    (TrimSpace (pr_Getenv p "ADMIN_TOKEN") = ob_adminToken (ap_observatory (st_config st)) /\ ob_adminToken (ap_observatory (st_config st)) <> "") /\
    loadScenarios (pr_scenarios p) = inr (ap_scenarios (st_config st)) /\ ap_scenarios (st_config st) <> ∅ /\
    (forall name, scenarioStatusFor name (ap_runs (app s')) = statusIdle) /\ live (ap_runs (app s')) = None /\
    ap_host (app s') = s' /\ ap_demoJWT (app s') <> "" /\ ap_toxiproxyReady (app s') = true /\ redis_proxied (ho_log s').
Proof.
  destruct (retryBootstrap_gives (fun attempt => EnsureRedisProxy (HH := host_by attempt)) (fun _ s' => redis_proxied (ho_log s'))
    EnsureRedisProxy_timely EnsureRedisProxy_gives) as [Hproxy Hproxied].
  destruct (ensureDemoJWT_gives (pr_Getenv p demoJWTEnvVar)) as [Hjwt Hjwts].
  destruct (newApp p s) as [result s'] eqn:Hnew. unfold newApp in Hnew.
  assert (forall m : M E (Settings * (HostState E -> App E)), lasts (20 * Second) m -> m s = (result, s') ->
    result <> inl OutOfFuel /\ now_of s <= now_of s' <= now_of s + 20 * Second) as Hlasts by (intros m Hm Heq; specialize (Hm s); rewrite Heq in Hm; tauto).
  apply Hlasts in Hnew as Htime.
  2:{ do 6 (apply (lasts_bind 0); [done|apply lasts_orFail|intros ?]). 
      apply (lasts_bind (10 * Second) (10 * Second)); [done|exact Hjwt|intros ?].
      apply (lasts_bind (10 * Second) 0); [done|exact Hproxy|intros ?; apply lasts_ret]. }
  destruct Htime as [H1 H2]. split; [exact H1|]. split; [exact H2|]. intros st app ->. clear Hlasts H1 H2 Hjwt Hproxy.
  apply bind_inr in Hnew as (demoToken & s1 & [Hdemo ->]%orFail_inr & Hnew). apply bind_inr in Hnew as (adminToken & s2 & [Hadmin ->]%orFail_inr & Hnew).
  apply requiredEnv_inr in Hdemo, Hadmin.
  do 3 (apply bind_inr in Hnew as (? & ? & [_ ->]%orFail_inr & Hnew)).
  apply bind_inr in Hnew as (scenarios & s4 & [Hsc ->]%orFail_inr & Hnew). apply bind_inr in Hnew as (jwt & s5 & Hj%Hjwts & Hnew).
  apply bind_inr in Hnew as (? & s6 & Hp%Hproxied & Hnew). injection Hnew as <- <- <-. cbn.
  split_and!; try done; try apply Hj; try (by apply Hdemo); try (by apply Hadmin); [by apply (loadScenarios_some (pr_scenarios p))|].
  intros name. unfold scenarioStatusFor, newRuns. cbn. destruct (list_to_map _ !! name) as [st|] eqn:Hst; [|done]. cbn.
  apply elem_of_list_to_map_2, list_elem_of_fmap in Hst as (n & [= -> ->] & _). done.
Qed.
End BootstrapTheory.

(** ** What is left when the program ends *)

(** The exit status is 0 exactly after a start and a graceful shutdown; then the app has been
    closed, and not otherwise. *)
Lemma main_ends {E} {HC : ContextHost E} `{HO : GoOrders} {HH : Host E} p serve ending (s : HostState E) :
  let '(status, s') := main p serve ending s in
  match newApp p s with
  | (inl _, s1) => status = 1 /\ s' = s1
  | (inr (st, app), s1) =>
      match ending with
      | Signalled true => status = 0 /\ s' = ap_host (close (st_config st) (serve st (app s1)))
      | _ => status = 1 /\ s' = ap_host (serve st (app s1))
      end
  end.
Proof. unfold main. destruct (newApp p s) as [[err|[st app]] s1]; [done|]. by destruct ending as [[]|]. Qed.

(** A token, once there, stays until another is fetched: it never becomes blank. *)
Lemma demo_token_stays {E} {HC : ContextHost E} ticks current (s : HostState E) :
  TrimSpace current <> "" -> exists token, fst (refreshDemoJWTLoop ticks current s) = inr token /\ TrimSpace token <> "".
Proof.
  revert current s. induction ticks as [|ticks IH]; intros current s Hc; cbn [refreshDemoJWTLoop]; [by exists current|].
  unfold bind at 1, refreshDemoJWT. unfold bind, withTimeout, try, ret.
  pose proof (fetchDemoJWT_gives (AddDuration (clock (ho_env s)) jwtBootstrapTimeout) s) as Hg.
  destruct (fetchDemoJWT _ s) as [[err|token] s1]; [by apply IH|]. apply IH. rewrite TrimSpace_idemp. by apply (Hg token s1).
Qed.

(** ** A host on which the gateway comes up after a second *)

(** Its state is the clock. *)
Definition slow_host (deadline : Time) : Host Time := {|
  env_list _ now := (inr [], now); env_inspect id now := (inr id, now); env_create _ now := (inr "", now);
  env_start _ now := (None, now); env_stop _ now := (None, now); env_remove _ now := (None, now);
  env_wait _ now := (WaitExited 0 None, now); env_image_inspect _ now := (None, now); env_image_pull _ now := (None, now);
  env_http req now :=
    if now <? Second then (inl (mkHostError false false false "connection refused"), now)
    else (inr (mkHTTPResponse 200 "" None (Some "e30.e30.sig")), now);
  env_scan _ now := (inr ([], 0%N), now); env_del _ now := (None, now);
  env_sleep d now := if now + d <=? deadline then (None, Z.max now (now + d)) else (Some deadlineExceeded, Z.max now deadline);
  env_now now := now;
|}.

Definition slow_context : ContextHost Time := {| clock now := now; env_done _ := false; host_by := slow_host |}.

Lemma slow_context_laws : @ContextHostLaws Time slow_context.
Proof.
  split; cbn.
  - intros deadline req now. destruct (_ <? _); cbn; lia.
  - intros deadline d now. destruct (Z.leb_spec (now + d) deadline); cbn; lia.
  - intros deadline d now e'. destruct (Z.leb_spec (now + d) deadline); [intros [= <-]; lia|done].
Qed.

Definition demo_process : Process :=
  mkProcess (fun key => if bool_decide (key = "DEMO_TOKEN") then " demo " else if bool_decide (key = "ADMIN_TOKEN") then "adm1n" else "")
    (inr "/srv/irongate") None [inr demo_scenario].

Lemma bootstraps_end_witness :
  now_of (HC := slow_context) (snd (retryBootstrap (HC := slow_context) (10 * Second) (fetchDemoJWT (HC := slow_context)) (mkHost 0 []))) <= 10 * Second.
Proof.
  apply (bootstraps_end (HL := slow_context_laws) (fetchDemoJWT (HC := slow_context)) (mkHost 0 []) (10 * Second)); [|reflexivity].
  intros attempt. apply (fetchDemoJWT_timely (HL := slow_context_laws)).
Defined.

Lemma observatory_starts_ready_witness :
  exists st app s', newApp (HC := slow_context) (HO := demo_orders) demo_process (mkHost 0 []) = (inr (st, app), s') /\
    ap_demoToken (st_config st) = "demo" /\ ap_demoJWT (app s') <> "" /\ redis_proxied (ho_log s').
Proof.
  pose proof (observatory_starts_ready (HL := slow_context_laws) (HO := demo_orders) demo_process (mkHost 0 [])) as H.
  assert (match fst (newApp (HC := slow_context) (HO := demo_orders) demo_process (mkHost 0 [])) with inr _ => true | inl _ => false end = true) as Hok by (vm_compute; reflexivity).
  destruct (newApp (HC := slow_context) (HO := demo_orders) demo_process (mkHost 0 [])) as [[err|[st app]] s']; [discriminate Hok|].
  destruct H as (_ & _ & H). destruct (H st app eq_refl) as ((H1 & _) & _ & _ & _ & _ & _ & _ & H2 & _ & H3).
  exists st, app, s'. split; [reflexivity|]. split; [|split; [exact H2|exact H3]].
  rewrite <- H1. vm_compute. reflexivity.
Defined.

(** The token is renewed 22 hours after it expired. *)
Lemma renewal_is_late : jwtRefreshInterval = loginTokenTTL + 22 * (60 * Minute).
Proof. reflexivity. Qed.
